(* ===== verification/_CoqProject ===== *)
-Q . S2P
Prelude.v
Memory.v
PMem.v
Log.v
Text.v
Recovery.v
Snapshot.v
Wrappers.v
Startup.v
Tracking.v
Scenario.v
FirstSnapshot.v
PmemFile.v
Mapping.v
BlkDev.v
Controller.v
BTree.v
BTreeSpec.v
BTreeUse.v
BTreeRemove.v
CxlFs.v
Queues.v
Vector.v
ObjString.v
SimpleKv.v
Pass.v
PassSem.v
Managed.v
LinkedList.v
ListMain.v
PmdkEmul.v
MapDriver.v
KvDriver.v
Vram.v
Redirect.v
PmBuffer.v
Famus.v
MemBw.v
Numa.v
PfMonitor.v
