(* ===== verification/Prelude.v ===== *)
(** * cxlbuf: a verification development

    cxlbuf gives a program failure-atomic msync on files in persistent or
    CXL-attached memory.  A compiler pass calls a hook before every store; the
    hook and the wrappers of memcpy, memmove and memset record the old bytes in an
    undo log of the thread; [snapshot()] (msync) copies the logged ranges from the
    page cache to the backing file, and recovery undoes a snapshot that a crash
    interrupted.  Beside it, libcxlfs pages a region to a user-space NVMe device,
    two libraries give files in such regions, and the examples build containers, a
    key-value store and a B-tree on top.  Paths below are under src/src/.

    ** Files

    - [Prelude]: the outcome monad (return, exit, trap) all components are written
      in, machine words, tactics, hints, lemmas on lists.
    - [Memory], [PMem]: byte memory with loads, stores and copies; the interface
      to persistent memory (class [PMemOps], laws [PMemLaws]) that stands for the
      external class nvsl::PMemOps, and [Px86], a machine that satisfies the laws.
    - [Log]: libstoreinst/log.hh and log.cc.  The log area lies in memory at the
      addresses of the packed C++ layout.
    - [Text]: the decimal numbers and paths of the bookkeeping files.
    - [Recovery]: the search for the entries of a file and their replay
      (libstoreinst/recovery.cc, PmemFile::recover).
    - [Snapshot]: snapshot() of libstoreinst/libc_wrappers.cc, with both log
      formats and both alignment modes.
    - [Wrappers]: memcpy, memmove, memset, msync and the other wrappers, and the
      store hook of libstoreinst/libstoreinst.cc.  [Startup]: init_dlsyms, through
      which the wrappers find the functions of libc.
    - [Tracking]: the invariant that ties page cache, log and backing file, over a
      step relation of stores, copies and msync.
    - [FirstSnapshot]: the first msync of a process, which copies the whole file.
    - [Scenario]: crashes inside a commit, partial snapshots and other edges, run
      on [Px86].
    - [PmemFile], [Mapping]: the rest of recovery.cc, creation of log files, the
      mmap wrapper and start-up, on a world of files, directories and mappings;
      and what a program sees after mmap.
    - [BlkDev]: libcxlfs/blkdev.cc.  [Controller]: libcxlfs/controller.cc and
      the fault handler of pfmonitor.cc, on top of it.  [PfMonitor]: the rest of
      pfmonitor.cc, and the thread that installs the handler, as a step relation.
      [CxlFs]: libcxlfs/libcxlfs.cc, on top of the controller, and
      libvramfs/libvramfs.cc.
    - [Queues]: libstoreinst/bgflush.cc and libdsaemu/libdsaemu.cc.
    - [Vector], [ObjString], [SimpleKv]: include/container/vector.hh, string.hh,
      pair.hh and examples/simplekv_cxlbuf/simplekv_puddles.hh.  [KvDriver]: main of
      simplekv_puddles.cc beside it, with its commands and workloads.
    - [BTree], [BTreeSpec], [BTreeUse], [BTreeRemove]: examples/btree/btree.cc: the
      methods, the trees in the heap, insertion and search, removal.
    - [Pass], [PassSem]: storeinst-pass/storeinst.cc, as a function from function
      bodies to function bodies of a small IR, and what instrumented code does
      when it runs with the hook of [Wrappers].
    - [Managed]: the managed file of boost, as the operations the repository calls.
      [LinkedList], [ListMain]: examples/linkedlist_tx/linkedlist_tx.cc on it.  [PmdkEmul]:
      libpmdkemul with include/libpmdkemul/libpmemobj.h.
    - [MapDriver]: the command loop of examples/map/map.cc over any map (record
      [MapOps], laws [MapLaws]), with the B-tree as an instance.
    - [Vram]: libvram/libvram.cc, the memory of libvramfs.  [PmBuffer]:
      libpmbuffer/libpmbuffer.cc, whose two processes are a step relation.
      [Redirect]: examples/redirect/redirect.cc, over the interface of the two
      allocators.
    - [Famus]: famus_snap_sync of examples/simplekv_famus/simplekv_famus.hh and
      examples/microbenchmarks_famus/famus.cc, over files with versions whose
      directory entries and contents are durable only after fsync.
    - [MemBw], [Numa]: libcxlfs/membwdist.cc, the sampler of memory accesses on the
      ring of the perf page, and libcxlfs/numabinder.cc, the choice of a core and a
      node for a thread.

    ** How code and definitions correspond

    A C++ object is a record with the same fields; a method is a command
    [cmd S A] from a state to an outcome, with the calls in the order of the
    source.  An early return or an error code is a result, exit(code) is [Exit],
    and an assertion failure, a null or out-of-range access is [Trap].  size_t and
    uint64_t are [Z] with [wrap64] where the value can leave the range.  Loops are
    folds over index lists, or recursion on fuel.  Code outside the repository is a
    parameter: the nvsl library ([PMemOps], [Nvsl]), the kernel ([kernel], [os]),
    SPDK and the device ([spdk]), allocators of boost (arguments [fresh] and
    [raw], and the record of [Managed]), std::hash, Vulkan ([Vulkan],
    [VulkanLaws]), the page shared with perf_event_open and the libnuma topology
    (arguments of [MemBw] and [Numa]), dlsym, and for the compiler pass the alias analysis of LLVM and the
    iteration order of its maps.  What the theorems assume of them are the classes
    and records of laws, each with an instance in the witnesses.

    ** What the theorems show

    - Commit and recovery: the first msync brings the backing file to parity with
      the page cache; from then on msync makes them equal in every reachable state; an undo log that is whole restores the last snapshot
      after a crash; log entries are exact, aligned copies stay inside, the order
      of copies does not matter; the instrumentation does not change what the
      program computes.  And where this fails: a log offset reset too early, a log
      tail that is not flushed, a partial snapshot, a store wider than eight bytes,
      a log that stays active, a second active log.
    - Files: mmap serves the recovered contents; a dependency record is parsed back
      as it was written.
    - Paging: loads and stores through the fault handler behave as on flat memory,
      faults are served, resizing keeps the memory, a page written is read back;
      a fault during start-up is served once the thread has stored the callback;
      and an eviction that does not wait for its write loses a store.
    - libcxlfs and libvramfs: a path has one descriptor, and mappings of different
      files never overlap; start-up of libvram picks the first suitable device or
      throws a known message, its buffers never overlap, and cleanup releases them.  Files that the
      redirection example maps do not overlap either.
    - Start-up: each wrapper calls the function of libc it stands for, also before
      the constructor ran, unless munmap is called first.
    - libpmbuffer: a parent past its wait serves a clear buffer of the right size;
      a signal that comes early is lost.
    - Queues: the loop of drain ends; the background thread serves the wrong slot,
      so that no pushed job is ever flushed.
    - Containers: a vector is a list; a string of at most 23 characters equals
      itself only, a longer one never equals its source; the store returns what was
      put, and a workload of the store program prints its counts or stops at the
      first read of an unknown key.
    - B-tree: insertion keeps order, balance and occupancy, get and foreach read
      the bindings, the depth is logarithmic; removal takes out one binding and keeps
      the tree, when inner nodes have a free slot and the key is not a separator two
      levels above the leaves.  Without these conditions a merge under a full parent
      reads past the node, and an inner node can become empty.
    - Compiler pass: what it inserts is well typed, changes nothing else, and puts
      a call before every store that may leave the stack; instrumented code
      computes what the original computes, every store is hooked, and msync after
      it makes the file equal to the memory.
    - Transactions: a run of the list program, from its start, or a transaction of the PMDK emulation
      leaves in the file either all its changes or none; the list refines a queue.
      The map driver agrees with a sorted association list.
    - Famus: after a crash at any system call of a first snapshot the file holds
      the old or the new contents, and a snapshot with two copies keeps the last
      whole one; a second snapshot with one copy can be torn.
    - Sampler and NUMA: one turn of the sampler consumes every record of the ring
      and counts it; a record of unknown type stops it.  A thread gets the lowest
      free core of the node it asks for.

    ** Fuel and bounds

    Recursion that is not structural takes fuel, and [Trap] is the result when it
    runs out; the theorems say how much is enough: [d + 2] calls on a B-tree of
    depth [d], one turn more than there are descriptors in [get_free_fd], one poll
    more than there are jobs in [drain], one turn more than there are records in
    the ring of the sampler, the number of nodes for a walk of the
    linked list.  The wait loops of the block device take the fuel within which the
    device answers (hypothesis [live]).  Bounds such as
    [2 ^ 60] on lengths keep sizes below the wrap-around of 64 bits.

    ** Not modelled

    Debug output and statistics; the delay of msync and the trace file; weak
    ordering of the unsynchronised accesses between threads (a turn of a thread is
    one step); the variants of the examples that call PMDK itself; what main of the
    map does to open its file and create the root object; the benchmarks. *)

From stdpp Require Import base list gmap strings sorting.
From Stdlib Require Import ZArith Lia.

Open Scope Z_scope.

(** ** Outcomes and the state/outcome monad

    The C++ code ends a call in one of three ways: it returns, it leaves the
    process through [exit(code)], or it runs into an assertion failure or
    undefined behaviour.  Every outcome keeps the state that was reached, since
    persistent memory survives the process. *)

Inductive outcome (S A : Type) : Type :=
| Ret (a : A) (s : S)
| Exit (code : Z) (s : S)
| Trap (s : S).
Arguments Ret {S A} a s.
Arguments Exit {S A} code s.
Arguments Trap {S A} s.

Definition cmd (S A : Type) : Type := S → outcome S A.

Definition ret {S A} (a : A) : cmd S A := λ s, Ret a s.
Definition bind {S A B} (c : cmd S A) (k : A → cmd S B) : cmd S B := λ s,
  match c s with
  | Ret a s' => k a s'
  | Exit code s' => Exit code s'
  | Trap s' => Trap s'
  end.
Definition exit_with {S A} (code : Z) : cmd S A := λ s, Exit code s.
Definition trap {S A} : cmd S A := λ s, Trap s.
Definition get {S} : cmd S S := λ s, Ret s s.
Definition modify {S} (f : S → S) : cmd S unit := λ s, Ret tt (f s).
Definition when {S} (b : bool) (c : cmd S unit) : cmd S unit :=
  if b then c else ret tt.
Definition nvsl_assert {S} (b : bool) : cmd S unit :=
  if b then ret tt else trap.

Declare Scope cmd_scope.
Delimit Scope cmd_scope with cmd.
Notation "'let!' x ':=' c 'in' k" := (bind c (λ x, k))
  (at level 10, x pattern, c at level 200, k at level 200) : cmd_scope.
Notation "'do!' c 'in' k" := (bind c (λ _, k))
  (at level 10, c at level 200, k at level 200) : cmd_scope.
Open Scope cmd_scope.

Lemma bind_ret_l {S A B} (a : A) (k : A → cmd S B) (s : S) :
  bind (ret a) k s = k a s.
Proof. reflexivity. Qed.

Lemma bind_ret_r {S A} (c : cmd S A) (s : S) : bind c ret s = c s.
Proof. unfold bind, ret. by destruct (c s). Qed.

Lemma bind_assoc {S A B C} (c : cmd S A) (f : A → cmd S B) (g : B → cmd S C) s :
  bind (bind c f) g s = bind c (λ a, bind (f a) g) s.
Proof. unfold bind. by destruct (c s). Qed.

Lemma bind_eq {S A B} (c : cmd S A) (k : A → cmd S B) s a s1 : c s = Ret a s1 → bind c k s = k a s1.
Proof. unfold bind. by intros ->. Qed.

Lemma bind_Ret {S A B} (c : cmd S A) (k : A → cmd S B) s b s' :
  bind c k s = Ret b s' → ∃ a s1, c s = Ret a s1 ∧ k a s1 = Ret b s'.
Proof. unfold bind. destruct (c s) as [a s1| |]; naive_solver. Qed.

(** The state an outcome has reached, whatever way the call ended. *)
Definition state_of {S A} (o : outcome S A) : S :=
  match o with Ret _ s => s | Exit _ s => s | Trap s => s end.

(** Iterate a command over a list, in order. *)
Fixpoint for_each {S A} (l : list A) (f : A → cmd S unit) : cmd S unit :=
  match l with
  | [] => ret tt
  | a :: l => do! f a in for_each l f
  end.

Lemma for_each_fmap {S A B} (f : A → B) (c : B → cmd S unit) (l : list A) (s : S) :
  for_each (f <$> l) c s = for_each l (λ a, c (f a)) s.
Proof.
  revert s. induction l as [|a l IH]; intros s; simpl; [done|]. unfold bind. destruct (c (f a) s); auto.
Qed.

(** Rule for [for_each]: an invariant kept by every body is kept by the loop,
    and the loop returns. *)
Lemma for_each_inv {S A} (I : S → Prop) (l : list A) (f : A → cmd S unit) s :
  (∀ a s, a ∈ l → I s → ∃ s', f a s = Ret tt s' ∧ I s') →
  I s → ∃ s', for_each l f s = Ret tt s' ∧ I s'.
Proof.
  revert s. induction l as [|a l IH]; intros s Hf HI; [by exists s|].
  destruct (Hf a s) as (s1 & H1 & HI1); [set_solver|done|].
  destruct (IH s1) as (s2 & H2 & HI2); [|done|].
  { intros a' s' Ha'. apply Hf. set_solver. }
  exists s2. split; [|done]. simpl. unfold bind. by rewrite H1.
Qed.

(** ** Machine words *)

Definition wrap (w z : Z) : Z := z mod 2 ^ w.
Abbreviation wrap64 := (wrap 64).

Lemma wrap_small w z : 0 ≤ z < 2 ^ w → wrap w z = z.
Proof. apply Z.mod_small. Qed.

Lemma wrap_range w z : 0 ≤ w → 0 ≤ wrap w z < 2 ^ w.
Proof. intros. apply Z.mod_pos_bound. lia. Qed.

Lemma foldr_max_ge (l : list Z) x : x ∈ l → x ≤ foldr Z.max 0 l.
Proof. induction l as [|y l IH]; simpl; [set_solver|]. intros [->|H]%elem_of_cons; [|specialize (IH H)]; lia. Qed.

Lemma foldr_max_nonneg (l : list Z) : 0 ≤ foldr Z.max 0 l.
Proof. induction l; simpl; lia. Qed.

(** [std::popcount] on a non-negative word. *)
Fixpoint pos_popcount (p : positive) : Z :=
  match p with
  | xH => 1
  | xO p => pos_popcount p
  | xI p => 1 + pos_popcount p
  end.
Definition popcount (z : Z) : Z :=
  match z with Zpos p => pos_popcount p | _ => 0 end.

Lemma pos_popcount_pos p : 1 ≤ pos_popcount p.
Proof. induction p; simpl; lia. Qed.

(** A word has one bit set exactly when it is a power of two. *)
Lemma popcount_1_pow2 z : popcount z = 1 → ∃ k, 0 ≤ k ∧ z = 2 ^ k.
Proof.
  destruct z as [|p|p]; simpl; [done| |done].
  induction p as [p IH|p IH|]; simpl; intros H.
  - pose proof (pos_popcount_pos p). lia.
  - destruct (IH H) as (k & Hk & E). exists (k + 1). split; [lia|].
    rewrite Z.pow_add_r by lia. lia.
  - exists 0. done.
Qed.

Lemma popcount_pow2 k : 0 ≤ k → popcount (2 ^ k) = 1.
Proof.
  intros Hk. pattern k. apply natlike_ind; [done| |done].
  intros x Hx IH. rewrite Z.pow_succ_r by done.
  destruct (2 ^ x) eqn:E; simpl in *; done.
Qed.

(** ** Address ranges *)

(** [in_rng a n x]: byte [x] lies in the [n] bytes that start at [a]. *)
Definition in_rng (a n x : Z) : bool := (a <=? x) && (x <? a + n).

Lemma in_rng_spec a n x : in_rng a n x = true ↔ a ≤ x < a + n.
Proof. unfold in_rng. lia. Qed.

Lemma in_rng_false a n x : in_rng a n x = false ↔ ¬ (a ≤ x < a + n).
Proof. unfold in_rng. lia. Qed.

(** Two byte ranges have no byte in common. *)
Definition rng_disj (a n b k : Z) : Prop := a + n ≤ b ∨ b + k ≤ a.

(** ** Automation *)

(** Case split on every range test of the goal, then close with [lia]. *)
Ltac rng_cases :=
  repeat match goal with
  | |- context [in_rng ?a ?n ?x] =>
      let E := fresh "E" in
      destruct (in_rng a n x) eqn:E;
      [apply in_rng_spec in E | apply in_rng_false in E]
  | H : context [in_rng ?a ?n ?x] |- _ =>
      let E := fresh "E" in
      destruct (in_rng a n x) eqn:E;
      [apply in_rng_spec in E | apply in_rng_false in E]
  end.
Ltac rng := rng_cases; try done; try lia; try (f_equal; lia).

Create HintDb cxl discriminated.
Create Rewrite HintDb cxl_rw.
#[export] Hint Resolve wrap_small : cxl.

(** ** Lists *)

Lemma nth_Z_app_l {A} (l k : list A) (i : Z) (d : A) :
  0 ≤ i < Z.of_nat (length l) → nth (Z.to_nat i) (l ++ k) d = nth (Z.to_nat i) l d.
Proof. intros. apply app_nth1. lia. Qed.

Lemma nth_Z_app_r {A} (l k : list A) (i : Z) (d : A) :
  Z.of_nat (length l) ≤ i →
  nth (Z.to_nat i) (l ++ k) d = nth (Z.to_nat (i - Z.of_nat (length l))) k d.
Proof.
  intros. rewrite app_nth2 by lia. f_equal. lia.
Qed.

(** Sum of a measure over a list. *)
Definition sum_by {A} (f : A → Z) (l : list A) : Z := foldr (λ a acc, f a + acc) 0 l.

Lemma sum_by_app {A} (f : A → Z) l k : sum_by f (l ++ k) = sum_by f l + sum_by f k.
Proof. induction l as [|a l IH]; simpl; [done|]. unfold sum_by in *. simpl. lia. Qed.

Lemma sum_by_nonneg {A} (f : A → Z) l : (∀ a, a ∈ l → 0 ≤ f a) → 0 ≤ sum_by f l.
Proof.
  induction l as [|a l IH]; intros H; simpl; [done|].
  unfold sum_by in *. simpl. pose proof (H a ltac:(set_solver)).
  assert (0 ≤ foldr (λ a acc, f a + acc) 0 l) by (apply IH; set_solver). lia.
Qed.

Lemma find_split {A} (f : A → bool) l x :
  List.find f l = Some x → ∃ l1 l2, l = l1 ++ x :: l2 ∧ Forall (λ y, f y = false) l1.
Proof.
  induction l as [|a l IH]; simpl; [done|]. destruct (f a) eqn:E.
  - intros [= ->]. by exists [], l.
  - intros (l1 & l2 & -> & H)%IH. exists (a :: l1), l2. split; [done|]. by constructor.
Qed.

Lemma find_ext {A} (f g : A → bool) l : (∀ a, f a = g a) → List.find f l = List.find g l.
Proof. intros Hfg. induction l as [|a l IH]; simpl; [done|]. by rewrite Hfg, IH. Qed.
