(* ===== verification/Memory.v ===== *)
(** * Byte-addressed memory

    The flat address space the library's C++ code works on: loads and stores of
    little-endian words and of byte strings, [memcpy]/[memmove]/[memset], and
    pointwise equality of memories as the setoid the proofs rewrite with. *)

From stdpp Require Import base list.
From Stdlib Require Import ZArith Lia.
From S2P Require Import Prelude.

(** ** Memories up to pointwise equality *)

Definition mem : Type := Z → Z.

#[export] Instance mem_equiv : Equiv mem := λ m1 m2, ∀ x, m1 x = m2 x.

#[export] Instance mem_equivalence : Equivalence (≡@{mem}).
Proof.
  split.
  - by intros m x.
  - intros m1 m2 H x. by rewrite H.
  - intros m1 m2 m3 H1 H2 x. by rewrite H1, H2.
Qed.

(** ** Reading and writing byte strings *)

Fixpoint read_bytes (m : mem) (a : Z) (n : nat) : list Z :=
  match n with
  | O => []
  | S n => m a :: read_bytes m (a + 1) n
  end.

Definition blen (bs : list Z) : Z := Z.of_nat (length bs).

Definition write_bytes (m : mem) (a : Z) (bs : list Z) : mem := λ x,
  if in_rng a (blen bs) x then nth (Z.to_nat (x - a)) bs 0 else m x.

(** [memcpy] and [memmove]: the destination holds what the source held before
    the call. *)
Definition copy_bytes (m : mem) (dst src n : Z) : mem := λ x,
  if in_rng dst n x then m (src + (x - dst)) else m x.

Definition fill_bytes (m : mem) (dst c n : Z) : mem := λ x,
  if in_rng dst n x then wrap 8 c else m x.

Lemma length_read_bytes m a n : length (read_bytes m a n) = n.
Proof. revert a. induction n as [|n IH]; intros a; simpl; [done|]. by rewrite IH. Qed.

Lemma blen_read_bytes m a n : blen (read_bytes m a n) = Z.of_nat n.
Proof. unfold blen. by rewrite length_read_bytes. Qed.

Lemma blen_nonneg bs : 0 ≤ blen bs.
Proof. unfold blen. lia. Qed.

Lemma nth_read_bytes m a n (i : Z) :
  0 ≤ i < Z.of_nat n → nth (Z.to_nat i) (read_bytes m a n) 0 = m (a + i).
Proof.
  revert a i. induction n as [|n IH]; intros a i Hi; [lia|]. simpl.
  destruct (Z.to_nat i) eqn:E.
  - f_equal. lia.
  - replace n0 with (Z.to_nat (i - 1)) by lia. rewrite IH by lia. f_equal. lia.
Qed.

(** Reading depends only on the bytes of the range. *)
Lemma read_bytes_ext m1 m2 a n :
  (∀ x, a ≤ x < a + Z.of_nat n → m1 x = m2 x) → read_bytes m1 a n = read_bytes m2 a n.
Proof.
  revert a. induction n as [|n IH]; intros a H; simpl; [done|].
  f_equal; [apply H; lia|]. apply IH. intros. apply H. lia.
Qed.

Lemma read_bytes_app m a n k :
  read_bytes m a (n + k) = read_bytes m a n ++ read_bytes m (a + Z.of_nat n) k.
Proof.
  revert a. induction n as [|n IH]; intros a; simpl.
  - f_equal. lia.
  - f_equal. rewrite IH. do 2 f_equal. lia.
Qed.

(** Two byte strings are equal when they have the same bytes at every index. *)
Lemma bytes_eq (l k : list Z) :
  length l = length k →
  (∀ i, 0 ≤ i < blen l → nth (Z.to_nat i) l 0 = nth (Z.to_nat i) k 0) → l = k.
Proof.
  intros Hlen H. apply (nth_ext _ _ 0 0); [done|]. intros i Hi.
  specialize (H (Z.of_nat i)). unfold blen in H. rewrite Nat2Z.id in H. apply H. lia.
Qed.

Lemma read_write_same m a bs : read_bytes (write_bytes m a bs) a (length bs) = bs.
Proof.
  apply bytes_eq; [apply length_read_bytes|]. intros i Hi.
  rewrite blen_read_bytes in Hi. rewrite nth_read_bytes by lia.
  unfold write_bytes, blen. rng.
Qed.

Lemma read_write_other m a bs b n :
  rng_disj b (Z.of_nat n) a (blen bs) →
  read_bytes (write_bytes m a bs) b n = read_bytes m b n.
Proof.
  intros Hd. apply read_bytes_ext. intros x Hx. unfold write_bytes, rng_disj in *. rng.
Qed.

#[export] Instance read_bytes_proper : Proper ((≡) ==> (=) ==> (=) ==> (=)) read_bytes.
Proof. intros m1 m2 H a _ <- n _ <-. apply read_bytes_ext. intros. apply H. Qed.

#[export] Instance write_bytes_proper : Proper ((≡) ==> (=) ==> (=) ==> (≡)) write_bytes.
Proof. intros m1 m2 H a _ <- bs _ <- x. unfold write_bytes. by rewrite (H x). Qed.

#[export] Instance copy_bytes_proper :
  Proper ((≡) ==> (=) ==> (=) ==> (=) ==> (≡)) copy_bytes.
Proof.
  intros m1 m2 H d _ <- s _ <- n _ <- x. unfold copy_bytes. by rewrite !(H _).
Qed.

(** [memcpy] as a read of the source followed by a write of the destination. *)
Lemma copy_bytes_write m dst src n :
  0 ≤ n → copy_bytes m dst src n ≡ write_bytes m dst (read_bytes m src (Z.to_nat n)).
Proof.
  intros Hn x. unfold copy_bytes, write_bytes. rewrite blen_read_bytes, Z2Nat.id by done.
  rng. rewrite nth_read_bytes by lia. f_equal.
Qed.

(** ** Little-endian words *)

Fixpoint le_split (n : nat) (z : Z) : list Z :=
  match n with
  | O => []
  | S n => wrap 8 z :: le_split n (Z.shiftr z 8)
  end.

Fixpoint le_combine (bs : list Z) : Z :=
  match bs with
  | [] => 0
  | b :: bs => b + Z.shiftl (le_combine bs) 8
  end.

Lemma length_le_split n z : length (le_split n z) = n.
Proof. revert z. induction n as [|n IH]; intros z; simpl; [done|]. by rewrite IH. Qed.

Lemma le_combine_split n z : le_combine (le_split n z) = wrap (8 * Z.of_nat n) z.
Proof.
  revert z. induction n as [|n IH]; intros z; simpl.
  { unfold wrap. by rewrite Z.mul_0_r, Z.pow_0_r, Z.mod_1_r. }
  rewrite IH. unfold wrap. rewrite Z.shiftl_mul_pow2, Z.shiftr_div_pow2 by lia.
  replace (8 * Z.of_nat (S n)) with (8 + 8 * Z.of_nat n) by lia.
  rewrite Z.pow_add_r, Z.rem_mul_r by lia. lia.
Qed.

Definition loadN (n : nat) (m : mem) (a : Z) : Z := le_combine (read_bytes m a n).
Definition storeN (n : nat) (m : mem) (a v : Z) : mem := write_bytes m a (le_split n v).

Abbreviation load64 := (loadN 8).
Abbreviation store64 := (storeN 8).

Lemma blen_le_split n z : blen (le_split n z) = Z.of_nat n.
Proof. unfold blen. by rewrite length_le_split. Qed.

Lemma loadN_storeN_same n m a v : loadN n (storeN n m a v) a = wrap (8 * Z.of_nat n) v.
Proof.
  unfold loadN, storeN. rewrite <-le_combine_split. f_equal.
  pose proof (read_write_same m a (le_split n v)) as H.
  by rewrite length_le_split in H.
Qed.

(** A word read depends only on its own bytes. *)
Lemma loadN_ext n m1 m2 a :
  (∀ x, a ≤ x < a + Z.of_nat n → m1 x = m2 x) → loadN n m1 a = loadN n m2 a.
Proof. intros H. unfold loadN. by rewrite (read_bytes_ext m1 m2). Qed.

(** Two places that hold the same bytes. *)
Lemma read_bytes_shift m1 m2 a b n :
  (∀ i, 0 ≤ i < Z.of_nat n → m1 (a + i) = m2 (b + i)) → read_bytes m1 a n = read_bytes m2 b n.
Proof.
  revert a b. induction n as [|n IH]; intros a b H; simpl; [done|]. f_equal.
  - specialize (H 0 ltac:(lia)). by rewrite !Z.add_0_r in H.
  - apply IH. intros i Hi. specialize (H (1 + i) ltac:(lia)).
    by rewrite !Z.add_assoc in H.
Qed.

#[export] Instance loadN_proper n : Proper ((≡) ==> (=) ==> (=)) (loadN n).
Proof. intros m1 m2 H a _ <-. unfold loadN. by rewrite H. Qed.

Lemma load64_store64 m a v : 0 ≤ v < 2 ^ 64 → load64 (store64 m a v) a = v.
Proof. intros H. rewrite loadN_storeN_same. by apply wrap_small. Qed.

Lemma store64_outside m a v x : ¬ (a ≤ x < a + 8) → store64 m a v x = m x.
Proof.
  intros H. unfold storeN, write_bytes. rewrite blen_le_split. rng.
Qed.

Lemma load64_store64_other m a b v :
  a + 8 ≤ b ∨ b + 8 ≤ a → load64 (store64 m a v) b = load64 m b.
Proof. intros H. apply loadN_ext. intros x Hx. apply store64_outside. lia. Qed.

#[export] Hint Resolve blen_nonneg : cxl.
#[export] Hint Rewrite length_read_bytes blen_read_bytes length_le_split blen_le_split : cxl_rw.
