(* ===== verification/PMem.v ===== *)
(** * Persistent memory operations

    The library reaches persistent memory through [nvsl::PMemOps] (flush, drain,
    streaming_wr), a class of the nvsl common library.  Here it is an interface:
    a class of operations on a machine state, and a class of the laws the code
    relies on (cache-line write-back with [clwb], ordering with [sfence],
    non-temporal stores).  [Px86] is a machine that satisfies the laws. *)

From stdpp Require Import base list sets.
From Stdlib Require Import ZArith Lia.
From S2P Require Import Prelude Memory.

(** First byte of the cache line of [a]. *)
Definition line (a : Z) : Z := a / 64 * 64.

Lemma line_le a : line a ≤ a < line a + 64.
Proof. unfold line. pose proof (Z.div_mod a 64). pose proof (Z.mod_pos_bound a 64). lia. Qed.

Lemma line_aligned a k : a mod 64 = 0 → 0 ≤ k < 64 → line (a + k) = a.
Proof.
  intros Ha Hk. unfold line. pose proof (Z.div_mod a 64).
  replace (a + k) with (k + a / 64 * 64) by lia. rewrite Z.div_add by lia.
  rewrite (Z.div_small k) by lia. lia.
Qed.

(** [flushed a n x]: byte [x] is in a cache line that meets the [n] bytes at
    [a]. *)
Definition flushed (a n x : Z) : bool :=
  (0 <? n) && (line a <=? x) && (x <? line (a + n - 1) + 64).

Lemma flushed_in a n x : a ≤ x < a + n → flushed a n x = true.
Proof.
  intros H. unfold flushed. pose proof (line_le a). pose proof (line_le (a + n - 1)).
  unfold line in *. lia.
Qed.

Class PMemOps (M : Type) := {
  (** what a load returns *)
  view : M → mem;
  (** a plain store of a byte string *)
  store : Z → list Z → M → M;
  flush : Z → Z → M → M;
  drain : M → M;
  (** a non-temporal store of a byte string *)
  nt_store : Z → list Z → M → M;
  (** the [n] bytes at [a] now come from a mapping that holds [f i] at offset
      [i] *)
  map_in : Z → Z → mem → M → M;
  (** the values byte [x] may hold after a power failure *)
  survives : M → Z → Z → Prop;
  (** the write-back of byte [x] has been issued since it was last stored *)
  staged : M → Z → Prop;
}.

Class PMemLaws (M : Type) `{PMemOps M} := {
  view_store a bs m x : view (store a bs m) x = write_bytes (view m) a bs x;
  view_flush a n m x : view (flush a n m) x = view m x;
  view_drain m x : view (drain m) x = view m x;
  view_nt_store a bs m x : view (nt_store a bs m) x = write_bytes (view m) a bs x;
  view_map_in a n f m x :
    view (map_in a n f m) x = if in_rng a n x then f (x - a) else view m x;
  survives_map_in a n f m x v :
    in_rng a n x = false → survives (map_in a n f m) x v → survives m x v;
  staged_flush a n m x : flushed a n x = true → staged (flush a n m) x;
  staged_flush_keep a n m x : staged m x → staged (flush a n m) x;
  staged_drain m x : staged m x → staged (drain m) x;
  staged_store a bs m x :
    in_rng a (blen bs) x = false → staged m x → staged (store a bs m) x;
  staged_nt_store a bs m x :
    in_rng a (blen bs) x = true ∨ staged m x → staged (nt_store a bs m) x;
  survives_drain_staged m x v : staged m x → survives (drain m) x v → v = view m x;
  survives_view m x : survives m x (view m x);
  survives_drain m x v : survives (drain m) x v → survives m x v;
  survives_flush a n m x v : survives (flush a n m) x v → survives m x v;
  survives_store a bs m x v :
    survives (store a bs m) x v →
    survives m x v ∨ (in_rng a (blen bs) x = true ∧ v = view (store a bs m) x);
  survives_nt_store a bs m x v :
    survives (nt_store a bs m) x v →
    survives m x v ∨ (in_rng a (blen bs) x = true ∧ v = view (nt_store a bs m) x);
}.

(** A byte is durable when only its current value can survive a failure. *)
Definition durable {M} `{PMemOps M} (m : M) (x : Z) : Prop :=
  ∀ v, survives m x v → v = view m x.

(** A memory image a power failure may leave behind. *)
Definition crash_image {M} `{PMemOps M} (m : M) (img : mem) : Prop :=
  ∀ x, survives m x (img x).

Section Laws.
Context {M : Type} `{PMemLaws M}.
Implicit Types (m : M).

(** [real_memcpy] through the store path of the machine. *)
Definition cpu_copy (d s n : Z) (m : M) : M :=
  store d (read_bytes (view m) s (Z.to_nat n)) m.

Definition cpu_store64 (a v : Z) (m : M) : M := store a (le_split 8 v) m.

Lemma view_cpu_copy d s n m :
  0 ≤ n → view (cpu_copy d s n m) ≡ copy_bytes (view m) d s n.
Proof.
  intros Hn. rewrite copy_bytes_write by done. intros x. apply view_store.
Qed.

Lemma view_store64 a v m : view (cpu_store64 a v m) ≡ store64 (view m) a v.
Proof. intros x. apply view_store. Qed.

Lemma durable_drain m x : durable m x → durable (drain m) x.
Proof. intros Hd v Hv. rewrite view_drain. apply Hd. by apply survives_drain. Qed.

Lemma durable_drain_staged m x : staged m x → durable (drain m) x.
Proof. intros Hs v Hv. rewrite view_drain. by apply survives_drain_staged. Qed.

Lemma durable_flush a n m x : durable m x → durable (flush a n m) x.
Proof. intros Hd v Hv. rewrite view_flush. apply Hd. by eapply survives_flush. Qed.

Lemma durable_store a bs m x :
  in_rng a (blen bs) x = false → durable m x → durable (store a bs m) x.
Proof.
  intros Hx Hd v Hv. apply survives_store in Hv as [Hv|[Hv _]]; [|congruence].
  rewrite view_store. unfold write_bytes. rewrite Hx. by apply Hd.
Qed.

Lemma durable_nt_store a bs m x :
  in_rng a (blen bs) x = false → durable m x → durable (nt_store a bs m) x.
Proof.
  intros Hx Hd v Hv. apply survives_nt_store in Hv as [Hv|[Hv _]]; [|congruence].
  rewrite view_nt_store. unfold write_bytes. rewrite Hx. by apply Hd.
Qed.

(** [PMemOps::streaming_wr(dst, src, n)]: non-temporal copy of a buffer. *)
Definition streaming_wr (d s n : Z) (m : M) : M :=
  nt_store d (read_bytes (view m) s (Z.to_nat n)) m.

Lemma view_streaming_wr d s n m :
  0 ≤ n → view (streaming_wr d s n m) ≡ copy_bytes (view m) d s n.
Proof.
  intros Hn. rewrite copy_bytes_write by done. intros x. apply view_nt_store.
Qed.
End Laws.

(** ** A machine with write-back caches

    [px_vol] is what loads return, and may reach the medium at any time by
    eviction; [px_cand x] lists the older values that may still be on the medium
    at [x]; [px_staged] marks bytes whose write-back was issued. *)
Module Px86.
Record machine := mkMachine {
  px_vol : mem;
  px_cand : Z → list Z;
  px_staged : Z → bool;
}.

Definition px_store (a : Z) (bs : list Z) (m : machine) : machine :=
  {| px_vol := write_bytes (px_vol m) a bs;
     px_cand := λ x, if in_rng a (blen bs) x then px_vol m x :: px_cand m x else px_cand m x;
     px_staged := λ x, if in_rng a (blen bs) x then false else px_staged m x |}.

Definition px_flush (a n : Z) (m : machine) : machine :=
  {| px_vol := px_vol m; px_cand := px_cand m;
     px_staged := λ x, flushed a n x || px_staged m x |}.

Definition px_drain (m : machine) : machine :=
  {| px_vol := px_vol m;
     px_cand := λ x, if px_staged m x then [] else px_cand m x;
     px_staged := px_staged m |}.

Definition px_nt_store (a : Z) (bs : list Z) (m : machine) : machine :=
  {| px_vol := write_bytes (px_vol m) a bs;
     px_cand := λ x,
       if in_rng a (blen bs) x then px_vol m x :: px_cand m x else px_cand m x;
     px_staged := λ x, in_rng a (blen bs) x || px_staged m x |}.

Definition px_map_in (a n : Z) (f : mem) (m : machine) : machine :=
  {| px_vol := λ x, if in_rng a n x then f (x - a) else px_vol m x;
     px_cand := λ x, if in_rng a n x then [] else px_cand m x;
     px_staged := λ x, in_rng a n x || px_staged m x |}.

(** A machine whose memory and medium both hold [m]. *)
Definition px_boot (m : mem) : machine :=
  {| px_vol := m; px_cand := λ _, []; px_staged := λ _, true |}.
End Px86.
Import Px86.

#[export] Instance px_ops : PMemOps machine := {|
  view := px_vol;
  store := px_store;
  flush := px_flush;
  drain := px_drain;
  nt_store := px_nt_store;
  map_in := px_map_in;
  survives m x v := v = px_vol m x ∨ v ∈ px_cand m x;
  staged m x := px_staged m x = true;
|}.

#[export] Instance px_laws : PMemLaws machine.
Proof.
  split; simpl.
  - done.
  - done.
  - done.
  - done.
  - done.
  - by intros a n f m x v ->.
  - by intros a n m x ->.
  - intros a n m x ->. by rewrite orb_true_r.
  - done.
  - by intros a bs m x ->.
  - intros a bs m x [->| ->]; [done|]. by rewrite orb_true_r.
  - intros m x v ->. set_solver.
  - auto.
  - intros m x v. destruct (px_staged m x); set_solver.
  - done.
  - intros a bs m x v. destruct (in_rng a (blen bs) x) eqn:E.
    + set_solver.
    + unfold write_bytes. rewrite E. set_solver.
  - intros a bs m x v. destruct (in_rng a (blen bs) x) eqn:E.
    + set_solver.
    + unfold write_bytes. rewrite E. set_solver.
Qed.
