(* ===== verification/Log.v ===== *)
(** * The undo log of a thread (libstoreinst/log.hh, libstoreinst/log.cc)

    [Log] is the volatile part of a log object; the log area (state word,
    [log_offset], [tail_ptr] and the packed entries) lives in the machine's
    memory, at the addresses the C++ layout gives it. *)

From stdpp Require Import base list.
From Stdlib Require Import ZArith Lia.
From S2P Require Import Prelude Memory PMem.

(** ** Build configuration: the flags of make.config and of the compiler *)

Record config := mkConfig {
  RELEASE : bool;
  NDEBUG : bool;
  LOG_FORMAT_VOLATILE : bool; (* otherwise LOG_FORMAT_NON_VOLATILE *)
  CXLBUF_ALIGN_SNAPSHOT_WRITES : bool;
  CXLBUF_TESTING_GOODIES : bool;
  NO_PERSIST_OPS : bool;
  NO_CHECK_MEMORY : bool;
}.

(** ** Statistics *)

Inductive counter :=
| skip_check_count | logged_check_count | dup_log_entries | back_to_back_dup_log
| total_log_entries | total_pers_log_entries | mergeable_entries
| total_bytes_wr | total_bytes_wr_strm.

#[export] Instance counter_eq_dec : EqDecision counter.
Proof. solve_decision. Defined.

Definition Stats : Type := counter → Z.
Definition bump (c : counter) (n : Z) (st : Stats) : Stats := λ c',
  if decide (c = c') then st c' + n else st c'.

(** ** Data *)

Record log_entry_lean_t := mkLean { le_addr : Z; le_bytes : Z }.

#[export] Instance lean_eq_dec : EqDecision log_entry_lean_t.
Proof. solve_decision. Defined.

Inductive State := EMPTY | ACTIVE | COMMITTED.

Definition state_val (s : State) : Z :=
  match s with EMPTY => 0 | ACTIVE => 1 | COMMITTED => 2 end.

Record Log := mkLog {
  log_area : Z;
  last_log : log_entry_lean_t;
  last_flush_offset : Z;
  entries : list log_entry_lean_t;
}.

Definition BUF_SIZE : Z := 100 * 1000 * 4096.
Definition BUF_SZ : Z := 128 * 2 ^ 20.

(** sizeof(log_layout_t): state, log_offset, tail_ptr. *)
Definition sizeof_layout : Z := 24.
(** sizeof(log_entry_t): 1 + 23 + 56 packed bits. *)
Definition sizeof_entry : Z := 10.

(** The packed entry header: bit 0 is [disabled], bits 1..23 are [bytes], bits
    24..79 are [addr]. *)
Definition hdr_disabled (m : mem) (e : Z) : Z := Z.land (loadN 3 m e) 1.
Definition hdr_bytes (m : mem) (e : Z) : Z := Z.land (Z.shiftr (loadN 3 m e) 1) (Z.ones 23).
Definition hdr_addr (m : mem) (e : Z) : Z := loadN 7 m (e + 3).
Definition entry_content (e : Z) : Z := e + sizeof_entry.

Definition content (la : Z) : Z := la + sizeof_layout.
Definition state_word (m : mem) (la : Z) : Z := load64 m la.
Definition log_offset (m : mem) (la : Z) : Z := load64 m (la + 8).
Definition tail_ptr (m : mem) (la : Z) : Z := load64 m (la + 16).

(** Iterators over the area: first entry, one past the last, next entry. *)
Definition cbegin (la : Z) : Z := content la.
Definition cend (m : mem) (la : Z) : Z := content la + log_offset m la.
Definition iter_next (m : mem) (e : Z) : Z := wrap64 (e + hdr_bytes m e + sizeof_entry).
(** [operator++(int)]: the post-increment, which leaves the header out. *)
Definition iter_next_post (m : mem) (e : Z) : Z := wrap64 (e + hdr_bytes m e).

(** ** Operations *)

Section Ops.
Context {M : Type} `{PMemOps M}.

(** What [log_range] runs on: the thread's log, two of the globals, and the
    machine. *)
Record thread_ctx := mkCtx {
  this : Log;
  storeInstEnabled : bool;
  stats : Stats;
  pmem : M;
}.

Definition set_this (l : Log) (c : thread_ctx) : thread_ctx :=
  mkCtx l (storeInstEnabled c) (stats c) (pmem c).
Definition set_pmem (m : M) (c : thread_ctx) : thread_ctx :=
  mkCtx (this c) (storeInstEnabled c) (stats c) m.
Definition add_stat (k : counter) (n : Z) (c : thread_ctx) : thread_ctx :=
  mkCtx (this c) (storeInstEnabled c) (bump k n (stats c)) (pmem c).
Definition enable_storeInst (c : thread_ctx) : thread_ctx :=
  mkCtx (this c) true (stats c) (pmem c).

Definition with_flush_offset (o : Z) (l : Log) : Log :=
  mkLog (log_area l) (last_log l) o (entries l).

(** [log_entry.addr = start; log_entry.bytes = bytes]: bit-field stores, which
    keep the [disabled] bit. *)
Definition write_header (e start bytes : Z) (m : M) : M :=
  let m1 := store (e + 3) (le_split 7 start) m in
  store e (le_split 3 (Z.lor (Z.land (loadN 3 (view m1) e) 1)
                             (Z.shiftl (Z.land bytes (Z.ones 23)) 1))) m1.

(** The write of one entry at the tail and the advance of the tail. *)
Definition write_entry (l : Log) (start bytes : Z) (m : M) : M :=
  let la := log_area l in
  let e := tail_ptr (view m) la in
  let m1 := write_header e start bytes m in
  let m2 := cpu_copy (entry_content e) start bytes m1 in
  let entry_sz := sizeof_entry + bytes in
  let m3 := cpu_store64 (la + 8) (log_offset (view m2) la + entry_sz) m2 in
  cpu_store64 (la + 16) (tail_ptr (view m3) la + entry_sz) m3.

(** Write back the cache lines the new entry completed. *)
Definition flush_lines (l : Log) (m : M) : Log * M :=
  let la := log_area l in
  let off := log_offset (view m) la in
  let lfo := last_flush_offset l in
  let cls_to_flush := wrap64 (off - lfo + 63) / 64 in
  if off mod 64 =? 0 then
    (with_flush_offset off l, flush (la + lfo) (cls_to_flush * 64) m)
  else if 1 <? cls_to_flush then
    (with_flush_offset (lfo + (cls_to_flush - 1) * 64) l,
     flush (la + lfo) ((cls_to_flush - 1) * 64) m)
  else (l, m).

(** The volatile address list: append, and say whether the request repeats
    the one logged last. *)
Definition note_volatile (start bytes : Z) (l : Log) : bool * Log :=
  let back := mkLean start bytes in
  let es := entries l ++ [back] in
  if (le_addr (last_log l) =? le_addr back) && (le_bytes (last_log l) =? le_bytes back)
  then (true, mkLog (log_area l) (last_log l) (last_flush_offset l) es)
  else (false, mkLog (log_area l) back (last_flush_offset l) es).

Definition log_persist (cfg : config) (start bytes : Z) : cmd thread_ctx unit := λ c,
  let m := write_entry (this c) start bytes (pmem c) in
  let '(l, m') := flush_lines (this c) m in
  (do! modify (λ c, set_pmem m' (set_this l c)) in
   when (negb (RELEASE cfg)) (modify (add_stat logged_check_count 1))) c.

(** The first statement reads [log_area->tail_ptr]: a null log area traps. *)
Definition log_range (cfg : config) (cxlModeEnabled : bool) (start bytes : Z)
    : cmd thread_ctx unit := λ c,
  if log_area (this c) =? 0 then Trap c
  else if NO_PERSIST_OPS cfg then Ret tt c
  else if cxlModeEnabled then
    (do! modify enable_storeInst in
     do! when (negb (NDEBUG cfg)) (nvsl_assert (bytes <? 2 ^ 22)) in
     do! when (negb (RELEASE cfg)) (modify (add_stat total_log_entries 1)) in
     if LOG_FORMAT_VOLATILE cfg then
       λ c, let '(dup, l) := note_volatile start bytes (this c) in
         if dup then Ret tt (add_stat back_to_back_dup_log 1 (set_this l c))
         else log_persist cfg start bytes (set_this l c)
     else log_persist cfg start bytes) c
  else Ret tt c.

Definition flush_all (l : Log) (m : M) : M :=
  let la := log_area l in
  if last_flush_offset l =? log_offset (view m) la then m
  else flush (content la + last_flush_offset l)
             (wrap64 (log_offset (view m) la - last_flush_offset l)) m.

Definition clear (cfg : config) (l : Log) (m : M) : Log * M :=
  let la := log_area l in
  let m1 := cpu_store64 (la + 8) 0 m in
  let m2 := cpu_store64 (la + 16) (content la) m1 in
  (mkLog la (mkLean 0 0) 0 (if LOG_FORMAT_VOLATILE cfg then [] else entries l), m2).

Definition set_state (st : State) (flush_whole : bool) (l : Log) : cmd M unit :=
  let la := log_area l in
  do! nvsl_assert (negb (la =? 0)) in
  do! modify (λ m,
    if flush_whole then flush la sizeof_layout (cpu_store64 la (state_val st) m)
    else nt_store la (le_split 8 (state_val st)) m) in
  modify drain.

Definition get_state (l : Log) : cmd M Z :=
  do! nvsl_assert (negb (log_area l =? 0)) in
  let! m := get in
  ret (state_word (view m) (log_area l)).
End Ops.
Arguments thread_ctx M : clear implicits.

(** ** The entry header *)

Section Header.
Lemma land_ones_wrap z w : 0 ≤ w → Z.land z (Z.ones w) = wrap w z.
Proof. intros. by rewrite Z.land_ones. Qed.

(** The arithmetic of the 24 low bits of a header. *)
Lemma header_bits old bytes :
  Z.lor (Z.land old 1) (Z.shiftl (Z.land bytes (Z.ones 23)) 1)
  = old mod 2 + 2 * wrap 23 bytes.
Proof.
  change 1 with (Z.ones 1) at 1. rewrite !land_ones_wrap by lia.
  rewrite Z.shiftl_mul_pow2 by lia. change (2 ^ 1) with 2. unfold wrap at 1.
  change (2 ^ 1) with 2.
  assert (Z.land (old mod 2) (wrap 23 bytes * 2) = 0) as Hz.
  { apply Z.bits_inj'. intros k Hk. rewrite Z.land_spec, Z.bits_0.
    destruct (decide (k = 0)) as [->|].
    - rewrite Z.mul_comm, Z.testbit_even_0. apply andb_false_r.
    - change 2 with (2 ^ 1) at 1. rewrite Z.mod_pow2_bits_high by lia. done. }
  rewrite <-Z.lxor_lor by done. rewrite <-Z.add_nocarry_lxor by done. lia.
Qed.

Lemma header_bits_bytes old bytes :
  Z.land (Z.shiftr (wrap 24 (old mod 2 + 2 * wrap 23 bytes)) 1) (Z.ones 23)
  = wrap 23 bytes.
Proof.
  pose proof (wrap_range 23 bytes ltac:(lia)) as Hb.
  pose proof (Z.mod_pos_bound old 2 ltac:(lia)).
  rewrite land_ones_wrap by lia. rewrite Z.shiftr_div_pow2 by lia.
  change (2 ^ 1) with 2. rewrite (wrap_small 24) by lia.
  replace (old mod 2 + 2 * wrap 23 bytes) with (old mod 2 + wrap 23 bytes * 2) by lia.
  rewrite Z.div_add, Z.div_small by lia. apply wrap_small. lia.
Qed.
End Header.

(** ** What a log area holds *)

(** The request an entry records: the address and the bytes found there. *)
Record undo := mkUndo { u_addr : Z; u_data : list Z }.

Definition usize (u : undo) : Z := sizeof_entry + blen (u_data u).
Definition total (us : list undo) : Z := sum_by usize us.
#[global] Arguments total : simpl never.

(** [encodes m a us]: the packed entries from address [a] on are [us]. *)
Fixpoint encodes (m : mem) (a : Z) (us : list undo) : Prop :=
  match us with
  | [] => True
  | u :: us =>
      hdr_addr m a = u_addr u ∧ hdr_bytes m a = blen (u_data u)
      ∧ read_bytes m (entry_content a) (length (u_data u)) = u_data u
      ∧ encodes m (a + usize u) us
  end.

Lemma usize_pos u : 10 ≤ usize u.
Proof. unfold usize, sizeof_entry. pose proof (blen_nonneg (u_data u)). lia. Qed.

Lemma total_cons u us : total (u :: us) = usize u + total us.
Proof. done. Qed.

Lemma total_nonneg us : 0 ≤ total us.
Proof.
  apply sum_by_nonneg. intros u _. pose proof (usize_pos u). lia.
Qed.

Lemma total_app us vs : total (us ++ vs) = total us + total vs.
Proof. apply sum_by_app. Qed.

Lemma hdr_ext m1 m2 a :
  (∀ x, a ≤ x < a + sizeof_entry → m1 x = m2 x) →
  hdr_addr m1 a = hdr_addr m2 a ∧ hdr_bytes m1 a = hdr_bytes m2 a.
Proof.
  intros Hx. unfold hdr_addr, hdr_bytes, sizeof_entry in *.
  rewrite (loadN_ext 7 m1 m2), (loadN_ext 3 m1 m2); [done|..];
    intros; apply Hx; lia.
Qed.

(** The entries depend only on the bytes they occupy. *)
(** The same bytes at another address encode the same entries. *)
Lemma encodes_shift m a d us : encodes m a us → encodes (λ x, m (x - d)) (a + d) us.
Proof.
  assert (∀ a n, read_bytes (λ x, m (x - d)) (a + d) n = read_bytes m a n) as Hr.
  { intros b n. apply read_bytes_shift. intros i _. f_equal. lia. }
  revert a. induction us as [|u us IH]; intros a; simpl; [done|].
  unfold hdr_addr, hdr_bytes, entry_content, loadN.
  replace (a + d + 3) with (a + 3 + d) by lia.
  replace (a + d + sizeof_entry) with (a + sizeof_entry + d) by lia.
  replace (a + d + usize u) with (a + usize u + d) by lia. rewrite !Hr.
  intros (?&?&?&?). split_and!; auto.
Qed.

Lemma encodes_ext m1 m2 a us :
  (∀ x, a ≤ x < a + total us → m1 x = m2 x) → encodes m1 a us → encodes m2 a us.
Proof.
  revert a. induction us as [|u us IH]; intros a Hx; simpl; [done|].
  intros (Ha & Hb & Hr & Hus).
  rewrite total_cons in Hx. pose proof (usize_pos u). pose proof (total_nonneg us).
  pose proof (blen_nonneg (u_data u)) as Hbl.
  destruct (hdr_ext m1 m2 a) as [Ea Eb]; [unfold sizeof_entry; intros; apply Hx; lia|].
  split_and!; [congruence|congruence| |].
  - rewrite <-Hr at 2. symmetry. apply read_bytes_ext. intros x Hin. apply Hx.
    unfold entry_content, usize, blen, sizeof_entry in *. lia.
  - apply IH; [|done]. intros. apply Hx. lia.
Qed.

Lemma encodes_app m a us vs :
  encodes m a (us ++ vs) ↔ encodes m a us ∧ encodes m (a + total us) vs.
Proof.
  revert a. induction us as [|u us IH]; intros a; simpl.
  - change (total []) with 0. rewrite Z.add_0_r. tauto.
  - rewrite IH, total_cons, Z.add_assoc. tauto.
Qed.

Section Entry.
Context {M : Type} `{PMemLaws M}.
Implicit Types m : M.

Lemma view_store_equiv a bs m : view (store a bs m) ≡ write_bytes (view m) a bs.
Proof. intros x. apply view_store. Qed.

Lemma view_store_out a bs m x : in_rng a (blen bs) x = false → view (store a bs m) x = view m x.
Proof. intros Hx. rewrite view_store. unfold write_bytes. by rewrite Hx. Qed.

Lemma write_header_out e start bytes m x :
  ¬ (e ≤ x < e + sizeof_entry) → view (write_header e start bytes m) x = view m x.
Proof.
  intros Hx. unfold write_header, sizeof_entry in *.
  rewrite !view_store_out; [done| |]; rewrite blen_le_split; apply in_rng_false; lia.
Qed.

(** Reading back a header that was just written: address and size truncated
    to their fields, the [disabled] bit kept. *)
Lemma write_header_read e start bytes m :
  let m' := view (write_header e start bytes m) in
  hdr_addr m' e = wrap 56 start ∧ hdr_bytes m' e = wrap 23 bytes
  ∧ hdr_disabled m' e = hdr_disabled (view m) e.
Proof.
  simpl. unfold write_header. set (m1 := store (e + 3) (le_split 7 start) m).
  rewrite header_bits. set (w := loadN 3 (view m1) e mod 2 + 2 * wrap 23 bytes).
  assert (loadN 3 (view m1) e = loadN 3 (view m) e) as Hold.
  { apply loadN_ext. intros x Hx. unfold m1. rewrite view_store_out; [done|].
    rewrite blen_le_split. apply in_rng_false. lia. }
  unfold hdr_addr, hdr_bytes, hdr_disabled. split_and!.
  - rewrite (loadN_ext 7 _ (view m1)); [|intros x Hx; apply view_store_out;
      rewrite blen_le_split; apply in_rng_false; lia].
    unfold m1. rewrite (view_store_equiv (e + 3)). apply loadN_storeN_same.
  - rewrite (view_store_equiv e). change (write_bytes (view m1) e (le_split 3 w))
      with (storeN 3 (view m1) e w).
    rewrite loadN_storeN_same. apply header_bits_bytes.
  - rewrite (view_store_equiv e). change (write_bytes (view m1) e (le_split 3 w))
      with (storeN 3 (view m1) e w).
    rewrite loadN_storeN_same, <-Hold. unfold w.
    change 1 with (Z.ones 1). rewrite !land_ones_wrap by lia.
    change (8 * Z.of_nat 3) with 24. rewrite (wrap_small 24).
    + unfold wrap at 1 3. change (2 ^ 1) with 2.
      rewrite Z.mul_comm, Z.mod_add, Z.mod_mod by lia. done.
    + pose proof (wrap_range 23 bytes ltac:(lia)).
      pose proof (Z.mod_pos_bound (loadN 3 (view m1) e) 2). lia.
Qed.
End Entry.

(** ** Appending an entry *)

Section Append.
Context {M : Type} `{PMemLaws M}.
Implicit Types (m : M) (l : Log).

Lemma view_cpu_copy_out d s n m x :
  0 ≤ n → ¬ (d ≤ x < d + n) → view (cpu_copy d s n m) x = view m x.
Proof.
  intros Hn Hx. rewrite (view_cpu_copy d s n m Hn x). unfold copy_bytes. rng.
Qed.

Lemma view_store64_out a v m x :
  ¬ (a ≤ x < a + 8) → view (cpu_store64 a v m) x = view m x.
Proof. intros Hx. rewrite (view_store64 a v m x). by apply store64_outside. Qed.

Lemma load64_cpu_store a v m :
  0 ≤ v < 2 ^ 64 → load64 (view (cpu_store64 a v m)) a = v.
Proof. intros Hv. rewrite (view_store64 a v m). by apply load64_store64. Qed.

(** Bytes that neither the entry nor the two header words cover. *)
Definition untouched (la e n x : Z) : Prop :=
  ¬ (la + 8 ≤ x < la + 24) ∧ ¬ (e ≤ x < e + sizeof_entry + n).

Lemma write_entry_out l start n m x :
  0 ≤ n → untouched (log_area l) (tail_ptr (view m) (log_area l)) n x →
  view (write_entry l start n m) x = view m x.
Proof.
  intros Hn [H1 H2]. unfold write_entry, entry_content, sizeof_entry in *.
  rewrite view_store64_out, view_store64_out, view_cpu_copy_out, write_header_out;
    unfold sizeof_entry; try done; lia.
Qed.

Lemma staged_write_entry l start n m x :
  0 ≤ n → untouched (log_area l) (tail_ptr (view m) (log_area l)) n x →
  staged m x → staged (write_entry l start n m) x.
Proof.
  intros Hn [H1 H2] Hs. unfold write_entry, entry_content, sizeof_entry in *.
  unfold cpu_store64, cpu_copy, write_header.
  repeat (apply staged_store; [rewrite ?blen_le_split, ?blen_read_bytes;
    apply in_rng_false; lia|]). done.
Qed.

Lemma durable_write_entry l start n m x :
  0 ≤ n → untouched (log_area l) (tail_ptr (view m) (log_area l)) n x →
  durable m x → durable (write_entry l start n m) x.
Proof.
  intros Hn [H1 H2] Hs. unfold write_entry, entry_content, sizeof_entry in *.
  unfold cpu_store64, cpu_copy, write_header.
  repeat (apply durable_store; [rewrite ?blen_le_split, ?blen_read_bytes;
    apply in_rng_false; lia|]). done.
Qed.

(** Byte [x] is left alone: same value, same progress towards the medium. *)
Definition quiet m m' x : Prop :=
  view m' x = view m x ∧ (staged m x → staged m' x) ∧ (durable m x → durable m' x).

(** The conditions under which an entry fits: the tail is where the offset
    says, the area does not wrap, and the logged bytes are not in the log. *)
Record fits (l : Log) (m : M) (start n : Z) : Prop := {
  fits_la : 0 < log_area l;
  fits_off : 0 ≤ log_offset (view m) (log_area l);
  fits_tail : tail_ptr (view m) (log_area l)
              = content (log_area l) + log_offset (view m) (log_area l);
  fits_n : 0 ≤ n < 2 ^ 23;
  fits_start : 0 ≤ start < 2 ^ 56;
  fits_end : content (log_area l) + log_offset (view m) (log_area l)
             + sizeof_entry + n < 2 ^ 64;
  fits_disj : rng_disj start n (log_area l)
    (sizeof_layout + log_offset (view m) (log_area l) + sizeof_entry + n);
}.

Lemma write_entry_spec l start n m :
  fits l m start n →
  let la := log_area l in
  let off := log_offset (view m) la in
  let m' := view (write_entry l start n m) in
  log_offset m' la = off + sizeof_entry + n
  ∧ tail_ptr m' la = content la + off + sizeof_entry + n
  ∧ encodes m' (content la + off) [mkUndo start (read_bytes (view m) start (Z.to_nat n))].
Proof.
  intros [Hla Hoff Htail Hn Hstart Hend Hdisj]. cbv zeta.
  set (la := log_area l) in *. set (off := log_offset (view m) la) in *.
  unfold content, sizeof_layout, sizeof_entry, rng_disj in *.
  unfold write_entry. fold la. rewrite Htail. set (e := la + 24 + off) in *.
  unfold entry_content, sizeof_entry.
  set (m1 := write_header e start n m). set (m2 := cpu_copy (e + 10) start n m1).
  assert (∀ x, e + 10 + n ≤ x ∨ x < e → view m2 x = view m x) as Hm2.
  { intros x Hx. unfold m2. rewrite view_cpu_copy_out by lia.
    unfold m1. rewrite write_header_out; [done|unfold sizeof_entry; lia]. }
  assert (log_offset (view m2) la = off) as ->.
  { unfold off, log_offset. apply loadN_ext. intros x Hx. apply Hm2. lia. }
  set (m3 := cpu_store64 (la + 8) _ m2).
  assert (tail_ptr (view m3) la = e) as ->.
  { rewrite <-Htail. unfold tail_ptr. apply loadN_ext. intros x Hx. unfold m3.
    rewrite view_store64_out by lia. apply Hm2. lia. }
  assert (∀ x, e ≤ x → view (cpu_store64 (la + 16) (e + (10 + n)) m3) x = view m2 x) as Hout.
  { intros x Hx. rewrite view_store64_out by lia. unfold m3. by rewrite view_store64_out by lia. }
  split_and!.
  - unfold log_offset. rewrite (loadN_ext 8 _ (view m3)).
    + unfold m3. rewrite load64_cpu_store by lia. lia.
    + intros x Hx. apply view_store64_out. lia.
  - unfold tail_ptr. rewrite load64_cpu_store by lia. lia.
  - destruct (write_header_read e start n m) as (Ha & Hb & _). fold m1 in Ha, Hb.
    assert (∀ x, e ≤ x < e + 10 → view m2 x = view m1 x) as Hh.
    { intros x Hx. unfold m2. apply view_cpu_copy_out; lia. }
    destruct (hdr_ext (view m1) (view (cpu_store64 (la + 16) (e + (10 + n)) m3)) e) as [Ea Eb].
    { intros x Hx. unfold sizeof_entry in Hx. rewrite Hout by lia. by rewrite Hh. }
    simpl. rewrite <-Ea, <-Eb, Ha, Hb, blen_read_bytes, !wrap_small by lia.
    split_and!; [done|lia| |done].
    rewrite length_read_bytes. unfold entry_content, sizeof_entry.
    rewrite (read_bytes_ext _ (view m2)); [|intros; apply Hout; lia].
    unfold m2. rewrite (view_cpu_copy (e + 10) start n m1) by lia.
    apply bytes_eq; rewrite ?length_read_bytes; [done|].
    intros i Hi. rewrite blen_read_bytes in Hi. rewrite !nth_read_bytes by lia.
    unfold copy_bytes. rng_cases; [|lia].
    replace (start + (e + 10 + i - (e + 10))) with (start + i) by lia.
    unfold m1. apply write_header_out. unfold sizeof_entry. lia.
Qed.
End Append.

(** ** The log invariant *)

Section Invariant.
Context {M : Type} `{PMemLaws M}.
Implicit Types (m : M) (l : Log) (c : thread_ctx M).

Record log_wf (l : Log) (m : M) (us : list undo) : Prop := {
  wf_la : 0 < log_area l;
  wf_align : log_area l mod 64 = 0;
  wf_off : log_offset (view m) (log_area l) = total us;
  wf_tail : tail_ptr (view m) (log_area l) = content (log_area l) + total us;
  wf_enc : encodes (view m) (content (log_area l)) us;
  wf_lfo_mod : last_flush_offset l mod 64 = 0;
  wf_lfo : 0 ≤ last_flush_offset l ≤ total us;
  wf_lfo_lag : total us - last_flush_offset l < 64;
  wf_staged x : content (log_area l) ≤ x < log_area l + last_flush_offset l → staged m x;
}.

(** Room for [n] more bytes behind the entries of [l], apart from the bytes at
    [start]. *)
Record room (l : Log) (us : list undo) (start n : Z) : Prop := {
  room_n : 0 ≤ n < 2 ^ 23;
  room_start : 0 ≤ start < 2 ^ 56;
  room_end : content (log_area l) + total us + sizeof_entry + n < 2 ^ 64;
  room_disj : rng_disj start n (log_area l)
    (sizeof_layout + total us + sizeof_entry + n);
}.

Lemma wf_fits l m us start n : log_wf l m us → room l us start n → fits l m start n.
Proof.
  intros [] []. pose proof (total_nonneg us). split; rewrite ?wf_off0; auto; lia.
Qed.

Definition request m (start n : Z) : undo :=
  mkUndo start (read_bytes (view m) start (Z.to_nat n)).

Lemma usize_request m start n : 0 ≤ n → usize (request m start n) = sizeof_entry + n.
Proof. intros. unfold usize, request. simpl. rewrite blen_read_bytes. lia. Qed.

(** The flush step: it moves [last_flush_offset] to the last completed line
    and issues the write-back of all lines before it. *)
Lemma flush_lines_spec l m T :
  log_offset (view m) (log_area l) = T → 0 ≤ T < 2 ^ 64 - 64 →
  log_area l mod 64 = 0 → last_flush_offset l mod 64 = 0 →
  0 ≤ last_flush_offset l ≤ T →
  (∀ x, content (log_area l) ≤ x < log_area l + last_flush_offset l → staged m x) →
  ∃ o m', flush_lines l m = (with_flush_offset o l, m')
    ∧ view m' ≡ view m ∧ o mod 64 = 0 ∧ 0 ≤ o ≤ T ∧ T - o < 64
    ∧ (∀ x, content (log_area l) ≤ x < log_area l + o → staged m' x)
    ∧ (∀ x, quiet m m' x).
Proof.
  intros HT Hb Hal Hlm Hl Hst. unfold flush_lines. rewrite HT.
  set (la := log_area l) in *. set (L := last_flush_offset l) in *.
  rewrite wrap_small by lia. set (cls := (T - L + 63) / 64).
  pose proof (Z.div_mod (T - L + 63) 64 ltac:(lia)) as Hdm. fold cls in Hdm.
  pose proof (Z.mod_pos_bound (T - L + 63) 64 ltac:(lia)).
  pose proof (Z.div_mod L 64 ltac:(lia)) as HL.
  assert (∀ k, 0 ≤ k → (L + k * 64) mod 64 = 0) as Hk.
  { intros k _. rewrite Z.mod_add by lia. done. }
  assert (∀ k x, 0 ≤ k → la + L ≤ x < la + L + k * 64 →
    staged (flush (la + L) (k * 64) m) x) as Hf.
  { intros k x Hk0 Hx. apply staged_flush. apply flushed_in. lia. }
  assert (∀ k x, quiet m (flush (la + L) k m) x) as Hq.
  { intros k x. split_and!; [apply view_flush|apply staged_flush_keep|apply durable_flush]. }
  destruct (T mod 64 =? 0) eqn:ET.
  - apply Z.eqb_eq in ET. pose proof (Z.div_mod T 64 ltac:(lia)) as HTd.
    assert (cls * 64 = T - L) as Ecls by lia.
    exists T, (flush (la + L) (cls * 64) m). split_and!; try done; try lia.
    + intros x. apply view_flush.
    + intros x Hx. destruct (decide (x < la + L)).
      * apply staged_flush_keep. apply Hst. lia.
      * apply Hf; lia.
  - apply Z.eqb_neq in ET. assert (T - L - 64 * (cls - 1) ≠ 64) as Hne.
    { intros E. apply ET. replace T with (L + cls * 64) by lia. apply Hk. lia. }
    destruct (1 <? cls) eqn:Ec.
    + exists (L + (cls - 1) * 64), (flush (la + L) ((cls - 1) * 64) m).
      split_and!; try done; try lia.
      * intros x. apply view_flush.
      * apply Hk. lia.
      * intros x Hx. destruct (decide (x < la + L)).
        -- apply staged_flush_keep. apply Hst. lia.
        -- apply Hf; lia.
    + exists L, m. split_and!; try done; try lia. destruct l; done.
Qed.

Lemma log_persist_wf cfg start n c us :
  log_wf (this c) (pmem c) us → room (this c) us start n →
  ∃ c', log_persist cfg start n c = Ret tt c'
    ∧ log_wf (this c') (pmem c') (us ++ [request (pmem c) start n])
    ∧ log_area (this c') = log_area (this c) ∧ entries (this c') = entries (this c)
    ∧ last_log (this c') = last_log (this c)
    ∧ storeInstEnabled c' = storeInstEnabled c
    ∧ ∀ x, untouched (log_area (this c)) (content (log_area (this c)) + total us) n x →
           quiet (pmem c) (pmem c') x.
Proof.
  intros Hwf Hroom. pose proof (wf_fits _ _ _ _ _ Hwf Hroom) as Hfits.
  destruct (write_entry_spec _ _ _ _ Hfits) as (Hoff & Htail & Henc). cbv zeta in *.
  destruct Hwf as [Hla Hal Ho Ht He Hlm Hl Hlag Hst].
  destruct Hroom as [Hn Hs Hend Hdisj].
  set (l := this c) in *. set (m := pmem c) in *. set (la := log_area l) in *.
  rewrite Ho in *. pose proof (total_nonneg us) as HT.
  set (m1 := write_entry l start n m) in *.
  assert (∀ x, content la ≤ x < content la + total us ∨ content la ≤ x < la + last_flush_offset l
    → untouched la (tail_ptr (view m) la) n x) as Hun.
  { intros x Hx. rewrite Ht. unfold untouched, content, sizeof_layout in *. lia. }
  destruct (flush_lines_spec l m1 (total us + sizeof_entry + n))
    as (o & m2 & Hfl & Hv & Hom & Hor & Hlag' & Hst' & Hkeep); try done.
  { pose proof (Z.div_mod la 64 ltac:(lia)).
    unfold content, sizeof_layout, sizeof_entry in *. lia. }
  { unfold sizeof_entry. lia. }
  { intros x Hx. apply staged_write_entry; [lia|apply Hun; right; exact Hx|by apply Hst]. }
  set (c1 := set_pmem m2 (set_this (with_flush_offset o l) c)).
  exists (if RELEASE cfg then c1 else add_stat logged_check_count 1 c1). split_and!.
  - unfold log_persist. fold l m m1. rewrite Hfl. by destruct (RELEASE cfg).
  - assert (log_wf (with_flush_offset o l) m2 (us ++ [request m start n])) as Hgoal.
    { split; simpl; fold la; rewrite ?total_app, ?total_cons; change (total []) with 0;
        rewrite ?usize_request by lia; try done; try lia.
      - unfold log_offset. rewrite (loadN_ext 8 _ (view m1)) by (intros; apply Hv).
        fold (log_offset (view m1) la). lia.
      - unfold tail_ptr. rewrite (loadN_ext 8 _ (view m1)) by (intros; apply Hv).
        fold (tail_ptr (view m1) la). lia.
      - apply encodes_app. split.
        + apply (encodes_ext (view m)); [|done]. intros x Hx. rewrite (Hv x).
          symmetry. apply write_entry_out; [lia|]. apply Hun. lia.
        + apply (encodes_ext (view m1)); [|done]. intros x Hx. by rewrite (Hv x). }
    destruct (RELEASE cfg); exact Hgoal.
  - destruct (RELEASE cfg); reflexivity.
  - destruct (RELEASE cfg); reflexivity.
  - destruct (RELEASE cfg); reflexivity.
  - destruct (RELEASE cfg); reflexivity.
  - intros x Hx. assert (untouched la (tail_ptr (view m) la) n x) as Hx' by by rewrite Ht.
    assert (quiet m m2 x) as Hq.
    { destruct (Hkeep x) as (Q1 & Q2 & Q3). split_and!.
      - rewrite Q1. apply write_entry_out; [lia|done].
      - intros. apply Q2. apply staged_write_entry; [lia|done..].
      - intros. apply Q3. apply durable_write_entry; [lia|done..]. }
    destruct (RELEASE cfg); exact Hq.
Qed.
End Invariant.

(** ** Initialisation, clearing, state changes *)

Section Lifecycle.
Context {M : Type} `{PMemLaws M}.
Implicit Types (m : M) (l : Log).

(** The memory part of [init_thread_buf]: a fresh [Log] on the area at [la]. *)
Definition init_area (la : Z) (m : M) : Log * M :=
  (mkLog la (mkLean 0 0) 0 [],
   cpu_store64 (la + 16) (content la) (cpu_store64 (la + 8) 0 m)).

Lemma empty_area_wf la ll es m :
  0 < la → la mod 64 = 0 → content la < 2 ^ 64 →
  log_wf (mkLog la ll 0 es)
    (cpu_store64 (la + 16) (content la) (cpu_store64 (la + 8) 0 m)) [].
Proof.
  intros Hla Hal Hend. unfold content, sizeof_layout in *.
  split; simpl; change (total []) with 0; unfold content, sizeof_layout; try done; try lia.
  - unfold log_offset. rewrite (loadN_ext 8 _ (view (cpu_store64 (la + 8) 0 m))).
    + by apply load64_cpu_store.
    + intros x Hx. apply view_store64_out. lia.
  - unfold tail_ptr. rewrite load64_cpu_store; lia.
Qed.

Lemma init_area_wf la m :
  0 < la → la mod 64 = 0 → content la < 2 ^ 64 →
  let '(l, m') := init_area la m in log_wf l m' [].
Proof. apply empty_area_wf. Qed.

Lemma clear_wf cfg l m :
  0 < log_area l → log_area l mod 64 = 0 → content (log_area l) < 2 ^ 64 →
  log_wf (fst (clear cfg l m)) (snd (clear cfg l m)) [].
Proof. apply empty_area_wf. Qed.

Lemma clear_out cfg l m x :
  ¬ (log_area l + 8 ≤ x < log_area l + 24) → view (snd (clear cfg l m)) x = view m x.
Proof. intros Hx. simpl. rewrite !view_store64_out by lia. done. Qed.

Lemma flush_all_view l m : view (flush_all l m) ≡ view m.
Proof. unfold flush_all. case_match; [done|]. intros x. apply view_flush. Qed.

(** [flush_all] followed by a drain makes every entry durable, provided the
    entries do not end on a cache-line boundary of the offset. *)
Lemma flush_all_durable l m us x :
  log_wf l m us → total us mod 64 ≠ 0 → content (log_area l) + total us < 2 ^ 64 →
  content (log_area l) ≤ x < content (log_area l) + total us →
  durable (drain (flush_all l m)) x.
Proof.
  intros [Hla Hal Ho Ht He Hlm Hl Hlag Hst] Hmod Hend Hx.
  apply durable_drain_staged. unfold flush_all. rewrite Ho.
  destruct (last_flush_offset l =? total us) eqn:E; [apply Z.eqb_eq in E; congruence|].
  apply Z.eqb_neq in E. set (la := log_area l) in *. set (L := last_flush_offset l) in *.
  unfold content, sizeof_layout in *.
  destruct (decide (x < la + L)) as [|Hge].
  { apply staged_flush_keep. apply Hst. lia. }
  apply staged_flush. rewrite wrap_small by lia. unfold flushed.
  assert ((la + L) mod 64 = 0) as Hm.
  { pose proof (Z.div_mod L 64 ltac:(lia)). replace (la + L) with (la + L / 64 * 64) by lia.
    rewrite Z.mod_add by lia. done. }
  replace (la + 24 + L) with (la + L + 24) by lia. rewrite line_aligned by lia.
  pose proof (line_le (la + L + 24 + (total us - L) - 1)). lia.
Qed.

Lemma set_state_spec st fw l m :
  log_area l ≠ 0 →
  ∃ m', set_state st fw l m = Ret tt m'
    ∧ view m' ≡ store64 (view m) (log_area l) (state_val st)
    ∧ (∀ x, ¬ (log_area l ≤ x < log_area l + 8) → durable m x → durable m' x)
    ∧ (∀ x, ¬ (log_area l ≤ x < log_area l + 8) → staged m x → durable m' x)
    ∧ (∀ x, (if fw then log_area l ≤ x < log_area l + 24
             else log_area l ≤ x < log_area l + 8) → durable m' x).
Proof.
  intros Hla. unfold set_state, nvsl_assert.
  destruct (log_area l =? 0) eqn:E; [apply Z.eqb_eq in E; congruence|].
  destruct fw; (eexists; split_and!; [reflexivity|..]).
  - intros x. rewrite view_drain, view_flush. apply view_store64.
  - intros x Hx Hd. apply durable_drain, durable_flush, durable_store; [|done].
    rewrite blen_le_split. by apply in_rng_false.
  - intros x Hx Hs. apply durable_drain_staged, staged_flush_keep, staged_store; [|done].
    rewrite blen_le_split. by apply in_rng_false.
  - intros x Hx. apply durable_drain_staged, staged_flush, flushed_in.
    unfold sizeof_layout. lia.
  - intros x. rewrite view_drain. apply view_nt_store.
  - intros x Hx Hd. apply durable_drain, durable_nt_store; [|done].
    rewrite blen_le_split. by apply in_rng_false.
  - intros x Hx Hs. apply durable_drain_staged, staged_nt_store. by right.
  - intros x Hx. apply durable_drain_staged, staged_nt_store. left.
    rewrite blen_le_split. by apply in_rng_spec.
Qed.
End Lifecycle.

(** ** [log_range] *)

Section LogRange.
Context {M : Type} `{PMemLaws M}.
Implicit Types (m : M) (l : Log) (c : thread_ctx M).

(** The invariant does not read the volatile list. *)
Lemma log_wf_vol l l' m us :
  log_area l' = log_area l → last_flush_offset l' = last_flush_offset l →
  log_wf l m us → log_wf l' m us.
Proof. intros Ha Hf []. split; rewrite ?Ha, ?Hf; auto. Qed.

Lemma room_vol l l' us start n :
  log_area l' = log_area l → room l us start n → room l' us start n.
Proof. intros Ha []. split; rewrite ?Ha; auto. Qed.

Definition repeats_last (l : Log) (start n : Z) : bool :=
  (le_addr (last_log l) =? start) && (le_bytes (last_log l) =? n).

(** Whether the call writes to the persistent log. *)
Definition persists_entry (cfg : config) (l : Log) (start n : Z) : bool :=
  negb (LOG_FORMAT_VOLATILE cfg && repeats_last l start n).

Definition vol_append (cfg : config) (l : Log) (start n : Z) : list log_entry_lean_t :=
  if LOG_FORMAT_VOLATILE cfg then entries l ++ [mkLean start n] else entries l.

(** A call that may log: the build persists, the assertion on the size (when
    compiled in) holds. *)
Definition may_log (cfg : config) (n : Z) : Prop :=
  NO_PERSIST_OPS cfg = false ∧ (NDEBUG cfg = true ∨ n < 2 ^ 22).

Lemma log_range_step cfg start n c us :
  may_log cfg n → log_wf (this c) (pmem c) us → room (this c) us start n →
  ∃ c', log_range cfg true start n c = Ret tt c'
    ∧ storeInstEnabled c' = true
    ∧ log_area (this c') = log_area (this c)
    ∧ entries (this c') = vol_append cfg (this c) start n
    ∧ last_log (this c') = (if LOG_FORMAT_VOLATILE cfg then mkLean start n
                            else last_log (this c))
    ∧ log_wf (this c') (pmem c')
        (if persists_entry cfg (this c) start n
         then us ++ [request (pmem c) start n] else us)
    ∧ ∀ x, untouched (log_area (this c)) (content (log_area (this c)) + total us) n x →
           quiet (pmem c) (pmem c') x.
Proof.
  intros [Hnp Has] Hwf Hroom. unfold log_range.
  destruct (log_area (this c) =? 0) eqn:E0.
  { apply Z.eqb_eq in E0. destruct Hwf. lia. }
  rewrite Hnp.
  set (c1 := enable_storeInst c).
  set (c2 := if RELEASE cfg then c1 else add_stat total_log_entries 1 c1).
  assert (this c2 = this c ∧ pmem c2 = pmem c ∧ storeInstEnabled c2 = true) as (Et & Ep & Es).
  { unfold c2. by destruct (RELEASE cfg). }
  assert (∀ k : cmd (thread_ctx M) unit,
    bind (modify enable_storeInst) (λ _,
      bind (when (negb (NDEBUG cfg)) (nvsl_assert (n <? 2 ^ 22))) (λ _,
        bind (when (negb (RELEASE cfg)) (modify (add_stat total_log_entries 1)))
          (λ _, k))) c = k c2) as ->.
  { intros k. unfold c2, bind, when, nvsl_assert, modify, ret.
    destruct (NDEBUG cfg) eqn:En; simpl.
    - by destruct (RELEASE cfg).
    - destruct Has as [|Hlt]; [done|]. rewrite (proj2 (Z.ltb_lt _ _) Hlt).
      by destruct (RELEASE cfg). }
  unfold vol_append, persists_entry, repeats_last, note_volatile.
  destruct (LOG_FORMAT_VOLATILE cfg); simpl; rewrite ?Et.
  - destruct ((le_addr (last_log (this c)) =? start) && (le_bytes (last_log (this c)) =? n)) eqn:Ed.
    + eexists. split; [reflexivity|]. simpl. rewrite Ep, Es.
      split_and!; try done.
      * apply andb_true_iff in Ed as [H1%Z.eqb_eq H2%Z.eqb_eq].
        destruct (last_log (this c)); simpl in *. by subst.
      * by apply (log_wf_vol (this c)).
    + set (l2 := mkLog (log_area (this c)) _ _ _).
      destruct (log_persist_wf cfg start n (set_this l2 c2) us)
        as (c3 & Hr & Hw & Ha & Hent & Hll & Hsi & Hf); simpl; rewrite ?Ep.
      { by apply (log_wf_vol (this c)). }
      { by apply (room_vol (this c)). }
      simpl in *. rewrite Ep in Hw, Hf. exists c3.
      rewrite Ha, Hent, Hll, Hsi, Es. split_and!; done.
  - destruct (log_persist_wf cfg start n c2 us)
      as (c3 & Hr & Hw & Ha & Hent & Hll & Hsi & Hf); rewrite ?Et, ?Ep; [done..|].
    rewrite Et, Ep in *. exists c3.
    rewrite Ha, Hent, Hll, Hsi, Es. split_and!; done.
Qed.
End LogRange.

(** ** Properties *)

(** The packed header of an entry reads back: the address modulo 2^56, the
    size modulo 2^23, the [disabled] bit untouched. *)
Theorem entry_header_roundtrip {M} `{PMemLaws M} (e start bytes : Z) (m : M) :
  let m' := view (write_header e start bytes m) in
  hdr_addr m' e = wrap 56 start ∧ hdr_bytes m' e = wrap 23 bytes
  ∧ hdr_disabled m' e = hdr_disabled (view m) e.
Proof. apply write_header_read. Qed.

(** C13: [log_range] on a well-formed log with room returns, appends to the
    persistent log exactly the request with the bytes then found at the address
    (or nothing, when it repeats the request before it), appends the request to
    the volatile list, keeps the log well-formed (entries packed, tail and offset
    in step, completed cache lines written back), and leaves all other bytes
    alone. *)
Theorem log_range_records_undo {M} `{PMemLaws M} cfg start n (c : thread_ctx M) us :
  may_log cfg n → log_wf (this c) (pmem c) us → room (this c) us start n →
  ∃ c', log_range cfg true start n c = Ret tt c'
    ∧ storeInstEnabled c' = true
    ∧ entries (this c') = vol_append cfg (this c) start n
    ∧ log_wf (this c') (pmem c')
        (if persists_entry cfg (this c) start n
         then us ++ [mkUndo start (read_bytes (view (pmem c)) start (Z.to_nat n))] else us)
    ∧ ∀ x, untouched (log_area (this c)) (content (log_area (this c)) + total us) n x →
           quiet (pmem c) (pmem c') x.
Proof.
  intros Hm Hwf Hr. destruct (log_range_step cfg start n c us Hm Hwf Hr)
    as (c' & E & Hs & _ & He & _ & Hwf' & Hq). by exists c'.
Qed.

(** C26: After [flush_all] and a drain, every byte of the entries is durable,
    provided the entries do not end on a multiple of 64 bytes. *)
Theorem flush_all_makes_log_durable {M} `{PMemLaws M} l (m : M) us x :
  log_wf l m us → total us mod 64 ≠ 0 → content (log_area l) + total us < 2 ^ 64 →
  content (log_area l) ≤ x < content (log_area l) + total us →
  durable (drain (flush_all l m)) x ∧ view (drain (flush_all l m)) x = view m x.
Proof.
  intros Hwf Hm Hend Hx. split; [by apply (flush_all_durable l m us)|].
  rewrite view_drain. apply flush_all_view.
Qed.
