(* ===== verification/Text.v ===== *)
(** * Numbers and paths as text

    What the recovery code uses of the C++ library's text functions:
    [std::to_string], [std::stoull]/[std::stoi], the [/] of
    [std::filesystem::path], and the way a POSIX path with repeated slashes
    resolves.  The functions work on lists of characters; [to_string] and
    [stoull] are inverse to each other on 64-bit words. *)

From stdpp Require Import base list strings.
From Stdlib Require Import ZArith Lia Ascii String.
From S2P Require Import Prelude.

(** ** Decimal numbers *)

Definition digit_char (d : Z) : ascii := ascii_of_N (Z.to_N (48 + d)).

(** The value of a character as a digit of base [b] (at most 16), if it is one. *)
Definition digit_val (b : Z) (c : ascii) : option Z :=
  let n := Z.of_N (N_of_ascii c) in
  let v := if (48 <=? n) && (n <=? 57) then n - 48
           else if (97 <=? n) && (n <=? 102) then n - 87
           else if (65 <=? n) && (n <=? 70) then n - 55
           else b in
  if v <? b then Some v else None.

(** Digits of [z], most significant first, in front of [acc]. *)
Fixpoint dec_digits (fuel : nat) (z : Z) (acc : list ascii) : list ascii :=
  match fuel with
  | O => acc
  | S fuel =>
      let acc := digit_char (z mod 10) :: acc in
      if z <? 10 then acc else dec_digits fuel (z / 10) acc
  end.

(** Twenty digits are enough for a 64-bit word. *)
Definition to_chars (z : Z) : list ascii :=
  if z <? 0 then "-"%char :: dec_digits 20 (- z) [] else dec_digits 20 z [].

Definition to_string (z : Z) : string := string_of_list_ascii (to_chars z).

(** The longest prefix of digits: its value, and the number of digits. *)
Fixpoint scan_digits (b acc : Z) (cs : list ascii) : Z * nat :=
  match cs with
  | [] => (acc, O)
  | c :: cs =>
      match digit_val b c with
      | Some d => let '(v, n) := scan_digits b (acc * b + d) cs in (v, S n)
      | None => (acc, O)
      end
  end.

Definition is_space (c : ascii) : bool :=
  let n := N_of_ascii c in (n =? 32)%N || ((9 <=? n)%N && (n <=? 13)%N).

Fixpoint skip_spaces (cs : list ascii) : list ascii :=
  match cs with
  | c :: cs' => if is_space c then skip_spaces cs' else cs
  | [] => []
  end.

(** The [0x] that base 16 allows in front of the digits. *)
Definition skip_0x (b : Z) (cs : list ascii) : list ascii :=
  match cs with
  | z :: x :: d :: cs' =>
      if (b =? 16) && bool_decide (z = "0"%char)
         && (bool_decide (x = "x"%char) || bool_decide (x = "X"%char))
         && bool_decide (is_Some (digit_val 16 d))
      then d :: cs' else cs
  | _ => cs
  end.

(** Sign and magnitude; [None] is the exception [invalid_argument]. *)
Definition scan_number (b : Z) (cs : list ascii) : option (bool * Z) :=
  let cs := skip_spaces cs in
  let '(neg, cs) :=
    match cs with
    | c :: cs' => if bool_decide (c = "-"%char) then (true, cs')
                  else if bool_decide (c = "+"%char) then (false, cs') else (false, cs)
    | [] => (false, [])
    end in
  match scan_digits b 0 (skip_0x b cs) with
  | (_, O) => None
  | (v, S _) => Some (neg, v)
  end.

(** [std::stoull]: a negative number wraps; [None] is one of its exceptions. *)
Definition stoull (b : Z) (s : string) : option Z :=
  match scan_number b (list_ascii_of_string s) with
  | Some (neg, v) => if v <? 2 ^ 64 then Some (wrap64 (if neg then - v else v)) else None
  | None => None
  end.

(** [std::stoi] in base 10. *)
Definition stoi (s : string) : option Z :=
  match scan_number 10 (list_ascii_of_string s) with
  | Some (neg, v) =>
      let v := if neg then - v else v in
      if (- 2 ^ 31 <=? v) && (v <? 2 ^ 31) then Some v else None
  | None => None
  end.

(** *** Reading back what was printed *)

Lemma digit_val_char b d : 0 ≤ d < 10 → 10 ≤ b → digit_val b (digit_char d) = Some d.
Proof.
  intros Hd Hb. unfold digit_val, digit_char.
  rewrite N_ascii_embedding by lia. rewrite Z2N.id by lia.
  destruct (48 <=? 48 + d) eqn:E1; [|lia]. destruct (48 + d <=? 57) eqn:E2; [|lia]. simpl.
  destruct (48 + d - 48 <? b) eqn:E3; [|lia]. f_equal. lia.
Qed.

(** Scanning the printed digits multiplies the accumulator and adds the
    number. *)
Lemma scan_dec_digits fuel z acc a :
  0 ≤ z < 10 ^ Z.of_nat fuel →
  ∃ w n, 0 ≤ w ∧ (0 < fuel → 0 < n)%nat ∧
    scan_digits 10 a (dec_digits fuel z acc)
    = let '(v, k) := scan_digits 10 (a * w + z) acc in (v, (n + k)%nat).
Proof.
  revert z acc. induction fuel as [|fuel IH]; intros z acc Hz.
  { exists 1, O. change (10 ^ Z.of_nat 0) with 1 in Hz. split_and!; [lia|lia|].
    simpl. replace (a * 1 + z) with a by lia. by destruct (scan_digits 10 a acc). }
  simpl dec_digits. pose proof (Z.mod_pos_bound z 10 ltac:(lia)).
  pose proof (Z.div_mod z 10 ltac:(lia)).
  rewrite Nat2Z.inj_succ, Z.pow_succ_r in Hz by lia.
  destruct (z <? 10) eqn:E.
  - exists 10, 1%nat. split_and!; [lia|lia|]. simpl. rewrite digit_val_char by lia.
    rewrite (Z.mod_small z 10) by lia. by destruct (scan_digits _ _ acc).
  - destruct (IH (z / 10) (digit_char (z mod 10) :: acc)) as (w & n & Hw & Hn & ->).
    { split; [apply Z.div_pos; lia|apply Z.div_lt_upper_bound; lia]. }
    exists (w * 10), (S n). split_and!; [lia|lia|]. simpl. rewrite digit_val_char by lia.
    replace ((a * w + z / 10) * 10 + z mod 10) with (a * (w * 10) + z) by lia.
    destruct (scan_digits _ _ acc). f_equal. lia.
Qed.

(** The first printed character is a digit. *)
Lemma dec_digits_head fuel z acc :
  0 ≤ z → ∃ d cs, 0 ≤ d < 10 ∧ dec_digits (S fuel) z acc = digit_char d :: cs.
Proof.
  revert z acc. induction fuel as [|fuel IH]; intros z acc Hz.
  - simpl. pose proof (Z.mod_pos_bound z 10 ltac:(lia)).
    destruct (z <? 10); eauto.
  - cbn [dec_digits]. pose proof (Z.mod_pos_bound z 10 ltac:(lia)).
    destruct (z <? 10); [eauto|]. apply IH. by apply Z.div_pos.
Qed.

Lemma digit_char_cases d : 0 ≤ d < 10 → digit_char d ∈ map digit_char (seqZ 0 10).
Proof.
  intros Hd. apply list_elem_of_fmap. exists d. split; [done|]. apply elem_of_seqZ. lia.
Qed.

(** A digit is neither a space nor a sign. *)
Lemma digit_char_plain d : 0 ≤ d < 10 →
  is_space (digit_char d) = false ∧ digit_char d ≠ "-"%char ∧ digit_char d ≠ "+"%char.
Proof.
  intros Hd%digit_char_cases. revert Hd. generalize (digit_char d). apply Forall_forall.
  vm_compute. repeat constructor; done.
Qed.

Lemma scan_number_to_chars z :
  0 ≤ z < 10 ^ 20 → scan_number 10 (to_chars z) = Some (false, z).
Proof.
  intros Hz. unfold to_chars. destruct (z <? 0) eqn:E0; [lia|].
  destruct (scan_dec_digits 20 z [] 0 ltac:(done)) as (w & n & Hw & Hn & Hs).
  destruct (dec_digits_head 19 z [] ltac:(lia)) as (d & cs & Hd & Hcs).
  destruct (digit_char_plain d Hd) as (Hsp & Hm & Hp).
  unfold scan_number. rewrite Hcs in *. simpl skip_spaces. rewrite Hsp.
  rewrite !bool_decide_false by done.
  assert (skip_0x 10 (digit_char d :: cs) = digit_char d :: cs) as ->.
  { destruct cs as [|c1 [|c2 cs]]; done. }
  rewrite Hs. simpl. destruct n as [|n]; [lia|]. simpl. do 2 f_equal.
Qed.

Lemma stoull_to_string z : 0 ≤ z < 2 ^ 64 → stoull 10 (to_string z) = Some z.
Proof.
  intros Hz. unfold stoull, to_string. rewrite list_ascii_of_string_of_list_ascii.
  rewrite scan_number_to_chars by lia. destruct (z <? 2 ^ 64) eqn:E; [|lia].
  f_equal. by apply wrap_small.
Qed.

Lemma stoi_to_string z : 0 ≤ z < 2 ^ 31 → stoi (to_string z) = Some z.
Proof.
  intros Hz. unfold stoi, to_string. rewrite list_ascii_of_string_of_list_ascii.
  rewrite scan_number_to_chars by lia. cbv iota zeta.
  destruct ((- 2 ^ 31 <=? z) && (z <? 2 ^ 31)) eqn:E; [done|lia].
Qed.

(** A printed number holds digits only. *)
Lemma dec_digits_plain fuel z acc c :
  0 ≤ z → digit_val 10 c = None → c ∉ acc → c ∉ dec_digits fuel z acc.
Proof.
  intros Hz Hc. revert z acc Hz. induction fuel as [|fuel IH]; intros z acc Hz Hn; [done|].
  simpl. pose proof (Z.mod_pos_bound z 10 ltac:(lia)) as Hm.
  assert (c ∉ digit_char (z mod 10) :: acc) as Hn'.
  { intros [->|]%elem_of_cons; [|done]. by rewrite digit_val_char in Hc by lia. }
  destruct (z <? 10); [done|]. apply IH; [by apply Z.div_pos|done].
Qed.

Lemma to_string_plain z c :
  0 ≤ z → digit_val 10 c = None → c ∉ list_ascii_of_string (to_string z).
Proof.
  intros Hz Hc. unfold to_string. rewrite list_ascii_of_string_of_list_ascii.
  unfold to_chars. destruct (z <? 0) eqn:E; [lia|].
  apply dec_digits_plain; [done..|]. apply not_elem_of_nil.
Qed.

(** ** Paths *)

(** How the kernel reads a path: repeated slashes count once. *)
Fixpoint squeeze (cs : list ascii) : list ascii :=
  match cs with
  | [] => []
  | c :: cs =>
      let r := squeeze cs in
      match r with
      | d :: _ => if bool_decide (c = "/"%char ∧ d = "/"%char) then r else c :: r
      | [] => [c]
      end
  end.

Definition resolve (p : string) : string :=
  string_of_list_ascii (squeeze (list_ascii_of_string p)).

(** [fs::path(a) / b] for a relative [b]. *)
Definition path_join (a b : string) : string :=
  match last (list_ascii_of_string a) with
  | None => b
  | Some c => if bool_decide (c = "/"%char) then (a +:+ b)%string
              else (a +:+ "/" +:+ b)%string
  end.

Lemma list_ascii_app a b :
  list_ascii_of_string (a +:+ b) = list_ascii_of_string a ++ list_ascii_of_string b.
Proof. induction a as [|c a IH]; simpl; [done|]. by f_equal. Qed.

Lemma str_app_assoc (a b c : string) : (a +:+ b) +:+ c = a +:+ b +:+ c.
Proof.
  induction a as [|x a IH]; [done|].
  change (String x ((a +:+ b) +:+ c) = String x (a +:+ (b +:+ c))). by rewrite IH.
Qed.

Lemma str_app_nil (a : string) : a +:+ "" = a.
Proof.
  induction a as [|x a IH]; [done|]. change (String x (a +:+ "") = String x a). by rewrite IH.
Qed.

Lemma concat_cons (b : string) bs : String.concat "" (b :: bs) = b +:+ String.concat "" bs.
Proof. destruct bs as [|c bs]; [symmetry; apply str_app_nil|done]. Qed.

(** A second slash in a row changes nothing. *)
Lemma squeeze_double pre cs : squeeze (pre ++ "/"%char :: "/"%char :: cs)
                              = squeeze (pre ++ "/"%char :: cs).
Proof.
  induction pre as [|c pre IH]; [|cbn [app squeeze]; by rewrite IH].
  cbn [app squeeze]. destruct (squeeze cs) as [|d r].
  { by rewrite bool_decide_true. }
  destruct (bool_decide ("/"%char = "/"%char ∧ d = "/"%char)) eqn:E.
  - by rewrite E.
  - by rewrite bool_decide_true.
Qed.

(** Joining with a literal slash and joining as paths name the same file. *)
Lemma resolve_join a b : a ≠ ""%string → resolve (a +:+ "/" +:+ b) = resolve (path_join a b).
Proof.
  intros Ha. unfold path_join.
  destruct (last (list_ascii_of_string a)) as [c|] eqn:El.
  2:{ apply last_None in El. by destruct a. }
  case_bool_decide as Ec; [|done]. subst c. apply last_Some in El as [pre Hpre].
  unfold resolve. rewrite !list_ascii_app, Hpre. f_equal. simpl.
  rewrite <-!app_assoc. simpl. apply squeeze_double.
Qed.
