(* ===== verification/Recovery.v ===== *)
(** * Replaying an undo log (libstoreinst/recovery.cc, [PmemFile::recover])

    The search for the entries of a file and their replay, last entry first.
    The abstract view is [apply_undos]: each logged byte gets the value of the
    earliest entry that covers it. *)

From stdpp Require Import base list sets.
From Stdlib Require Import ZArith Lia.
From S2P Require Import Prelude Memory PMem Log.

(** ** The loop that finds the entries of the file mapped at [[addr, addr+len)] *)

(** The test of the loop on the entry at [e]. *)
Definition entry_in_file (m : mem) (addr len e : Z) : bool :=
  (addr <=? hdr_addr m e) && (hdr_addr m e <? wrap64 (addr + len)).

Fixpoint find_entries (fuel : nat) (m : mem) (base addr len cur_off lim : Z) : list Z :=
  match fuel with
  | O => []
  | S fuel =>
      if cur_off <? lim then
        let e := base + cur_off in
        let rest := find_entries fuel m base addr len
                      (wrap64 (cur_off + (hdr_bytes m e + sizeof_entry))) lim in
        if entry_in_file m addr len e then cur_off :: rest else rest
      else []
  end.

(** Every turn advances by at least the header, so this many turns reach the
    end. *)
Definition scan_fuel (lim : Z) : nat := Z.to_nat (lim / sizeof_entry + 1).

Section Replay.
Context {M : Type} `{PMemOps M}.

(** Write one entry back to the address it was logged from. *)
Definition replay_entry (base : Z) (m : M) (off : Z) : M :=
  let e := base + off in
  let dst := hdr_addr (view m) e in
  let n := hdr_bytes (view m) e in
  drain (flush dst n (cpu_copy dst (entry_content e) n m)).

(** The body of [recover] for one log mapped at [log_ptr], the file being
    mapped at [addr]. *)
Definition recover_log (log_ptr addr len : Z) (m : M) : M :=
  let base := content log_ptr in
  let lim := log_offset (view m) log_ptr in
  let log_entries := find_entries (scan_fuel lim) (view m) base addr len 0 lim in
  foldl (replay_entry base) m (rev log_entries).
End Replay.

(** ** Abstract undo *)

Definition u_covers (u : undo) (x : Z) : bool := in_rng (u_addr u) (blen (u_data u)) x.

Definition undo_one (m : mem) (u : undo) : mem := write_bytes m (u_addr u) (u_data u).

(** Undo the last entry first. *)
Definition apply_undos (m : mem) (us : list undo) : mem := foldl undo_one m (rev us).

(** The value the earliest covering entry recorded. *)
Fixpoint first_value (us : list undo) (x : Z) : option Z :=
  match us with
  | [] => None
  | u :: us => if u_covers u x then Some (nth (Z.to_nat (x - u_addr u)) (u_data u) 0)
               else first_value us x
  end.

Definition covered (us : list undo) (x : Z) : bool := existsb (λ u, u_covers u x) us.

Lemma first_value_covered us x : is_Some (first_value us x) ↔ covered us x = true.
Proof.
  induction us as [|u us IH]; simpl.
  - split; [by intros [? ?]|done].
  - destruct (u_covers u x); simpl; [|done]. split; eauto.
Qed.

Lemma first_value_None us x : covered us x = false → first_value us x = None.
Proof.
  intros Hc. destruct (first_value us x) eqn:E; [|done].
  assert (covered us x = true) by (apply first_value_covered; eauto). congruence.
Qed.

Lemma first_value_app us vs x :
  first_value (us ++ vs) x
  = match first_value us x with Some v => Some v | None => first_value vs x end.
Proof.
  induction us as [|u us IH]; simpl; [done|]. by destruct (u_covers u x).
Qed.

Lemma covered_app us vs x : covered (us ++ vs) x = covered us x || covered vs x.
Proof. apply existsb_app. Qed.

Lemma apply_undos_spec us m x :
  apply_undos m us x = default (m x) (first_value us x).
Proof.
  unfold apply_undos. revert m. induction us as [|u us IH]; intros m; simpl; [done|].
  rewrite foldl_app. simpl. unfold undo_one at 1, write_bytes. unfold u_covers.
  destruct (in_rng (u_addr u) (blen (u_data u)) x); [done|]. apply IH.
Qed.

#[export] Instance apply_undos_proper : Proper ((≡) ==> (=) ==> (≡)) apply_undos.
Proof. intros m1 m2 Hm us _ <- x. rewrite !apply_undos_spec. by rewrite (Hm x). Qed.

(** ** The loop finds the entries of the file *)

(** The entries the file at [[addr, addr+len)] has in the log. *)
Definition in_file (addr len : Z) (u : undo) : bool :=
  (addr <=? u_addr u) && (u_addr u <? wrap64 (addr + len)).

(** Offsets of the entries, from [off] on. *)
Fixpoint offsets (off : Z) (us : list undo) : list (Z * undo) :=
  match us with
  | [] => []
  | u :: us => (off, u) :: offsets (off + usize u) us
  end.

Definition file_offsets (addr len off : Z) (us : list undo) : list (Z * undo) :=
  List.filter (λ p, in_file addr len p.2) (offsets off us).

Lemma find_entries_spec fuel m base addr len off us :
  (length us < fuel)%nat → 0 ≤ off → off + total us < 2 ^ 64 →
  encodes m (base + off) us →
  find_entries fuel m base addr len off (off + total us)
  = map fst (file_offsets addr len off us).
Proof.
  revert fuel off. induction us as [|u us IH]; intros fuel off Hf Hoff Hend Henc.
  - destruct fuel; [simpl in Hf; lia|]. simpl. change (total []) with 0.
    destruct (off <? off + 0) eqn:E; [lia|done].
  - destruct fuel as [|fuel]; [simpl in Hf; lia|].
    destruct Henc as (Ha & Hb & Hr & Henc). rewrite total_cons in *.
    pose proof (usize_pos u) as Hu. pose proof (total_nonneg us) as HT.
    simpl. destruct (off <? off + (usize u + total us)) eqn:E; [|lia].
    rewrite Hb. replace (blen (u_data u) + sizeof_entry) with (usize u)
      by (unfold usize; lia).
    rewrite wrap_small by lia.
    replace (off + (usize u + total us)) with (off + usize u + total us) by lia.
    rewrite (IH fuel (off + usize u)).
    + unfold file_offsets, entry_in_file, in_file. simpl. rewrite Ha.
      by destruct ((addr <=? u_addr u) && (u_addr u <? wrap64 (addr + len))).
    + simpl in Hf. lia.
    + lia.
    + lia.
    + by rewrite Z.add_assoc.
Qed.

(** The number of turns [scan_fuel] allows is enough for any encoded log. *)
Lemma length_total us : 10 * Z.of_nat (length us) ≤ total us.
Proof.
  induction us as [|u us IH]; simpl length; [done|].
  rewrite total_cons. pose proof (usize_pos u). lia.
Qed.

Lemma scan_fuel_enough us : (length us < scan_fuel (total us))%nat.
Proof.
  unfold scan_fuel, sizeof_entry. pose proof (length_total us).
  pose proof (Z.div_mod (total us) 10 ltac:(lia)).
  pose proof (Z.mod_pos_bound (total us) 10 ltac:(lia)). lia.
Qed.

(** The entry at its offset reads back. *)
Lemma encodes_offsets m base off us o u :
  encodes m (base + off) us → (o, u) ∈ offsets off us →
  hdr_addr m (base + o) = u_addr u ∧ hdr_bytes m (base + o) = blen (u_data u)
  ∧ read_bytes m (entry_content (base + o)) (length (u_data u)) = u_data u
  ∧ off ≤ o ∧ o + usize u ≤ off + total us.
Proof.
  revert off. induction us as [|v us IH]; intros off Henc Hin; [set_solver|].
  simpl in Hin. destruct Henc as (Ha & Hb & Hr & Henc). rewrite total_cons.
  pose proof (usize_pos v). pose proof (total_nonneg us).
  apply elem_of_cons in Hin as [[= -> ->]|Hin].
  - split_and!; try done; lia.
  - rewrite <-Z.add_assoc in Henc. destruct (IH _ Henc Hin) as (?&?&?&?&?).
    split_and!; try done; lia.
Qed.

(** ** The replay is the abstract undo *)

Section ReplaySpec.
Context {M : Type} `{PMemLaws M}.
Implicit Types m : M.

(** The entry at [off] reads as [u]. *)
Definition reads_as (m : mem) (base off : Z) (u : undo) : Prop :=
  hdr_addr m (base + off) = u_addr u ∧ hdr_bytes m (base + off) = blen (u_data u)
  ∧ read_bytes m (entry_content (base + off)) (length (u_data u)) = u_data u.

Lemma reads_as_ext (m1 m2 : mem) base off u :
  (∀ x, base + off ≤ x < base + off + usize u → m1 x = m2 x) →
  reads_as m1 base off u → reads_as m2 base off u.
Proof.
  intros Hx Hr. assert (encodes m1 (base + off) [u]) as He by (simpl; unfold reads_as in *; tauto).
  apply (encodes_ext m1 m2) in He.
  - simpl in He. unfold reads_as. tauto.
  - rewrite total_cons. change (total []) with 0. intros. apply Hx. lia.
Qed.

Lemma replay_entry_view base m off u :
  reads_as (view m) base off u →
  view (replay_entry base m off) ≡ undo_one (view m) u.
Proof.
  intros (Ha & Hb & Hr) x. unfold replay_entry. rewrite Ha, Hb.
  rewrite view_drain, view_flush. unfold cpu_copy. rewrite view_store.
  unfold undo_one. unfold blen at 1. rewrite Nat2Z.id. by rewrite Hr.
Qed.

Lemma replay_entry_durable base m off u x :
  reads_as (view m) base off u →
  durable m x ∨ u_covers u x = true → durable (replay_entry base m off) x.
Proof.
  intros (Ha & Hb & Hr) Hx. unfold replay_entry. rewrite Ha, Hb. unfold u_covers in Hx.
  destruct (in_rng (u_addr u) (blen (u_data u)) x) eqn:E.
  - apply durable_drain_staged, staged_flush, flushed_in. by apply in_rng_spec.
  - destruct Hx as [Hx|]; [|done]. apply durable_drain, durable_flush, durable_store; [|done].
    rewrite blen_read_bytes. unfold blen in *. by rewrite Nat2Z.id.
Qed.

Definition off_log (base T : Z) (u : undo) : Prop :=
  rng_disj (u_addr u) (blen (u_data u)) base T.

Lemma replay_fold base T (ps : list (Z * undo)) m :
  (∀ o u, (o, u) ∈ ps →
     reads_as (view m) base o u ∧ off_log base T u ∧ 0 ≤ o ∧ o + usize u ≤ T) →
  let m' := foldl (replay_entry base) m (map fst ps) in
  view m' ≡ foldl undo_one (view m) (map snd ps)
  ∧ ∀ x, durable m x ∨ covered (map snd ps) x = true → durable m' x.
Proof.
  revert m. induction ps as [|[o u] ps IH]; intros m Hps; simpl.
  { split; [done|]. by intros x [?|?]. }
  destruct (Hps o u) as (Hr & Ho & Ho1 & Ho2); [set_solver|].
  pose proof (replay_entry_view base m o u Hr) as Hv.
  destruct (IH (replay_entry base m o)) as [IHv IHd].
  { intros o' u' Hin. destruct (Hps o' u') as (Hr' & Hl' & Hb1 & Hb2); [set_solver|].
    split_and!; try done. apply (reads_as_ext (view m)); [|done].
    intros x Hx. rewrite (Hv x). unfold undo_one, write_bytes.
    unfold off_log, rng_disj in Ho. rng. }
  split.
  - rewrite IHv. clear -Hv H0. revert Hv. generalize (view (replay_entry base m o)).
    intros m1 Hv. generalize dependent (undo_one (view m) u). intros m2.
    revert m1 m2. induction (map snd ps) as [|v vs IH]; intros m1 m2 Hv; simpl; [done|].
    apply IH. intros x. unfold undo_one, write_bytes. by rewrite (Hv x).
  - intros x Hx. apply IHd. unfold covered in *. simpl in Hx.
    destruct (existsb _ (map snd ps)) eqn:Eps; [by right|]. left.
    apply (replay_entry_durable base m o u); [done|].
    rewrite orb_false_r in Hx. done.
Qed.

Lemma map_snd_file_offsets addr len off us :
  map snd (file_offsets addr len off us) = List.filter (in_file addr len) us.
Proof.
  unfold file_offsets. revert off. induction us as [|u us IH]; intros off; simpl; [done|].
  destruct (in_file addr len u); simpl; by rewrite IH.
Qed.

(** A log area that holds the entries [us], none of which targets the area. *)
Record log_image (m : mem) (log_ptr : Z) (us : list undo) : Prop := {
  li_off : log_offset m log_ptr = total us;
  li_enc : encodes m (content log_ptr) us;
  li_end : total us < 2 ^ 64;
  li_disj u : u ∈ us → off_log (content log_ptr) (total us) u;
}.

Lemma elem_of_filter_offsets addr len off us o u :
  (o, u) ∈ file_offsets addr len off us → (o, u) ∈ offsets off us.
Proof.
  unfold file_offsets. rewrite !list_elem_of_In. intros Hin. by apply filter_In in Hin as [? _].
Qed.

Lemma offsets_elem off us o u : (o, u) ∈ offsets off us → u ∈ us.
Proof.
  revert off. induction us as [|v us IH]; intros off; simpl; [set_solver|].
  rewrite !elem_of_cons. intros [[= _ ->]|Hin]; [by left|]. right. by eapply IH.
Qed.

Lemma covered_rev us x : covered (rev us) x = covered us x.
Proof.
  induction us as [|u us IH]; simpl; [done|]. rewrite covered_app, IH. simpl.
  rewrite orb_false_r. apply orb_comm.
Qed.

Lemma recover_log_spec log_ptr addr len m us :
  log_image (view m) log_ptr us →
  let fs := List.filter (in_file addr len) us in
  let m' := recover_log log_ptr addr len m in
  view m' ≡ apply_undos (view m) fs
  ∧ ∀ x, durable m x ∨ covered fs x = true → durable m' x.
Proof.
  intros [Hoff Henc Hend Hdisj]. cbv zeta. unfold recover_log. rewrite Hoff.
  assert (encodes (view m) (content log_ptr + 0) us) as Henc0 by by rewrite Z.add_0_r.
  pose proof (find_entries_spec (scan_fuel (total us)) (view m) (content log_ptr)
    addr len 0 us (scan_fuel_enough us) ltac:(lia) ltac:(lia) Henc0) as Hfind.
  rewrite Z.add_0_l in Hfind. rewrite Hfind, <-map_rev.
  destruct (replay_fold (content log_ptr) (total us) (rev (file_offsets addr len 0 us)) m)
    as [Hv Hd].
  { intros o u Hin. rewrite list_elem_of_In, <-in_rev, <-list_elem_of_In in Hin.
    apply elem_of_filter_offsets in Hin.
    destruct (encodes_offsets _ _ _ _ _ _ Henc0 Hin) as (?&?&?&?&?).
    unfold reads_as. split_and!; try done; try lia.
    apply Hdisj. by eapply offsets_elem. }
  cbv zeta in Hv, Hd. rewrite (map_rev snd), map_snd_file_offsets in Hv, Hd. split; [exact Hv|].
  intros x Hx. apply Hd. by rewrite covered_rev.
Qed.
End ReplaySpec.

(** ** Properties *)

(** C12: Recovery of one log is the abstract undo: the loop finds exactly the
    entries whose address lies in the file, and replaying them last to first
    gives every covered byte the value of the earliest entry that covers it; all
    replayed bytes are durable.  The fuel of the scan is enough for any log. *)
Theorem recover_log_refines_undo {M} `{PMemLaws M} log_ptr addr len (m : M) us :
  log_image (view m) log_ptr us →
  let fs := List.filter (in_file addr len) us in
  let m' := recover_log log_ptr addr len m in
  (∀ x, view m' x = match first_value fs x with Some v => v | None => view m x end)
  ∧ ∀ x, durable m x ∨ covered fs x = true → durable m' x.
Proof.
  intros Hi. destruct (recover_log_spec log_ptr addr len m us Hi) as [Hv Hd].
  split; [|exact Hd]. intros x. rewrite (Hv x), apply_undos_spec. by destruct (first_value _ x).
Qed.
