(* ===== verification/Snapshot.v ===== *)
(** * snapshot(): committing the logged locations to the backing file
      (libstoreinst/libc_wrappers.cc)

    [sys] is the state of the library: its globals, the registered thread logs
    and the machine.  [snapshot] is the whole handler behind msync, fsync and
    fdatasync.  The theorems relate it to the abstract operation "make the
    backing file equal to the page cache". *)

From stdpp Require Import base list sets strings sorting.
From Stdlib Require Import ZArith Lia.
From S2P Require Import Prelude Memory PMem Log.

(** ** Geometry of one copy *)

(** [__builtin_clzl] on a 64-bit word (undefined at 0). *)
Definition builtin_clzl (x : Z) : Z := 63 - Z.log2 x.

Definition previousPowerOfTwo (x : Z) : Z := (8 * 8 - 1) - builtin_clzl x.

Record copy_plan := mkPlan {
  cp_stream : bool; (* streaming_wr, otherwise real_memcpy + flush *)
  cp_dst : Z;
  cp_src : Z;
  cp_len : Z;
}.

(** [align_to] of an entry of [bytes] bytes. *)
Definition align_to (bytes : Z) : Z :=
  let prev_pwr_2 := previousPowerOfTwo bytes + 1 in
  let al := if 9 <? prev_pwr_2 then 9 else prev_pwr_2 in
  if popcount bytes =? 1 then al - 1 else al.

(** Where and how an entry is copied. *)
Definition plan_copy (cfg : config) (pm_back start_addr : Z) (e : log_entry_lean_t)
    : copy_plan :=
  let bytes := le_bytes e in
  let offset := wrap64 (le_addr e - start_addr) in
  let dst_addr := wrap64 (pm_back + offset) in
  let str_wr_allowed :=
    if CXLBUF_ALIGN_SNAPSHOT_WRITES cfg then true
    else (popcount bytes =? 1) && (dst_addr mod bytes =? 0) in
  if str_wr_allowed && (8 <=? bytes) then
    let al := align_to bytes in
    let dst_addr_aligned := Z.shiftl (Z.shiftr dst_addr al) al in
    let modulo := Z.land dst_addr (Z.shiftl 1 al - 1) in
    let dst_addr_aligned := if modulo =? 0 then dst_addr else dst_addr_aligned in
    let new_sz_pfx_al := bytes + (dst_addr - dst_addr_aligned) in
    let new_sz_sfx_al :=
      if bytes <=? Z.shiftl 1 al then Z.shiftl 1 al
      else (bytes / 256 + (if bytes mod 256 =? 0 then 0 else 1)) * 256 in
    let new_sz := if dst_addr =? dst_addr_aligned then new_sz_sfx_al else new_sz_pfx_al in
    if CXLBUF_ALIGN_SNAPSHOT_WRITES cfg
    then mkPlan true dst_addr_aligned (wrap64 (dst_addr_aligned - pm_back + start_addr)) new_sz
    else mkPlan true dst_addr (le_addr e) new_sz
  else mkPlan false dst_addr (le_addr e) bytes.

(** The snapshot's range test, on unsigned words. *)
Definition in_snapshot (start diff : Z) (e : log_entry_lean_t) : bool :=
  wrap64 (le_addr e - start) <=? diff.

(** ** The state of the library *)

Record addr_range_t := mkRange { r_start : Z; r_end : Z }.

Record fd_metadata_t := mkFdMeta { fm_fd : Z; fm_range : addr_range_t; fm_fpath : string }.

(** Calls made to the libcxlfs controller. *)
Inductive ctrlr_call := call_resize_cache (pg_cnt : Z) | call_reset_stats | call_flush_cache.

Definition CACHE_SIZE : Z := 128 * 2 ^ 20.
Definition MS_FORCE_SNAPSHOT : Z := 32.

(** Globals that the handlers below only read (map_backing_file sets
    [backing_file_start]). *)
Record globals := mkGlobals {
  startTracking : bool;
  cxlModeEnabled : bool;
  nopMsync : bool;
  crashOnCommit : bool;
  start_addr : Z;
  end_addr : Z;
  backing_file_start : Z;
  ctrlr_present : bool; (* nvsl::libcxlfs::ctrlr is not null *)
}.

(** Counters, and the calls issued to the controller. *)
Record tally := mkTally {
  snapshots : Z;
  real_msyncs : Z;
  t_stats : Stats;
  tx_log_count_dist : list Z;
  ctrlr_calls : list ctrlr_call;
}.

Definition count_snapshot (t : tally) : tally :=
  mkTally (snapshots t + 1) (real_msyncs t) (t_stats t) (tx_log_count_dist t) (ctrlr_calls t).
Definition count_real_msync (t : tally) : tally :=
  mkTally (snapshots t) (real_msyncs t + 1) (t_stats t) (tx_log_count_dist t) (ctrlr_calls t).
Definition put_stats (st : Stats) (t : tally) : tally :=
  mkTally (snapshots t) (real_msyncs t) st (tx_log_count_dist t) (ctrlr_calls t).
Definition add_tx_log_count (n : Z) (t : tally) : tally :=
  mkTally (snapshots t) (real_msyncs t) (t_stats t) (tx_log_count_dist t ++ [n]) (ctrlr_calls t).
Definition call_ctrlr (cs : list ctrlr_call) (t : tally) : tally :=
  mkTally (snapshots t) (real_msyncs t) (t_stats t) (tx_log_count_dist t) (ctrlr_calls t ++ cs).

Section State.
Context {M : Type}.

Record sys := mkSys {
  s_g : globals;
  s_pm : M;
  s_tls_logs : option (list Log); (* a null pointer until first used *)
  s_storeInstEnabled : bool;
  s_firstSnapshot : bool;
  s_mapped_addr : list (Z * fd_metadata_t); (* in iteration order *)
  s_mmap_start : Z;
  s_tally : tally;
}.

Definition put_pm (m : M) (s : sys) : sys :=
  mkSys (s_g s) m (s_tls_logs s) (s_storeInstEnabled s) (s_firstSnapshot s)
    (s_mapped_addr s) (s_mmap_start s) (s_tally s).
Definition put_logs (ls : option (list Log)) (s : sys) : sys :=
  mkSys (s_g s) (s_pm s) ls (s_storeInstEnabled s) (s_firstSnapshot s)
    (s_mapped_addr s) (s_mmap_start s) (s_tally s).
Definition put_storeInst (b : bool) (s : sys) : sys :=
  mkSys (s_g s) (s_pm s) (s_tls_logs s) b (s_firstSnapshot s)
    (s_mapped_addr s) (s_mmap_start s) (s_tally s).
Definition first_snapshot_done (s : sys) : sys :=
  mkSys (s_g s) (s_pm s) (s_tls_logs s) (s_storeInstEnabled s) false
    (s_mapped_addr s) (s_mmap_start s) (s_tally s).
Definition put_mapped (ms : list (Z * fd_metadata_t)) (s : sys) : sys :=
  mkSys (s_g s) (s_pm s) (s_tls_logs s) (s_storeInstEnabled s) (s_firstSnapshot s)
    ms (s_mmap_start s) (s_tally s).
Definition upd_tally (f : tally → tally) (s : sys) : sys :=
  mkSys (s_g s) (s_pm s) (s_tls_logs s) (s_storeInstEnabled s) (s_firstSnapshot s)
    (s_mapped_addr s) (s_mmap_start s) (f (s_tally s)).

Definition logs_of (s : sys) : list Log := default [] (s_tls_logs s).
Definition put_log (i : nat) (l : Log) (s : sys) : sys :=
  put_logs (Some (<[i := l]> (logs_of s))) s.
End State.
Arguments sys M : clear implicits.

(** ** The loop over the log list *)

Section Loop.
Context {M : Type} `{PMemOps M}.

Record loop_st := mkLoop {
  applied_cnt : Z;
  entry_cnt : Z;
  total_proc : Z;
  bytes_flushed : Z;
  ls_stats : Stats;
  ls_pm : M;
}.

Definition do_copy (p : copy_plan) (m : M) : M :=
  if cp_stream p then streaming_wr (cp_dst p) (cp_src p) (cp_len p) m
  else flush (cp_dst p) (cp_len p) (cpu_copy (cp_dst p) (cp_src p) (cp_len p) m).

Definition copy_stats (cfg : config) (p : copy_plan) (st : Stats) : Stats :=
  if RELEASE cfg then st
  else
    let st := bump total_pers_log_entries 1 st in
    if cp_stream p then bump total_bytes_wr_strm (cp_len p) (bump total_bytes_wr (cp_len p) st)
    else bump total_bytes_wr (cp_len p) st.

(** One turn, and whether it ends the loop. *)
Definition loop_body (cfg : config) (g : globals) (start diff : Z) (skip_entry : bool)
    (e : log_entry_lean_t) (st : loop_st) : loop_st * bool :=
  let hit := in_snapshot start diff e in
  let entry_cnt' := if hit then entry_cnt st + 1 else entry_cnt st in
  if hit && skip_entry then
    let stats' := if RELEASE cfg then ls_stats st else bump dup_log_entries 1 (ls_stats st) in
    if le_addr e =? 0 then
      (mkLoop (applied_cnt st + 1) entry_cnt' (total_proc st) (bytes_flushed st) stats'
         (ls_pm st), true)
    else
      (mkLoop (applied_cnt st + 1) entry_cnt' (total_proc st + 1)
         (bytes_flushed st + le_bytes e) stats' (ls_pm st), false)
  else if hit then
    let p := plan_copy cfg (backing_file_start g) (start_addr g) e in
    (mkLoop (applied_cnt st + 1) entry_cnt' (total_proc st + 1)
       (bytes_flushed st + le_bytes e) (copy_stats cfg p (ls_stats st))
       (do_copy p (ls_pm st)), false)
  else if le_addr e =? 0 then (st, true)
  else
    (mkLoop (applied_cnt st) entry_cnt' (total_proc st + 1)
       (bytes_flushed st + le_bytes e) (ls_stats st) (ls_pm st), false).

Definition same_entry (prev : option log_entry_lean_t) (e : log_entry_lean_t) : bool :=
  match prev with
  | None => false
  | Some p => (le_addr e =? le_addr p) && (le_bytes e =? le_bytes p)
  end.

(** LOG_FORMAT_VOLATILE: the turns over the address list. *)
Fixpoint run_entries (cfg : config) (g : globals) (start diff : Z)
    (prev : option log_entry_lean_t) (es : list log_entry_lean_t) (st : loop_st)
    : loop_st :=
  match es with
  | [] => st
  | e :: es =>
      let '(st', brk) := loop_body cfg g start diff (same_entry prev e) e st in
      if brk then st' else run_entries cfg g start diff (Some e) es st'
  end.

(** LOG_FORMAT_NON_VOLATILE: the turns over the entries of the log area, from
    [it] to [fin]. *)
Fixpoint run_area (fuel : nat) (cfg : config) (g : globals) (start diff fin it : Z)
    (st : loop_st) : loop_st :=
  match fuel with
  | O => st
  | S fuel =>
      if it =? fin then st
      else
        let m := view (ls_pm st) in
        let e := mkLean (hdr_addr m it) (hdr_bytes m it) in
        let '(st', brk) := loop_body cfg g start diff false e st in
        if brk then st'
        else run_area fuel cfg g start diff fin (iter_next (view (ls_pm st')) it) st'
  end.

(** [mergeable_entries], counted in a build that is not a release. *)
Fixpoint count_mergeable (prev : option log_entry_lean_t) (es : list log_entry_lean_t) : Z :=
  match es with
  | [] => 0
  | e :: es =>
      (match prev with
       | Some p => if le_addr e =? wrap64 (le_addr p + le_bytes p) then 1 else 0
       | None => 0
       end) + count_mergeable (Some e) es
  end.
End Loop.
Arguments loop_st M : clear implicits.

(** [std::sort] by address, used on lists of more than ten entries. *)
Definition by_addr (a b : log_entry_lean_t) : Prop := le_addr a ≤ le_addr b.
#[export] Instance by_addr_dec : RelDecision by_addr.
Proof. intros a b. unfold by_addr. apply _. Defined.

Definition sort_entries (es : list log_entry_lean_t) : list log_entry_lean_t :=
  if (10 <? length es)%nat then merge_sort by_addr es else es.

(** ** The handler *)

Section Handler.
Context {M : Type} `{PMemOps M}.
(** The file system's and the kernel's part. *)
Context (file_size : string → Z) (real_msync : Z → Z → Z → Z).
Context (cfg : config).

Definition mapped_at (addr : Z) (p : Z * fd_metadata_t) : bool :=
  (r_start (fm_range p.2) <=? addr) && (addr <? r_end (fm_range p.2)).

(** First snapshot: copy the mapped region that holds [addr] to the backing
    file, and tell the controller. *)
Definition first_snapshot (addr : Z) : cmd (sys M) unit := λ s,
  if s_firstSnapshot s then
    let s1 := first_snapshot_done s in
    let s2 :=
      match List.find (mapped_at addr) (s_mapped_addr s1) with
      | Some (_, md) =>
          let rs := r_start (fm_range md) in
          let off := wrap64 (rs - 0x10000000000) in
          let dst := wrap64 (backing_file_start (s_g s1) + off) in
          let memcpy_sz := if decide (fm_fpath md = "")
                           then wrap64 (r_end (fm_range md) - rs)
                           else file_size (fm_fpath md) in
          put_pm (cpu_copy dst rs memcpy_sz (s_pm s1)) s1
      | None => s1
      end in
    Ret tt (if ctrlr_present (s_g s2)
            then upd_tally (call_ctrlr [call_resize_cache (Z.shiftr CACHE_SIZE 12);
                                        call_reset_stats]) s2
            else s2)
  else Ret tt s.

(** Run a command of the machine inside the state of the library. *)
Definition on_pm {A} (c : cmd M A) : cmd (sys M) A := λ s,
  match c (s_pm s) with
  | Ret a m => Ret a (put_pm m s)
  | Exit code m => Exit code (put_pm m s)
  | Trap m => Trap (put_pm m s)
  end.

(** Flush the log and mark it active. *)
Definition begin_commit (l : Log) : cmd M unit :=
  do! modify (flush_all l) in
  do! modify (cpu_store64 (log_area l + 8) 0) in
  set_state ACTIVE true l.

(** The loop of one log on the machine [m]; also the list it went over. *)
Definition run_log (g : globals) (l : Log) (addr bytes : Z) (st : Stats) (m : M)
    : Log * loop_st M :=
  let start := addr in
  let diff := wrap64 (wrap64 (addr + bytes) - start) in
  if LOG_FORMAT_VOLATILE cfg then
    let es := sort_entries (entries l) in
    let st := if RELEASE cfg then st
              else bump mergeable_entries (count_mergeable None es) st in
    (mkLog (log_area l) (last_log l) (last_flush_offset l) es,
     run_entries cfg g start diff None es (mkLoop 0 0 0 0 st m))
  else
    let la := log_area l in
    (l, run_area (Z.to_nat (log_offset (view m) la + 1)) cfg g start diff
          (cend (view m) la) (cbegin la) (mkLoop 0 0 0 0 st m)).

(** The rest of the body for one log: the copies, the drain, the log cleared. *)
Definition commit_log (addr bytes : Z) (i : nat) (l : Log) : cmd (sys M) unit := λ s,
  let '(l', st) := run_log (s_g s) l addr bytes (t_stats (s_tally s)) (s_pm s) in
  let s1 := upd_tally (put_stats (ls_stats st)) (put_log i l' (put_pm (ls_pm st) s)) in
  let s2 := if RELEASE cfg then s1
            else upd_tally (add_tx_log_count (total_proc st)) s1 in
  if CXLBUF_TESTING_GOODIES cfg && crashOnCommit (s_g s2) then Exit 1 s2
  else
    (do! on_pm (modify drain) in
     do! (if applied_cnt st =? entry_cnt st then on_pm (set_state EMPTY false l')
          else exit_with 1) in
     λ s, let '(l'', m) := clear cfg l' (s_pm s) in
          Ret tt (put_log i l'' (put_pm m s))) s2.

(** The body of the loop over [tls_logs]. *)
Definition snapshot_log (addr bytes flags : Z) (i : nat) : cmd (sys M) unit := λ s,
  match logs_of s !! i with
  | None => Ret tt s
  | Some l =>
      (do! on_pm (begin_commit l) in
       do! (λ s, if negb (Z.land flags MS_FORCE_SNAPSHOT =? 0) && negb (s_storeInstEnabled s)
                 then Exit 1 s else Ret tt s) in
       do! first_snapshot addr in
       commit_log addr bytes i l) s
  end.

Definition snapshot (addr bytes flags : Z) : cmd (sys M) Z :=
  do! modify (upd_tally count_snapshot) in
  λ s,
    if nopMsync (s_g s) then Ret 0 s
    else if NO_PERSIST_OPS cfg || NO_CHECK_MEMORY cfg then Ret 0 s
    else
      (do! modify (λ s, put_logs (Some (logs_of s)) s) in
       do! (λ s,
         if s_storeInstEnabled s then
           for_each (seq 0 (length (logs_of s))) (snapshot_log addr bytes flags) s
         else
           (do! modify (upd_tally count_real_msync) in
            let pg_aligned := Z.shiftl (Z.shiftr addr 12) 12 in
            if real_msync pg_aligned bytes flags =? -1 then exit_with 1 else ret tt) s) in
       ret 0) s.
End Handler.

(** ** Geometry: every copy is a window of the region *)

(** The page cache [[start_addr, start_addr + len)] and the backing file
    [[pm_back, pm_back + len)]: apart, aligned to 512 bytes, below [2^63]. *)
Record region (pm_back start_addr len : Z) : Prop := {
  rg_start : 0 < start_addr;
  rg_back : 0 < pm_back;
  rg_len : 0 ≤ len;
  rg_start_end : start_addr + len < 2 ^ 63;
  rg_back_end : pm_back + len < 2 ^ 63;
  rg_align : pm_back mod 512 = 0;
  rg_len_align : len mod 512 = 0;
  rg_disj : rng_disj start_addr len pm_back len;
}.

(** The entry lies in the page cache. *)
Definition entry_in (start_addr len : Z) (e : log_entry_lean_t) : Prop :=
  0 ≤ le_bytes e ∧ start_addr ≤ le_addr e ∧ le_addr e + le_bytes e ≤ start_addr + len.

#[export] Instance entry_in_dec s n e : Decision (entry_in s n e).
Proof. unfold entry_in. apply _. Defined.

Lemma previousPowerOfTwo_log2 x : previousPowerOfTwo x = Z.log2 x.
Proof. unfold previousPowerOfTwo, builtin_clzl. lia. Qed.

(** The alignment is a power of two of at most 512 bytes; a size that exceeds it
    is rounded to 256 bytes. *)
Lemma align_to_spec bytes :
  8 ≤ bytes →
  3 ≤ align_to bytes ≤ 9 ∧ (2 ^ align_to bytes < bytes → 8 ≤ align_to bytes).
Proof.
  intros Hb. unfold align_to. rewrite previousPowerOfTwo_log2.
  assert (3 ≤ Z.log2 bytes) as Hl by (change 3 with (Z.log2 8); by apply Z.log2_le_mono).
  destruct (Z.log2_spec bytes ltac:(lia)) as [H1 H2].
  destruct (9 <? Z.log2 bytes + 1) eqn:E9; destruct (popcount bytes =? 1) eqn:Ep.
  - apply Z.ltb_lt in E9. change (9 - 1) with 8. lia.
  - apply Z.ltb_lt in E9. lia.
  - apply Z.ltb_ge in E9. split; [lia|].
    apply Z.eqb_eq, popcount_1_pow2 in Ep as (k & Hk & ->).
    rewrite Z.log2_pow2 by done. replace (k + 1 - 1) with k by lia. lia.
  - apply Z.ltb_ge in E9. split; [lia|]. replace (Z.log2 bytes + 1) with (Z.succ (Z.log2 bytes)) by lia. lia.
Qed.

Lemma pow2_divides_512 k : 0 ≤ k ≤ 9 → (2 ^ k | 512).
Proof.
  intros Hk. exists (2 ^ (9 - k)). rewrite <-Z.pow_add_r by lia.
  replace (9 - k + k) with 9 by lia. reflexivity.
Qed.

Lemma shift_down a k : 0 ≤ k → Z.shiftl (Z.shiftr a k) k = a - a mod 2 ^ k.
Proof.
  intros Hk. rewrite Z.shiftl_mul_pow2, Z.shiftr_div_pow2 by done.
  pose proof (Z.div_mod a (2 ^ k) ltac:(lia)). lia.
Qed.

Lemma low_bits a k : 0 ≤ k → Z.land a (Z.shiftl 1 k - 1) = a mod 2 ^ k.
Proof.
  intros Hk. rewrite Z.shiftl_1_l, <-Z.land_ones by done.
  f_equal. rewrite Z.ones_equiv. lia.
Qed.

(** Rounding up to 256 bytes. *)
Lemma round_256 bytes :
  0 ≤ bytes →
  let r := (bytes / 256 + (if bytes mod 256 =? 0 then 0 else 1)) * 256 in
  bytes ≤ r < bytes + 256 ∧ r mod 256 = 0.
Proof.
  intros Hb. cbv zeta. split; [|apply Z.mod_mul; lia].
  pose proof (Z.div_mod bytes 256 ltac:(lia)).
  pose proof (Z.mod_pos_bound bytes 256 ltac:(lia)).
  destruct (bytes mod 256 =? 0) eqn:E; lia.
Qed.

(** An aligned block that starts inside an aligned region ends inside it. *)
Lemma block_inside k o len : 0 < k → (k | len) → (k | o) → o < len → o + k ≤ len.
Proof.
  intros Hk [a ->] [b ->] Hl. assert (b < a) by (by apply (Z.mul_lt_mono_pos_r k)). nia.
Qed.

(** So does a block rounded up to the alignment. *)
Lemma rounded_inside k o n r len :
  0 < k → (k | len) → (k | o) → (k | r) → n ≤ r < n + k → o + n ≤ len → o + r ≤ len.
Proof.
  intros Hk [a ->] [b ->] [c ->] Hr Hl.
  assert (b + c - 1 < a) by (apply (Z.mul_lt_mono_pos_r k); lia). nia.
Qed.

(** [window p back start o]: the copy moves the bytes from offset [o] of the
    page cache to offset [o] of the backing file. *)
Definition window (p : copy_plan) (pm_back start_addr o : Z) : Prop :=
  cp_dst p = pm_back + o ∧ cp_src p = start_addr + o.

Section Geometry.
Context (cfg : config) (pm_back start_addr len : Z) (Hrg : region pm_back start_addr len).

(** The copy of an entry of the region: same offset on both sides, covering
    the entry, inside the region. *)
Definition plan_ok (e : log_entry_lean_t) (p : copy_plan) (o : Z) : Prop :=
  window p pm_back start_addr o
  ∧ 0 ≤ o ≤ le_addr e - start_addr
  ∧ le_addr e + le_bytes e - start_addr ≤ o + cp_len p ≤ len.

Lemma plan_ok_exact e s :
  entry_in start_addr len e →
  plan_ok e (mkPlan s (pm_back + (le_addr e - start_addr)) (le_addr e) (le_bytes e))
    (le_addr e - start_addr).
Proof. intros (H1 & H2 & H3). unfold plan_ok, window. simpl. lia. Qed.

(** The aligned copy, by its destination [d], its alignment [k] and the
    rounded size. *)
Lemma plan_ok_aligned e k sz :
  entry_in start_addr len e → 0 < le_bytes e → 0 ≤ k ≤ 9 →
  let d := pm_back + (le_addr e - start_addr) in
  (d mod 2 ^ k ≠ 0 → sz = le_bytes e + d mod 2 ^ k) →
  (d mod 2 ^ k = 0 →
     (le_bytes e ≤ 2 ^ k ∧ sz = 2 ^ k) ∨
     (8 ≤ k ∧ le_bytes e ≤ sz < le_bytes e + 256 ∧ sz mod 256 = 0)) →
  plan_ok e (mkPlan true (d - d mod 2 ^ k) (start_addr + (d - d mod 2 ^ k - pm_back)) sz)
    (d - d mod 2 ^ k - pm_back).
Proof.
  intros (H1 & H2 & H3) Hpos Hk d Hpfx Hsfx. destruct Hrg as [? ? ? ? ? Hal Hla _].
  assert ((2 ^ k | pm_back)) as Hdb.
  { apply (Z.divide_trans _ 512); [by apply pow2_divides_512|]. by apply Z.mod_divide. }
  assert ((2 ^ k | len)) as Hdl.
  { apply (Z.divide_trans _ 512); [by apply pow2_divides_512|]. by apply Z.mod_divide. }
  pose proof (Z.mod_pos_bound d (2 ^ k) ltac:(lia)) as Hm.
  assert ((2 ^ k | d - d mod 2 ^ k - pm_back)) as Hdo.
  { apply Z.divide_sub_r; [|done]. exists (d / 2 ^ k).
    pose proof (Z.div_mod d (2 ^ k) ltac:(lia)). lia. }
  assert (0 ≤ d - d mod 2 ^ k - pm_back) as Hge.
  { destruct Hdb as [b Eb]. pose proof (Z.div_mod d (2 ^ k) ltac:(lia)) as Hdm.
    assert (b ≤ d / 2 ^ k) by (apply Z.div_le_lower_bound; lia). nia. }
  unfold plan_ok, window. simpl. split; [lia|]. split; [lia|].
  destruct (decide (d mod 2 ^ k = 0)) as [E|E].
  - rewrite E in *. rewrite Z.sub_0_r in *. destruct (Hsfx eq_refl) as [[Hle ->]|(Hk8 & Hr & Hm256)].
    + split; [lia|]. apply block_inside; lia || done.
    + split; [lia|]. assert ((256 | 2 ^ k)) as H256.
      { exists (2 ^ (k - 8)). change 256 with (2 ^ 8). rewrite <-Z.pow_add_r by lia. f_equal. lia. }
      apply (rounded_inside 256 _ (le_bytes e)); [lia|..|lia|lia].
      * by apply (Z.divide_trans _ (2 ^ k)).
      * by apply (Z.divide_trans _ (2 ^ k)).
      * by apply Z.mod_divide.
  - rewrite (Hpfx E). lia.
Qed.

Lemma dst_of_entry e :
  entry_in start_addr len e →
  wrap64 (pm_back + wrap64 (le_addr e - start_addr)) = pm_back + (le_addr e - start_addr).
Proof.
  intros (H1 & H2 & H3). destruct Hrg. rewrite (wrap_small 64 (le_addr e - start_addr)) by lia.
  apply wrap_small. lia.
Qed.

(** With CXLBUF_ALIGN_SNAPSHOT_WRITES. *)
Lemma plan_copy_align e :
  CXLBUF_ALIGN_SNAPSHOT_WRITES cfg = true → entry_in start_addr len e →
  ∃ o, plan_ok e (plan_copy cfg pm_back start_addr e) o.
Proof.
  intros Hcfg Hin. unfold plan_copy. rewrite Hcfg, (dst_of_entry e Hin).
  set (d := pm_back + (le_addr e - start_addr)). simpl.
  destruct (8 <=? le_bytes e) eqn:E8; [|eexists; by apply plan_ok_exact].
  apply Z.leb_le in E8. destruct (align_to_spec _ E8) as [Ha1 Ha2].
  set (k := align_to (le_bytes e)) in *.
  rewrite low_bits, shift_down, Z.shiftl_1_l by lia.
  set (da := if d mod 2 ^ k =? 0 then d else d - d mod 2 ^ k).
  assert (da = d - d mod 2 ^ k) as ->.
  { unfold da. destruct (d mod 2 ^ k =? 0) eqn:E; [apply Z.eqb_eq in E; lia|done]. }
  set (sz := if d =? _ then _ else _). exists (d - d mod 2 ^ k - pm_back).
  destruct (round_256 (le_bytes e) ltac:(lia)) as [Hr1 Hr2].
  assert (plan_ok e (mkPlan true (d - d mod 2 ^ k)
    (start_addr + (d - d mod 2 ^ k - pm_back)) sz) (d - d mod 2 ^ k - pm_back)) as Hok.
  { apply plan_ok_aligned; [done|lia|lia|..]; fold d; intros Em; unfold sz.
    - destruct (d =? d - d mod 2 ^ k) eqn:E; [apply Z.eqb_eq in E; lia|]. lia.
    - rewrite Em, Z.sub_0_r, Z.eqb_refl.
      destruct (le_bytes e <=? 2 ^ k) eqn:E; [apply Z.leb_le in E; by left|].
      apply Z.leb_gt in E. right. split; [by apply Ha2|done]. }
  destruct Hok as ((_ & _) & Ho & Hl). destruct Hin as (? & ? & ?), Hrg. simpl in Hl.
  unfold plan_ok, window. simpl. rewrite wrap_small by lia. lia.
Qed.

(** Without it: exactly the entry is copied. *)
Lemma plan_copy_exact e :
  CXLBUF_ALIGN_SNAPSHOT_WRITES cfg = false → entry_in start_addr len e →
  ∃ s, plan_copy cfg pm_back start_addr e
       = mkPlan s (pm_back + (le_addr e - start_addr)) (le_addr e) (le_bytes e).
Proof.
  intros Hcfg Hin. unfold plan_copy. rewrite Hcfg, (dst_of_entry e Hin).
  set (d := pm_back + (le_addr e - start_addr)).
  destruct (popcount (le_bytes e) =? 1) eqn:Ep; simpl; [|by eexists].
  destruct (d mod le_bytes e =? 0) eqn:Ed; simpl; [|by eexists].
  destruct (8 <=? le_bytes e) eqn:E8; simpl; [|by eexists].
  exists true. f_equal. apply Z.leb_le in E8. apply Z.eqb_eq in Ep, Ed.
  destruct (align_to_spec _ E8) as [Ha1 Ha2].
  assert (align_to (le_bytes e) = Z.min (Z.log2 (le_bytes e)) 8) as Eal.
  { unfold align_to. rewrite previousPowerOfTwo_log2, Ep. simpl.
    destruct (9 <? Z.log2 (le_bytes e) + 1) eqn:E; lia. }
  apply popcount_1_pow2 in Ep as (k & Hk & Eb). rewrite Eb, Z.log2_pow2, <-Eb in Eal by done.
  set (al := align_to (le_bytes e)) in *.
  assert (d mod 2 ^ al = 0) as Hm.
  { apply Z.mod_divide; [lia|]. apply (Z.divide_trans _ (le_bytes e));
      [|apply Z.mod_divide; [lia|done]].
    rewrite Eb. exists (2 ^ (k - al)). rewrite <-Z.pow_add_r by lia. f_equal. lia. }
  rewrite low_bits, Hm, !Z.eqb_refl, Z.shiftl_1_l by lia.
  destruct (decide (k ≤ 8)).
  - replace al with k by lia. rewrite <-Eb, Z.leb_refl. done.
  - replace al with 8 by lia.
    pose proof (Z.pow_lt_mono_r 2 8 k ltac:(lia) ltac:(lia) ltac:(lia)).
    rewrite (proj2 (Z.leb_gt _ _)) by lia.
    assert (le_bytes e mod 256 = 0) as Em.
    { apply Z.mod_divide; [lia|]. rewrite Eb. exists (2 ^ (k - 8)). change 256 with (2 ^ 8).
      rewrite <-Z.pow_add_r by lia. f_equal. lia. }
    rewrite Em. simpl. pose proof (Z.div_mod (le_bytes e) 256 ltac:(lia)). lia.
Qed.

Lemma plan_copy_ok e :
  entry_in start_addr len e → ∃ o, plan_ok e (plan_copy cfg pm_back start_addr e) o.
Proof.
  intros Hin. destruct (CXLBUF_ALIGN_SNAPSHOT_WRITES cfg) eqn:E; [by apply plan_copy_align|].
  destruct (plan_copy_exact e E Hin) as [s ->]. eexists. by apply plan_ok_exact.
Qed.
End Geometry.

(** ** The loop synchronises the windows *)

Section Sync.
Context {M : Type} `{PMemLaws M}.
Context (cfg : config) (g : globals) (len : Z).
Context (Hrg : region (backing_file_start g) (start_addr g) len).
Implicit Types (m : M) (W : Z → bool).
Abbreviation P := (backing_file_start g).
Abbreviation S0 := (start_addr g).

(** Offsets that the copy of [e] moves. *)
Definition in_window (e : log_entry_lean_t) (i : Z) : bool :=
  let p := plan_copy cfg P S0 e in in_rng (cp_dst p - P) (cp_len p) i.

(** Offsets that a snapshot of the range moves. *)
Definition windows (start diff : Z) (es : list log_entry_lean_t) (i : Z) : bool :=
  existsb (λ e, in_snapshot start diff e && in_window e i) es.

Definition in_back (x : Z) : Prop := P ≤ x < P + len.
Definition in_cache (x : Z) : Prop := S0 ≤ x < S0 + len.

(** [m] is [m0] with the offsets of [W] copied to the backing file; their
    write-back is issued ([Q] is [staged]) or complete ([Q] is [durable]).
    Bytes of [X] may have changed too. *)
Record synced (Q : M → Z → Prop) (X : Z → Prop) m0 W m : Prop := {
  sy_frame x : ¬ in_back x → ¬ X x → view m x = view m0 x;
  sy_back i : 0 ≤ i < len →
    view m (P + i) = if W i then view m0 (S0 + i) else view m0 (P + i);
  sy_marked i : 0 ≤ i < len → W i = true → Q m (P + i);
  sy_keep x : ¬ X x → (in_back x → W (x - P) = false) → durable m0 x → durable m x;
}.

Lemma synced_ext Q X m0 W1 W2 m : (∀ i, W1 i = W2 i) → synced Q X m0 W1 m → synced Q X m0 W2 m.
Proof.
  intros HW [Hf Hb Hm Hk]. split; intros; rewrite <-?HW in *; auto.
Qed.

Lemma synced_weaken Q (X Y : Z → Prop) m0 W m :
  (∀ x, X x → Y x) → synced Q X m0 W m → synced Q Y m0 W m.
Proof. intros HX []. split; intros; eauto. Qed.

Lemma synced_start Q X m : synced Q X m (λ _, false) m.
Proof. by split. Qed.

(** A step that changes nothing but bytes of [X]. *)
Lemma synced_frame Q (X : Z → Prop) m0 m :
  (∀ x, X x → ¬ in_back x) →
  (∀ x, ¬ X x → view m x = view m0 x ∧ (durable m0 x → durable m x)) →
  synced Q X m0 (λ _, false) m.
Proof.
  intros HX Hm. split; try done.
  - intros x _ Hx. by apply Hm.
  - intros i Hi. apply Hm. intros Hx. apply (HX _ Hx). unfold in_back. lia.
  - intros x Hx _. by apply Hm.
Qed.

Lemma synced_trans (X : Z → Prop) m0 W1 m1 W2 m2 :
  (∀ x, X x → ¬ in_back x ∧ ¬ in_cache x) →
  synced durable X m0 W1 m1 → synced durable X m1 W2 m2 →
  synced durable X m0 (λ i, W2 i || W1 i) m2.
Proof.
  intros HX [Hf1 Hb1 Hm1 Hk1] [Hf2 Hb2 Hm2 Hk2].
  assert (∀ i, 0 ≤ i < len → ¬ X (S0 + i) ∧ ¬ X (P + i) ∧ ¬ in_back (S0 + i)) as HXi.
  { intros i Hi. destruct Hrg. unfold rng_disj in *. split_and!.
    - intros Hx. apply HX in Hx as [_ Hx]. apply Hx. unfold in_cache. lia.
    - intros Hx. apply HX in Hx as [Hx _]. apply Hx. unfold in_back. lia.
    - unfold in_back. lia. }
  split.
  - intros x Hx1 Hx2. by rewrite Hf2, Hf1.
  - intros i Hi. destruct (HXi i Hi) as (Hc & Hp & Hd). rewrite Hb2 by done.
    destruct (W2 i); simpl; [by apply Hf1|]. by apply Hb1.
  - intros i Hi HW. destruct (HXi i Hi) as (Hc & Hp & Hd).
    destruct (W2 i) eqn:E2; simpl in HW; [by apply Hm2|].
    apply Hk2; [done| |by apply Hm1]. intros _. by replace (P + i - P) with i by lia.
  - intros x Hx HW Hd. apply Hk2; [done|..].
    + intros Hin. apply HW in Hin. by apply orb_false_iff in Hin as [? _].
    + apply Hk1; [done| |done]. intros Hin. apply HW in Hin. by apply orb_false_iff in Hin as [_ ?].
Qed.

(** A drain completes the write-backs. *)
Lemma synced_drain X m0 W m : synced staged X m0 W m → synced durable X m0 W (drain m).
Proof.
  intros [Hf Hb Hm Hk]. split; intros.
  - rewrite view_drain. auto.
  - rewrite view_drain. auto.
  - apply durable_drain_staged. auto.
  - apply durable_drain. auto.
Qed.

Lemma view_do_copy p m :
  0 ≤ cp_len p → view (do_copy p m) ≡ copy_bytes (view m) (cp_dst p) (cp_src p) (cp_len p).
Proof.
  intros Hn. unfold do_copy. destruct (cp_stream p); [by apply view_streaming_wr|].
  intros x. rewrite view_flush. by apply view_cpu_copy.
Qed.

Lemma staged_do_copy p m x :
  0 ≤ cp_len p → in_rng (cp_dst p) (cp_len p) x = true ∨ staged m x → staged (do_copy p m) x.
Proof.
  intros Hn Hx. unfold do_copy, streaming_wr, cpu_copy.
  assert (blen (read_bytes (view m) (cp_src p) (Z.to_nat (cp_len p))) = cp_len p) as Hbl
    by (rewrite blen_read_bytes; lia).
  destruct (cp_stream p).
  - apply staged_nt_store. by rewrite Hbl.
  - destruct (in_rng (cp_dst p) (cp_len p) x) eqn:E.
    + apply staged_flush, flushed_in. by apply in_rng_spec.
    + destruct Hx as [|Hx]; [done|]. apply staged_flush_keep, staged_store; [by rewrite Hbl|done].
Qed.

Lemma durable_do_copy p m x :
  0 ≤ cp_len p → in_rng (cp_dst p) (cp_len p) x = false → durable m x → durable (do_copy p m) x.
Proof.
  intros Hn Hx Hd. unfold do_copy, streaming_wr, cpu_copy.
  assert (blen (read_bytes (view m) (cp_src p) (Z.to_nat (cp_len p))) = cp_len p) as Hbl
    by (rewrite blen_read_bytes; lia).
  destruct (cp_stream p).
  - apply durable_nt_store; [by rewrite Hbl|done].
  - apply durable_flush, durable_store; [by rewrite Hbl|done].
Qed.

Lemma do_copy_synced X m0 W m e :
  (∀ x, X x → ¬ in_back x ∧ ¬ in_cache x) →
  entry_in S0 len e → synced staged X m0 W m →
  synced staged X m0 (λ i, in_window e i || W i) (do_copy (plan_copy cfg P S0 e) m).
Proof.
  intros HX Hin [Hf Hb Hs Hk].
  destruct (plan_copy_ok cfg _ _ _ Hrg e Hin) as (o & (Hd & Hsrc) & Ho & Hl).
  unfold in_window, in_back, in_cache in *. set (p := plan_copy cfg P S0 e) in *.
  destruct Hin as (H1 & H2 & H3), Hrg. unfold rng_disj in *. rewrite Hd in *.
  replace (P + o - P) with o by lia.
  assert (0 ≤ cp_len p) by lia. split.
  - intros x Hx HxX. unfold in_back in *. rewrite (view_do_copy p m) by done. unfold copy_bytes. rewrite Hd.
    rng_cases; [lia|by apply Hf].
  - intros i Hi. rewrite (view_do_copy p m) by done. unfold copy_bytes. rewrite Hd, Hsrc.
    rng_cases; simpl; [|lia|lia|by apply Hb].
    replace (S0 + o + (P + i - (P + o))) with (S0 + i) by lia. apply Hf.
    + unfold in_back. lia.
    + intros Hx. apply HX in Hx. unfold in_cache in *. lia.
  - intros i Hi HW. apply staged_do_copy; [done|]. rewrite Hd.
    destruct (in_rng o (cp_len p) i) eqn:E; simpl in HW; [left; rng|right; auto].
  - intros x HxX HW Hdur. unfold in_back in *. apply durable_do_copy; [done|..].
    + rewrite Hd. apply in_rng_false. intros Hx.
      assert (in_rng o (cp_len p) (x - P) = true) as Ew by (apply in_rng_spec; lia).
      rewrite Ew in HW. simpl in HW. by specialize (HW ltac:(lia)).
    + apply Hk; [done| |done]. intros Hx. by apply HW, orb_false_iff in Hx as [_ ?].
Qed.

(** The loop ran over [es]: windows copied, nothing left unapplied. *)
Lemma run_entries_spec X start diff m0 es :
  (∀ x, X x → ¬ in_back x ∧ ¬ in_cache x) →
  Forall (entry_in S0 len) es →
  ∀ prev st W,
    synced staged X m0 W (ls_pm st) → applied_cnt st = entry_cnt st →
    (∀ p i, prev = Some p → in_snapshot start diff p = true → in_window p i = true → W i = true) →
    let st' := run_entries cfg g start diff prev es st in
    synced staged X m0 (λ i, windows start diff es i || W i) (ls_pm st')
    ∧ applied_cnt st' = entry_cnt st'
    ∧ total_proc st' = total_proc st + Z.of_nat (length es)
    ∧ bytes_flushed st' = bytes_flushed st + sum_by le_bytes es.
Proof.
  intros HX. induction 1 as [|e es Hin _ IH]; intros prev st W Hsy Hcnt Hprev; cbv zeta.
  { simpl. split_and!; [|done|lia|unfold sum_by; simpl; lia]. by apply (synced_ext _ _ _ W). }
  assert ((le_addr e =? 0) = false) as Hnz.
  { destruct Hin as (_ & ? & _), Hrg. apply Z.eqb_neq. lia. }
  simpl run_entries. unfold loop_body. rewrite Hnz.
  destruct (in_snapshot start diff e) eqn:Eh; simpl.
  - destruct (same_entry prev e) eqn:Es.
    + destruct prev as [p|]; [|done].
      assert (p = e) as ->.
      { destruct p, e. unfold same_entry in Es. simpl in Es.
        apply andb_true_iff in Es as [?%Z.eqb_eq ?%Z.eqb_eq]. by subst. }
      match goal with |- context [run_entries _ _ _ _ (Some e) es ?x] =>
        destruct (IH (Some e) x W) as (I1 & I2 & I3 & I4) end; simpl in *; [done|lia|by intros ?? [= <-]; apply Hprev|].
      split_and!; [|done|lia|unfold sum_by in *; simpl; lia].
      eapply synced_ext; [|exact I1]. intros i. simpl. rewrite Eh. simpl.
      destruct (in_window e i) eqn:Ei; simpl; [|done].
      by rewrite (Hprev e i eq_refl Eh Ei), orb_true_r.
    + match goal with |- context [run_entries _ _ _ _ (Some e) es ?x] =>
        destruct (IH (Some e) x (λ i, in_window e i || W i)) as (I1 & I2 & I3 & I4) end;
        simpl in *; [by apply do_copy_synced|lia|by intros ?? [= <-] _ ->|].
      split_and!; [|done|lia|unfold sum_by in *; simpl; lia].
      eapply synced_ext; [|exact I1]. intros i. simpl. rewrite Eh. simpl.
      destruct (in_window e i), (windows start diff es i), (W i); done.
  - match goal with |- context [run_entries _ _ _ _ (Some e) es ?x] =>
      destruct (IH (Some e) x W) as (I1 & I2 & I3 & I4) end; simpl in *; [done|lia|intros ?? [= <-]; congruence|].
    split_and!; [|done|lia|unfold sum_by in *; simpl; lia].
    eapply synced_ext; [|exact I1]. intros i. simpl. by rewrite Eh.
Qed.
End Sync.

(** ** The handler *)

Lemma sort_entries_perm es : Permutation (sort_entries es) es.
Proof. unfold sort_entries. case_match; [apply merge_sort_Permutation|done]. Qed.

Lemma windows_perm cfg g start diff es es' i :
  Permutation es es' → windows cfg g start diff es i = windows cfg g start diff es' i.
Proof.
  induction 1; simpl; auto.
  - congruence.
  - destruct (in_snapshot start diff x && in_window cfg g x i),
      (in_snapshot start diff y && in_window cfg g y i); done.
  - congruence.
Qed.

(** The rule for loops over the indices of a list. *)
Lemma for_each_seq {S} (I : nat → S → Prop) (f : nat → cmd S unit) n j s :
  (∀ k s, (j ≤ k < j + n)%nat → I k s → ∃ s', f k s = Ret tt s' ∧ I (Datatypes.S k) s') →
  I j s → ∃ s', for_each (seq j n) f s = Ret tt s' ∧ I (j + n)%nat s'.
Proof.
  revert j s. induction n as [|n IH]; intros j s Hf HI; simpl.
  { exists s. by rewrite Nat.add_0_r. }
  destruct (Hf j s) as (s1 & E1 & H1); [lia|done|].
  destruct (IH (Datatypes.S j) s1) as (s2 & E2 & H2); [|done|].
  { intros k s' Hk. apply Hf. lia. }
  exists s2. unfold bind. rewrite E1, E2. split; [done|].
  by replace (j + Datatypes.S n)%nat with (Datatypes.S j + n)%nat by lia.
Qed.

Section Commit.
Context {M : Type} `{PMemLaws M}.
Context (file_size : string → Z) (real_msync : Z → Z → Z → Z).
Context (cfg : config) (g : globals) (len : Z).
Context (Hrg : region (backing_file_start g) (start_addr g) len).
Implicit Types (m : M) (l : Log) (s : sys M).

(** Bytes of the header of the log at [la]. *)
Definition in_header (la x : Z) : Prop := la ≤ x < la + sizeof_layout.

Record log_apart (l : Log) : Prop := {
  la_pos : 0 < log_area l;
  la_align : log_area l mod 64 = 0;
  la_end : content (log_area l) < 2 ^ 64;
  la_cache : rng_disj (log_area l) sizeof_layout (start_addr g) len;
  la_back : rng_disj (log_area l) sizeof_layout (backing_file_start g) len;
}.

Lemma header_apart l x :
  log_apart l → in_header (log_area l) x → ¬ in_back g len x ∧ ¬ in_cache g len x.
Proof.
  intros []. unfold in_header, rng_disj, in_back, in_cache, sizeof_layout in *. lia.
Qed.

(** Changes confined to the header of [l]. *)
Definition header_only l m m' : Prop :=
  ∀ x, ¬ in_header (log_area l) x → view m' x = view m x ∧ (durable m x → durable m' x).

Lemma header_only_trans l m1 m2 m3 :
  header_only l m1 m2 → header_only l m2 m3 → header_only l m1 m3.
Proof.
  intros H1 H2 x Hx. destruct (H1 x Hx), (H2 x Hx). split; [congruence|auto].
Qed.

Lemma header_only_store l a v m :
  log_area l ≤ a → a + 8 ≤ log_area l + sizeof_layout → header_only l m (cpu_store64 a v m).
Proof.
  intros H1 H2 x Hx. unfold in_header in Hx. split.
  - apply view_store64_out. lia.
  - apply durable_store. rewrite blen_le_split. apply in_rng_false. lia.
Qed.

Lemma header_only_set_state st fw l m :
  log_area l ≠ 0 → ∃ m', set_state st fw l m = Ret tt m' ∧ header_only l m m'
    ∧ state_word (view m') (log_area l) = state_val st
    ∧ (∀ x, in_header (log_area l) x → fw = true → durable m' x)
    ∧ (∀ x, ¬ (log_area l ≤ x < log_area l + 8) → view m' x = view m x).
Proof.
  intros Hla. destruct (set_state_spec st fw l m Hla) as (m' & E & Hv & Hd & _ & Hdur).
  exists m'. split_and!; [done|..].
  - intros x Hx. unfold in_header, sizeof_layout in Hx. split; [|apply Hd; lia].
    rewrite (Hv x). apply store64_outside. lia.
  - unfold state_word. rewrite Hv. apply load64_store64. by destruct st.
  - intros x Hx ->. by apply Hdur.
  - intros x Hx. rewrite (Hv x). by apply store64_outside.
Qed.

(** Marking the log active: the state word and a zero [log_offset] are durable
    before the first write to the backing file. *)
Lemma begin_commit_spec l m :
  log_area l ≠ 0 → ∃ m', begin_commit l m = Ret tt m' ∧ header_only l m m'
    ∧ state_word (view m') (log_area l) = state_val ACTIVE
    ∧ log_offset (view m') (log_area l) = 0
    ∧ ∀ x, in_header (log_area l) x → durable m' x.
Proof.
  intros Hla. unfold begin_commit, bind, modify.
  destruct (header_only_set_state ACTIVE true l (cpu_store64 (log_area l + 8) 0 (flush_all l m)))
    as (m' & E & Hh & Hs & Hd & Hv); [done|].
  exists m'. split_and!; [done| |done| |auto].
  - eapply header_only_trans; [|exact Hh]. eapply header_only_trans; [|apply header_only_store;
      unfold sizeof_layout; lia].
    intros x _. split; [apply flush_all_view|]. unfold flush_all. case_match; [done|].
    apply durable_flush.
  - unfold log_offset. rewrite (loadN_ext 8 _ (view (cpu_store64 (log_area l + 8) 0 (flush_all l m)))).
    + by apply load64_cpu_store.
    + intros x Hx. apply Hv. lia.
Qed.

Lemma header_only_clear l m : header_only l m (snd (clear cfg l m)).
Proof.
  eapply header_only_trans; apply header_only_store; unfold sizeof_layout; lia.
Qed.

Lemma synced_header l Q m m' :
  log_apart l → header_only l m m' →
  synced g len Q (in_header (log_area l)) m (λ _, false) m'.
Proof.
  intros Ha Hh. apply synced_frame; [|exact Hh]. intros x Hx. by apply (header_apart l).
Qed.

(** The log object that [clear] leaves. *)
Definition cleared l : Log := mkLog (log_area l) (mkLean 0 0) 0 [].

(** What the body of the loop over the logs keeps. *)
Record same_env s s' : Prop := {
  se_g : s_g s' = s_g s;
  se_inst : s_storeInstEnabled s' = s_storeInstEnabled s;
  se_first : s_firstSnapshot s' = s_firstSnapshot s;
  se_mapped : s_mapped_addr s' = s_mapped_addr s;
  se_mmap : s_mmap_start s' = s_mmap_start s;
}.

Lemma same_env_trans s1 s2 s3 : same_env s1 s2 → same_env s2 s3 → same_env s1 s3.
Proof. intros [] []. split; congruence. Qed.

(** The call of [run_log] in a build with the volatile list. *)
Lemma run_log_spec l addr bytes st m :
  LOG_FORMAT_VOLATILE cfg = true → Forall (entry_in (start_addr g) len) (entries l) →
  let '(l', r) := run_log cfg g l addr bytes st m in
  log_area l' = log_area l ∧ Permutation (entries l') (entries l)
  ∧ applied_cnt r = entry_cnt r
  ∧ total_proc r = Z.of_nat (length (entries l))
  ∧ synced g len staged (λ _, False) m
      (windows cfg g addr (wrap64 (wrap64 (addr + bytes) - addr)) (entries l)) (ls_pm r).
Proof.
  intros Hvol Hin. unfold run_log. rewrite Hvol. simpl.
  pose proof (sort_entries_perm (entries l)) as Hp.
  match goal with |- context [run_entries _ _ ?a ?d None ?es ?st0] =>
    destruct (run_entries_spec cfg g len Hrg (λ _, False) a d m es) with
      (prev := @None log_entry_lean_t) (st := st0) (W := λ _ : Z, false)
      as (Hs & Hc & Ht & _) end; simpl; try done.
  { by rewrite Hp. }
  split_and!; [done|done|done|rewrite Ht; simpl; by rewrite (Permutation_length Hp)|].
  eapply synced_ext; [|exact Hs]. intros i. simpl. rewrite orb_false_r.
  by apply windows_perm.
Qed.

Lemma clear_state_word l m :
  0 < log_area l → state_word (view (snd (clear cfg l m))) (log_area l) = state_word (view m) (log_area l).
Proof.
  intros Hl. apply loadN_ext. intros x Hx. apply clear_out. lia.
Qed.

Lemma commit_log_spec addr bytes i l s :
  LOG_FORMAT_VOLATILE cfg = true → CXLBUF_TESTING_GOODIES cfg && crashOnCommit g = false →
  s_g s = g → log_apart l → Forall (entry_in (start_addr g) len) (entries l) →
  ∃ s', commit_log cfg addr bytes i l s = Ret tt s'
    ∧ same_env s s' ∧ logs_of s' = <[i := cleared l]> (logs_of s)
    ∧ synced g len durable (in_header (log_area l)) (s_pm s)
        (windows cfg g addr (wrap64 (wrap64 (addr + bytes) - addr)) (entries l)) (s_pm s')
    ∧ log_wf (cleared l) (s_pm s') []
    ∧ state_word (view (s_pm s')) (log_area l) = state_val EMPTY.
Proof.
  intros Hvol Hcr Hg Ha Hent. pose proof (la_pos _ Ha) as Hla. unfold commit_log. rewrite Hg.
  pose proof (run_log_spec l addr bytes (t_stats (s_tally s)) (s_pm s) Hvol Hent) as Hrun.
  destruct (run_log cfg g l addr bytes (t_stats (s_tally s)) (s_pm s)) as [l' r].
  destruct Hrun as (Hla' & Hperm & Hcnt & _ & Hsy).
  set (s2 := if RELEASE cfg then _ else _).
  assert (s_g s2 = g ∧ s_pm s2 = ls_pm r ∧ same_env s s2
    ∧ logs_of s2 = <[i := l']> (logs_of s)) as (Hg2 & Hp2 & He2 & Hl2).
  { unfold s2. destruct (RELEASE cfg); split_and!; simpl; auto; by split. }
  rewrite Hg2, Hcr. unfold bind, on_pm. rewrite Hp2. simpl. rewrite Hcnt, Z.eqb_refl.
  destruct (header_only_set_state EMPTY false l' (drain (ls_pm r)))
    as (m3 & E3 & Hh3 & Hst3 & _); [lia|].
  cbv beta. change (s_pm (put_pm (drain (ls_pm r)) s2)) with (drain (ls_pm r)).
  rewrite E3. simpl. eexists. split; [reflexivity|]. rewrite Hvol. simpl.
  split_and!.
  - destruct He2. by split.
  - unfold put_log, logs_of in *. simpl. rewrite Hl2, list_insert_insert_eq.
    unfold cleared. by rewrite Hla'.
  - assert (∀ x, in_header (log_area l) x → ¬ in_back g len x ∧ ¬ in_cache g len x) as HX
      by (intros x; by apply header_apart).
    eapply synced_ext; [|eapply (synced_trans g len Hrg _ _ _ m3); [done| |]].
    2: { eapply (synced_trans g len Hrg _ _ _ (drain (ls_pm r))); [done| |].
         - eapply synced_weaken; [|apply synced_drain; exact Hsy]. done.
         - apply synced_header; [done|]. intros x Hx. apply Hh3. by rewrite Hla'. }
    2: { apply synced_header; [done|]. pose proof (header_only_clear l' m3) as Hc.
         intros x Hx. apply Hc. by rewrite Hla'. }
    intros j. reflexivity.
  - unfold cleared. rewrite Hla'. apply empty_area_wf; apply Ha.
  - rewrite <-Hla'. rewrite <-Hla' in Hla. transitivity (state_word (view m3) (log_area l'));
      [exact (clear_state_word l' m3 Hla)|done].
Qed.

(** Up to the first copy, for a log: marked active, and the first snapshot taken. *)
Lemma snapshot_log_begins addr bytes flags i l s m1 :
  s_storeInstEnabled s = true → logs_of s !! i = Some l → begin_commit l (s_pm s) = Ret tt m1 →
  snapshot_log file_size cfg addr bytes flags i s
  = bind (first_snapshot file_size addr) (λ _, commit_log cfg addr bytes i l) (put_pm m1 s).
Proof.
  intros Hi Hl E1. unfold snapshot_log. rewrite Hl. unfold bind, on_pm. rewrite E1. simpl.
  by rewrite Hi, andb_false_r.
Qed.

Lemma snapshot_log_spec addr bytes flags i l s :
  LOG_FORMAT_VOLATILE cfg = true → CXLBUF_TESTING_GOODIES cfg && crashOnCommit g = false →
  s_g s = g → s_storeInstEnabled s = true → s_firstSnapshot s = false →
  logs_of s !! i = Some l → log_apart l → Forall (entry_in (start_addr g) len) (entries l) →
  ∃ s', snapshot_log file_size cfg addr bytes flags i s = Ret tt s'
    ∧ same_env s s' ∧ logs_of s' = <[i := cleared l]> (logs_of s)
    ∧ synced g len durable (in_header (log_area l)) (s_pm s)
        (windows cfg g addr (wrap64 (wrap64 (addr + bytes) - addr)) (entries l)) (s_pm s')
    ∧ log_wf (cleared l) (s_pm s') []
    ∧ state_word (view (s_pm s')) (log_area l) = state_val EMPTY.
Proof.
  intros Hvol Hcr Hg Hi Hfst Hl Ha Hent.
  destruct (begin_commit_spec l (s_pm s)) as (m1 & E1 & Hh1 & _); [pose proof (la_pos _ Ha); lia|].
  rewrite (snapshot_log_begins addr bytes flags i l s m1 Hi Hl E1).
  destruct (commit_log_spec addr bytes i l (put_pm m1 s)) as (s' & E & He & Hls & Hsy & Hend); try done.
  exists s'. split_and!; try apply Hend; try done.
  - unfold bind, first_snapshot. simpl. by rewrite Hfst.
  - destruct He. by split.
  - eapply synced_ext; [|eapply (synced_trans g len Hrg _ _ _ m1); [|by apply synced_header|exact Hsy]].
    + intros j. simpl. by rewrite orb_false_r.
    + intros x. by apply header_apart.
Qed.
End Commit.

(** ** All the logs *)

Section AllLogs.
Context {M : Type} `{PMemLaws M}.
Context (file_size : string → Z) (real_msync : Z → Z → Z → Z).
Context (cfg : config) (g : globals) (len : Z).
Context (Hrg : region (backing_file_start g) (start_addr g) len).
Implicit Types (m : M) (l : Log) (s : sys M).

(** An idle log: no entries, state EMPTY. *)
Definition log_idle l m : Prop :=
  log_wf (cleared l) m [] ∧ state_word (view m) (log_area l) = state_val EMPTY.

Lemma log_idle_ext l m m' :
  (∀ x, in_header (log_area l) x → view m' x = view m x) → log_idle l m → log_idle l m'.
Proof.
  intros Hx [[] Hst]. unfold in_header, sizeof_layout in Hx. split.
  - split; simpl in *; try done.
    + unfold log_offset. rewrite (loadN_ext 8 _ (view m)); [done|]. intros; apply Hx; lia.
    + unfold tail_ptr. rewrite (loadN_ext 8 _ (view m)); [done|]. intros; apply Hx; lia.
    + unfold content, sizeof_layout. lia.
  - unfold state_word. rewrite (loadN_ext 8 _ (view m)); [done|]. intros; apply Hx; lia.
Qed.

Definition headers (ls : list Log) (x : Z) : Prop :=
  ∃ l, l ∈ ls ∧ in_header (log_area l) x.

(** The logs lie apart from the region and from each other. *)
Record logs_apart (ls : list Log) : Prop := {
  lsa_each l : l ∈ ls → log_apart g len l;
  lsa_pair i j l l' : i ≠ j → ls !! i = Some l → ls !! j = Some l' →
    rng_disj (log_area l) sizeof_layout (log_area l') sizeof_layout;
}.

Definition all_windows (start diff : Z) (ls : list Log) (i : Z) : bool :=
  existsb (λ l, windows cfg g start diff (entries l) i) ls.

(** The loop over the logs after [k] turns. *)
Record commit_inv (addr bytes : Z) (s0 : sys M) (k : nat) (s : sys M) : Prop := {
  ci_env : same_env s0 s;
  ci_logs : logs_of s = map cleared (take k (logs_of s0)) ++ drop k (logs_of s0);
  ci_sync : synced g len durable (headers (logs_of s0)) (s_pm s0)
    (all_windows addr (wrap64 (wrap64 (addr + bytes) - addr)) (take k (logs_of s0))) (s_pm s);
  ci_idle j l : (j < k)%nat → logs_of s0 !! j = Some l → log_idle l (s_pm s);
}.

(** What the handler needs: the volatile list is compiled in, no crash is
    requested, stores were logged, a snapshot was taken before. *)
Record can_snapshot s : Prop := {
  cs_vol : LOG_FORMAT_VOLATILE cfg = true;
  cs_crash : CXLBUF_TESTING_GOODIES cfg && crashOnCommit g = false;
  cs_g : s_g s = g;
  cs_inst : s_storeInstEnabled s = true;
  cs_first : s_firstSnapshot s = false;
  cs_apart : logs_apart (logs_of s);
  cs_in l : l ∈ logs_of s → Forall (entry_in (start_addr g) len) (entries l);
}.

Lemma commit_inv_logs_at addr bytes s0 k s l :
  commit_inv addr bytes s0 k s → logs_of s0 !! k = Some l → logs_of s !! k = Some l.
Proof.
  intros [] Hl. rewrite ci_logs0. apply lookup_lt_Some in Hl as Hlt.
  rewrite lookup_app_r; rewrite length_map, length_take_le by lia; [|lia].
  rewrite lookup_drop. by replace (k + (k - k))%nat with k by lia.
Qed.

Lemma cleared_insert (ls : list Log) k l :
  ls !! k = Some l →
  <[k := cleared l]> (map cleared (take k ls) ++ drop k ls)
  = map cleared (take (S k) ls) ++ drop (S k) ls.
Proof.
  intros Hl. apply lookup_lt_Some in Hl as Hlt.
  rewrite (take_S_r _ _ _ Hl), (drop_S ls l k Hl).
  rewrite map_app. simpl. rewrite <-app_assoc. simpl.
  replace k with (length (map cleared (take k ls)) + 0)%nat at 1
    by (rewrite length_map, length_take_le; lia).
  rewrite insert_app_r. done.
Qed.

Lemma commit_step addr bytes flags s0 k s :
  can_snapshot s0 → (k < length (logs_of s0))%nat → commit_inv addr bytes s0 k s →
  ∃ s', snapshot_log file_size cfg addr bytes flags k s = Ret tt s'
    ∧ commit_inv addr bytes s0 (S k) s'.
Proof.
  intros [Hvol Hcr Hg Hi Hf Ha Hin] Hk Hinv.
  destruct (lookup_lt_is_Some_2 _ _ Hk) as [l Hl].
  pose proof (list_elem_of_lookup_2 _ _ _ Hl) as Hel.
  pose proof (lsa_each _ Ha l Hel) as Hla.
  pose proof (commit_inv_logs_at _ _ _ _ _ _ Hinv Hl) as Hls.
  destruct Hinv as [He Hlogs Hsy Hidle].
  destruct (snapshot_log_spec file_size cfg g len Hrg addr bytes flags k l s)
    as (s' & E & He' & Hl' & Hsy' & Hwf & Hst); try done; try (destruct He; congruence).
  { by apply Hin. }
  exists s'. split; [done|]. split.
  - by eapply same_env_trans.
  - rewrite Hl', Hlogs. by apply cleared_insert.
  - eapply synced_ext; [|eapply (synced_trans g len Hrg _ _ _ (s_pm s)); [|exact Hsy|]].
    3: { eapply synced_weaken; [|exact Hsy']. intros x Hx. by exists l. }
    + intros i. unfold all_windows. rewrite (take_S_r _ _ _ Hl), existsb_app. simpl.
      rewrite orb_false_r. apply orb_comm.
    + intros x (l' & Hl'' & Hx). by apply (header_apart g len l' x); [apply Ha|].
  - intros j lj Hj Hlj. destruct (decide (j = k)) as [->|Hne].
    { rewrite Hl in Hlj. injection Hlj as <-. by split. }
    apply (log_idle_ext lj (s_pm s)); [|apply (Hidle j); [lia|done]].
    intros x Hx. destruct Hsy' as [Hfr _ _ _]. apply Hfr.
    + eapply header_apart; [|exact Hx]. apply Ha. by eapply list_elem_of_lookup_2.
    + pose proof (lsa_pair _ Ha j k lj l Hne Hlj Hl) as Hd.
      unfold in_header, rng_disj in *. lia.
Qed.

Lemma commit_inv_start addr bytes s : commit_inv addr bytes s 0 s.
Proof.
  split; [by split|done| |lia]. apply (synced_ext _ _ _ _ _ (λ _, false)); [done|].
  apply synced_start.
Qed.

(** The builds and runs in which [snapshot] does its work. *)
Definition snapshot_live s : Prop :=
  nopMsync (s_g s) = false ∧ NO_PERSIST_OPS cfg = false ∧ NO_CHECK_MEMORY cfg = false.

Lemma snapshot_run addr bytes flags s :
  snapshot_live s → can_snapshot s →
  ∃ s', snapshot file_size real_msync cfg addr bytes flags s = Ret 0 s'
    ∧ commit_inv addr bytes s (length (logs_of s)) s'.
Proof.
  intros (Hn & Hp & Hc) Hcan. unfold snapshot, bind, modify. simpl.
  rewrite Hn, Hp, Hc. simpl.
  set (s1 := put_logs _ _).
  assert (logs_of s1 = logs_of s ∧ s_pm s1 = s_pm s ∧ same_env s s1) as (El & Ep & Ee) by done.
  rewrite (cs_inst _ Hcan).
  destruct (for_each_seq (commit_inv addr bytes s) (snapshot_log file_size cfg addr bytes flags)
    (length (logs_of s1)) 0 s1) as (s' & E & Hinv).
  - intros k s' Hk. apply commit_step; [done|]. rewrite El in Hk. lia.
  - split; [done|done| |lia]. rewrite Ep. apply (commit_inv_start addr bytes s).
  - rewrite E. simpl in Hinv. rewrite El in Hinv. by exists s'.
Qed.
End AllLogs.

(** ** Properties of the handler *)

(** The range test, for a range that does not wrap: both ends included. *)
Lemma in_snapshot_iff addr bytes e :
  0 ≤ addr → 0 ≤ bytes → addr + bytes < 2 ^ 64 → 0 ≤ le_addr e < 2 ^ 64 →
  in_snapshot addr (wrap64 (wrap64 (addr + bytes) - addr)) e = true
  ↔ addr ≤ le_addr e ≤ addr + bytes.
Proof.
  intros. unfold in_snapshot. rewrite (wrap_small 64 (addr + bytes)) by lia.
  rewrite (wrap_small 64 (addr + bytes - addr)) by lia.
  destruct (decide (addr ≤ le_addr e)) as [Hle|Hgt].
  - rewrite wrap_small by lia. lia.
  - unfold wrap. rewrite <-(Z.mod_add _ 1) by lia. rewrite Z.mod_small by lia. lia.
Qed.

Lemma in_window_entry cfg g len e x :
  region (backing_file_start g) (start_addr g) len → entry_in (start_addr g) len e →
  le_addr e ≤ x < le_addr e + le_bytes e → in_window cfg g e (x - start_addr g) = true.
Proof.
  intros Hrg Hin Hx. destruct (plan_copy_ok cfg _ _ _ Hrg e Hin) as (o & (Hd & _) & Ho & Hl).
  unfold in_window. rewrite Hd. apply in_rng_spec. lia.
Qed.

Lemma all_windows_entry cfg g len addr diff ls l e x :
  region (backing_file_start g) (start_addr g) len → entry_in (start_addr g) len e →
  l ∈ ls → e ∈ entries l → in_snapshot addr diff e = true →
  le_addr e ≤ x < le_addr e + le_bytes e →
  all_windows cfg g addr diff ls (x - start_addr g) = true.
Proof.
  intros Hrg Hin Hl He Hs Hx. unfold all_windows, windows. apply existsb_exists. exists l.
  split; [by apply list_elem_of_In|]. apply existsb_exists. exists e.
  split; [by apply list_elem_of_In|]. rewrite Hs. simpl. by apply (in_window_entry cfg g len).
Qed.

Section Properties.
Context {M : Type} `{PMemLaws M}.
Implicit Types (s : sys M).


(** C18: The order in which the entries are copied does not matter: sorting
    the list (or leaving a short list unsorted) gives the same memory, and in
    both orders every counted entry is applied, so the exit(1) of a mismatch
    is never taken. *)
Theorem copy_order_irrelevant cfg g len start diff es es' st (m : M) :
  region (backing_file_start g) (start_addr g) len →
  Forall (entry_in (start_addr g) len) es → Permutation es es' →
  let r := run_entries cfg g start diff None es (mkLoop 0 0 0 0 st m) in
  let r' := run_entries cfg g start diff None es' (mkLoop 0 0 0 0 st m) in
  (∀ x, view (ls_pm r) x = view (ls_pm r') x)
  ∧ applied_cnt r = entry_cnt r ∧ applied_cnt r' = entry_cnt r'.
Proof.
  intros Hrg Hin Hp. cbv zeta.
  assert (Forall (entry_in (start_addr g) len) es') as Hin' by by rewrite <-Hp.
  destruct (run_entries_spec cfg g len Hrg (λ _, False) start diff m es ltac:(done) Hin
    None (mkLoop 0 0 0 0 st m) (λ _, false)) as ([Hf Hb _ _] & Hc & _);
    [apply synced_start|done..|].
  destruct (run_entries_spec cfg g len Hrg (λ _, False) start diff m es' ltac:(done) Hin'
    None (mkLoop 0 0 0 0 st m) (λ _, false)) as ([Hf' Hb' _ _] & Hc' & _);
    [apply synced_start|done..|].
  split_and!; [|done|done]. intros x.
  destruct (decide (in_back g len x)) as [Hx|Hx].
  - unfold in_back in Hx. replace x with (backing_file_start g + (x - backing_file_start g)) by lia.
    rewrite Hb, Hb' by lia. by rewrite (windows_perm _ _ _ _ _ _ _ Hp).
  - rewrite Hf, Hf' by auto. done.
Qed.
End Properties.

(** C14: Where a copy goes: whatever the alignment mode, the copy of an entry of
    the page cache reads and writes at the same offset of the two regions,
    covers the whole entry, and stays inside both regions. *)
Theorem copy_stays_aligned_and_inside cfg pm_back start_addr len e :
  region pm_back start_addr len → entry_in start_addr len e →
  let p := plan_copy cfg pm_back start_addr e in
  cp_dst p - pm_back = cp_src p - start_addr
  ∧ pm_back ≤ cp_dst p ≤ pm_back + (le_addr e - start_addr)
  ∧ pm_back + (le_addr e - start_addr) + le_bytes e ≤ cp_dst p + cp_len p ≤ pm_back + len
  ∧ (cp_stream p = false → cp_src p = le_addr e ∧ cp_len p = le_bytes e).
Proof.
  intros Hrg Hin. cbv zeta. destruct (plan_copy_ok cfg _ _ _ Hrg e Hin) as (o & (Hd & Hs) & Ho & Hl).
  split_and!; try lia. unfold plan_copy. case_match; simpl; [by case_match|done].
Qed.
