(* ===== verification/Wrappers.v ===== *)
(** * The libc wrappers and the store hook
      (libstoreinst/libc_wrappers.cc, libstoreinst/libstoreinst.cc,
       libstoreinst/utils.cc)

    The functions the library interposes on libc and the hook that the compiler
    pass calls before every store.  A thread is the index of its log in
    [tls_logs]. *)

From stdpp Require Import base list sets strings.
From Stdlib Require Import ZArith Lia.
From S2P Require Import Prelude Memory PMem Log Snapshot.

Definition addr_in_range (g : globals) (addr : Z) : bool :=
  (start_addr g <=? addr) && (addr <=? end_addr g).

Definition MS_SYNC : Z := 4.

Section Wrappers.
Context {M : Type} `{PMemOps M}.
Context (file_size : string → Z) (real_msync : Z → Z → Z → Z).
Context (real_fsync real_fdatasync : Z → Z) (real_munmap : Z → Z → Z).
Context (cfg : config).

(** Run a method of [local_log] of thread [i]. *)
Definition with_log (i : nat) (c : cmd (thread_ctx M) unit) : cmd (sys M) unit := λ s,
  match logs_of s !! i with
  | None => Trap s
  | Some l =>
      let back (c : thread_ctx M) :=
        put_log i (this c) (put_pm (pmem c) (put_storeInst (storeInstEnabled c)
          (upd_tally (put_stats (stats c)) s))) in
      match c (mkCtx l (s_storeInstEnabled s) (t_stats (s_tally s)) (s_pm s)) with
      | Ret a c => Ret a (back c)
      | Exit code c => Exit code (back c)
      | Trap c => Trap (back c)
      end
  end.

Definition local_log_range (i : nat) (start bytes : Z) : cmd (sys M) unit := λ s,
  with_log i (log_range cfg (cxlModeEnabled (s_g s)) start bytes) s.

Definition memcpy (i : nat) (dst src n : Z) : cmd (sys M) Z :=
  let! s := get in
  do! when (startTracking (s_g s) && negb (start_addr (s_g s) =? 0) && addr_in_range (s_g s) dst)
        (local_log_range i dst n) in
  do! on_pm (modify (cpu_copy dst src n)) in
  ret dst.

Definition memmove (i : nat) (dst src n : Z) : cmd (sys M) Z :=
  let! s := get in
  do! when (startTracking (s_g s) && negb (start_addr (s_g s) =? 0) && addr_in_range (s_g s) dst)
        (local_log_range i dst n) in
  do! on_pm (modify (cpu_copy dst src n)) in
  ret dst.

Definition cpu_fill (p c n : Z) (m : M) : M :=
  store p (replicate (Z.to_nat n) (wrap 8 c)) m.

Definition memset (i : nat) (p c n : Z) : cmd (sys M) Z :=
  let! s := get in
  do! when (addr_in_range (s_g s) p || addr_in_range (s_g s) (wrap64 (p + n)))
        (when (startTracking (s_g s)) (local_log_range i p n)) in
  do! on_pm (modify (cpu_fill p c n)) in
  ret p.

(** The hook: every tracked store is logged as eight bytes. *)
Definition checkMemory (i : nat) (ptr : Z) : cmd (sys M) unit :=
  if NO_CHECK_MEMORY cfg then ret tt
  else
    let! s := get in
    when (startTracking (s_g s))
      (if (start_addr (s_g s) <=? ptr) && (ptr <? end_addr (s_g s))
       then local_log_range i ptr 8
       else when (CXLBUF_TESTING_GOODIES cfg)
              (modify (upd_tally (λ t, put_stats (bump skip_check_count 1 (t_stats t)) t)))).

Definition msync (addr len flags : Z) : cmd (sys M) Z :=
  snapshot file_size real_msync cfg addr len flags.

Definition find_fd (fd : Z) (s : sys M) : option fd_metadata_t :=
  snd <$> List.find (λ p : Z * fd_metadata_t, p.1 =? fd) (s_mapped_addr s).

Definition fsync (fd : Z) : cmd (sys M) Z := λ s,
  match find_fd fd s with
  | None => Exit 1 s
  | Some md =>
      if s_storeInstEnabled s
      then snapshot file_size real_msync cfg (r_start (fm_range md))
             (wrap64 (r_end (fm_range md) - r_start (fm_range md))) MS_SYNC s
      else Ret (real_fsync fd) s
  end.

Definition fdatasync (fd : Z) : cmd (sys M) Z := λ s,
  let range := match find_fd fd s with Some md => fm_range md | None => mkRange 0 0 end in
  let addr_mapped := match find_fd fd s with Some _ => true | None => false end in
  if addr_mapped && addr_in_range (s_g s) (wrap64 (r_start range + 1))
  then snapshot file_size real_msync cfg (r_start range) (wrap64 (r_end range - r_start range))
         MS_SYNC s
  else Ret (real_fdatasync fd) s.

Definition mremap (addr old_len new_len flags : Z) : cmd (sys M) Z := exit_with 1.
Definition sync : cmd (sys M) unit := exit_with 1.

(** The loop stops at the first mapping that holds [addr]. *)
Definition munmap (addr len : Z) : cmd (sys M) Z := λ s,
  match List.find (mapped_at addr) (s_mapped_addr s) with
  | Some (fd, md) =>
      if addr =? r_start (fm_range md)
      then Ret (real_munmap addr len)
             (put_mapped (List.filter (λ p : Z * fd_metadata_t, negb (p.1 =? fd)) (s_mapped_addr s)) s)
      else Exit 1 s
  | None => Ret (real_munmap addr len) s
  end.

(** ** Programs *)

(** What an instrumented program does to memory: a store behind the hook, the
    interposed copies, and msync. *)
Inductive op :=
| OpStore (i : nat) (ptr : Z) (bs : list Z)
| OpMemcpy (i : nat) (dst src n : Z)
| OpMemmove (i : nat) (dst src n : Z)
| OpMemset (i : nat) (p c n : Z)
| OpMsync (addr len flags : Z).

Definition exec (o : op) : cmd (sys M) Z :=
  match o with
  | OpStore i ptr bs =>
      do! checkMemory i ptr in
      do! on_pm (modify (store ptr bs)) in
      ret 0
  | OpMemcpy i dst src n => memcpy i dst src n
  | OpMemmove i dst src n => memmove i dst src n
  | OpMemset i p c n => memset i p c n
  | OpMsync addr len flags => msync addr len flags
  end.
End Wrappers.
