(* ===== verification/Startup.v ===== *)
(** * Finding the functions of libc (init_dlsyms of libstoreinst/libc_wrappers.cc)

    The wrappers call the functions they stand before through pointers that
    init_dlsyms fills in with dlsym.  It runs from the constructor of the library,
    and from a wrapper that is called earlier and finds its pointer null.  The
    results of dlsym are a parameter. *)

From stdpp Require Import base list gmap strings.
From Stdlib Require Import ZArith Lia.
From S2P Require Import Prelude.

Open Scope string_scope.
Open Scope Z_scope.

(** The pointers [real_...], by the name of the function; null before they are set. *)
Record dl := mkDl { init_dlsyms_done : bool; real_ptrs : gmap string Z }.
Definition real (s : dl) (name : string) : Z := default 0 (real_ptrs s !! name).
Definition set_real (name : string) (p : Z) (s : dl) : dl :=
  mkDl (init_dlsyms_done s) (<[name := p]> (real_ptrs s)).

Section Dlsyms.
Context (dlsym : string → Z).

(** One function: its pointer is stored, and a null one ends the process. *)
Definition find_symbol (name : string) : cmd dl unit :=
  do! modify (set_real name (dlsym name)) in
  if dlsym name =? 0 then exit_with 1 else ret tt.

Definition wrapped : list string :=
  ["memcpy"; "memmove"; "memset"; "mmap"; "sync"; "fsync"; "fdatasync"; "mremap"; "msync"; "munmap"].

Definition init_dlsyms : cmd dl unit :=
  let! s := get in
  if init_dlsyms_done s then ret tt
  else
    do! modify (λ s, mkDl true (real_ptrs s)) in
    for_each wrapped find_symbol.

(** The wrappers that call the function they stand for. *)
Definition callers : list string :=
  ["memcpy"; "memmove"; "memset"; "mmap"; "fsync"; "fdatasync"; "msync"; "munmap"].

(** The first lines of a wrapper, and its call of the function; a call through a null
    pointer is a trap.  [munmap] has no test; [sync] and [mremap] end the process. *)
Definition enter (name : string) : cmd dl Z :=
  if String.eqb name "sync" then exit_with 1
  else
    let! s := get in
    do! when (negb (String.eqb name "munmap") && (real s name =? 0)) init_dlsyms in
    if String.eqb name "mremap" then exit_with 1
    else
      let! s := get in
      if real s name =? 0 then trap else ret (real s name).

Fixpoint enter_all (names : list string) : cmd dl (list Z) :=
  match names with
  | [] => ret []
  | n :: names => let! p := enter n in let! ps := enter_all names in ret (p :: ps)
  end.

(** ** Every wrapper reaches its function *)

(** Between calls, either nothing was looked up, or everything was found. *)
Definition dl_ok (s : dl) : Prop :=
  if init_dlsyms_done s then ∀ n, n ∈ wrapped → real s n = dlsym n else real_ptrs s = ∅.

Lemma find_symbols names s :
  (∀ n, n ∈ names → dlsym n ≠ 0) →
  ∃ s', for_each names find_symbol s = Ret tt s' ∧ init_dlsyms_done s' = init_dlsyms_done s
    ∧ ∀ n, real s' n = if decide (n ∈ names) then dlsym n else real s n.
Proof.
  revert s. induction names as [|n names IH]; intros s Hn.
  { exists s. split_and!; [done..|]. intros x. rewrite decide_False; [done|]. apply not_elem_of_nil. }
  destruct (IH (set_real n (dlsym n) s)) as (s' & E & Hd & Hr).
  { intros x Hx. apply Hn. by right. }
  exists s'. split_and!; [|done|].
  - cbn [for_each]. erewrite bind_eq; [exact E|]. unfold find_symbol, bind, modify.
    rewrite (proj2 (Z.eqb_neq _ _)) by (apply Hn; by left). done.
  - intros x. rewrite Hr. unfold real, set_real. simpl. destruct (decide (x ∈ names)) as [H1|H1].
    + rewrite decide_True; [done|]. by right.
    + destruct (decide (x = n)) as [->|Hxn].
      * rewrite lookup_insert_eq, decide_True; [done|]. by left.
      * rewrite lookup_insert_ne by done. rewrite decide_False; [done|]. intros [?|?]%elem_of_cons; done.
Qed.

Lemma init_dlsyms_ok s :
  (∀ n, n ∈ wrapped → dlsym n ≠ 0) → dl_ok s →
  ∃ s', init_dlsyms s = Ret tt s' ∧ dl_ok s' ∧ init_dlsyms_done s' = true.
Proof.
  intros Hall Hs. unfold init_dlsyms, bind at 1, get. destruct (init_dlsyms_done s) eqn:E; [by exists s|].
  destruct (find_symbols wrapped (mkDl true (real_ptrs s)) Hall) as (s' & E' & Hd & Hr).
  exists s'. split; [exact E'|]. simpl in Hd. split; [|done]. unfold dl_ok. rewrite Hd. intros n Hn. rewrite Hr. by rewrite decide_True.
Qed.

Lemma callers_wrapped n :
  n ∈ callers → n ∈ wrapped ∧ String.eqb n "sync" = false ∧ String.eqb n "mremap" = false.
Proof. unfold callers. rewrite !elem_of_cons, elem_of_nil. intros H.
  destruct_or! H; subst; try done; (split; [set_solver|done]).
Qed.

Lemma enter_ok name s :
  (∀ n, n ∈ wrapped → dlsym n ≠ 0) → dl_ok s → name ∈ callers →
  name ≠ "munmap" ∨ init_dlsyms_done s = true →
  ∃ s', enter name s = Ret (dlsym name) s' ∧ dl_ok s' ∧ init_dlsyms_done s' = true.
Proof.
  intros Hall Hs (Hn & Esync & Emremap)%callers_wrapped Hm. pose proof (Hall name Hn) as Hne.
  unfold enter. rewrite Esync, Emremap. unfold bind at 1, get.
  destruct (init_dlsyms_done s) eqn:Ed.
  - pose proof Hs as Hr. unfold dl_ok in Hr. rewrite Ed in Hr. rewrite (Hr name Hn), (proj2 (Z.eqb_neq _ _)) by done.
    rewrite andb_false_r. cbn [when]. unfold bind, ret at 1. rewrite (Hr name Hn), (proj2 (Z.eqb_neq _ _)) by done.
    by exists s.
  - destruct Hm as [Hm|?]; [|done]. destruct (String.eqb_spec name "munmap"); [done|]. cbn [negb andb].
    pose proof Hs as Hr. unfold dl_ok in Hr. rewrite Ed in Hr. unfold real at 1. rewrite Hr, lookup_empty. cbn [default].
    rewrite Z.eqb_refl. cbn [when].
    destruct (init_dlsyms_ok s Hall Hs) as (s' & E & Hs' & Hd'). erewrite bind_eq; [|exact E].
    unfold bind. pose proof Hs' as Hr'. unfold dl_ok in Hr'. rewrite Hd' in Hr'.
    rewrite (Hr' name Hn), (proj2 (Z.eqb_neq _ _)) by done. by exists s'.
Qed.

Lemma enter_all_ok names s :
  (∀ n, n ∈ wrapped → dlsym n ≠ 0) → dl_ok s → Forall (λ n, n ∈ callers) names →
  head names ≠ Some "munmap" ∨ init_dlsyms_done s = true →
  ∃ s', enter_all names s = Ret (dlsym <$> names) s' ∧ dl_ok s'.
Proof.
  intros Hall. revert s. induction names as [|n names IH]; intros s Hs Hn Hh; [by exists s|].
  apply Forall_cons in Hn as [Hn Hns]. simpl in Hh.
  destruct (enter_ok n s Hall Hs Hn) as (s1 & E1 & Hs1 & Hd1); [destruct Hh; [left; congruence|by right]|].
  destruct (IH s1 Hs1 Hns) as (s' & E' & Hs'); [by right|].
  exists s'. split; [|done]. cbn [enter_all]. erewrite bind_eq; [|exact E1]. by erewrite bind_eq by exact E'.
Qed.
End Dlsyms.

(** Whatever wrappers a program calls, in whatever order, each of them calls the
    function of libc it stands for, also before the constructor ran, when libc has
    all ten functions, munmap is not the first call, and sync and mremap, which end
    the process, are not called. *)
Theorem wrappers_reach_libc dlsym names :
  (∀ n, n ∈ wrapped → dlsym n ≠ 0) → Forall (λ n, n ∈ callers) names → head names ≠ Some "munmap" →
  ∃ s', enter_all dlsym names (mkDl false ∅) = Ret (dlsym <$> names) s'.
Proof.
  intros Hall Hn Hh. destruct (enter_all_ok dlsym names (mkDl false ∅) Hall) as (s' & E & _); [done..|by left|].
  by exists s'.
Qed.

Module DemoDl.
Definition libc (n : string) : Z := if bool_decide (n ∈ wrapped) then 4096 else 0.

Lemma wrappers_reach_libc_witness :
  ∃ s', enter_all libc ["memset"; "munmap"; "mmap"] (mkDl false ∅) = Ret [4096; 4096; 4096] s'.
Proof.
  apply (wrappers_reach_libc libc ["memset"; "munmap"; "mmap"]).
  - intros n Hn. unfold libc. rewrite bool_decide_true by done. discriminate.
  - repeat constructor; apply (bool_decide_unpack _); vm_compute; exact I.
  - discriminate.
Defined.

Definition traps {S A} (o : outcome S A) : bool := match o with Trap _ => true | _ => false end.

(** munmap before anything else calls through a null pointer. *)
Theorem munmap_first_traps : traps (enter libc "munmap" (mkDl false ∅)) = true.
Proof. vm_compute. reflexivity. Qed.

(** The flag is set before the pointers: a wrapper that dlsym itself calls finds it
    set and a null pointer. *)
Theorem nested_call_traps :
  traps (enter libc "memset" (state_of (find_symbol libc "memcpy" (mkDl true ∅)))) = true.
Proof. vm_compute. reflexivity. Qed.

(** Without one of the functions the process ends with status 1. *)
Theorem missing_symbol_exits :
  match init_dlsyms (λ n, if String.eqb n "fsync" then 0 else 4096) (mkDl false ∅) with
  | Exit 1 _ => true | _ => false end = true.
Proof. vm_compute. reflexivity. Qed.
End DemoDl.
