(* ===== verification/Tracking.v ===== *)
(** * The tracking invariant

    An instrumented program runs as a sequence of operations of its threads
    ([Wrappers.op]).  [tracking] relates the page cache, the backing file and the
    logs in every state such a run reaches:
    a byte of the page cache that no log covers equals its byte of the backing
    file, and the earliest logged value of a byte is the backing file's.  From
    it follow the two promises of the library: msync makes the backing file
    equal to the page cache, and replaying an intact log takes the file back to
    the last snapshot. *)

From stdpp Require Import base list sets strings.
From Stdlib Require Import ZArith Lia.
From S2P Require Import Prelude Memory PMem Log Recovery Snapshot Wrappers.

(** Byte [x] is covered by the volatile list. *)
Definition e_covers (e : log_entry_lean_t) (x : Z) : bool := in_rng (le_addr e) (le_bytes e) x.
Definition listed (es : list log_entry_lean_t) (x : Z) : bool := existsb (λ e, e_covers e x) es.

Lemma listed_app es es' x : listed (es ++ es') x = listed es x || listed es' x.
Proof. apply existsb_app. Qed.

Section Tracking.
Context {M : Type} `{PMemLaws M}.
Context (cfg : config) (g : globals) (len : Z).
Implicit Types (m : M) (l : Log) (s : sys M) (us : list undo).
Abbreviation P := (backing_file_start g).
Abbreviation S0 := (start_addr g).

(** The log area of [l] with its whole capacity. *)
Definition in_area l (x : Z) : Prop := log_area l ≤ x < log_area l + BUF_SIZE.

(** Layout of the address space and the mode of operation. *)
Record setup : Prop := {
  su_rg : region P S0 len;
  su_end : end_addr g = S0 + len;
  su_56 : S0 + len < 2 ^ 56;
  su_track : startTracking g = true;
  su_mode : cxlModeEnabled g = true;
  su_nop : nopMsync g = false;
  su_vol : LOG_FORMAT_VOLATILE cfg = true;
  su_pers : NO_PERSIST_OPS cfg = false;
  su_check : NO_CHECK_MEMORY cfg = false;
  su_crash : CXLBUF_TESTING_GOODIES cfg && crashOnCommit g = false;
}.

Record areas_apart (ls : list Log) : Prop := {
  aa_pos l : l ∈ ls → 0 < log_area l ∧ log_area l mod 64 = 0 ∧ log_area l + BUF_SIZE < 2 ^ 63;
  aa_cache l : l ∈ ls → rng_disj (log_area l) BUF_SIZE S0 len;
  aa_back l : l ∈ ls → rng_disj (log_area l) BUF_SIZE P len;
  aa_pair i j l l' : i ≠ j → ls !! i = Some l → ls !! j = Some l' →
    rng_disj (log_area l) BUF_SIZE (log_area l') BUF_SIZE;
}.

Definition u_in (u : undo) : Prop := S0 ≤ u_addr u ∧ u_addr u + blen (u_data u) ≤ S0 + len.

(** One log against its abstract contents. *)
Record log_ok m l us : Prop := {
  lo_wf : log_wf l m us;
  lo_cap : sizeof_layout + total us ≤ BUF_SIZE;
  lo_in : Forall u_in us;
  lo_listed x : listed (entries l) x = covered us x;
  lo_entries : Forall (entry_in S0 len) (entries l);
  lo_last x : e_covers (last_log l) x = true → covered us x = true;
}.

Definition covered_by (uss : list (list undo)) (x : Z) : bool := existsb (λ us, covered us x) uss.

Record tracking s (uss : list (list undo)) : Prop := {
  tr_g : s_g s = g;
  tr_first : s_firstSnapshot s = false;
  tr_inst : s_storeInstEnabled s = true ∨ ∀ x, covered_by uss x = false;
  tr_areas : areas_apart (logs_of s);
  tr_logs : Forall2 (log_ok (s_pm s)) (logs_of s) uss;
  tr_clean x : in_cache g len x → covered_by uss x = false →
    view (s_pm s) x = view (s_pm s) (P + (x - S0));
  tr_undo i us x v : uss !! i = Some us → in_cache g len x → first_value us x = Some v →
    (∀ j us', j ≠ i → uss !! j = Some us' → covered us' x = false) →
    v = view (s_pm s) (P + (x - S0));
  tr_durable x : in_back g len x → durable (s_pm s) x;
}.

(** ** Frames *)

Lemma log_ok_frame m m' l us :
  (∀ x, in_area l x → quiet m m' x) → log_ok m l us → log_ok m' l us.
Proof.
  intros Hq [Hwf Hcap Hin Hli Hen Hla]. split; try done.
  destruct Hwf as [Hw1 Hw2 Hoff Htail Henc Hw6 Hw7 Hw8 Hst].
  pose proof (total_nonneg us). unfold in_area, content, sizeof_layout in *.
  split; try done.
  - transitivity (log_offset (view m) (log_area l)); [|done]. apply loadN_ext. intros x Hx. apply Hq. lia.
  - transitivity (tail_ptr (view m) (log_area l)); [|done]. apply loadN_ext. intros x Hx. apply Hq. lia.
  - apply (encodes_ext (view m)); [|done]. intros x Hx. symmetry. apply Hq.
    unfold content, sizeof_layout in Hx. lia.
  - intros x Hx. apply Hq; [|by apply Hst]. unfold content, sizeof_layout in Hx. lia.
Qed.

Lemma covered_by_lookup uss i us x :
  uss !! i = Some us → covered us x = true → covered_by uss x = true.
Proof.
  intros Hi Hc. apply existsb_exists. exists us. split; [|done].
  by eapply list_elem_of_In, list_elem_of_lookup_2.
Qed.

Lemma covered_by_none uss x :
  covered_by uss x = false ↔ ∀ i us, uss !! i = Some us → covered us x = false.
Proof.
  split.
  - intros Hc i us Hi. destruct (covered us x) eqn:E; [|done].
    by rewrite (covered_by_lookup _ _ _ _ Hi E) in Hc.
  - intros Hall. destruct (covered_by uss x) eqn:E; [|done].
    apply existsb_exists in E as (us & Hus & Hc). apply list_elem_of_In, list_elem_of_lookup in Hus as [i Hi].
    by rewrite (Hall i us Hi) in Hc.
Qed.

(** A write that touches only covered bytes of the page cache, or bytes of
    neither region nor any log. *)
Definition harmless s uss (x : Z) : Prop :=
  (in_cache g len x ∧ covered_by uss x = true)
  ∨ (¬ in_cache g len x ∧ ¬ in_back g len x ∧ ∀ l, l ∈ logs_of s → ¬ in_area l x).

Lemma tracking_write s uss m' :
  setup → tracking s uss → (∀ x, quiet (s_pm s) m' x ∨ harmless s uss x) →
  tracking (put_pm m' s) uss.
Proof.
  intros Hsu [Hg Hf Hi Ha Hl Hc Hu Hd] Hw.
  assert (∀ x, in_back g len x → quiet (s_pm s) m' x) as Hqb.
  { intros x Hx. destruct (Hw x) as [|[[Hx' _]|(_ & Hx' & _)]]; [done|exfalso|done].
    destruct Hsu as [[]]. unfold rng_disj, in_back, in_cache in *. lia. }
  assert (∀ x, in_cache g len x → in_back g len (P + (x - S0))) as Hcb.
  { intros x. unfold in_back, in_cache. lia. }
  split; simpl; try done.
  - change (logs_of (put_pm m' s)) with (logs_of s).
    apply Forall2_same_length_lookup. split; [by eapply Forall2_length|].
    intros i l us Hli Hui. pose proof (Forall2_lookup_lr _ _ _ _ _ _ Hl Hli Hui) as Hok.
    apply (log_ok_frame (s_pm s)); [|done]. intros x Hx.
    apply list_elem_of_lookup_2 in Hli as Hel.
    destruct (Hw x) as [|[[Hx' _]|(_ & _ & Hx')]]; [done|exfalso..].
    + pose proof (aa_cache _ Ha l Hel). unfold in_area, rng_disj, in_cache in *. lia.
    + by apply (Hx' l).
  - intros x Hx Hcov. destruct (Hqb _ (Hcb x Hx)) as [-> _].
    destruct (Hw x) as [[-> _]|[[_ Hx']|(Hx' & _)]]; [by apply Hc|congruence|done].
  - intros i us x v Hi' Hx Hv Hoth. destruct (Hqb _ (Hcb x Hx)) as [-> _]. eauto.
  - intros x Hx. apply Hqb; [done|]. by apply Hd.
Qed.

(** ** Logging a range *)

(** The abstract log after [log_range]. *)
Definition appended m l us (start n : Z) : list undo :=
  if persists_entry cfg l start n then us ++ [request m start n] else us.

Lemma request_covers m start n x :
  0 ≤ n → u_covers (request m start n) x = in_rng start n x.
Proof. intros Hn. unfold u_covers, request. simpl. rewrite blen_read_bytes. by rewrite Z2Nat.id. Qed.

Lemma covered_appended m l us start n x :
  0 ≤ n → log_ok m l us → LOG_FORMAT_VOLATILE cfg = true →
  covered (appended m l us start n) x = covered us x || in_rng start n x.
Proof.
  intros Hn [_ _ _ _ _ Hlast] Hvol. unfold appended, persists_entry. rewrite Hvol. simpl.
  destruct (repeats_last l start n) eqn:E; simpl.
  - unfold repeats_last in E. apply andb_true_iff in E as [Ea%Z.eqb_eq Eb%Z.eqb_eq].
    destruct (in_rng start n x) eqn:Ex; [|by rewrite orb_false_r].
    rewrite (Hlast x); [done|]. unfold e_covers. by rewrite Ea, Eb.
  - rewrite covered_app. simpl. rewrite orb_false_r. by rewrite request_covers.
Qed.

Lemma first_value_appended m l us start n x v :
  0 ≤ n → first_value (appended m l us start n) x = Some v →
  first_value us x = Some v
  ∨ (first_value us x = None ∧ in_rng start n x = true ∧ v = view m x).
Proof.
  intros Hn. unfold appended. destruct (persists_entry cfg l start n); [|by left].
  rewrite first_value_app. destruct (first_value us x); [by left|].
  simpl. rewrite request_covers by done. destruct (in_rng start n x) eqn:E; [|done].
  intros [= <-]. right. split_and!; [done|done|]. apply in_rng_spec in E.
  rewrite nth_read_bytes by lia. f_equal. lia.
Qed.

(** The range may be logged: inside the page cache, small, and the log has
    room for it. *)
Definition loggable us (start n : Z) : Prop :=
  0 ≤ n < 2 ^ 22 ∧ S0 ≤ start ∧ start + n ≤ S0 + len
  ∧ sizeof_layout + total us + sizeof_entry + n ≤ BUF_SIZE.

Lemma loggable_room ls l us start n :
  setup → areas_apart ls → l ∈ ls → loggable us start n → room l us start n.
Proof.
  intros [[] _ H56 _ _ _ _ _ _ _] Ha Hl (Hn & H1 & H2 & H3).
  destruct (aa_pos _ Ha l Hl) as (? & ? & ?). pose proof (aa_cache _ Ha l Hl).
  unfold sizeof_layout, sizeof_entry, rng_disj in *.
  split; unfold content, sizeof_layout, sizeof_entry, rng_disj; lia.
Qed.

(** The log of thread [i] after the call. *)
Lemma log_ok_step s c' l us start n :
  setup → areas_apart (logs_of s) → l ∈ logs_of s → log_ok (s_pm s) l us → loggable us start n →
  log_area (this c') = log_area l →
  entries (this c') = vol_append cfg l start n →
  last_log (this c') = mkLean start n →
  log_wf (this c') (pmem c') (appended (s_pm s) l us start n) →
  log_ok (pmem c') (this c') (appended (s_pm s) l us start n).
Proof.
  intros Hsu Ha Hl Hok Hlg Ea Ee El Hwf. pose proof Hlg as (Hn & H1 & H2 & H3).
  pose proof (su_vol Hsu) as Hvol. pose proof Hok as [_ Hcap Hin Hli Hen Hla].
  split.
  - done.
  - unfold appended. case_match; [|done]. rewrite total_app, total_cons.
    change (total []) with 0. rewrite usize_request by lia. lia.
  - unfold appended. case_match; [|done]. apply Forall_app. split; [done|].
    apply Forall_singleton. unfold u_in, request. simpl. rewrite blen_read_bytes. lia.
  - intros x. rewrite Ee, (covered_appended (s_pm s) l us start n x ltac:(lia) Hok Hvol).
    unfold vol_append. rewrite Hvol, listed_app, Hli. simpl. rewrite orb_false_r. done.
  - rewrite Ee. unfold vol_append. rewrite Hvol. apply Forall_app. split; [done|].
    apply Forall_singleton. unfold entry_in. simpl. lia.
  - intros x. rewrite El, (covered_appended (s_pm s) l us start n x ltac:(lia) Hok Hvol).
    unfold e_covers. simpl. intros ->. apply orb_true_r.
Qed.

Lemma covered_by_insert uss i us us' x :
  uss !! i = Some us → (covered us x = true → covered us' x = true) →
  covered_by (<[i := us']> uss) x = covered_by uss x || covered us' x.
Proof.
  intros Hi Hmono. destruct (covered us' x) eqn:E'.
  - rewrite orb_true_r. apply (covered_by_lookup _ i us'); [|done].
    apply list_lookup_insert_eq. by eapply lookup_lt_Some.
  - rewrite orb_false_r. destruct (covered_by uss x) eqn:E.
    + apply existsb_exists in E as (us2 & Hus & Hc).
      apply list_elem_of_In, list_elem_of_lookup in Hus as [j Hj].
      apply (covered_by_lookup _ j us2); [|done]. rewrite list_lookup_insert_ne; [done|].
      intros ->. simplify_eq. specialize (Hmono Hc). done.
    + apply covered_by_none. intros j us2 Hj.
      destruct (decide (i = j)) as [<-|Hne].
      * rewrite list_lookup_insert_eq in Hj by (by eapply lookup_lt_Some). by simplify_eq.
      * rewrite list_lookup_insert_ne in Hj by done. by apply (proj1 (covered_by_none uss x) E j).
Qed.

Lemma areas_apart_insert ls i l l' :
  ls !! i = Some l → log_area l' = log_area l → areas_apart ls → areas_apart (<[i := l']> ls).
Proof.
  intros Hi Ea [H1 H2 H3 H4].
  assert (∀ k, k ∈ <[i:=l']> ls → ∃ k', k' ∈ ls ∧ log_area k' = log_area k) as Hel.
  { intros k [j Hj]%list_elem_of_lookup. destruct (decide (i = j)) as [<-|Hne].
    - rewrite list_lookup_insert_eq in Hj by (by eapply lookup_lt_Some). simplify_eq.
      exists l. split; [by eapply list_elem_of_lookup_2|done].
    - rewrite list_lookup_insert_ne in Hj by done. exists k. split; [by eapply list_elem_of_lookup_2|done]. }
  assert (∀ j k, <[i:=l']> ls !! j = Some k → ∃ k', ls !! j = Some k' ∧ log_area k' = log_area k) as Hlk.
  { intros j k Hj. destruct (decide (i = j)) as [<-|Hne].
    - rewrite list_lookup_insert_eq in Hj by (by eapply lookup_lt_Some). simplify_eq. by exists l.
    - rewrite list_lookup_insert_ne in Hj by done. by exists k. }
  split.
  - intros k (k' & Hk' & <-)%Hel. by apply H1.
  - intros k (k' & Hk' & <-)%Hel. by apply H2.
  - intros k (k' & Hk' & <-)%Hel. by apply H3.
  - intros a b ka kb Hne (ka' & Ha & <-)%Hlk (kb' & Hb & <-)%Hlk. by apply (H4 a b).
Qed.

(** The invariant's part about values, for a log extended at [i]. *)
Lemma undo_step s uss i l us start n :
  setup → tracking s uss → uss !! i = Some us → log_ok (s_pm s) l us → loggable us start n →
  let uss' := <[i := appended (s_pm s) l us start n]> uss in
  (∀ x, covered_by uss' x = covered_by uss x || in_rng start n x)
  ∧ ∀ k us' x v, uss' !! k = Some us' → in_cache g len x → first_value us' x = Some v →
      (∀ j us'', j ≠ k → uss' !! j = Some us'' → covered us'' x = false) →
      v = view (s_pm s) (P + (x - S0)).
Proof.
  intros Hsu Htr Hi Hok (Hn & _). cbv zeta.
  pose proof (λ x, covered_appended (s_pm s) l us start n x ltac:(lia) Hok (su_vol Hsu)) as Hcov.
  set (us1 := appended (s_pm s) l us start n) in *.
  assert (i < length uss)%nat as Hlt by (by eapply lookup_lt_Some).
  split.
  - intros x. rewrite (covered_by_insert _ _ us); [|done|rewrite Hcov; by intros ->].
    rewrite Hcov. destruct (covered us x) eqn:E; simpl; [|done].
    rewrite (covered_by_lookup _ _ _ _ Hi E). done.
  - intros k us' x v Hk Hx Hv Hoth. destruct (decide (i = k)) as [<-|Hne].
    + rewrite list_lookup_insert_eq in Hk by done. injection Hk as <-.
      assert (∀ j us', j ≠ i → uss !! j = Some us' → covered us' x = false) as Hoth'.
      { intros j us' Hj Hju. apply (Hoth j); [done|]. by rewrite list_lookup_insert_ne. }
      destruct (first_value_appended (s_pm s) l us start n x v ltac:(lia) Hv) as [Hv'|(Hnone & Hr & ->)].
      { by apply (tr_undo _ _ Htr i us). }
      apply (tr_clean _ _ Htr); [done|]. apply covered_by_none. intros j us' Hj.
      destruct (decide (j = i)) as [->|Hji]; [|by apply (Hoth' j)].
      rewrite Hi in Hj. injection Hj as <-.
      destruct (covered us x) eqn:Ec; [|done]. apply first_value_covered in Ec as [? ?]. congruence.
    + rewrite list_lookup_insert_ne in Hk by done.
      apply (tr_undo _ _ Htr k us'); [done..|]. intros j us'' Hj Hju.
      destruct (decide (j = i)) as [->|Hji].
      * simplify_eq. assert (covered us1 x = false) as Hc.
        { apply (Hoth i); [done|]. by apply list_lookup_insert_eq. }
        rewrite Hcov in Hc. by apply orb_false_iff in Hc as [? _].
      * apply (Hoth j); [done|]. by rewrite list_lookup_insert_ne.
Qed.

Lemma quiet_outside_area s l us start n m' x :
  log_ok (s_pm s) l us → loggable us start n →
  (∀ x, untouched (log_area l) (content (log_area l) + total us) n x → quiet (s_pm s) m' x) →
  ¬ in_area l x → quiet (s_pm s) m' x.
Proof.
  intros Hok (Hn & H1 & H2 & H3) Hq Hx. apply Hq. pose proof (total_nonneg us).
  unfold untouched, in_area, content, sizeof_layout, sizeof_entry in *. lia.
Qed.

(** [log_range] keeps the invariant and covers the range; it changes nothing
    outside the log area of the thread. *)
Lemma tracking_log s uss i us start n :
  setup → tracking s uss → uss !! i = Some us → loggable us start n →
  ∃ s' uss', local_log_range cfg i start n s = Ret tt s' ∧ tracking s' uss'
    ∧ map log_area (logs_of s') = map log_area (logs_of s)
    ∧ (∀ x, covered_by uss' x = covered_by uss x || in_rng start n x)
    ∧ (∀ x, (∀ l, l ∈ logs_of s → ¬ in_area l x) → quiet (s_pm s) (s_pm s') x)
    ∧ s_storeInstEnabled s' = true
    ∧ ∃ us', uss' !! i = Some us' ∧ total us' ≤ total us + sizeof_entry + n.
Proof.
  intros Hsu Htr Hi Hlg. pose proof Htr as [Hg Hf Hin Ha Hl Hc Hu Hd].
  destruct (Forall2_lookup_r _ _ _ _ _ Hl Hi) as (l & Hli & Hok).
  apply list_elem_of_lookup_2 in Hli as Hel.
  pose proof (loggable_room _ _ _ _ _ Hsu Ha Hel Hlg) as Hroom. pose proof (lo_wf _ _ _ Hok) as Hwf.
  destruct (log_range_step cfg start n
    (mkCtx l (s_storeInstEnabled s) (t_stats (s_tally s)) (s_pm s)) us)
    as (c' & E & Es & Ea & Ee & Ell & Hwf' & Hq); simpl; [|done|done|].
  { split; [apply Hsu|]. right. apply Hlg. }
  simpl in *. rewrite (su_vol Hsu) in Ell.
  pose proof (log_ok_step s c' l us start n Hsu Ha Hel Hok Hlg Ea Ee Ell Hwf') as Hok'.
  destruct (undo_step s uss i l us start n Hsu Htr Hi Hok Hlg) as [Hcov Hundo].
  set (uss' := <[i := appended (s_pm s) l us start n]> uss) in *.
  assert (∀ x, ¬ in_area l x → quiet (s_pm s) (pmem c') x) as Hqo
    by (intros x; by apply (quiet_outside_area s l us start n)).
  assert (∀ x, in_back g len x ∨ in_cache g len x → ¬ in_area l x) as Hreg.
  { intros x Hx. pose proof (aa_cache _ Ha l Hel). pose proof (aa_back _ Ha l Hel).
    unfold in_back, in_cache, in_area, rng_disj in *. lia. }
  assert (∀ x, in_cache g len x → in_back g len (P + (x - S0))) as Hcb.
  { intros x. unfold in_back, in_cache. lia. }
  eexists _, uss'. split_and!.
  - unfold local_log_range, with_log. rewrite Hli, Hg, (su_mode Hsu), E. reflexivity.
  - split; simpl.
    + done.
    + done.
    + by left.
    + by eapply areas_apart_insert.
    + change (logs_of (put_log i (this c') _)) with (<[i := this c']> (logs_of s)).
      apply Forall2_same_length_lookup. split; [unfold uss'; rewrite !length_insert; by eapply Forall2_length|].
      intros k lk usk Hlk Huk. destruct (decide (i = k)) as [<-|Hne].
      * unfold uss' in Huk.
        rewrite list_lookup_insert_eq in Hlk by (by eapply lookup_lt_Some).
        rewrite list_lookup_insert_eq in Huk by (by eapply lookup_lt_Some). by simplify_eq.
      * unfold uss' in Huk. rewrite list_lookup_insert_ne in Hlk by done.
        rewrite list_lookup_insert_ne in Huk by done.
        apply (log_ok_frame (s_pm s)); [|by eapply (Forall2_lookup_lr _ _ _ k)].
        intros x Hx. apply Hqo. pose proof (aa_pair _ Ha i k l lk Hne Hli Hlk).
        unfold in_area, rng_disj in *. lia.
    + intros x Hx Hnc. rewrite Hcov in Hnc. apply orb_false_iff in Hnc as [Hnc _].
      destruct (Hqo x) as [-> _]; [auto|]. destruct (Hqo (P + (x - S0))) as [-> _]; auto.
    + intros k us' x v Hk Hx Hv Ho. destruct (Hqo (P + (x - S0))) as [-> _]; eauto.
    + intros x Hx. apply (Hqo x); auto.
  - change (logs_of (put_log i (this c') _)) with (<[i := this c']> (logs_of s)).
    rewrite list_fmap_insert, Ea. apply list_insert_id. by rewrite list_lookup_fmap, Hli.
  - done.
  - intros x Hx. apply Hqo. by apply Hx.
  - done.
  - eexists. split; [apply list_lookup_insert_eq; by eapply lookup_lt_Some|].
    destruct Hlg as (Hn & _). unfold appended, sizeof_entry. case_match; [|lia].
    rewrite total_app, total_cons. change (total []) with 0. rewrite usize_request by lia.
    unfold sizeof_entry. lia.
Qed.

(** ** Snapshots of the whole region *)

Lemma areas_logs_apart ls : areas_apart ls → logs_apart g len ls.
Proof.
  intros [H1 H2 H3 H4]. split.
  - intros l Hl. destruct (H1 l Hl) as (?&?&?). pose proof (H2 l Hl). pose proof (H3 l Hl).
    unfold rng_disj, content, sizeof_layout, BUF_SIZE in *.
    split; unfold rng_disj, content, sizeof_layout; lia || done.
  - intros i j l l' Hne Hi Hj. pose proof (H4 i j l l' Hne Hi Hj).
    unfold rng_disj, sizeof_layout, BUF_SIZE in *. lia.
Qed.

Lemma areas_apart_cleared ls : areas_apart ls → areas_apart (map cleared ls).
Proof.
  intros [H1 H2 H3 H4].
  assert (∀ k, k ∈ map cleared ls → ∃ k', k' ∈ ls ∧ log_area k' = log_area k) as Hel.
  { intros k (k' & -> & Hk')%list_elem_of_fmap. by exists k'. }
  split.
  - intros k (k' & Hk' & <-)%Hel. by apply H1.
  - intros k (k' & Hk' & <-)%Hel. by apply H2.
  - intros k (k' & Hk' & <-)%Hel. by apply H3.
  - intros a b ka kb Hne. rewrite !list_lookup_fmap.
    intros (ka' & Ha & ->)%fmap_Some (kb' & Hb & ->)%fmap_Some.
    exact (H4 a b ka' kb' Hne Ha Hb).
Qed.

Lemma tracking_can_snapshot s uss :
  setup → tracking s uss → s_storeInstEnabled s = true → can_snapshot cfg g len s.
Proof.
  intros Hsu [Hg Hf _ Ha Hl _ _ _] Hinst. split; try done; try apply Hsu.
  - by apply areas_logs_apart.
  - intros l [i Hi]%list_elem_of_lookup. destruct (Forall2_lookup_l _ _ _ _ _ Hl Hi) as (us & _ & Hok).
    apply Hok.
Qed.

Lemma header_in_area ls x : headers ls x → ∃ l, l ∈ ls ∧ in_area l x.
Proof.
  intros (l & Hl & Hx). exists l. split; [done|].
  unfold in_header, in_area, sizeof_layout, BUF_SIZE in *. lia.
Qed.

(** A covered byte is in a window of a snapshot of the whole region. *)
Lemma covered_window s uss addr bytes x :
  setup → tracking s uss → in_cache g len x → covered_by uss x = true →
  0 ≤ addr → addr ≤ S0 → S0 + len ≤ addr + bytes → addr + bytes < 2 ^ 64 →
  all_windows cfg g addr (wrap64 (wrap64 (addr + bytes) - addr)) (logs_of s) (x - S0) = true.
Proof.
  intros Hsu Htr Hx Hc Ha1 Ha2 Ha3 Ha4. pose proof (su_rg Hsu) as Hrg.
  apply existsb_exists in Hc as (us & Hus & Hc).
  apply list_elem_of_In, list_elem_of_lookup in Hus as [i Hi].
  destruct (Forall2_lookup_r _ _ _ _ _ (tr_logs _ _ Htr) Hi) as (l & Hl & [_ _ _ Hli Hen _]).
  rewrite <-Hli in Hc. apply existsb_exists in Hc as (e & He%list_elem_of_In & Hc).
  pose proof (proj1 (Forall_forall _ _) Hen e He) as Hin. unfold e_covers in Hc. apply in_rng_spec in Hc.
  apply (all_windows_entry cfg g len addr _ _ l e); try done.
  - by eapply list_elem_of_lookup_2.
  - apply in_snapshot_iff; destruct Hin as (?&?&?), Hrg; lia.
Qed.

(** The abstract effect: the backing file becomes the page cache. *)
Definition mirrored s : Prop :=
  ∀ i, 0 ≤ i < len → view (s_pm s) (P + i) = view (s_pm s) (S0 + i)
                     ∧ durable (s_pm s) (P + i).

Lemma tracking_snapshot file_size real_msync s uss addr bytes flags :
  setup → tracking s uss → s_storeInstEnabled s = true →
  0 ≤ addr → addr ≤ S0 → S0 + len ≤ addr + bytes → addr + bytes < 2 ^ 64 →
  ∃ s', snapshot file_size real_msync cfg addr bytes flags s = Ret 0 s'
    ∧ tracking s' (map (λ _, []) uss) ∧ mirrored s'
    ∧ (∀ x, in_cache g len x → view (s_pm s') x = view (s_pm s) x)
    ∧ logs_of s' = map cleared (logs_of s).
Proof.
  intros Hsu Htr Hinst Ha1 Ha2 Ha3 Ha4. pose proof Htr as [Hg Hf _ Ha Hl Hc _ Hd].
  destruct (snapshot_run file_size real_msync cfg g len (su_rg Hsu) addr bytes flags s)
    as (s' & E & [[Eg Ei Ef _ _] Hlogs [Hfr Hbk Hm Hk] Hidle]).
  { unfold snapshot_live. rewrite Hg. split_and!; apply Hsu. }
  { by eapply tracking_can_snapshot. }
  rewrite firstn_all, drop_all, app_nil_r in *.
  set (W := all_windows _ _ _ _ _) in *.
  assert (∀ x, headers (logs_of s) x → ¬ in_back g len x ∧ ¬ in_cache g len x) as HX.
  { intros x (l & Hli & Hx)%header_in_area. pose proof (aa_cache _ Ha l Hli).
    pose proof (aa_back _ Ha l Hli). unfold in_back, in_cache, in_area, rng_disj in *. lia. }
  assert (∀ x, in_cache g len x → view (s_pm s') x = view (s_pm s) x) as Hcache.
  { intros x Hx. apply Hfr; [|intros Hh; by apply (HX x)].
    destruct (su_rg Hsu). unfold in_back, in_cache, rng_disj in *. lia. }
  assert (mirrored s') as Hmir.
  { intros i Hi. assert (in_cache g len (S0 + i)) as Hx by (unfold in_cache; lia).
    rewrite (Hbk i Hi), (Hcache _ Hx). destruct (W i) eqn:EW; [by split; [|apply Hm]|].
    assert (covered_by uss (S0 + i) = false) as Hnc.
    { destruct (covered_by uss (S0 + i)) eqn:Ec; [|done].
      rewrite <-EW. replace i with (S0 + i - S0) at 1 by lia. symmetry.
      by apply (covered_window s uss). }
    rewrite (Hc _ Hx Hnc). replace (P + (S0 + i - S0)) with (P + i) by lia. split; [done|].
    apply Hk; [intros Hh; apply (proj1 (HX _ Hh)); unfold in_back; lia| |apply Hd; unfold in_back; lia].
    intros _. by replace (P + i - P) with i by lia. }
  assert (∀ x, covered_by (map (λ _ : list undo, []) uss) x = false) as Hnone.
  { intros x. apply covered_by_none. intros i us. rewrite list_lookup_fmap.
    by intros (? & _ & ->)%fmap_Some. }
  exists s'. split_and!; [done| |done|done|done].
  - split.
    + congruence.
    + congruence.
    + left. congruence.
    + rewrite Hlogs. by apply areas_apart_cleared.
    + rewrite Hlogs. apply Forall2_fmap. apply Forall2_same_length_lookup.
      split; [by eapply Forall2_length|]. intros i l us Hli Hui.
      pose proof (Hidle i l (lookup_lt_Some _ _ _ Hli) Hli) as [Hwf _].
      split; simpl; try done.
      unfold e_covers. simpl. intros x Hx%in_rng_spec. lia.
    + intros x Hx _. destruct (Hmir (x - S0)) as [-> _]; [unfold in_cache in Hx; lia|].
      f_equal. lia.
    + intros i us x v Hi _ Hv. rewrite list_lookup_fmap in Hi.
      apply fmap_Some in Hi as (? & _ & ->). done.
    + intros x Hx. unfold in_back in Hx. destruct (Hmir (x - P)) as [_ Hdur]; [lia|].
      by replace (P + (x - P)) with x in Hdur by lia.
Qed.
End Tracking.

(** ** Runs of an instrumented program *)

Section Runs.
Context {M : Type} `{PMemLaws M}.
Context (file_size : string → Z) (real_msync : Z → Z → Z → Z).
Context (cfg : config) (g : globals) (len : Z).
Implicit Types (m : M) (s : sys M).
Abbreviation P := (backing_file_start g).
Abbreviation S0 := (start_addr g).

(** Thread [i] may log [n] bytes at [start]: the bytes are in the page cache
    and its log has room (the code does not test for it). *)
Definition may_track s (i : nat) (start n : Z) : Prop :=
  ∃ l, logs_of s !! i = Some l ∧ 0 ≤ n < 2 ^ 22 ∧ S0 ≤ start ∧ start + n ≤ S0 + len
    ∧ sizeof_layout + log_offset (view (s_pm s)) (log_area l) + sizeof_entry + n ≤ BUF_SIZE.

(** The bytes are in neither region nor any log. *)
Definition elsewhere s (a n : Z) : Prop :=
  0 ≤ n ∧ rng_disj a n S0 len ∧ rng_disj a n P len
  ∧ ∀ l, l ∈ logs_of s → rng_disj a n (log_area l) BUF_SIZE.

(** Operations of a well-behaved program: each write lies in the page cache or
    elsewhere, a store is at most eight bytes wide, msync covers the region. *)
Definition op_ok s (o : op) : Prop :=
  match o with
  | OpStore i ptr bs =>
      (may_track s i ptr 8 ∧ blen bs ≤ 8)
      ∨ (elsewhere s ptr (blen bs) ∧ (ptr < S0 ∨ S0 + len ≤ ptr))
  | OpMemcpy i dst _ n | OpMemmove i dst _ n =>
      may_track s i dst n ∨ (elsewhere s dst n ∧ (dst < S0 ∨ S0 + len < dst))
  | OpMemset i p _ n =>
      may_track s i p n
      ∨ (elsewhere s p n ∧ addr_in_range g p = false ∧ addr_in_range g (wrap64 (p + n)) = false)
  | OpMsync addr bytes _ =>
      0 ≤ addr ≤ S0 ∧ S0 + len ≤ addr + bytes < 2 ^ 64 ∧ s_storeInstEnabled s = true
  end.

Lemma may_track_loggable s uss i start n :
  tracking g len s uss → may_track s i start n →
  ∃ us, uss !! i = Some us ∧ loggable g len us start n.
Proof.
  intros Htr (l & Hl & Hn & H1 & H2 & H3).
  destruct (Forall2_lookup_l _ _ _ _ _ (tr_logs _ _ _ _ Htr) Hl) as (us & Hu & [Hwf _ _ _ _ _]).
  exists us. split; [done|]. rewrite (wf_off _ _ _ Hwf) in H3. done.
Qed.

Lemma quiet_store a bs m x : ¬ (a ≤ x < a + blen bs) → quiet m (store a bs m) x.
Proof.
  intros Hx%in_rng_false. split_and!.
  - by apply view_store_out.
  - by apply staged_store.
  - by apply durable_store.
Qed.

(** A store of bytes that are covered or elsewhere. *)
Lemma tracking_store s uss a bs :
  setup cfg g len → tracking g len s uss →
  ((∀ x, a ≤ x < a + blen bs → in_cache g len x ∧ covered_by uss x = true)
   ∨ elsewhere s a (blen bs)) →
  tracking g len (put_pm (store a bs (s_pm s)) s) uss.
Proof.
  intros Hsu Htr Hw. apply (tracking_write cfg); [done|done|]. intros x.
  destruct (decide (a ≤ x < a + blen bs)) as [Hx|Hx]; [right|left; by apply quiet_store].
  destruct Hw as [Hw|(Hn & H1 & H2 & H3)]; [by left; apply Hw|right].
  unfold in_cache, in_back, in_area, rng_disj in *. split_and!; [lia|lia|].
  intros l Hl. pose proof (H3 l Hl). lia.
Qed.

(** Log a range, then write to it. *)
Lemma tracking_logged_store s uss i a n bs :
  setup cfg g len → tracking g len s uss → may_track s i a n → blen bs ≤ n →
  ∃ s1 uss1, local_log_range cfg i a n s = Ret tt s1
    ∧ tracking g len (put_pm (store a bs (s_pm s1)) s1) uss1
    ∧ map log_area (logs_of s1) = map log_area (logs_of s)
    ∧ ∀ x, (∀ l, l ∈ logs_of s → ¬ in_area l x) → view (s_pm s1) x = view (s_pm s) x.
Proof.
  intros Hsu Htr Hmt Hb. destruct (may_track_loggable _ _ _ _ _ Htr Hmt) as (us & Hu & Hlg).
  destruct (tracking_log cfg g len s uss i us a n Hsu Htr Hu Hlg)
    as (s1 & uss1 & E & Htr1 & Hla & Hcov & Hq & _).
  exists s1, uss1. split_and!; [done| |done|intros x Hx; by apply Hq].
  apply tracking_store; [done|done|]. left. intros x Hx. destruct Hlg as (Hn & H1 & H2 & _). split.
  - unfold in_cache. lia.
  - rewrite Hcov. rewrite (proj2 (in_rng_spec a n x)) by lia. apply orb_true_r.
Qed.

Lemma tracking_tally s uss f : tracking g len s uss → tracking g len (upd_tally f s) uss.
Proof. intros []. by split. Qed.

(** A hook [h] followed by the write [f]: either the hook logs the range, or
    the write goes elsewhere and the hook only counts. *)
Lemma hooked_write s uss i a n k h f bsf (r : Z) :
  setup cfg g len → tracking g len s uss →
  (∀ m, f m = store a (bsf m) m) → (∀ m, blen (bsf m) = k) →
  (may_track s i a n ∧ k ≤ n ∧ h s = local_log_range cfg i a n s)
  ∨ (elsewhere s a k ∧ ∃ t, h s = Ret tt (upd_tally t s)) →
  ∃ s' m1 uss', bind h (λ _, bind (on_pm (modify f)) (λ _, ret r)) s = Ret r s'
    ∧ tracking g len s' uss' ∧ map log_area (logs_of s') = map log_area (logs_of s)
    ∧ s_pm s' = f m1
    ∧ ((∀ x, in_back g len x → view (s_pm s') x = view (s_pm s) x)
       ∧ (s_storeInstEnabled s = true → s_storeInstEnabled s' = true))
    ∧ ∀ x, (∀ l, l ∈ logs_of s → ¬ in_area l x) → view m1 x = view (s_pm s) x.
Proof.
  intros Hsu Htr Hf Hk Hcase.
  assert (∀ m1 x, (∀ x, (∀ l, l ∈ logs_of s → ¬ in_area l x) → view m1 x = view (s_pm s) x) →
    in_back g len x → view (f m1) x = view (s_pm s) x) as Hback.
  { intros m1 x Hm1 Hx. rewrite Hf, view_store. unfold write_bytes. rewrite Hk.
    rewrite (proj2 (in_rng_false _ _ _)).
    - apply Hm1. intros l Hl. pose proof (aa_back _ _ _ (tr_areas _ _ _ _ Htr) l Hl).
      unfold in_back, in_area, rng_disj in *. lia.
    - pose proof (rg_disj _ _ _ (su_rg _ _ _ Hsu)). pose proof (blen_nonneg (bsf m1)). rewrite Hk in *.
      destruct Hcase as [((l & _ & ? & ? & ? & _) & ? & _)|((? & ? & ? & _) & _)];
        unfold in_back, rng_disj in *; lia. }
  destruct Hcase as [(Hmt & Hle & Hh)|(Hel & t & Hh)].
  - destruct (may_track_loggable _ _ _ _ _ Htr Hmt) as (us & Hu & Hlg).
    destruct (tracking_log cfg g len s uss i us a n Hsu Htr Hu Hlg)
      as (s1 & uss1 & E & Htr1 & Hla & Hcov & Hq & Hen & _).
    exists (put_pm (f (s_pm s1)) s1), (s_pm s1), uss1. split_and!.
    + unfold bind. by rewrite Hh, E.
    + rewrite Hf. apply tracking_store; [done|done|]. left. intros x. rewrite Hk. intros Hx.
      destruct Hlg as (Hn & H1 & H2 & _). split; [unfold in_cache; lia|].
      rewrite Hcov, (proj2 (in_rng_spec a n x)) by lia. apply orb_true_r.
    + done.
    + done.
    + intros x. apply Hback. intros y Hy. by apply Hq.
    + done.
    + intros x Hx. by apply Hq.
  - exists (put_pm (f (s_pm s)) (upd_tally t s)), (s_pm s), uss. split_and!; try done; [| |intros x; by apply Hback].
    + unfold bind. by rewrite Hh.
    + rewrite Hf. apply (tracking_store (upd_tally t s)); [done|by apply tracking_tally|].
      right. by rewrite Hk.
Qed.

(** A store to the page cache behind the hook, in detail: where the bytes go and
    how much the log grows. *)
Lemma exec_store_tracked s uss i us a bs :
  setup cfg g len → tracking g len s uss → uss !! i = Some us → loggable g len us a 8 → blen bs ≤ 8 →
  ∃ s' uss' us', exec file_size real_msync cfg (OpStore i a bs) s = Ret 0 s' ∧ tracking g len s' uss'
    ∧ uss' !! i = Some us' ∧ total us' ≤ total us + sizeof_entry + 8
    ∧ s_storeInstEnabled s' = true
    ∧ map log_area (logs_of s') = map log_area (logs_of s)
    ∧ ∀ x, (∀ l, l ∈ logs_of s → ¬ in_area l x) → view (s_pm s') x = write_bytes (view (s_pm s)) a bs x.
Proof.
  intros Hsu Htr Hi Hlg Hb. pose proof Hsu as [_ Hend _ Ht _ _ _ _ Hnc _].
  destruct (tracking_log cfg g len s uss i us a 8 Hsu Htr Hi Hlg)
    as (s1 & uss1 & E & Htr1 & Hla & Hcov & Hq & Hen & us' & Hi' & Htot).
  exists (put_pm (store a bs (s_pm s1)) s1), uss1, us'. split_and!; try done.
  - unfold exec, checkMemory. rewrite Hnc. unfold bind, get, when. rewrite (tr_g _ _ _ _ Htr), Ht, Hend.
    destruct Hlg as (_ & H1 & H2 & _).
    rewrite (proj2 (Z.leb_le _ _)), (proj2 (Z.ltb_lt _ _)) by lia. cbn [andb]. by rewrite E.
  - apply tracking_store; [done|done|]. left. intros x Hx. destruct Hlg as (Hn & H1 & H2 & _).
    split; [unfold in_cache; lia|]. rewrite Hcov, (proj2 (in_rng_spec a 8 x)) by lia. apply orb_true_r.
  - intros x Hx. simpl. rewrite view_store. unfold write_bytes. by destruct (Hq x Hx) as [-> _].
Qed.

Lemma upd_tally_id s : upd_tally (λ t, t) s = s.
Proof. by destruct s. Qed.

(** Bytes the program can see: neither the backing file nor a log. *)
Definition visible s (x : Z) : Prop :=
  ¬ in_back g len x ∧ ∀ l, l ∈ logs_of s → ¬ in_area l x.

(** The operation on plain memory, without the library. *)
Definition plain_op (o : op) (m : mem) : mem :=
  match o with
  | OpStore _ ptr bs => write_bytes m ptr bs
  | OpMemcpy _ dst src n | OpMemmove _ dst src n => copy_bytes m dst src n
  | OpMemset _ p c n => fill_bytes m p c n
  | OpMsync _ _ _ => m
  end.

Definition reads_ok s (o : op) : Prop :=
  match o with
  | OpMemcpy _ _ src n | OpMemmove _ _ src n => ∀ x, src ≤ x < src + n → visible s x
  | _ => True
  end.

(** What one operation does: it returns, keeps the invariant, and acts on the
    visible memory as it would without the library. *)
Definition good_step s (o : op) : Prop :=
  ∃ r s' uss', exec file_size real_msync cfg o s = Ret r s' ∧ tracking g len s' uss'
    ∧ map log_area (logs_of s') = map log_area (logs_of s)
    ∧ (match o with
       | OpMsync _ _ _ => True
       | _ => (∀ x, in_back g len x → view (s_pm s') x = view (s_pm s) x)
           ∧ (s_storeInstEnabled s = true → s_storeInstEnabled s' = true)
       end)
    ∧ (reads_ok s o → ∀ x, visible s x → view (s_pm s') x = plain_op o (view (s_pm s)) x).

Lemma fill_bytes_write (m : mem) p c n :
  0 ≤ n → fill_bytes m p c n ≡ write_bytes m p (replicate (Z.to_nat n) (wrap 8 c)).
Proof.
  intros Hn x. unfold fill_bytes, write_bytes, blen. rewrite length_replicate, Z2Nat.id by done.
  rng. symmetry. apply nth_lookup_Some, lookup_replicate. split; [done|lia].
Qed.

Lemma in_tracked_range s i start n : may_track s i start n → start ≤ S0 + len ∧ S0 ≤ start ∧ 0 ≤ n.
Proof. intros (l & _ & ? & ? & ? & _). lia. Qed.

Lemma exec_store s uss i ptr bs :
  setup cfg g len → tracking g len s uss → op_ok s (OpStore i ptr bs) →
  good_step s (OpStore i ptr bs).
Proof.
  intros Hsu Htr Hok. pose proof Hsu as [_ Hend _ Ht _ _ _ _ Hnc _].
  destruct (hooked_write s uss i ptr 8 (blen bs) (checkMemory cfg i ptr) (store ptr bs)
    (λ _, bs) 0) as (s' & m1 & uss' & E & Htr' & Hla & Hpm & [Hb Hen] & Hv); try done.
  { unfold checkMemory. rewrite Hnc. unfold bind, get. rewrite (tr_g _ _ _ _ Htr), Ht, Hend. simpl.
    destruct Hok as [[Hmt Hb]|[Hel Hout]].
    - left. split_and!; try done. apply in_tracked_range in Hmt as Hr. destruct Hmt as (?&?&?&?&?&_).
      rewrite (proj2 (Z.leb_le _ _)), (proj2 (Z.ltb_lt _ _)) by lia. done.
    - right. split; [done|].
      destruct ((S0 <=? ptr) && (ptr <? S0 + len)) eqn:Er; [lia|].
      destruct (CXLBUF_TESTING_GOODIES cfg); [by eexists|]. exists (λ t, t). by rewrite upd_tally_id. }
  exists 0, s', uss'. split_and!; [done..|]. intros _ x [Hx1 Hx2]. rewrite Hpm. simpl.
  rewrite view_store. unfold write_bytes. by rewrite (Hv x Hx2).
Qed.

Lemma blen_copied m src n : 0 ≤ n → blen (read_bytes (view m) src (Z.to_nat n)) = n.
Proof. intros. rewrite blen_read_bytes. lia. Qed.

Lemma exec_memcpy s uss i dst src n :
  setup cfg g len → tracking g len s uss → op_ok s (OpMemcpy i dst src n) →
  good_step s (OpMemcpy i dst src n).
Proof.
  intros Hsu Htr Hok. pose proof Hsu as [[Hs0 _ _ _ _ _ _ _] Hend _ Ht _ _ _ _ _ _].
  assert (0 ≤ n) as Hn by (destruct Hok as [Hm|[Hel _]]; [apply in_tracked_range in Hm; lia|apply Hel]).
  destruct (hooked_write s uss i dst n n
    (when (startTracking (s_g s) && negb (start_addr (s_g s) =? 0) && addr_in_range (s_g s) dst)
        (local_log_range cfg i dst n)) (cpu_copy dst src n)
    (λ m, read_bytes (view m) src (Z.to_nat n)) dst)
    as (s' & m1 & uss' & E & Htr' & Hla & Hpm & [Hb Hen] & Hv); try done.
  { intros m. by apply blen_copied. }
  { rewrite (tr_g _ _ _ _ Htr), Ht. unfold addr_in_range. rewrite Hend. simpl.
    rewrite (proj2 (Z.eqb_neq S0 0)) by lia. simpl.
    destruct Hok as [Hmt|[Hel Hout]].
    - left. apply in_tracked_range in Hmt as Hr. split_and!; try done.
      rewrite !(proj2 (Z.leb_le _ _)) by lia. done.
    - right. split; [done|]. destruct ((S0 <=? dst) && (dst <=? S0 + len)) eqn:Er; [lia|].
      exists (λ t, t). by rewrite upd_tally_id. }
  exists dst, s', uss'. split_and!; [done..|]. intros Hr x [Hx1 Hx2]. rewrite Hpm.
  rewrite (view_cpu_copy dst src n m1 Hn x). simpl. unfold copy_bytes.
  destruct (in_rng dst n x) eqn:Ex; [|by apply Hv]. apply Hv. apply Hr.
  apply in_rng_spec in Ex. lia.
Qed.

(** memmove has the body of memcpy. *)
Lemma exec_memmove s uss i dst src n :
  setup cfg g len → tracking g len s uss → op_ok s (OpMemmove i dst src n) →
  good_step s (OpMemmove i dst src n).
Proof. apply exec_memcpy. Qed.

Lemma exec_memset s uss i p c n :
  setup cfg g len → tracking g len s uss → op_ok s (OpMemset i p c n) →
  good_step s (OpMemset i p c n).
Proof.
  intros Hsu Htr Hok. pose proof Hsu as [_ Hend _ Ht _ _ _ _ _ _].
  assert (0 ≤ n) as Hn by (destruct Hok as [Hm|[Hel _]]; [apply in_tracked_range in Hm; lia|apply Hel]).
  destruct (hooked_write s uss i p n n
    (when (addr_in_range (s_g s) p || addr_in_range (s_g s) (wrap64 (p + n)))
        (when (startTracking (s_g s)) (local_log_range cfg i p n))) (cpu_fill p c n)
    (λ m, replicate (Z.to_nat n) (wrap 8 c)) p)
    as (s' & m1 & uss' & E & Htr' & Hla & Hpm & [Hb Hen] & Hv); try done.
  { intros m. unfold blen. rewrite length_replicate. lia. }
  { rewrite (tr_g _ _ _ _ Htr), Ht. destruct Hok as [Hmt|(Hel & -> & ->)].
    - left. apply in_tracked_range in Hmt as Hr. split_and!; try done.
      assert (addr_in_range g p = true) as ->; [|done].
      unfold addr_in_range. rewrite Hend. rewrite !(proj2 (Z.leb_le _ _)) by lia. done.
    - right. split; [done|]. exists (λ t, t). by rewrite upd_tally_id. }
  exists p, s', uss'. split_and!; [done..|]. intros _ x [Hx1 Hx2]. rewrite Hpm. simpl.
  rewrite (fill_bytes_write (view (s_pm s)) p c n Hn x). unfold cpu_fill. rewrite view_store.
  unfold write_bytes. by rewrite (Hv x Hx2).
Qed.

Lemma exec_msync s uss addr bytes flags :
  setup cfg g len → tracking g len s uss → op_ok s (OpMsync addr bytes flags) →
  ∃ s', exec file_size real_msync cfg (OpMsync addr bytes flags) s = Ret 0 s'
    ∧ tracking g len s' (map (λ _, []) uss) ∧ mirrored g len s'
    ∧ (∀ x, visible s x → view (s_pm s') x = view (s_pm s) x)
    ∧ map log_area (logs_of s') = map log_area (logs_of s).
Proof.
  intros Hsu Htr (Ha & Hb & Hi).
  destruct (tracking_snapshot cfg g len file_size real_msync s uss addr bytes flags)
    as (s' & E & Htr' & Hm & _ & Hla); try done; try lia.
  exists s'. split_and!; try done; [|by rewrite Hla, map_map]. intros x [Hx1 Hx2].
  destruct (snapshot_run file_size real_msync cfg g len (su_rg _ _ _ Hsu) addr bytes flags s)
    as (s2 & E2 & [_ _ [Hfr _ _ _] _]).
  { unfold snapshot_live. rewrite (tr_g _ _ _ _ Htr). split_and!; apply Hsu. }
  { by eapply tracking_can_snapshot. }
  assert (s2 = s') as -> by congruence. apply Hfr; [done|].
  intros (l & Hl & Hin)%header_in_area. by apply (Hx2 l).
Qed.

Lemma exec_good s uss o :
  setup cfg g len → tracking g len s uss → op_ok s o → good_step s o.
Proof.
  destruct o.
  - apply exec_store.
  - apply exec_memcpy.
  - apply exec_memmove.
  - apply exec_memset.
  - intros Hsu Htr Hok. destruct (exec_msync s uss _ _ _ Hsu Htr Hok) as (s' & E & Ht & _ & Hv & Hla).
    by exists 0, s', (map (λ _, []) uss).
Qed.

(** Runs: sequences of operations, each well-behaved where it starts and with
    sources the program can see. *)
Inductive run : sys M → list op → sys M → Prop :=
| run_nil s : run s [] s
| run_cons s o r s1 os s2 :
    op_ok s o → reads_ok s o → exec file_size real_msync cfg o s = Ret r s1 →
    run s1 os s2 → run s (o :: os) s2.

(** A state in which the logs are empty and the two regions agree. *)
Record fresh s : Prop := {
  fr_g : s_g s = g;
  fr_first : s_firstSnapshot s = false;
  fr_areas : areas_apart g len (logs_of s);
  fr_logs l : l ∈ logs_of s → log_wf l (s_pm s) [] ∧ entries l = [] ∧ last_log l = mkLean 0 0;
  fr_mirror : mirrored g len s;
}.

Lemma fresh_tracking s : fresh s → tracking g len s (map (λ _, []) (logs_of s)).
Proof.
  intros [Hg Hf Ha Hl Hm].
  assert (∀ x, covered_by (map (λ _ : Log, []) (logs_of s)) x = false) as Hnone.
  { intros x. apply covered_by_none. intros i us. rewrite list_lookup_fmap.
    by intros (? & _ & ->)%fmap_Some. }
  split; try done.
  - by right.
  - apply Forall2_fmap_r, Forall_Forall2_diag, Forall_forall. intros l Hin.
    destruct (Hl l Hin) as (Hwf & He & Hll). split; rewrite ?He, ?Hll; try done.
    unfold e_covers. simpl. intros x Hx%in_rng_spec. lia.
  - intros x Hx _. unfold in_cache in Hx. destruct (Hm (x - S0)) as [-> _]; [lia|]. f_equal. lia.
  - intros i us x v Hi _ Hv. rewrite list_lookup_fmap in Hi.
    by apply fmap_Some in Hi as (? & _ & ->).
  - intros x Hx. unfold in_back in Hx. destruct (Hm (x - P)) as [_ Hd]; [lia|].
    by replace (P + (x - P)) with x in Hd by lia.
Qed.

Lemma visible_same_areas s s' x :
  map log_area (logs_of s') = map log_area (logs_of s) → visible s x → visible s' x.
Proof.
  intros Hla [H1 H2]. split; [done|]. intros l Hl Hin.
  assert (log_area l ∈ map log_area (logs_of s)) as Hm.
  { rewrite <-Hla. by apply list_elem_of_fmap_2. }
  apply list_elem_of_fmap in Hm as (l' & E & Hl'). apply (H2 l' Hl').
  unfold in_area in *. lia.
Qed.

(** The program's memory is [pm] as far as the program can see. *)
Definition agrees s (pm : mem) : Prop := ∀ x, visible s x → view (s_pm s) x = pm x.

Lemma plain_op_agree s o (m1 m2 : mem) x :
  (∀ y, visible s y → m1 y = m2 y) → reads_ok s o → visible s x →
  plain_op o m1 x = plain_op o m2 x.
Proof.
  intros Hm Hr Hx.
  destruct o; simpl in *; unfold write_bytes, copy_bytes, fill_bytes; auto;
    destruct (in_rng _ _ x) eqn:E; auto; apply in_rng_spec in E; apply Hm, Hr; lia.
Qed.

Definition run_plain (os : list op) (pm : mem) : mem := foldl (λ pm o, plain_op o pm) pm os.

Lemma run_inv s os s' :
  setup cfg g len → run s os s' → ∀ uss pm, tracking g len s uss → agrees s pm →
  (∃ uss', tracking g len s' uss') ∧ agrees s' (run_plain os pm).
Proof.
  intros Hsu. induction 1 as [s|s o r s1 os s2 Hok Hrd E Hrun IH]; intros uss pm Htr Hag.
  { split; [by exists uss|done]. }
  destruct (exec_good s uss o Hsu Htr Hok) as (r' & s1' & uss1 & E' & Htr1 & Hla1 & _ & Hv1).
  rewrite E in E'. injection E' as <- <-. apply (IH uss1); [done|]. intros x Hx.
  apply (visible_same_areas s1 s) in Hx; [|done].
  rewrite (Hv1 Hrd x Hx). by apply (plain_op_agree s).
Qed.

(** Without msync the backing file keeps what it holds. *)
Definition no_msync (os : list op) : Prop :=
  Forall (λ o, match o with OpMsync _ _ _ => False | _ => True end) os.

Lemma run_keeps_file s os s' :
  setup cfg g len → run s os s' → no_msync os → ∀ uss, tracking g len s uss →
  (∃ uss', tracking g len s' uss')
  ∧ (∀ x, in_back g len x → view (s_pm s') x = view (s_pm s) x)
  ∧ (s_storeInstEnabled s = true → s_storeInstEnabled s' = true)
  ∧ map log_area (logs_of s') = map log_area (logs_of s).
Proof.
  intros Hsu. induction 1 as [s|s o r s1 os s2 Hok Hrd E Hrun IH]; intros Hno uss Htr.
  { split_and!; eauto. }
  apply Forall_cons in Hno as [Ho Hno].
  destruct (exec_good s uss o Hsu Htr Hok) as (r' & s1' & uss1 & E' & Htr1 & Hla1 & Hb & _).
  rewrite E in E'. injection E' as <- <-.
  destruct (IH Hno uss1 Htr1) as (Hex & Hb2 & Hen2 & Hla2).
  assert ((∀ x, in_back g len x → view (s_pm s1) x = view (s_pm s) x)
    ∧ (s_storeInstEnabled s = true → s_storeInstEnabled s1 = true)) as [Hb1 Hen1] by (by destruct o).
  split_and!; [done| |auto|congruence]. intros x Hx. rewrite Hb2 by done. by apply Hb1.
Qed.

Lemma run_trans s os s1 os' s2 : run s os s1 → run s1 os' s2 → run s (os ++ os') s2.
Proof. induction 1; simpl; [done|]. intros. econstructor; eauto. Qed.

(** ** Replaying an intact log *)

Lemma read_bytes_reloc (m1 m2 : mem) a b n :
  (∀ k, 0 ≤ k < Z.of_nat n → m2 (b + k) = m1 (a + k)) → read_bytes m2 b n = read_bytes m1 a n.
Proof.
  intros Hk. apply bytes_eq; rewrite ?length_read_bytes; [done|]. intros i Hi.
  rewrite blen_read_bytes in Hi. rewrite !nth_read_bytes by lia. auto.
Qed.

(** The entries of a log read the same wherever the log is mapped. *)
Lemma encodes_reloc (m1 m2 : mem) us a b :
  (∀ k, 0 ≤ k < total us → m2 (b + k) = m1 (a + k)) → encodes m1 a us → encodes m2 b us.
Proof.
  revert a b. induction us as [|u us IH]; intros a b Hk; simpl; [done|].
  rewrite total_cons in Hk. pose proof (usize_pos u). pose proof (total_nonneg us).
  unfold hdr_addr, hdr_bytes, loadN, entry_content. intros (Ha & Hb & Hr & He).
  assert (∀ o n, 0 ≤ o → o + Z.of_nat n ≤ usize u →
    read_bytes m2 (b + o) n = read_bytes m1 (a + o) n) as Hrd.
  { intros o n Ho Hn. apply read_bytes_reloc. intros k Hk'. rewrite <-!Z.add_assoc. apply Hk. lia. }
  pose proof (Hrd 0 3%nat ltac:(lia) ltac:(lia)) as H0'. rewrite !Z.add_0_r in H0'.
  split_and!.
  - by rewrite Hrd by lia.
  - by rewrite H0'.
  - rewrite Hrd; [done|unfold sizeof_entry; lia|]. unfold usize, blen. lia.
  - apply (IH (a + usize u)); [|done]. intros k Hk'. rewrite <-!Z.add_assoc. apply Hk. lia.
Qed.

Lemma first_value_filter f us x :
  (∀ u, u ∈ us → u_covers u x = true → f u = true) →
  first_value (List.filter f us) x = first_value us x.
Proof.
  induction us as [|u us IH]; intros Hf; simpl; [done|].
  destruct (f u) eqn:E; simpl.
  - destruct (u_covers u x); [done|]. apply IH. set_solver.
  - destruct (u_covers u x) eqn:Ec; [|apply IH; set_solver].
    rewrite Hf in E; [done|set_solver|done].
Qed.

(** A log mapped at [log_ptr] that is byte for byte the log [l] of [s]. *)
Definition intact s (l : Log) (log_ptr : Z) m : Prop :=
  (∀ k, 0 ≤ k < sizeof_layout + log_offset (view (s_pm s)) (log_area l) →
     view m (log_ptr + k) = view (s_pm s) (log_area l + k))
  ∧ rng_disj log_ptr (sizeof_layout + log_offset (view (s_pm s)) (log_area l)) S0 len.

Lemma intact_image s l us log_ptr m :
  setup cfg g len → log_ok g len (s_pm s) l us → intact s l log_ptr m →
  log_image (view m) log_ptr us.
Proof.
  intros Hsu [Hwf Hcap Hin _ _ _] [Hk Hd]. pose proof (wf_off _ _ _ Hwf) as Hoff.
  rewrite Hoff in *. pose proof (total_nonneg us). unfold sizeof_layout, BUF_SIZE in *.
  split.
  - rewrite <-Hoff. unfold log_offset, loadN. f_equal. apply read_bytes_reloc.
    intros k Hk'. rewrite <-!Z.add_assoc. apply Hk. lia.
  - apply (encodes_reloc (view (s_pm s)) _ _ (content (log_area l))); [|apply Hwf].
    intros k Hk'. unfold content, sizeof_layout. rewrite <-!Z.add_assoc. apply Hk. lia.
  - lia.
  - intros u Hu. pose proof (proj1 (Forall_forall _ _) Hin u Hu) as [Hu1 Hu2].
    unfold off_log, rng_disj, content, sizeof_layout in *. pose proof (blen_nonneg (u_data u)). lia.
Qed.

(** C5: Every state that a run of well-behaved operations reaches satisfies the
    tracking invariant, and every well-behaved operation returns there: the
    library's assertions and exits are unreachable. *)
Theorem tracking_reachable s0 os s :
  setup cfg g len → fresh s0 → run s0 os s →
  (∃ uss, tracking g len s uss)
  ∧ ∀ o, op_ok s o → ∃ r s', exec file_size real_msync cfg o s = Ret r s'.
Proof.
  intros Hsu Hf Hr.
  destruct (run_inv s0 os s Hsu Hr _ (view (s_pm s0)) (fresh_tracking s0 Hf)) as [[uss Htr] _]; [done|].
  split; [by exists uss|]. intros o Hok.
  destruct (exec_good s uss o Hsu Htr Hok) as (r & s' & _ & E & _). by exists r, s'.
Qed.

(** C7: The library is transparent: on all memory that a program can see, a
    run of instrumented operations leaves what the same stores, copies and
    fills would leave on plain memory. *)
Theorem instrumentation_transparent s0 os s :
  setup cfg g len → fresh s0 → run s0 os s →
  ∀ x, visible s x → view (s_pm s) x = run_plain os (view (s_pm s0)) x.
Proof.
  intros Hsu Hf Hr.
  destruct (run_inv s0 os s Hsu Hr _ (view (s_pm s0)) (fresh_tracking s0 Hf)) as [_ Hag]; [done|].
  exact Hag.
Qed.

(** msync of the region from a tracking state. *)
Lemma tracking_msync s uss addr bytes flags :
  setup cfg g len → tracking g len s uss → op_ok s (OpMsync addr bytes flags) →
  ∃ s', msync file_size real_msync cfg addr bytes flags s = Ret 0 s'
    ∧ (∀ i, 0 ≤ i < len →
         view (s_pm s') (P + i) = view (s_pm s) (S0 + i) ∧ durable (s_pm s') (P + i))
    ∧ (∀ x, visible s x → view (s_pm s') x = view (s_pm s) x)
    ∧ fresh s'
    ∧ map log_area (logs_of s') = map log_area (logs_of s)
    ∧ s_storeInstEnabled s' = true.
Proof.
  intros Hsu Htr Hok. destruct Hok as (Ha & Hb & Hi).
  destruct (tracking_snapshot cfg g len file_size real_msync s uss addr bytes flags)
    as (s' & E & Htr' & Hm & Hc & Hl'); try done; try lia.
  destruct (exec_msync s uss addr bytes flags Hsu Htr) as (s2 & E2 & _ & _ & Hv & Hla); [done|].
  simpl in E2. unfold msync in E2. assert (s2 = s') as -> by congruence.
  exists s'. split_and!; [done| |done| |done|].
  - intros i Hi'. destruct (Hm i Hi') as [-> Hd]. split; [|done]. apply Hc. unfold in_cache. lia.
  - split; try done; try apply Htr'. intros l Hl.
    assert (entries l = [] ∧ last_log l = mkLean 0 0) as [He Hll].
    { rewrite Hl' in Hl. by apply list_elem_of_fmap in Hl as (l0 & -> & _). }
    split; [|done]. apply list_elem_of_lookup in Hl as [j Hj].
    destruct (Forall2_lookup_l _ _ _ _ _ (tr_logs _ _ _ _ Htr') Hj) as (us & Hu & Hok).
    rewrite list_lookup_fmap in Hu. apply fmap_Some in Hu as (? & _ & ->). apply Hok.
  - destruct (snapshot_run file_size real_msync cfg g len (su_rg _ _ _ Hsu) addr bytes flags s)
      as (s2 & E3 & [Henv _ _ _]).
    { unfold snapshot_live. rewrite (tr_g _ _ _ _ Htr). split_and!; apply Hsu. }
    { by eapply tracking_can_snapshot. }
    assert (s2 = s') as -> by congruence. by rewrite (se_inst _ _ Henv).
Qed.

Lemma msync_mirrors_spec s0 os s addr bytes flags :
  setup cfg g len → fresh s0 → run s0 os s →
  op_ok s (OpMsync addr bytes flags) →
  ∃ s', msync file_size real_msync cfg addr bytes flags s = Ret 0 s'
    ∧ (∀ i, 0 ≤ i < len →
         view (s_pm s') (P + i) = view (s_pm s) (S0 + i) ∧ durable (s_pm s') (P + i))
    ∧ (∀ x, visible s x → view (s_pm s') x = view (s_pm s) x)
    ∧ fresh s'.
Proof.
  intros Hsu Hf Hr Hok.
  destruct (run_inv s0 os s Hsu Hr _ (view (s_pm s0)) (fresh_tracking s0 Hf)) as [[uss Htr] _]; [done|].
  destruct (tracking_msync s uss addr bytes flags Hsu Htr Hok) as (s' & ? & ? & ? & ? & _). by exists s'.
Qed.

(** C1: In every reachable state in which a store was logged, msync of a range
    that holds the region returns 0, makes every byte of the backing file equal
    to the page cache and durable, and leaves all memory that the program can
    see as it was. *)
Theorem msync_mirrors_page_cache s0 os s addr bytes flags :
  setup cfg g len → fresh s0 → run s0 os s →
  op_ok s (OpMsync addr bytes flags) →
  ∃ s', msync file_size real_msync cfg addr bytes flags s = Ret 0 s'
    ∧ (∀ i, 0 ≤ i < len →
         view (s_pm s') (P + i) = view (s_pm s) (S0 + i) ∧ durable (s_pm s') (P + i))
    ∧ (∀ x, visible s x → view (s_pm s') x = view (s_pm s) x)
    ∧ fresh s'.
Proof. apply msync_mirrors_spec. Qed.

(** C2: Replay takes the file back to the last snapshot.  Take any reachable
    state of a program with one logging thread.  If a power failure leaves the
    log intact and every byte of the backing file either as of the last
    snapshot or as the page cache had it (a commit cut anywhere), then
    replaying the log on the file mapped at its address gives every byte the
    value it had at the last snapshot, and every byte that it had to change is
    durable. *)
Theorem replay_restores_snapshot s0 os s l log_ptr m :
  setup cfg g len → fresh s0 → run s0 os s → logs_of s = [l] →
  intact s l log_ptr m →
  (∀ x, in_cache g len x →
     view m x = view (s_pm s) (P + (x - S0)) ∨ view m x = view (s_pm s) x) →
  ∀ x, in_cache g len x →
    let m' := recover_log log_ptr S0 len m in
    view m' x = view (s_pm s) (P + (x - S0))
    ∧ (durable m x ∨ view m x ≠ view m' x → durable m' x).
Proof.
  intros Hsu Hf Hr Hl Hint Htorn x Hx.
  destruct (run_inv s0 os s Hsu Hr _ (view (s_pm s0)) (fresh_tracking s0 Hf)) as [[uss Htr] _]; [done|].
  pose proof (tr_logs _ _ _ _ Htr) as Hlogs. rewrite Hl in Hlogs.
  apply Forall2_cons_inv_l in Hlogs as (us & ? & Hok & Hnil & ->).
  apply Forall2_nil_inv_l in Hnil as ->.
  destruct (recover_log_spec log_ptr S0 len m us (intact_image _ _ _ _ _ Hsu Hok Hint)) as [Hv Hd].
  assert (first_value (List.filter (in_file S0 len) us) x = first_value us x) as Hfv.
  { apply first_value_filter. intros u Hu Hc. unfold u_covers in Hc. apply in_rng_spec in Hc.
    unfold in_cache in Hx. destruct (su_rg _ _ _ Hsu).
    pose proof (proj1 (Forall_forall _ _) (lo_in _ _ _ _ _ Hok) u Hu) as [? ?].
    unfold in_file. rewrite wrap_small by lia. lia. }
  assert (covered_by [us] x = covered us x) as Hcb by (simpl; apply orb_false_r).
  cbv zeta. rewrite (Hv x), apply_undos_spec, Hfv.
  destruct (first_value us x) as [v|] eqn:Ev; simpl.
  - split.
    + apply (tr_undo _ _ _ _ Htr 0%nat us); try done. intros j us' Hj Hju.
      destruct j; [done|]. done.
    + intros _. apply Hd. right. apply first_value_covered. rewrite Hfv. eauto.
  - assert (covered us x = false) as Hnc.
    { destruct (covered us x) eqn:E; [|done]. apply first_value_covered in E as [? ?]. congruence. }
    rewrite <-Hcb in Hnc. pose proof (tr_clean _ _ _ _ Htr x Hx Hnc) as Hc. split.
    + destruct (Htorn x Hx) as [->| ->]; done.
    + intros [?|Hne]; [by apply Hd; left|done].
Qed.
End Runs.
