(* ===== verification/Scenario.v ===== *)
(** * A concrete process, and behaviours at the edge of the invariant

    [Demo] is one process on the machine of [PMem.Px86]: a region of two pages,
    one thread with an empty log, page cache and backing file equal.  It
    instantiates the theorems of the other files.  The second part proves what
    happens where the preconditions of those theorems fail: a crash inside a
    commit, a log that ends on a cache-line boundary, a snapshot of a part of the
    region, a store wider than eight bytes. *)

From stdpp Require Import base list sets strings.
From Stdlib Require Import ZArith Lia.
From S2P Require Import Prelude Memory PMem Log Recovery Snapshot Wrappers Tracking.
Import Px86.

(** A call returned [v]. *)
Definition returned {S A} (o : outcome S A) (v : A) : Prop :=
  match o with Ret a _ => a = v | _ => False end.

Lemma returned_eq {S A} (o : outcome S A) (v : A) : returned o v → o = Ret v (state_of o).
Proof. destruct o; simpl; [by intros ->|done|done]. Qed.

Module Demo.
(** The flags of make.config. *)
Definition cfg : config := mkConfig true true true true false false false.
Definition start : Z := 0x10000000000.
Definition back : Z := 0x20000000000.
Definition area : Z := 0x30000000000.
Definition len : Z := 8192.
Definition g : globals := mkGlobals true true false false start (start + len) back false.
Definition no_file (_ : string) : Z := 0.
Definition ok_msync (_ _ _ : Z) : Z := 0.
Definition no_stats : Stats := λ _, 0.
Definition boot : Log * machine := init_area area (px_boot (λ _, 0)).
Definition s0 : sys machine :=
  mkSys g (snd boot) (Some [fst boot]) false false [] 0 (mkTally 0 0 no_stats [] []).

Abbreviation exec1 := (exec (M := machine) no_file ok_msync cfg).

Lemma demo_region : region back start len.
Proof. split; unfold back, start, len, rng_disj; done || lia. Qed.

Lemma demo_setup : setup cfg g len.
Proof. split; try done. apply demo_region. Qed.

Lemma demo_areas : areas_apart g len [fst boot].
Proof.
  split.
  - intros l ->%list_elem_of_singleton. done.
  - intros l ->%list_elem_of_singleton. by right.
  - intros l ->%list_elem_of_singleton. by right.
  - intros [|i] [|j] l l' Hne Hi Hj; done.
Qed.

(** Bytes away from the two header words keep their boot value. *)
Lemma boot_view x : ¬ (area ≤ x < area + 24) → view (snd boot) x = 0 ∧ durable (snd boot) x.
Proof.
  intros Hx. change (snd boot)
    with (cpu_store64 (area + 16) (content area) (cpu_store64 (area + 8) 0 (px_boot (λ _, 0)))).
  split.
  - by rewrite !view_store64_out by (unfold area in *; lia).
  - apply durable_store; [rewrite blen_le_split; apply in_rng_false; unfold area in *; lia|].
    apply durable_store; [rewrite blen_le_split; apply in_rng_false; unfold area in *; lia|].
    intros v [Hv|Hv]; [done|set_solver].
Qed.

Lemma demo_fresh : fresh g len s0.
Proof.
  split; try done.
  - apply demo_areas.
  - intros l ->%list_elem_of_singleton. split; [|done]. by apply (init_area_wf area).
  - intros i Hi. unfold len in Hi. change (s_pm s0) with (snd boot).
    change (backing_file_start g) with back. change (start_addr g) with start.
    destruct (boot_view (back + i)) as [-> Hd]; [unfold back, area; lia|].
    destruct (boot_view (start + i)) as [-> _]; [unfold start, area; lia|]. done.
Qed.
End Demo.

Module DemoRun.
Import Demo.

Definition op1 : op := OpStore 0 (start + 64) [1; 2; 3].
Definition op2 : op := OpMemset 0 (start + 128) 7 32.
Definition s1 : sys machine := state_of (exec1 op1 s0).
Definition s2 : sys machine := state_of (exec1 op2 s1).

Lemma op1_runs : exec1 op1 s0 = Ret 0 s1.
Proof. refine (returned_eq (exec1 op1 s0) 0 _). vm_compute. reflexivity. Qed.

Lemma op2_runs : exec1 op2 s1 = Ret (start + 128) s2.
Proof. refine (returned_eq (exec1 op2 s1) (start + 128) _). vm_compute. reflexivity. Qed.

(** [may_track] on a state whose log is known. *)
Lemma may_track_demo s l i a n :
  logs_of s !! i = Some l → 0 ≤ n < 2 ^ 22 → start ≤ a → a + n ≤ start + len →
  (sizeof_layout + log_offset (view (s_pm s)) (log_area l) + sizeof_entry + n <=? BUF_SIZE) = true →
  may_track g len s i a n.
Proof. intros Hl Hn H1 H2 H3%Z.leb_le. by exists l. Qed.

Lemma log_at_s0 : logs_of s0 !! 0%nat = Some (fst boot).
Proof. reflexivity. Qed.

(** The log of the thread after the first store. *)
Definition l1 : Log :=
  mkLog area (mkLean (start + 64) 8) 0 [mkLean (start + 64) 8].

Lemma log_at_s1 : logs_of s1 !! 0%nat = Some l1.
Proof. vm_compute. reflexivity. Qed.

Lemma op1_ok : op_ok g len s0 op1.
Proof.
  left. split; [|done]. apply (may_track_demo s0 (fst boot) 0 (start + 64) 8);
    [exact log_at_s0|lia|lia|unfold len; lia|vm_compute; reflexivity].
Qed.

Lemma op2_ok : op_ok g len s1 op2.
Proof.
  left. apply (may_track_demo s1 l1 0 (start + 128) 32);
    [exact log_at_s1|lia|lia|unfold len; lia|vm_compute; reflexivity].
Qed.

Lemma demo_run : run no_file ok_msync cfg g len s0 [op1; op2] s2.
Proof.
  refine (run_cons _ _ _ _ _ s0 op1 0 s1 [op2] s2 op1_ok I op1_runs _).
  refine (run_cons _ _ _ _ _ s1 op2 (start + 128) s2 [] s2 op2_ok I op2_runs _).
  apply run_nil.
Qed.

Lemma demo_msync_ok : op_ok g len s2 (OpMsync start len MS_SYNC).
Proof. split; [done|split; [done|vm_compute; reflexivity]]. Qed.

(** The state after the two writes is one that [snapshot] accepts. *)
Lemma demo_can_snapshot : can_snapshot cfg g len s2.
Proof.
  destruct (run_inv no_file ok_msync cfg g len s0 [op1; op2] s2 demo_setup demo_run _ (view (s_pm s0))
    (fresh_tracking g len s0 demo_fresh)) as [[uss Htr] _]; [done|].
  apply (tracking_can_snapshot cfg g len s2 uss demo_setup Htr). vm_compute. reflexivity.
Qed.
End DemoRun.

(** ** The theorems at work on the demo process *)

Module DemoWitness.
Import Demo DemoRun.

Lemma s2_page_cache : view (s_pm s2) (start + 65) = 2.
Proof. vm_compute. reflexivity. Qed.

Lemma s2_visible x : start ≤ x < start + len → visible g len s2 x.
Proof.
  intros Hx. unfold len, start in *. split.
  - unfold in_back, g, len, back. simpl. lia.
  - assert (logs_of s2 !! 0%nat = Some (mkLog area (mkLean (start + 128) 32) 0
      [mkLean (start + 64) 8; mkLean (start + 128) 32])) as H0 by (vm_compute; reflexivity).
    assert (length (logs_of s2) = 1%nat) as H1 by (vm_compute; reflexivity).
    intros l [[|i] Hi]%list_elem_of_lookup.
    + rewrite H0 in Hi. injection Hi as <-. unfold in_area, area. simpl. lia.
    + apply lookup_lt_Some in Hi. lia.
Qed.

Lemma tracking_reachable_witness :
  ∃ r s', exec1 (OpMsync start len MS_SYNC) s2 = Ret r s'.
Proof.
  apply (tracking_reachable no_file ok_msync cfg g len s0 [op1; op2] s2
           demo_setup demo_fresh demo_run).
  exact demo_msync_ok.
Defined.

Lemma instrumentation_transparent_witness :
  view (s_pm s2) (start + 65) = run_plain [op1; op2] (view (s_pm s0)) (start + 65).
Proof.
  apply (instrumentation_transparent no_file ok_msync cfg g len s0 [op1; op2] s2
           demo_setup demo_fresh demo_run).
  apply s2_visible. unfold len. lia.
Defined.

Lemma msync_mirrors_page_cache_witness :
  ∃ s', msync no_file ok_msync cfg start len MS_SYNC s2 = Ret 0 s'
    ∧ view (s_pm s') (back + 65) = 2 ∧ durable (s_pm s') (back + 65).
Proof.
  destruct (msync_mirrors_page_cache no_file ok_msync cfg g len s0 [op1; op2] s2 start len MS_SYNC
    demo_setup demo_fresh demo_run demo_msync_ok) as (s' & E & Hm & _).
  exists s'. split; [exact E|]. destruct (Hm 65) as [Hv Hd]; [unfold len; lia|].
  split; [|exact Hd]. exact (eq_trans Hv s2_page_cache).
Defined.


Lemma copy_order_irrelevant_witness :
  view (ls_pm (run_entries cfg g start len None [mkLean (start + 64) 8; mkLean (start + 3) 20]
          (mkLoop 0 0 0 0 no_stats (s_pm s2)))) (back + 64)
  = view (ls_pm (run_entries cfg g start len None [mkLean (start + 3) 20; mkLean (start + 64) 8]
          (mkLoop 0 0 0 0 no_stats (s_pm s2)))) (back + 64).
Proof.
  refine (proj1 (copy_order_irrelevant cfg g len start len
    [mkLean (start + 64) 8; mkLean (start + 3) 20] [mkLean (start + 3) 20; mkLean (start + 64) 8]
    no_stats (s_pm s2) demo_region _ _) (back + 64)).
  - repeat constructor; simpl; unfold len; lia.
  - apply Permutation_swap.
Defined.

Lemma copy_stays_aligned_and_inside_witness :
  cp_dst (plan_copy cfg back start (mkLean (start + 3) 20)) - back
  = cp_src (plan_copy cfg back start (mkLean (start + 3) 20)) - start.
Proof.
  apply (copy_stays_aligned_and_inside cfg back start len (mkLean (start + 3) 20) demo_region).
  unfold entry_in. simpl. unfold len. lia.
Defined.

Lemma s2_logs : ∃ l, logs_of s2 = [l] ∧ log_area l = area.
Proof. eexists. split; [vm_compute; reflexivity|reflexivity]. Qed.

Lemma replay_restores_snapshot_witness :
  ∃ l, logs_of s2 = [l]
    ∧ view (recover_log area start len (s_pm s2)) (start + 65)
      = view (s_pm s2) (back + (start + 65 - start)).
Proof.
  destruct s2_logs as (l & Hl & Ha). exists l. split; [exact Hl|].
  refine (proj1 (replay_restores_snapshot no_file ok_msync cfg g len s0 [op1; op2] s2 l area
    (s_pm s2) demo_setup demo_fresh demo_run Hl _ _ (start + 65) _)).
  - unfold intact. rewrite Ha. split; [intros k _; reflexivity|].
    assert (log_offset (view (s_pm s2)) area = 60) as -> by (vm_compute; reflexivity).
    right. simpl. unfold start, len, area, sizeof_layout. lia.
  - intros x _. right. reflexivity.
  - unfold in_cache. simpl. unfold len. lia.
Defined.
End DemoWitness.

(** ** A crash inside a commit *)

Section CrashInCommit.
Context {M : Type} `{PMemLaws M}.
Implicit Types m : M.

Lemma load_crash_image m (img : mem) a n :
  crash_image m img → (∀ x, a ≤ x < a + Z.of_nat n → durable m x) →
  loadN n img a = loadN n (view m) a.
Proof. intros Hi Hd. apply loadN_ext. intros x Hx. by apply Hd. Qed.

(** C27: A commit cut by a power failure between any two copies leaves the log
    marked ACTIVE with a [log_offset] of 0: [snapshot] zeroes the offset
    before it makes the header durable, so recovery finds a log to replay and
    replays nothing, whatever the copies already did to the backing file. *)
Theorem crash_in_commit_replays_nothing cfg g len start diff l m es st img addr flen :
  region (backing_file_start g) (start_addr g) len → log_apart g len l →
  Forall (entry_in (start_addr g) len) es →
  ∃ m1, begin_commit l m = Ret tt m1
    ∧ (crash_image (ls_pm (run_entries cfg g start diff None es (mkLoop 0 0 0 0 st m1))) img →
       state_word img (log_area l) = state_val ACTIVE
       ∧ log_offset img (log_area l) = 0
       ∧ ∀ m', view m' ≡ img → recover_log (log_area l) addr flen m' = m').
Proof.
  intros Hrg Hla Hin. pose proof (la_pos _ _ _ Hla) as Hpos.
  destruct (begin_commit_spec l m) as (m1 & E & _ & Hst & Hoff & Hdur); [lia|].
  exists m1. split; [done|]. intros Himg.
  destruct (run_entries_spec cfg g len Hrg (λ _, False) start diff m1 es ltac:(done) Hin None
    (mkLoop 0 0 0 0 st m1) (λ _, false)) as ([Hf _ _ Hk] & _); [apply synced_start|done..|].
  set (m2 := ls_pm _) in *.
  assert (∀ x, in_header (log_area l) x → view m2 x = view m1 x ∧ durable m2 x) as Hh.
  { intros x Hx. destruct (header_apart g len l x Hla Hx) as [Hnb _].
    split; [apply Hf; auto|]. apply Hk; [auto|done|by apply Hdur]. }
  unfold in_header, sizeof_layout in Hh.
  assert (state_word img (log_area l) = state_val ACTIVE) as Hs'.
  { rewrite <-Hst. unfold state_word. rewrite (load_crash_image m2) by (try done; intros; apply Hh; lia).
    apply loadN_ext. intros; apply Hh; lia. }
  assert (log_offset img (log_area l) = 0) as Ho'.
  { rewrite <-Hoff. unfold log_offset. rewrite (load_crash_image m2) by (try done; intros; apply Hh; lia).
    apply loadN_ext. intros; apply Hh; lia. }
  split_and!; [done|done|]. intros m' Hm'. unfold recover_log.
  assert (log_offset (view m') (log_area l) = 0) as -> by (unfold log_offset in *; by rewrite Hm').
  reflexivity.
Qed.

(** A snapshot drops the log entries it did not copy: a logged byte whose
    entry is outside the range (and outside the copied windows) keeps its old
    value in the backing file, and the call leaves every log empty, so a later
    snapshot of the whole region does not copy it either. *)
Theorem partial_snapshot_forgets file_size real_msync cfg g len addr bytes flags (s : sys M) x :
  region (backing_file_start g) (start_addr g) len →
  snapshot_live cfg s → can_snapshot cfg g len s →
  in_cache g len x →
  all_windows cfg g addr (wrap64 (wrap64 (addr + bytes) - addr)) (logs_of s)
    (x - start_addr g) = false →
  ∃ s', snapshot file_size real_msync cfg addr bytes flags s = Ret 0 s'
    ∧ logs_of s' = map cleared (logs_of s)
    ∧ (∀ l, l ∈ logs_of s' → entries l = [])
    ∧ let y := backing_file_start g + (x - start_addr g) in
      view (s_pm s') y = view (s_pm s) y
      ∧ ∀ addr' bytes' flags', snapshot_live cfg s' → can_snapshot cfg g len s' →
          ∃ s'', snapshot file_size real_msync cfg addr' bytes' flags' s' = Ret 0 s''
            ∧ view (s_pm s'') y = view (s_pm s) y.
Proof.
  intros Hrg Hlive Hcan Hx HW.
  destruct (snapshot_run file_size real_msync cfg g len Hrg addr bytes flags s Hlive Hcan)
    as (s' & E & [_ Hl [_ Hb _ _] _]).
  rewrite firstn_all in *. rewrite drop_all, app_nil_r in Hl. exists s'.
  assert (0 ≤ x - start_addr g < len) as Hi by (unfold in_cache in Hx; lia).
  pose proof (Hb _ Hi) as Hy. rewrite HW in Hy.
  assert (∀ l, l ∈ logs_of s' → entries l = []) as Hempty.
  { intros l Hin. rewrite Hl in Hin. by apply list_elem_of_fmap in Hin as (l0 & -> & _). }
  split_and!; [done|done|done|]. split; [done|]. intros addr' bytes' flags' Hlive' Hcan'.
  destruct (snapshot_run file_size real_msync cfg g len Hrg addr' bytes' flags' s' Hlive' Hcan')
    as (s'' & E' & [_ _ [_ Hb' _ _] _]).
  rewrite firstn_all in *. exists s''. split; [done|]. rewrite (Hb' _ Hi), <-Hy.
  assert (∀ a d i, all_windows cfg g a d (logs_of s') i = false) as ->; [|done].
  intros a d i. unfold all_windows. destruct (existsb _ _) eqn:Ee; [|done].
  apply existsb_exists in Ee as (l & Hin%list_elem_of_In & Hw). by rewrite (Hempty l Hin) in Hw.
Qed.
End CrashInCommit.

Module LogWitness.
Import Demo DemoRun.

(** The context of the thread in [s0]. *)
Definition c0 : thread_ctx machine := mkCtx (fst boot) false no_stats (snd boot).

Lemma boot_wf : log_wf (fst boot) (snd boot) [].
Proof. by apply (init_area_wf area). Qed.

Lemma boot_room n : 0 ≤ n < 1000 → room (fst boot) [] (start + 64) n.
Proof.
  intros Hn. split; simpl; unfold content, sizeof_layout, sizeof_entry, rng_disj, area, start;
    change (total []) with 0; lia.
Qed.

Lemma log_range_records_undo_witness :
  ∃ c', log_range cfg true (start + 64) 8 c0 = Ret tt c'
    ∧ entries (this c') = [mkLean (start + 64) 8].
Proof.
  destruct (log_range_records_undo cfg (start + 64) 8 c0 []) as (c' & E & _ & He & _).
  - split; [reflexivity|left; reflexivity].
  - exact boot_wf.
  - apply boot_room. lia.
  - exists c'. split; [exact E|exact He].
Defined.

Lemma entry_header_roundtrip_witness :
  hdr_addr (view (write_header (content area) (start + 64) 8 (snd boot))) (content area)
  = wrap 56 (start + 64).
Proof. exact (proj1 (entry_header_roundtrip (content area) (start + 64) 8 (snd boot))). Defined.

(** The log of [s1] holds one entry of eight zero bytes. *)
Definition u1 : undo := mkUndo (start + 64) [0; 0; 0; 0; 0; 0; 0; 0].

Lemma s1_wf : log_wf l1 (s_pm s1) [u1].
Proof.
  split.
  - reflexivity.
  - vm_compute. reflexivity.
  - vm_compute. reflexivity.
  - vm_compute. reflexivity.
  - vm_compute. split_and!; reflexivity || exact I.
  - vm_compute. reflexivity.
  - vm_compute. split; discriminate.
  - vm_compute. reflexivity.
  - intros x Hx. exfalso. change (log_area l1) with area in Hx.
    change (last_flush_offset l1) with 0 in Hx. unfold content, sizeof_layout in Hx. lia.
Qed.

Lemma flush_all_makes_log_durable_witness :
  durable (drain (flush_all l1 (s_pm s1))) (content area + 3).
Proof.
  refine (proj1 (flush_all_makes_log_durable l1 (s_pm s1) [u1] (content area + 3) s1_wf _ _ _)).
  - vm_compute. discriminate.
  - vm_compute. reflexivity.
  - vm_compute. split; [discriminate|reflexivity].
Defined.

Lemma s1_image : log_image (view (s_pm s1)) area [u1].
Proof.
  destruct s1_wf as [_ _ Hoff _ Henc _ _ _ _]. split; [exact Hoff|exact Henc|done|].
  intros u ->%list_elem_of_singleton. left. vm_compute. discriminate.
Qed.

Lemma recover_log_refines_undo_witness :
  view (recover_log area start len (s_pm s1)) (start + 65) = 0.
Proof.
  exact (proj1 (recover_log_refines_undo area start len (s_pm s1) [u1] s1_image) (start + 65)).
Defined.
End LogWitness.

Module EdgeWitness.
Import Demo DemoRun.

Lemma demo_log_apart : log_apart g len l1.
Proof.
  split; unfold rng_disj; simpl; unfold area, start, back, len, content, sizeof_layout;
    done || lia.
Qed.

Lemma crash_in_commit_replays_nothing_witness :
  ∃ m1, begin_commit l1 (s_pm s1) = Ret tt m1
    ∧ recover_log area start len
        (ls_pm (run_entries cfg g start len None [mkLean (start + 64) 8]
           (mkLoop 0 0 0 0 no_stats m1)))
      = ls_pm (run_entries cfg g start len None [mkLean (start + 64) 8]
           (mkLoop 0 0 0 0 no_stats m1)).
Proof.
  destruct (begin_commit_spec l1 (s_pm s1)) as (m1 & E & _); [done|].
  exists m1. split; [exact E|].
  set (m2 := ls_pm (run_entries cfg g start len None [mkLean (start + 64) 8]
           (mkLoop 0 0 0 0 no_stats m1))).
  destruct (crash_in_commit_replays_nothing cfg g len start len l1 (s_pm s1)
    [mkLean (start + 64) 8] no_stats (view m2) start len demo_region demo_log_apart)
    as (m1' & E' & Hc).
  { repeat constructor; simpl; unfold len; lia. }
  rewrite E in E'. injection E' as E'. rewrite <-E' in Hc.
  destruct Hc as (_ & _ & Hc); [intros x; apply survives_view|].
  exact (Hc m2 (λ x, eq_refl)).
Defined.

(** [s2] has entries at offsets 64 and 128; the range of 100 bytes leaves the
    second one out. *)
Lemma partial_snapshot_forgets_witness :
  ∃ s', snapshot no_file ok_msync cfg start 100 MS_SYNC s2 = Ret 0 s'
    ∧ (∀ l, l ∈ logs_of s' → entries l = [])
    ∧ view (s_pm s') (back + (start + 130 - start)) = view (s_pm s2) (back + (start + 130 - start)).
Proof.
  destruct (partial_snapshot_forgets no_file ok_msync cfg g len start 100 MS_SYNC s2 (start + 130)
    demo_region (conj eq_refl (conj eq_refl eq_refl)) demo_can_snapshot) as (s' & E & _ & He & Hv & _).
  - unfold in_cache. simpl. unfold len. lia.
  - vm_compute. reflexivity.
  - exists s'. split; [exact E|]. split; [exact He|exact Hv].
Defined.
End EdgeWitness.

(** ** Closed examples on the machine [Px86] *)

Module Edges.
Import Demo.

(** A page cache that holds 9 in its first page. *)
Definition nines : Log * machine :=
  init_area area (px_boot (λ x, if in_rng start 4096 x then 9 else 0)).

Definition logged (n : Z) : outcome (thread_ctx machine) unit :=
  log_range cfg true (start + 64) n (mkCtx (fst nines) false no_stats (snd nines)).

(** The last bytes of a log whose entries end on a multiple of 64 are not
    flushed: [log_range] flushes from the start of the log area, [flush_all]
    flushes from the start of the entries, and at a multiple of 64 it flushes
    nothing.  One request of 54 bytes makes a log of 64 bytes; after [flush_all]
    and a drain its last byte is not durable. *)
Theorem log_tail_not_durable :
  ∃ c, logged 54 = Ret tt c
    ∧ log_offset (view (pmem c)) area = 64
    ∧ flush_all (this c) (pmem c) = pmem c
    ∧ ¬ durable (drain (flush_all (this c) (pmem c))) (content area + 63).
Proof.
  exists (state_of (logged 54)). split_and!.
  - refine (returned_eq (logged 54) tt _). vm_compute. reflexivity.
  - vm_compute. reflexivity.
  - assert (last_flush_offset (this (state_of (logged 54)))
      = log_offset (view (pmem (state_of (logged 54)))) (log_area (this (state_of (logged 54))))) as E
      by (vm_compute; reflexivity).
    unfold flush_all. rewrite E, Z.eqb_refl. reflexivity.
  - intros Hd. specialize (Hd 0).
    assert (survives (drain (flush_all (this (state_of (logged 54))) (pmem (state_of (logged 54)))))
      (content area + 63) 0) as Hs by (right; vm_compute; left).
    apply Hd in Hs. vm_compute in Hs. discriminate.
Qed.

(** A store of sixteen bytes of the program, then msync of the region. *)
Definition wide : op := OpStore 0 (start + 64) (replicate 16 5).
Definition after_wide : sys machine := state_of (exec1 wide s0).
Definition after_msync : sys machine := state_of (exec1 (OpMsync start len MS_SYNC) after_wide).

(** The hook logs eight bytes whatever the width of the store, so the second
    half of a sixteen-byte store stays out of the log: msync of the whole
    region returns 0 and leaves the backing file without it. *)
Theorem wide_store_not_committed :
  exec1 wide s0 = Ret 0 after_wide
  ∧ exec1 (OpMsync start len MS_SYNC) after_wide = Ret 0 after_msync
  ∧ view (s_pm after_msync) (start + 72) = 5
  ∧ view (s_pm after_msync) (back + 64) = 5
  ∧ view (s_pm after_msync) (back + 72) = 0.
Proof.
  split; [refine (returned_eq (exec1 wide s0) 0 _); vm_compute; reflexivity|].
  split; [refine (returned_eq (exec1 (OpMsync start len MS_SYNC) after_wide) 0 _);
          vm_compute; reflexivity|].
  split; [vm_compute; reflexivity|]. split; vm_compute; reflexivity.
Qed.
End Edges.
