(* ===== verification/FirstSnapshot.v ===== *)
(** * The first snapshot of a process
      (the branch on firstSnapshot of snapshot(), libstoreinst/libc_wrappers.cc)

    The first call of msync that finds a log copies the mapped file that holds its
    address, whole, from the page cache to the backing file, "to get the two copies
    on parity", and then commits the logs as every later call does.  The copy is not
    flushed.  This file shows that the call establishes the state ([fresh]) from
    which [Tracking] proves the later ones, and for which bytes it does not. *)

From stdpp Require Import base list strings.
From Stdlib Require Import ZArith Lia.
From S2P Require Import Prelude Memory PMem Log Recovery Snapshot Wrappers Tracking Scenario.

Section First.
Context {M : Type} `{PMemLaws M}.
Context (file_size : string → Z) (real_msync : Z → Z → Z → Z).
Context (cfg : config) (g : globals) (len : Z).
Implicit Types (s : sys M) (m : M) (l : Log).
Abbreviation S0 := (start_addr g).
Abbreviation P := (backing_file_start g).

(** The file that is mapped at [addr] is the region, where the copy of the first
    snapshot expects it. *)
Record maps_region s (addr : Z) : Prop := {
  mr_start : S0 = 0x10000000000;
  mr_find : ∃ fd md, List.find (mapped_at addr) (s_mapped_addr s) = Some (fd, md)
    ∧ r_start (fm_range md) = S0
    ∧ (if decide (fm_fpath md = "") then wrap64 (r_end (fm_range md) - r_start (fm_range md))
       else file_size (fm_fpath md)) = len;
}.

Lemma first_snapshot_copies s addr :
  region P S0 len → s_g s = g → s_firstSnapshot s = true → maps_region s addr →
  ∃ s', first_snapshot file_size addr s = Ret tt s'
    ∧ s_pm s' = cpu_copy P S0 len (s_pm s) ∧ s_tls_logs s' = s_tls_logs s
    ∧ same_env (first_snapshot_done s) s'.
Proof.
  intros Hrg Hg Hf [HS (fd & md & E & Hs & Hl)]. unfold first_snapshot. rewrite Hf.
  change (s_mapped_addr (first_snapshot_done s)) with (s_mapped_addr s).
  change (s_g (first_snapshot_done s)) with (s_g s). change (s_pm (first_snapshot_done s)) with (s_pm s).
  rewrite E, Hs, Hg. rewrite Hs in Hl. rewrite Hl.
  replace (wrap64 (P + wrap64 (S0 - 0x10000000000))) with P
    by (destruct Hrg; rewrite (wrap_small 64 (S0 - _)), wrap_small by lia; lia).
  eexists. split; [reflexivity|]. destruct (ctrlr_present _); split_and!; try done; by split.
Qed.

(** The state from which the logs are committed: the log [l] is marked active, and the
    region is copied. *)
Definition copied m1 s : sys M := put_pm (cpu_copy P S0 len m1) (first_snapshot_done s).

Lemma copied_can_snapshot m1 s :
  can_snapshot cfg g len (first_snapshot_done s) → can_snapshot cfg g len (copied m1 s).
Proof. intros []. by split. Qed.

(** The first log. *)
Lemma first_log_commits addr bytes flags l m1 s :
  region P S0 len → s_firstSnapshot s = true → maps_region s addr →
  can_snapshot cfg g len (first_snapshot_done s) →
  logs_of s !! 0%nat = Some l → begin_commit l (s_pm s) = Ret tt m1 →
  ∃ s1, snapshot_log file_size cfg addr bytes flags 0 s = Ret tt s1
    ∧ commit_inv cfg g len addr bytes (copied m1 s) 1 s1.
Proof.
  intros Hrg Hf Hmap [Hvol Hcr Hg Hi _ Ha Hin] Hl E1.
  change (s_g (first_snapshot_done s)) with (s_g s) in Hg.
  pose proof (list_elem_of_lookup_2 _ _ _ Hl) as Hel.
  rewrite (snapshot_log_begins file_size cfg addr bytes flags 0 l s m1 Hi Hl E1).
  destruct (first_snapshot_copies (put_pm m1 s) addr Hrg Hg Hf) as (s2 & E2 & Hpm & Hls & He2);
    [by destruct Hmap|].
  destruct (commit_log_spec cfg g len Hrg addr bytes 0 l s2) as (s1 & E & He & Hl1 & Hsy & Hwf & Hst);
    [done|done|by rewrite (se_g _ _ He2)|by apply Ha|by apply Hin|].
  exists s1. split; [by rewrite (bind_eq _ _ _ _ _ E2)|].
  assert (same_env (copied m1 s) s2) as Hc2 by (destruct He2; by split).
  assert (logs_of s2 = logs_of s) as Els by (unfold logs_of; by rewrite Hls).
  rewrite Hpm in Hsy. change (s_pm (put_pm m1 s)) with m1 in Hsy.
  split.
  - by eapply same_env_trans.
  - rewrite Hl1, Els. by apply (cleared_insert _ 0 l).
  - eapply synced_ext; [|eapply synced_weaken; [|exact Hsy]].
    + intros j. unfold all_windows. change (logs_of (copied m1 s)) with (logs_of s).
      rewrite (take_S_r _ _ _ Hl). simpl. by rewrite orb_false_r.
    + intros x Hx. by exists l.
  - intros j lj Hj Hlj. assert (j = 0%nat) as -> by lia.
    change (logs_of (copied m1 s)) with (logs_of s) in Hlj. rewrite Hl in Hlj. injection Hlj as <-. by split.
Qed.

(** The whole call. *)
Lemma first_snapshot_run addr bytes flags l m1 s :
  region P S0 len → snapshot_live cfg s → s_firstSnapshot s = true → maps_region s addr →
  can_snapshot cfg g len (first_snapshot_done s) →
  logs_of s !! 0%nat = Some l → begin_commit l (s_pm s) = Ret tt m1 →
  ∃ s', snapshot file_size real_msync cfg addr bytes flags s = Ret 0 s'
    ∧ commit_inv cfg g len addr bytes (copied m1 s) (length (logs_of s)) s'.
Proof.
  intros Hrg (Hn & Hp & Hc) Hf Hmap Hcan Hl E1. unfold snapshot, bind, modify. simpl.
  rewrite Hn, Hp, Hc. simpl. set (s1 := put_logs _ _).
  pose proof (cs_inst _ _ _ _ Hcan) as Hi. simpl in Hi. rewrite Hi.
  destruct (first_log_commits addr bytes flags l m1 s1) as (s2 & E2 & Hinv);
    [done|done|by destruct Hmap|by destruct Hcan|done|done|].
  change (logs_of s1) with (logs_of s).
  destruct (length (logs_of s)) as [|n] eqn:En; [apply lookup_lt_Some in Hl; lia|].
  assert (commit_inv cfg g len addr bytes (copied m1 s) 1 s2) as Hinv1 by (destruct Hinv as [[] ? ? ?]; by split; [split|..]).
  destruct (for_each_seq (commit_inv cfg g len addr bytes (copied m1 s)) (snapshot_log file_size cfg addr bytes flags)
    n 1 s2) as (s' & E' & Hinv'); [|done|].
  - intros k s' Hk. apply commit_step; [done|by apply copied_can_snapshot|].
    change (logs_of (copied m1 s)) with (logs_of s). lia.
  - exists s'. split; [|done]. cbn [seq for_each]. unfold bind at 1. by rewrite E2, E'.
Qed.

(** ** What the call leaves *)

(** The offset is in a logged range, or the backing file has it already. *)
Definition settled addr bytes s (i : Z) : Prop :=
  all_windows cfg g addr (wrap64 (wrap64 (addr + bytes) - addr)) (logs_of s) i = true
  ∨ (durable (s_pm s) (P + i) ∧ view (s_pm s) (P + i) = view (s_pm s) (S0 + i)).

Lemma header_off (ls : list Log) x :
  logs_apart g len ls → headers ls x → ¬ in_back g len x ∧ ¬ in_cache g len x.
Proof. intros Ha (l & Hl & Hx). apply (header_apart g len l); [by apply Ha|done]. Qed.

(** The unflushed copy: a byte that does not change stays durable. *)
Lemma copy_durable m i :
  region P S0 len → 0 ≤ i < len → durable m (P + i) → view m (P + i) = view m (S0 + i) →
  durable (cpu_copy P S0 len m) (P + i).
Proof.
  intros Hrg Hi Hd Heq v. unfold cpu_copy. intros [Hv|[_ ->]]%survives_store; [|done].
  apply Hd in Hv as ->. fold (cpu_copy P S0 len m). destruct Hrg. rewrite (view_cpu_copy P S0 len m) by lia.
  unfold copy_bytes. rewrite (proj2 (in_rng_spec P len (P + i))) by lia. rewrite Heq. f_equal. lia.
Qed.

Lemma first_snapshot_effect addr bytes flags s :
  region P S0 len → snapshot_live cfg s → s_firstSnapshot s = true → maps_region s addr →
  can_snapshot cfg g len (first_snapshot_done s) → logs_of s ≠ [] →
  ∃ s', snapshot file_size real_msync cfg addr bytes flags s = Ret 0 s'
    ∧ same_env (first_snapshot_done s) s' ∧ logs_of s' = map cleared (logs_of s)
    ∧ (∀ l, l ∈ logs_of s → log_idle l (s_pm s'))
    ∧ (∀ x, ¬ in_back g len x → ¬ headers (logs_of s) x → view (s_pm s') x = view (s_pm s) x)
    ∧ (∀ i, 0 ≤ i < len → view (s_pm s') (P + i) = view (s_pm s) (S0 + i))
    ∧ (∀ i, 0 ≤ i < len → settled addr bytes s i → durable (s_pm s') (P + i)).
Proof.
  intros Hrg Hlive Hf Hmap Hcan Hne. pose proof (cs_apart _ _ _ _ Hcan) as Ha.
  change (logs_of (first_snapshot_done s)) with (logs_of s) in Ha.
  destruct (logs_of s !! 0%nat) as [l|] eqn:Hl; [|by destruct (logs_of s)].
  pose proof (lsa_each _ _ _ Ha l (list_elem_of_lookup_2 _ _ _ Hl)) as Hla.
  destruct (begin_commit_spec l (s_pm s)) as (m1 & E1 & Hh1 & _); [pose proof (la_pos _ _ _ Hla) as Hpos; clear -Hpos; lia|].
  destruct (first_snapshot_run addr bytes flags l m1 s) as (s' & E & [He Hls [Hfr Hbk Hm Hk] Hid]); try done.
  change (logs_of (copied m1 s)) with (logs_of s) in *. rewrite firstn_all, drop_all, app_nil_r in Hls.
  rewrite firstn_all in *. change (s_pm (copied m1 s)) with (cpu_copy P S0 len m1) in *.
  assert (∀ x, ¬ headers (logs_of s) x → view m1 x = view (s_pm s) x ∧ (durable (s_pm s) x → durable m1 x)) as H1.
  { intros x Hx. apply Hh1. intros Hin. apply Hx. exists l. split; [by eapply list_elem_of_lookup_2|done]. }
  assert (∀ i, 0 ≤ i < len → ¬ headers (logs_of s) (P + i) ∧ ¬ headers (logs_of s) (S0 + i) ∧ ¬ in_back g len (S0 + i)) as Hoff.
  { intros i Hi. split_and!; [intros Hx; apply (proj1 (header_off _ _ Ha Hx)); unfold in_back; lia
      |intros Hx; apply (proj2 (header_off _ _ Ha Hx)); unfold in_cache; lia|].
    destruct Hrg. unfold in_back, rng_disj in *. lia. }
  assert (∀ i, 0 ≤ i < len → view (cpu_copy P S0 len m1) (P + i) = view (s_pm s) (S0 + i)
    ∧ view (cpu_copy P S0 len m1) (S0 + i) = view (s_pm s) (S0 + i)) as Hcp.
  { intros i Hi. destruct (Hoff i Hi) as (Hp & Hc & Hb). destruct (H1 _ Hc) as [<- _]. destruct Hrg. split.
    - rewrite (view_cpu_copy P S0 len m1) by lia. unfold copy_bytes.
      rewrite (proj2 (in_rng_spec P len (P + i))) by lia. f_equal. lia.
    - apply view_cpu_copy_out; [lia|]. exact Hb. }
  exists s'. split_and!; [done|by destruct He|done| | | |].
  - intros l' Hl'. apply list_elem_of_lookup in Hl' as [j Hj]. by apply (Hid j l' (lookup_lt_Some _ _ _ Hj)).
  - intros x Hx Hnh. rewrite (Hfr x Hx Hnh), view_cpu_copy_out by (destruct Hrg; done). by apply H1.
  - intros i Hi. rewrite (Hbk i Hi). destruct (Hcp i Hi) as [-> ->]. by case_match.
  - intros i Hi Hset. unfold settled in Hset.
    destruct (all_windows cfg g addr (wrap64 (wrap64 (addr + bytes) - addr)) (logs_of s) i) eqn:EW; [by apply Hm|].
    destruct Hset as [Hw|[Hd Heq]]; [congruence|]. destruct (Hoff i Hi) as (Hp & Hc & Hb).
    apply Hk; [done|intros _; by replace (P + i - P) with i by lia|].
    apply copy_durable; [done|done|by apply H1|]. by rewrite (proj1 (H1 _ Hp)), (proj1 (H1 _ Hc)).
Qed.

Lemma first_msync_spec addr bytes flags s :
  setup cfg g len → areas_apart g len (logs_of s) → can_snapshot cfg g len (first_snapshot_done s) →
  s_firstSnapshot s = true → logs_of s ≠ [] → maps_region s addr →
  ∃ s', msync file_size real_msync cfg addr bytes flags s = Ret 0 s'
    ∧ (∀ i, 0 ≤ i < len → view (s_pm s') (P + i) = view (s_pm s) (S0 + i))
    ∧ (∀ x, visible g len s x → view (s_pm s') x = view (s_pm s) x)
    ∧ s_storeInstEnabled s' = true ∧ map log_area (logs_of s') = map log_area (logs_of s)
    ∧ ((∀ i, 0 ≤ i < len → settled addr bytes s i) → fresh g len s').
Proof.
  intros Hsu Ha Hcan Hf Hne Hmap. pose proof (su_rg _ _ _ Hsu) as Hrg.
  pose proof (cs_g _ _ _ _ Hcan : s_g s = g) as Hg.
  destruct (first_snapshot_effect addr bytes flags s) as (s' & E & He & Hls & Hid & Hfr & Hbk & Hd); try done.
  { unfold snapshot_live. rewrite Hg. split_and!; apply Hsu. }
  assert (∀ x, visible g len s x → view (s_pm s') x = view (s_pm s) x) as Hvis.
  { intros x [Hx1 Hx2]. apply Hfr; [done|]. intros (l & Hl & Hin)%header_in_area. by apply (Hx2 l). }
  exists s'. split_and!; [done|done|done|by rewrite (se_inst _ _ He); apply Hcan|by rewrite Hls, map_map|].
  intros Hset. split.
  - by rewrite (se_g _ _ He).
  - by rewrite (se_first _ _ He).
  - rewrite Hls. by apply areas_apart_cleared.
  - rewrite Hls. intros l (l0 & -> & Hl0)%list_elem_of_fmap. destruct (Hid l0 Hl0) as [Hwf _]. done.
  - intros i Hi. split; [|by apply Hd, Hset]. rewrite (Hbk i Hi). symmetry. apply Hvis. split.
    + destruct Hrg. unfold in_back, rng_disj in *. lia.
    + intros l Hl Hx. pose proof (aa_cache _ _ _ Ha l Hl). unfold in_area, rng_disj in *. lia.
Qed.

(** A program that logged every byte it changed. *)
Lemma first_msync_tracking bytes flags s uss :
  setup cfg g len → tracking g len (first_snapshot_done s) uss → s_storeInstEnabled s = true →
  s_firstSnapshot s = true → logs_of s ≠ [] → maps_region s S0 → len ≤ bytes → S0 + bytes < 2 ^ 64 →
  ∃ s', msync file_size real_msync cfg S0 bytes flags s = Ret 0 s' ∧ fresh g len s'
    ∧ (∀ x, visible g len s x → view (s_pm s') x = view (s_pm s) x)
    ∧ s_storeInstEnabled s' = true ∧ map log_area (logs_of s') = map log_area (logs_of s).
Proof.
  intros Hsu Htr Hi Hf Hne Hmap Hb1 Hb2. destruct (su_rg _ _ _ Hsu).
  destruct (first_msync_spec S0 bytes flags s) as (s' & E & _ & Hv & Hi' & Hla & Hfr); try done.
  { apply Htr. } { by eapply tracking_can_snapshot. }
  exists s'. split_and!; try done. apply Hfr. intros i Hi0.
  assert (in_cache g len (S0 + i)) as Hx by (unfold in_cache; lia).
  destruct (covered_by uss (S0 + i)) eqn:Ec; [left|right].
  - replace i with (S0 + i - S0) by lia.
    apply (covered_window cfg g len (first_snapshot_done s) uss); try done; lia.
  - split; [apply (tr_durable _ _ _ _ Htr); unfold in_back; lia|].
    symmetry. pose proof (tr_clean _ _ _ _ Htr _ Hx Ec) as Hc. by replace (S0 + i - S0) with i in Hc by lia.
Qed.

(** A later call that finds nothing logged, for any range. *)
Lemma no_windows addr bytes (ls : list Log) i :
  (∀ l, l ∈ ls → entries l = []) → all_windows cfg g addr bytes ls i = false.
Proof.
  intros Hl. unfold all_windows. destruct (existsb _ ls) eqn:E; [|done].
  apply existsb_exists in E as (l & Hin & Hw). rewrite (Hl l) in Hw by by apply list_elem_of_In. done.
Qed.

Lemma fresh_msync addr bytes flags s :
  setup cfg g len → fresh g len s → s_storeInstEnabled s = true →
  ∃ s', msync file_size real_msync cfg addr bytes flags s = Ret 0 s' ∧ fresh g len s'
    ∧ (∀ x, in_cache g len x → view (s_pm s') x = view (s_pm s) x)
    ∧ s_storeInstEnabled s' = true ∧ map log_area (logs_of s') = map log_area (logs_of s).
Proof.
  intros Hsu Hfresh Hi. pose proof Hfresh as [Hg Hf Ha Hl Hm]. pose proof (su_rg _ _ _ Hsu) as Hrg.
  pose proof (tracking_can_snapshot cfg g len s _ Hsu (fresh_tracking g len s Hfresh) Hi) as Hcan.
  destruct (snapshot_run file_size real_msync cfg g len Hrg addr bytes flags s)
    as (s' & E & [He Hls [Hfr Hbk _ Hk] Hid]); [|done|].
  { unfold snapshot_live. rewrite Hg. split_and!; apply Hsu. }
  rewrite firstn_all, drop_all, app_nil_r in Hls. rewrite firstn_all in *.
  assert (∀ b i, all_windows cfg g addr b (logs_of s) i = false) as Hnw.
  { intros b i. apply no_windows. intros l Hin. by apply Hl. }
  assert (∀ i, 0 ≤ i < len → ¬ headers (logs_of s) (P + i) ∧ ¬ headers (logs_of s) (S0 + i) ∧ ¬ in_back g len (S0 + i)) as Hoff.
  { intros i Hi0. pose proof (cs_apart _ _ _ _ Hcan) as Hap. split_and!.
    - intros Hx. apply (proj1 (header_off _ _ Hap Hx)). unfold in_back. lia.
    - intros Hx. apply (proj2 (header_off _ _ Hap Hx)). unfold in_cache. lia.
    - destruct Hrg. unfold in_back, rng_disj in *. lia. }
  assert (∀ i, 0 ≤ i < len → view (s_pm s') (S0 + i) = view (s_pm s) (S0 + i)) as Hc.
  { intros i Hi0. destruct (Hoff i Hi0) as (_ & H1 & H2). by apply Hfr. }
  exists s'. split_and!; [done| | |by rewrite (se_inst _ _ He)|by rewrite Hls, map_map].
  - split.
    + by rewrite (se_g _ _ He).
    + by rewrite (se_first _ _ He).
    + rewrite Hls. by apply areas_apart_cleared.
    + rewrite Hls. intros l (l0 & -> & [j Hj]%list_elem_of_lookup)%list_elem_of_fmap.
      by destruct (Hid j l0 (lookup_lt_Some _ _ _ Hj) Hj) as [Hwf _].
    + intros i Hi0. destruct (Hm i Hi0) as [Hv Hd]. destruct (Hoff i Hi0) as (H1 & _).
      rewrite (Hbk i Hi0), Hnw, (Hc i Hi0). split; [done|]. apply Hk; [done|by rewrite Hnw|done].
  - intros x Hx. unfold in_cache in Hx. replace x with (S0 + (x - S0)) by lia. apply Hc. lia.
Qed.
End First.

(** C3: The first msync of a process, for an address in a mapped file that is the
    region: it returns 0 and brings the backing file to parity with the page cache,
    byte for byte, whatever was logged and whatever range is asked for; the page
    cache is unchanged and the logs are empty.  If every byte was logged in the range
    or was on the medium already, the process is then in a state in which the later
    calls are exact (fresh). *)
Theorem first_msync_brings_parity {M} `{PMemLaws M} file_size real_msync cfg g len (s : sys M) addr bytes flags :
  setup cfg g len → areas_apart g len (logs_of s) → can_snapshot cfg g len (first_snapshot_done s) →
  s_firstSnapshot s = true → logs_of s ≠ [] → maps_region file_size g len s addr →
  ∃ s', msync file_size real_msync cfg addr bytes flags s = Ret 0 s'
    ∧ (∀ i, 0 ≤ i < len →
         view (s_pm s') (backing_file_start g + i) = view (s_pm s) (start_addr g + i))
    ∧ (∀ x, visible g len s x → view (s_pm s') x = view (s_pm s) x)
    ∧ map log_area (logs_of s') = map log_area (logs_of s)
    ∧ ((∀ i, 0 ≤ i < len → settled cfg g addr bytes s i) → fresh g len s').
Proof.
  intros Hsu Ha Hcan Hf Hne Hmap.
  destruct (first_msync_spec file_size real_msync cfg g len addr bytes flags s) as (s' & E & H1 & H2 & _ & H3 & H4);
    try done.
  by exists s'.
Qed.

(** ** On the demonstration process *)

Module DemoFirst.
Import Px86 Demo DemoRun.

(** The process of [DemoRun] after two tracked stores, before its first msync. *)
Definition region_md : fd_metadata_t := mkFdMeta 3 (mkRange start (start + len)) "".
Definition before_first (s : sys machine) : sys machine :=
  mkSys g (s_pm s) (s_tls_logs s) (s_storeInstEnabled s) true [(3, region_md)] 0 (s_tally s).

Lemma demo_maps s : maps_region no_file g len (before_first s) start.
Proof. split; [reflexivity|]. exists 3, region_md. split_and!; reflexivity. Qed.

Lemma before_first_ok s uss :
  tracking g len s uss → s_storeInstEnabled s = true →
  areas_apart g len (logs_of (before_first s)) ∧ can_snapshot cfg g len (first_snapshot_done (before_first s)).
Proof.
  intros Htr Hi. split; [apply (tr_areas _ _ _ _ Htr)|].
  destruct (tracking_can_snapshot cfg g len s uss demo_setup Htr Hi). by split.
Qed.

Lemma s2_tracking : ∃ uss, tracking g len s2 uss.
Proof.
  by destruct (run_inv no_file ok_msync cfg g len s0 [op1; op2] s2 demo_setup demo_run _ (view (s_pm s0))
    (fresh_tracking g len s0 demo_fresh)) as [? _].
Qed.

Lemma first_msync_brings_parity_witness :
  ∃ s', msync no_file ok_msync cfg start 8 MS_SYNC (before_first s2) = Ret 0 s' ∧ view (s_pm s') (back + 130) = 7.
Proof.
  destruct s2_tracking as [uss Htr].
  destruct (before_first_ok s2 uss Htr) as [Ha Hcan]; [vm_compute; reflexivity|].
  destruct (first_msync_brings_parity no_file ok_msync cfg g len (before_first s2) start 8 MS_SYNC demo_setup Ha Hcan)
    as (s' & E & Hv & _).
  - reflexivity.
  - vm_compute. discriminate.
  - apply demo_maps.
  - exists s'. split; [exact E|]. change back with (backing_file_start g).
    rewrite Hv by (unfold len; lia). vm_compute. reflexivity.
Defined.

(** A store before tracking is switched on, as the examples make them when they
    create their root object. *)
Definition untracked (s : sys machine) : sys machine :=
  let off := mkGlobals false true false false start (start + len) back false in
  let s' := state_of (exec1 (OpStore 0 (start + 200) [5])
    (mkSys off (s_pm s) (s_tls_logs s) (s_storeInstEnabled s) true [(3, region_md)] 0 (s_tally s))) in
  before_first s'.

(** The first msync copies it, and a power failure after the call may still lose it:
    the copy was never flushed. *)
Theorem untracked_store_may_be_lost :
  let s' := state_of (msync no_file ok_msync cfg start len MS_SYNC (untracked s2)) in
  view (s_pm s') (back + 200) = 5 ∧ survives (s_pm s') (back + 200) 0
  ∧ s_firstSnapshot s' = false.
Proof.
  vm_compute. split_and!; [reflexivity| |reflexivity]. right. left.
Qed.
End DemoFirst.
