(* ===== verification/PmemFile.v ===== *)
(** * Backing files, mappings and recovery of a file
      (libstoreinst/recovery.cc, the mmap wrapper of libstoreinst/libc_wrappers.cc,
       log creation of libstoreinst/log.cc, start-up of
       libstoreinst/libstoreinst.cc)

    [world] is the process of [Snapshot.sys] together with what the kernel
    keeps for it: the files, the directories and the mappings.  A shared mapping
    is a window on its file: reading the file gives the bytes of the window, and
    unmapping leaves them in the file.  What the kernel answers (whether a call
    succeeds, where a mapping goes) is the record [kernel], indexed by the number
    of the call; the functions of the nvsl library are the class [Nvsl]. *)

From stdpp Require Import base list sets strings gmap.
From Stdlib Require Import ZArith Lia Ascii.
From S2P Require Import Prelude Memory PMem Text Log Recovery Snapshot Wrappers.

(** ** Parameters *)

(** Functions of the nvsl library and the environment of the process. *)
Class Nvsl := {
  (** all tokens of a string *)
  split : string → string → list string;
  (** at most so many tokens *)
  split_n : string → string → nat → list string;
  is_prefix : string → string → bool;
  fd_to_fname : Z → string;
  get_env_str : string → string → string; (* name, default *)
  get_env_val : string → bool;
}.

(** What the code relies on. *)
Class NvslLaws `{Nvsl} := {
  (** a text of lines that all end in a newline splits into its lines *)
  split_lines (ls : list string) :
    Forall (λ l, l ≠ "" ∧ "010"%char ∉ String.list_ascii_of_string l) ls →
    split (String.concat "" ((λ l, l +:+ String "010" "") <$> ls)) (String "010" "") = ls;
  (** three tokens without a comma, joined with commas, split into the tokens *)
  split_commas (a b c : string) :
    ","%char ∉ String.list_ascii_of_string a →
    ","%char ∉ String.list_ascii_of_string b →
    ","%char ∉ String.list_ascii_of_string c →
    split_n (a +:+ "," +:+ b +:+ "," +:+ c) "," 3 = [a; b; c];
  is_prefix_spec p s : is_prefix p s = String.prefix p s;
}.

(** The answers of the kernel and of the allocators of libvram and libcxlfs,
    by the number of the call. *)
Record kernel := mkKernel {
  k_open : nat → string → bool;              (* permission and descriptors *)
  k_mmap : nat → Z → Z → Z → option Z;       (* hint, length, flags; None is MAP_FAILED *)
  k_munmap : nat → bool;                     (* false is -1 *)
  k_madvise : nat → bool;
  k_lseek : nat → bool;
  k_write : nat → Z → Z;                     (* bytes written *)
  k_copy_file : nat → option bool;           (* None is an exception *)
  k_sendfile : nat → Z → Z;                  (* -1, or the bytes sent *)
  k_fallocate : nat → bool;
  vram_malloc : nat → Z → Z;
  cxlfs_malloc : nat → Z → Z;
  getpid : Z;
  pthread_self : Z;
}.

Definition MAP_SHARED : Z := 1.
Definition MAP_PRIVATE : Z := 2.
Definition MAP_SHARED_VALIDATE : Z := 3.
Definition MAP_SYNC : Z := 0x80000.
Definition MAP_FIXED_NOREPLACE : Z := 0x100000.

(** ** Files and mappings *)

Record file := mkFile { f_size : Z; f_bytes : mem }.

Record mapping := mkMapping {
  mp_addr : Z;
  mp_len : Z;
  mp_path : string; (* resolved; empty for anonymous memory *)
  mp_shared : bool;
  mp_off : Z;
}.

(** MAP_SHARED and MAP_SHARED_VALIDATE share, MAP_PRIVATE does not. *)
Definition flags_shared (flags : Z) : bool := Z.testbit flags 0.

Record PmemFile := mkPmemFile { path : string; addr : Z; len : Z }.

Definition get_map_dimensions (f : PmemFile) : Z * Z := (addr f, len f).
Definition get_backing_fname (f : PmemFile) : string := path f +:+ ".cxlbuf_backing".
Definition get_dependency_fname (f : PmemFile) : string := path f +:+ "-dependencies.txt".
Definition set_addr (a : Z) (f : PmemFile) : PmemFile := mkPmemFile (path f) a (len f).

Definition newline : string := String "010" "".
Definition comma : string := ",".

Section World.
Context {M : Type}.

Record world := mkWorld {
  w_sys : sys M;
  w_files : gmap string file;
  w_dirs : gset string;
  w_maps : list mapping; (* latest first *)
  w_log_loc : string;
  w_calls : nat;
}.

Definition put_sys (s : sys M) (w : world) : world :=
  mkWorld s (w_files w) (w_dirs w) (w_maps w) (w_log_loc w) (w_calls w).
Definition put_files (fs : gmap string file) (w : world) : world :=
  mkWorld (w_sys w) fs (w_dirs w) (w_maps w) (w_log_loc w) (w_calls w).
Definition put_dirs (ds : gset string) (w : world) : world :=
  mkWorld (w_sys w) (w_files w) ds (w_maps w) (w_log_loc w) (w_calls w).
Definition put_maps (ms : list mapping) (w : world) : world :=
  mkWorld (w_sys w) (w_files w) (w_dirs w) ms (w_log_loc w) (w_calls w).
Definition put_log_loc (p : string) (w : world) : world :=
  mkWorld (w_sys w) (w_files w) (w_dirs w) (w_maps w) p (w_calls w).
Definition tick (w : world) : world :=
  mkWorld (w_sys w) (w_files w) (w_dirs w) (w_maps w) (w_log_loc w) (S (w_calls w)).

Definition w_pm (w : world) : M := s_pm (w_sys w).

Definition put_g (g : globals) (s : sys M) : sys M :=
  mkSys g (s_pm s) (s_tls_logs s) (s_storeInstEnabled s) (s_firstSnapshot s)
    (s_mapped_addr s) (s_mmap_start s) (s_tally s).
Definition put_mmap_start (a : Z) (s : sys M) : sys M :=
  mkSys (s_g s) (s_pm s) (s_tls_logs s) (s_storeInstEnabled s) (s_firstSnapshot s)
    (s_mapped_addr s) a (s_tally s).
Definition put_backing_start (a : Z) (s : sys M) : sys M :=
  let g := s_g s in
  put_g (mkGlobals (startTracking g) (cxlModeEnabled g) (nopMsync g) (crashOnCommit g)
           (start_addr g) (end_addr g) a (ctrlr_present g)) s.

(** A function of the library inside the world. *)
Definition on_sys {A} (c : cmd (sys M) A) : cmd world A := λ w,
  match c (w_sys w) with
  | Ret a s => Ret a (put_sys s w)
  | Exit code s => Exit code (put_sys s w)
  | Trap s => Trap (put_sys s w)
  end.

Definition on_mem (f : M → M) : cmd world unit := modify (λ w,
  put_sys (put_pm (f (w_pm w)) (w_sys w)) w).
End World.
Arguments world M : clear implicits.

Section Files.
Context {M : Type} `{PMemOps M} `{Nvsl}.
Context (k : kernel) (cfg : config).

Definition is_regular_file (p : string) (w : world M) : bool :=
  bool_decide (is_Some (w_files w !! resolve p)).

Definition file_size_of (p : string) (w : world M) : Z :=
  match w_files w !! resolve p with Some f => f_size f | None => 0 end.

(** A mapping is a window on byte [x] of the file named [key]. *)
Definition shows (key : string) (x : Z) (mp : mapping) : bool :=
  mp_shared mp && bool_decide (mp_path mp = key) && in_rng (mp_off mp) (mp_len mp) x.

(** Byte [x] of a file as a read returns it; zero past its end. *)
Definition byte_at (key : string) (w : world M) (x : Z) : Z :=
  match w_files w !! key with
  | Some f =>
      if in_rng 0 (f_size f) x then
        match List.find (shows key x) (w_maps w) with
        | Some mp => view (w_pm w) (mp_addr mp + (x - mp_off mp))
        | None => f_bytes f x
        end
      else 0
  | None => 0
  end.

Definition file_byte (p : string) : world M → Z → Z := byte_at (resolve p).

Definition write_file (p : string) (f : file) (w : world M) : world M :=
  put_files (<[resolve p := f]> (w_files w)) w.

(** ** System calls *)

Definition sys_open (p : string) (creat : bool) : cmd (world M) bool := λ w,
  if k_open k (w_calls w) p && (creat || is_regular_file p w)
  then Ret true (tick (if is_regular_file p w then w else write_file p (mkFile 0 (λ _, 0)) w))
  else Ret false (tick w).

(** [n] bytes at [a] come from the file at offset [off] (from nothing, for an
    empty path). *)
Definition mapped (a n flags : Z) (p : string) (off : Z) (w : world M) : world M :=
  put_maps (mkMapping a n (resolve p) (flags_shared flags) off :: w_maps w)
    (put_sys (put_pm (map_in a n (λ i, file_byte p w (off + i)) (w_pm w)) (w_sys w)) w).

(** [None] is MAP_FAILED. *)
Definition real_mmap (hint n flags : Z) (p : string) (off : Z) : cmd (world M) (option Z) := λ w,
  match k_mmap k (w_calls w) hint n flags with
  | None => Ret None (tick w)
  | Some a => Ret (Some a) (tick (mapped a n flags p off w))
  end.

(** Unmap the mapping at [a] (the callers pass the length they mapped): what the
    windows show stays in the files. *)
Definition unmapped (a : Z) (w : world M) : world M :=
  put_maps (List.filter (λ mp, negb (mp_addr mp =? a)) (w_maps w))
    (put_files (map_imap (λ key f, Some (mkFile (f_size f) (byte_at key w))) (w_files w)) w).

Definition unmap (a n : Z) : cmd (world M) bool := λ w,
  if k_munmap k (w_calls w) then Ret true (tick (unmapped a w)) else Ret false (tick w).

(** ** Logs by name (log.cc) *)

Definition get_log_by_id (name : string) (a : Z) : cmd (world M) (Z * string) :=
  let! w := get in
  let log_fname := path_join (w_log_loc w) (name +:+ ".log") in
  let! fd := sys_open log_fname false in
  if negb fd then exit_with 1
  else
    let! w := get in
    let fsize := file_size_of log_fname w in
    let! r := real_mmap a fsize MAP_SHARED log_fname 0 in
    match r with
    | None => exit_with 1
    | Some log_ptr => ret (log_ptr, log_fname)
    end.

Definition init_dirs : cmd (world M) unit := modify (λ w,
  if bool_decide (w_log_loc w ∈ w_dirs w) then w
  else put_dirs ({[w_log_loc w]} ∪ w_dirs w) w).

(** [cxlbuf_reg_tls_log]: the list is created on first use. *)
Definition cxlbuf_reg_tls_log (l : Log) (s : sys M) : sys M :=
  put_logs (Some (logs_of s ++ [l])) s.

Definition log_fpath (w : world M) : string :=
  w_log_loc w +:+ "/" +:+ (to_string (getpid k) +:+ "." +:+ to_string (pthread_self k) +:+ ".log").

(** The memory of a log: from an allocator, or a mapping of its file. *)
Definition alloc_log_area (fpath : string) : cmd (world M) (option Z) := λ w,
  if is_prefix "/mnt/mss0/" (w_log_loc w)
  then Ret (Some (cxlfs_malloc k (w_calls w) BUF_SIZE)) (tick w)
  else if is_prefix "/mnt/cxl0/" (w_log_loc w)
  then Ret (Some (vram_malloc k (w_calls w) BUF_SIZE)) (tick w)
  else real_mmap 0 BUF_SIZE (Z.lor MAP_SYNC MAP_SHARED_VALIDATE) fpath 0 w.

Definition init_thread_buf : cmd (world M) unit :=
  let! w := get in
  let fpath := log_fpath w in
  do! modify (λ w, put_files (delete (resolve fpath) (w_files w)) w) in
  let! fd := sys_open fpath true in
  if negb fd then exit_with 1
  else
    let! w := get in
    if negb (k_fallocate k (w_calls w)) then exit_with 1
    else
      do! modify (λ w, tick (write_file fpath (mkFile BUF_SZ (λ _, 0)) w)) in
      let! area := alloc_log_area fpath in
      match area with
      | None => exit_with 1
      | Some la =>
          if la =? 2 ^ 64 - 1 then exit_with 1
          else
            modify (λ w,
              let '(l, m) := init_area la (w_pm w) in
              put_sys (cxlbuf_reg_tls_log l (put_pm m (w_sys w))) w)
      end.

(** The constructor of the thread-local log. *)
Definition new_log : cmd (world M) unit := do! init_dirs in init_thread_buf.

(** ** Recovery (recovery.cc) *)

(** The loop of [needs_recovery]: it stops at the first ACTIVE log, which stays
    mapped. *)
Fixpoint check_logs (logs : list string) : cmd (world M) (list string) :=
  match logs with
  | [] => ret []
  | log :: logs =>
      match split_n log comma 3 with
      | t0 :: t1 :: _ =>
          let! w := get in
          let lfname := w_log_loc w +:+ "/" +:+ t0 +:+ "." +:+ t1 +:+ ".log" in
          if is_regular_file lfname w then
            let! r := get_log_by_id (t0 +:+ "." +:+ t1) 0 in
            let! w := get in
            if state_word (view (w_pm w)) (fst r) =? state_val ACTIVE then ret [log]
            else
              let! mu_ret := unmap (fst r) (file_size_of lfname w) in
              if mu_ret then check_logs logs else exit_with 1
          else check_logs logs
      | _ => trap
      end
  end.

(** The text of a file. *)
Definition file_text (p : string) (w : world M) : string :=
  String.string_of_list_ascii
    ((λ b, Ascii.ascii_of_N (Z.to_N b)) <$>
       read_bytes (file_byte p w) 0 (Z.to_nat (file_size_of p w))).

Definition needs_recovery (f : PmemFile) : cmd (world M) (list string) :=
  let! w := get in
  let dfname := get_dependency_fname f in
  if is_regular_file dfname w
  then check_logs (split (file_text dfname w) newline)
  else ret [].

(** One turn of the loop of [recover]. *)
Definition recover_one (f : PmemFile) (log : string) : cmd (world M) unit :=
  match split_n log comma 3 with
  | t0 :: t1 :: t2 :: _ =>
      match stoi t0, stoull 10 t1, stoull 10 t2 with
      | Some pid, Some tid, Some a =>
          let! r := get_log_by_id (to_string pid +:+ "." +:+ to_string tid) 0 in
          let fpath := path f +:+ ".cxlbuf_backing" in
          let! fd := sys_open fpath false in
          if negb fd then exit_with 1
          else
            let! maddr := real_mmap a (len f) (Z.lor MAP_SHARED_VALIDATE MAP_SYNC) fpath 0 in
            match maddr with
            | None => exit_with 1
            | Some _ =>
                do! on_mem (recover_log (fst r) a (len f)) in
                let! w := get in
                let! mu_ret := unmap (fst r) (file_size_of (snd r) w) in
                if negb mu_ret then exit_with 1
                else
                  let! mu_ret := unmap a (len f) in
                  if negb mu_ret then exit_with 1 else ret tt
            end
      | _, _, _ => trap
      end
  | _ => trap
  end.

Definition recover (f : PmemFile) (logs : list string) : cmd (world M) unit :=
  for_each logs (recover_one f).

(** The constructor: recovery runs when a named file is mapped. *)
Definition new_PmemFile (p : string) (a n : Z) : cmd (world M) PmemFile :=
  let f := mkPmemFile p a n in
  if bool_decide (p = "") then ret f
  else
    let! recovery_files := needs_recovery f in
    do! when (negb (bool_decide (recovery_files = []))) (recover f recovery_files) in
    ret f.

(** ** The backing file *)

Definition has_backing_file (f : PmemFile) (w : world M) : bool :=
  is_regular_file (get_backing_fname f) w.

Definition create_backing_file_internal (f : PmemFile) : cmd (world M) unit :=
  let bfname := get_backing_fname f in
  let! w := get in
  if negb (is_regular_file (path f) w) then trap
  else if file_size_of (path f) w =? 0 then
    let! fd := sys_open bfname true in
    if negb fd then exit_with 1
    else
      let! w := get in
      do! nvsl_assert (k_lseek k (w_calls w)) in
      do! modify tick in
      let! w := get in
      do! nvsl_assert (k_write k (w_calls w) 1 =? 1) in
      modify (λ w, tick (write_file bfname (mkFile (len f + 2) (file_byte bfname w)) w))
  else
    match k_copy_file k (w_calls w) with
    | None => trap
    | Some false => do! modify tick in exit_with 1
    | Some true =>
        modify (λ w, tick (write_file bfname
                  (mkFile (file_size_of (path f) w) (file_byte (path f) w)) w))
    end.

(** [sendfile]: overwrite the first [n] bytes of [dst] with those of [src]; a
    shared mapping of [dst] sees the new bytes, which is the case the caller
    never has. *)
Definition send_bytes (dst src : string) (n : Z) (w : world M) : world M :=
  let n := Z.min n (file_size_of src w) in
  write_file dst
    (mkFile (Z.max (file_size_of dst w) n)
       (λ x, if in_rng 0 n x then file_byte src w x else file_byte dst w x)) w.

Definition create_backing_file (f : PmemFile) : cmd (world M) unit :=
  let! w := get in
  if negb (has_backing_file f w) then create_backing_file_internal f
  else
    let! src_fd := sys_open (get_backing_fname f) false in
    if negb src_fd then exit_with 1
    else
      let! dst_fd := sys_open (path f) false in
      if negb dst_fd then exit_with 1
      else
        let! w := get in
        let sf_ret := k_sendfile k (w_calls w) (len f) in
        do! modify tick in
        if sf_ret =? -1 then exit_with 1
        else modify (send_bytes (path f) (get_backing_fname f) sf_ret).

(** The mapping of the backing file on the GPU or the paged memory: a copy of
    its contents. *)
Definition map_backing_copy (i : nat) (f : PmemFile) (onmss : bool) (a : Z) (tmp : Z)
    : cmd (world M) unit :=
  let! w := get in
  do! nvsl_assert (backing_file_start (s_g (w_sys w)) =? 0) in
  do! modify (λ w, put_sys (put_backing_start a (w_sys w)) w) in
  do! on_sys (memcpy cfg i a tmp (len f)) in
  do! when onmss
    (modify (λ w, put_sys (upd_tally (call_ctrlr [call_flush_cache]) (w_sys w)) w)) in
  do! unmap tmp (len f) in
  ret tt.

Definition map_backing_file (i : nat) (f : PmemFile) : cmd (world M) unit :=
  let bfname := get_backing_fname f in
  let bck_addr := wrap64 (addr f + 0x10000000000) in
  let! bck_fd := sys_open bfname false in
  if negb bck_fd then exit_with 1
  else
    let oncxl := is_prefix "/mnt/cxl0" bfname in
    let onmss := is_prefix "/mnt/mss0" bfname in
    let! mbck_addr :=
      (if oncxl || onmss then
         let! tmp := real_mmap 0 (len f) MAP_PRIVATE bfname 0 in
         match tmp with
         | None => exit_with 1
         | Some tmp =>
             let! w := get in
             let a := if oncxl then vram_malloc k (w_calls w) (len f)
                      else cxlfs_malloc k (w_calls w) (len f) in
             do! modify tick in
             do! map_backing_copy i f onmss a tmp in
             ret (Some a)
         end
       else if is_prefix "/mnt/pmem0/" bfname then
         do! modify (λ w, put_sys (put_backing_start 0x20000000000 (w_sys w)) w) in
         real_mmap bck_addr (len f) (Z.lor MAP_SHARED_VALIDATE MAP_SYNC) bfname 0
       else ret None) in
    match mbck_addr with
    | None => exit_with 1
    | Some a =>
        let! w := get in
        if negb (k_madvise k (w_calls w)) then exit_with 1
        else
          do! modify tick in
          on_mem (store a [1])
    end.

(** ** Dependency records *)

Definition dependency_line (pid tid a : Z) : string :=
  to_string pid +:+ "," +:+ to_string tid +:+ "," +:+ to_string a.

Definition dependency_entry (f : PmemFile) : string :=
  dependency_line (getpid k) (pthread_self k) (addr f) +:+ newline.

Definition text_bytes (s : string) : list Z :=
  (λ c, Z.of_N (Ascii.N_of_ascii c)) <$> String.list_ascii_of_string s.

(** Append bytes to a file. *)
Definition append_file (p : string) (bs : list Z) (w : world M) : world M :=
  let sz := file_size_of p w in
  write_file p (mkFile (sz + blen bs) (write_bytes (file_byte p w) sz bs)) w.

Definition write_dependency_internal (f : PmemFile) : cmd (world M) unit :=
  let dfname := get_dependency_fname f in
  let! fd := sys_open dfname true in
  if negb fd then exit_with 1
  else
    let! w := get in
    let entry := text_bytes (dependency_entry f) in
    let bytes := k_write k (w_calls w) (blen entry) in
    do! modify (λ w, tick (append_file dfname (take (Z.to_nat bytes) entry) w)) in
    if bytes =? blen entry then ret tt else exit_with 1.

Definition write_dependency (f : PmemFile) : cmd (world M) unit :=
  when (negb (bool_decide (get_dependency_fname f = "-dependencies.txt")))
    (write_dependency_internal f).

(** ** The page cache mapping *)

Definition page_cache_flags (flags a : Z) (mode : bool) : Z :=
  let flags := Z.land flags (Z.lnot MAP_SYNC) in
  let flags := Z.land flags (Z.lnot MAP_SHARED) in
  let flags := Z.land flags (Z.lnot MAP_SHARED_VALIDATE) in
  let flags := if a =? 0 then flags else Z.lor flags MAP_FIXED_NOREPLACE in
  if mode then Z.lor flags MAP_PRIVATE else Z.lor flags MAP_SHARED.

(** [mapped_addr.insert_or_assign]. *)
Definition insert_or_assign (fd : Z) (md : fd_metadata_t) (s : sys M) : sys M :=
  put_mapped ((fd, md) :: List.filter (λ p : Z * fd_metadata_t, negb (p.1 =? fd)) (s_mapped_addr s)) s.

(** The two calls of madvise on the new mapping. *)
Definition advise (mode : bool) : cmd (world M) unit :=
  let huge := get_env_val "CXLBUF_USE_HUGEPAGE" in
  let call (b : bool) : cmd (world M) unit :=
    (if b then
       let! w := get in
       do! modify tick in
       if k_madvise k (w_calls w) then ret tt else exit_with 1
     else ret tt) in
  do! call (mode || huge) in call (negb huge).

Definition map_to_page_cache (f : PmemFile) (flags fd off : Z) : cmd (world M) (option Z) :=
  let! w := get in
  let g := s_g (w_sys w) in
  let mode := cxlModeEnabled g in
  let fpath := fd_to_fname fd in
  if mode && negb (bool_decide (fpath = "")) && negb (is_prefix "/mnt/pmem0/" fpath)
     && negb (is_prefix "/mnt/mss0/" fpath)
  then exit_with 1
  else
    let mpath := if fd =? -1 then ""%string else fpath in
    let! result := real_mmap (addr f) (len f) (page_cache_flags flags (addr f) mode) mpath off in
    do! match result with
        | Some a =>
            when (negb (fd =? -1))
              (let range := mkRange (addr f) (wrap64 (addr f + len f)) in
               do! modify (λ w, put_sys (insert_or_assign fd (mkFdMeta fd range (path f))
                                           (w_sys w)) w) in
               if negb (addr_in_range g a) && negb (addr f =? 0) then exit_with 1
               else advise mode)
        | None => ret tt
        end in
    do! when (negb (fd =? -1)) (write_dependency f) in
    ret result.

(** ** The wrapper (libc_wrappers.cc) *)

Definition on_device (fname : string) : bool :=
  is_prefix "/mnt/pmem0/" fname || is_prefix "/mnt/cxl0" fname || is_prefix "/mnt/mss0" fname.

(** The bump allocator of the tracking space: the address for a mapping of [n]
    bytes, and the next one. *)
Definition bump_addr (start cur n : Z) : Z * Z :=
  let cur := if cur =? 0 then start else cur in
  (cur, wrap64 (cur + wrap64 (n + 4095) / 4096 * 4096)).

Definition mmap (i : nat) (a n flags fd off : Z) : cmd (world M) (option Z) :=
  let fd_fname := fd_to_fname fd in
  let! pmemf := new_PmemFile fd_fname a n in
  let! w := get in
  let! pmemf :=
    (if cxlModeEnabled (s_g (w_sys w)) && on_device fd_fname then
       let '(a, next) := bump_addr (start_addr (s_g (w_sys w))) (s_mmap_start (w_sys w)) n in
       do! modify (λ w, put_sys (put_mmap_start next (w_sys w)) w) in
       let pmemf := set_addr a pmemf in
       do! create_backing_file pmemf in
       do! map_backing_file i pmemf in
       ret pmemf
     else ret pmemf) in
  map_to_page_cache pmemf flags fd off.

(** ** Start-up (libstoreinst.cc) *)

Definition put_addrs (s e : Z) (g : globals) : globals :=
  mkGlobals (startTracking g) (cxlModeEnabled g) (nopMsync g) (crashOnCommit g) s e
    (backing_file_start g) (ctrlr_present g).

Definition init_addrs : cmd (world M) unit :=
  let start_addr_str := get_env_str "PMEM_START_ADDR" "" in
  let end_addr_str := get_env_str "PMEM_END_ADDR" "" in
  if bool_decide (start_addr_str = "") then exit_with 1
  else if bool_decide (end_addr_str = "") then exit_with 1
  else
    match stoull 16 start_addr_str, stoull 16 end_addr_str with
    | Some s, Some e =>
        do! modify (λ w, put_sys (put_g (put_addrs s e (s_g (w_sys w))) (w_sys w)) w) in
        when (negb (NDEBUG cfg))
          (nvsl_assert (negb (s =? 0) && negb (e =? 0) && (s <? e)))
    | _, _ => trap
    end.

(** The globals that come from the environment; the delay of msync is left
    out. *)
Definition init_envvars : cmd (world M) unit := modify (λ w,
  let g := s_g (w_sys w) in
  put_log_loc (get_env_str "CXLBUF_LOG_LOC" "/mnt/pmem0/cxlbuf_logs/")
    (put_sys (put_g (mkGlobals (startTracking g) (cxlModeEnabled g)
        (get_env_val "CXLBUF_MSYNC_IS_NOP") (get_env_val "CXLBUF_CRASH_ON_COMMIT")
        (start_addr g) (end_addr g) (backing_file_start g) (ctrlr_present g)) (w_sys w)) w)).

Definition libstoreinst_ctor : cmd (world M) unit :=
  do! init_addrs in
  do! init_envvars in
  modify (λ w,
    let g := s_g (w_sys w) in
    put_sys (put_g (mkGlobals (startTracking g) (get_env_val "CXL_MODE_ENABLED")
        (nopMsync g) (crashOnCommit g) (start_addr g) (end_addr g)
        (backing_file_start g) (ctrlr_present g)) (w_sys w)) w).
End Files.

(** ** Windows stay coherent *)

Section Coherence.
Context {M : Type} `{PMemLaws M}.
Implicit Types (w : world M) (key p : string).

(** Mappings do not overlap, and every window shows what a read of its file
    returns. *)
Definition maps_ok w : Prop :=
  (∀ mp mp', mp ∈ w_maps w → mp' ∈ w_maps w → mp ≠ mp' →
     rng_disj (mp_addr mp) (mp_len mp) (mp_addr mp') (mp_len mp'))
  ∧ (∀ mp key x f, mp ∈ w_maps w → shows key x mp = true → w_files w !! key = Some f →
       0 ≤ x < f_size f → view (w_pm w) (mp_addr mp + (x - mp_off mp)) = byte_at key w x).

(** Room for [n] bytes at [a]. *)
Definition apart (a n : Z) w : Prop :=
  ∀ mp, mp ∈ w_maps w → rng_disj a n (mp_addr mp) (mp_len mp).

(** No window on the file. *)
Definition unshown key w : Prop := ∀ mp x, mp ∈ w_maps w → shows key x mp = false.

(** The world of [w] with another memory and other mappings. *)
Definition same_files w w' : Prop :=
  ∀ key, f_size <$> w_files w' !! key = f_size <$> w_files w !! key
         ∧ ∀ x, byte_at key w' x = byte_at key w x.

#[export] Instance same_files_preorder : PreOrder same_files.
Proof.
  split.
  - by intros w key.
  - intros w1 w2 w3 H12 H23 key. destruct (H12 key) as [Ha Hb], (H23 key) as [Hc Hd].
    split; [congruence|]. intros x. by rewrite Hd, Hb.
Qed.

Lemma shows_rng key x mp :
  shows key x mp = true → mp_shared mp = true ∧ mp_path mp = key ∧ mp_off mp ≤ x < mp_off mp + mp_len mp.
Proof.
  unfold shows. rewrite !andb_true_iff, bool_decide_eq_true, in_rng_spec. tauto.
Qed.

Lemma find_shows key x w :
  match List.find (shows key x) (w_maps w) with
  | Some mp => mp ∈ w_maps w ∧ shows key x mp = true
  | None => ∀ mp, mp ∈ w_maps w → shows key x mp = false
  end.
Proof.
  destruct (List.find _ _) eqn:E.
  - apply find_some in E as [Hin ?]. by rewrite list_elem_of_In.
  - intros mp Hin%list_elem_of_In. by eapply find_none.
Qed.

(** A memory change away from the windows does not show. *)
Lemma byte_at_pm w m' key x :
  (∀ mp, mp ∈ w_maps w → shows key x mp = true →
     view m' (mp_addr mp + (x - mp_off mp)) = view (w_pm w) (mp_addr mp + (x - mp_off mp))) →
  byte_at key (put_sys (put_pm m' (w_sys w)) w) x = byte_at key w x.
Proof.
  intros Hm. unfold byte_at. simpl. destruct (w_files w !! key) as [f|]; [|done].
  destruct (in_rng 0 _ x); [|done]. pose proof (find_shows key x w) as Hf.
  destruct (List.find _ _); [|done]. destruct Hf. by apply Hm.
Qed.

Lemma mapped_view a n flags p off w x :
  view (w_pm (mapped a n flags p off w)) x
  = if in_rng a n x then file_byte p w (off + (x - a)) else view (w_pm w) x.
Proof. apply view_map_in. Qed.

Lemma mapped_byte_at a n flags p off w key x :
  apart a n w → byte_at key (mapped a n flags p off w) x = byte_at key w x.
Proof.
  intros Hap. unfold byte_at at 1. simpl. destruct (w_files w !! key) as [f|] eqn:Ef.
  2:{ unfold byte_at. by rewrite Ef. }
  destruct (in_rng 0 (f_size f) x) eqn:Ex.
  2:{ unfold byte_at. by rewrite Ef, Ex. }
  destruct (shows key x (mkMapping a n (resolve p) (flags_shared flags) off)) eqn:Es.
  - apply shows_rng in Es as (_ & <- & Hr). simpl in *.
    rewrite mapped_view. unfold file_byte. rng.
  - pose proof (find_shows key x w) as Hf. unfold byte_at. rewrite Ef, Ex.
    destruct (List.find _ _) as [mp|]; [|done]. destruct Hf as [Hin Hs].
    apply shows_rng in Hs as (_ & _ & Hr). specialize (Hap mp Hin).
    rewrite mapped_view. unfold rng_disj in Hap. rng.
Qed.

Lemma mapped_same_files a n flags p off w :
  apart a n w → same_files w (mapped a n flags p off w).
Proof. intros Ha key. split; [done|]. intros x. by apply mapped_byte_at. Qed.

Lemma mapped_ok a n flags p off w :
  0 < n → apart a n w → maps_ok w → maps_ok (mapped a n flags p off w).
Proof.
  intros Hn Hap [Hd Hc]. split.
  - intros mp mp'. simpl. rewrite !elem_of_cons. intros [->|Hi] [->|Hi'] Hne; simpl.
    + done.
    + by apply Hap.
    + destruct (Hap mp Hi); [by right|by left].
    + by apply Hd.
  - intros mp key x f Hin Hs Hf Hx. rewrite mapped_byte_at by done. rewrite mapped_view.
    apply shows_rng in Hs as Hs'. destruct Hs' as (_ & Hk & Hr).
    simpl in Hin. apply elem_of_cons in Hin as [->|Hin]; simpl in *.
    + subst key. unfold file_byte. rng.
    + specialize (Hap mp Hin). unfold rng_disj in Hap. rng. by eapply Hc.
Qed.

Lemma unmapped_byte_at a w key x :
  maps_ok w → byte_at key (unmapped a w) x = byte_at key w x.
Proof.
  intros [_ Hc]. unfold byte_at at 1. cbn [unmapped put_maps put_files w_files].
  rewrite map_lookup_imap. destruct (w_files w !! key) as [f|] eqn:Ef; simpl.
  2:{ unfold byte_at. by rewrite Ef. }
  destruct (in_rng 0 (f_size f) x) eqn:Ex.
  2:{ unfold byte_at. by rewrite Ef, Ex. }
  destruct (List.find _ _) as [mp|] eqn:E; [|done].
  apply find_some in E as [Hin%filter_In Hs]. destruct Hin as [Hin%list_elem_of_In _].
  change (w_pm _) with (w_pm w). apply in_rng_spec in Ex. by eapply Hc.
Qed.

Lemma unmapped_same_files a w : maps_ok w → same_files w (unmapped a w).
Proof.
  intros Hok key. split; [|intros x; by apply unmapped_byte_at].
  simpl. rewrite map_lookup_imap. by destruct (w_files w !! key).
Qed.

Lemma unmapped_sub a w mp : mp ∈ w_maps (unmapped a w) → mp ∈ w_maps w.
Proof. simpl. rewrite !list_elem_of_In. by intros [? _]%filter_In. Qed.

Lemma unmapped_maps a w mp : mp ∈ w_maps (unmapped a w) → mp ∈ w_maps w ∧ mp_addr mp ≠ a.
Proof. simpl. rewrite !list_elem_of_In. intros [? ?%negb_true_iff%Z.eqb_neq]%filter_In. done. Qed.

Lemma unmapped_ok a w : maps_ok w → maps_ok (unmapped a w).
Proof.
  intros Hok. pose proof Hok as [Hd Hc]. split.
  - intros mp mp' Hi%unmapped_sub Hi'%unmapped_sub. by apply Hd.
  - intros mp key x f Hi%unmapped_sub Hs Hf Hx. rewrite unmapped_byte_at by done.
    simpl in Hf. rewrite map_lookup_imap in Hf.
    destruct (w_files w !! key) as [f'|] eqn:Ef; simplify_eq/=. by eapply Hc.
Qed.

(** The number of calls is not seen. *)
Lemma same_files_tick w w' : same_files w w' → same_files w (tick w').
Proof. exact id. Qed.
Lemma maps_ok_tick w : maps_ok w → maps_ok (tick w).
Proof. exact id. Qed.

(** Writing a file that no mapping shows. *)
Lemma write_file_byte_at p f w key x :
  unshown (resolve p) w →
  byte_at key (write_file p f w) x
  = if decide (key = resolve p) then if in_rng 0 (f_size f) x then f_bytes f x else 0
    else byte_at key w x.
Proof.
  intros Hu. unfold byte_at at 1. cbn [write_file put_files w_files]. case_decide as E.
  - subst key. rewrite lookup_insert_eq. destruct (in_rng 0 _ x); [|done].
    pose proof (find_shows (resolve p) x (write_file p f w)) as Hf.
    cbn [write_file put_files w_maps] in Hf.
    destruct (List.find _ _) as [mp|]; [|done]. destruct Hf as [Hin Hs].
    by rewrite (Hu mp x Hin) in Hs.
  - by rewrite lookup_insert_ne by done.
Qed.

Lemma write_file_ok p f w : unshown (resolve p) w → maps_ok w → maps_ok (write_file p f w).
Proof.
  intros Hu [Hd Hc]. split; [done|]. intros mp key x f' Hin Hs Hf Hx.
  rewrite write_file_byte_at by done. case_decide as E.
  - subst key. by rewrite (Hu mp x Hin) in Hs.
  - cbn [write_file put_files w_files] in Hf. rewrite lookup_insert_ne in Hf by done.
    by eapply Hc.
Qed.

(** Storing to memory that one window shows. *)
Lemma put_pm_ok w m' :
  (∀ mp, mp ∈ w_maps w → mp_shared mp = true →
     ∀ x, mp_addr mp ≤ x < mp_addr mp + mp_len mp → view m' x = view (w_pm w) x) →
  maps_ok w →
  maps_ok (put_sys (put_pm m' (w_sys w)) w) ∧ same_files w (put_sys (put_pm m' (w_sys w)) w).
Proof.
  intros Hm [Hd Hc].
  assert (∀ key x, byte_at key (put_sys (put_pm m' (w_sys w)) w) x = byte_at key w x) as Hb.
  { intros key x. apply byte_at_pm. intros mp Hin Hs.
    apply shows_rng in Hs as (Hsh & _ & Hr). apply (Hm mp); [done..|lia]. }
  split; [split; [done|]|by intros key].
  intros mp key x f Hin Hs Hf Hx. rewrite Hb. rewrite <-(Hc mp key x f) by done.
  apply shows_rng in Hs as (Hsh & _ & Hr). apply (Hm mp); [done..|lia].
Qed.

Lemma apart_sub a n w w' : (∀ mp, mp ∈ w_maps w' → mp ∈ w_maps w) → apart a n w → apart a n w'.
Proof. intros Hs Ha mp Hin. by apply Ha, Hs. Qed.

Lemma apart_mapped a n b k flags p off w :
  apart a n w → rng_disj a n b k → apart a n (mapped b k flags p off w).
Proof. intros Ha Hd mp. simpl. rewrite elem_of_cons. intros [->|Hin]; [done|by apply Ha]. Qed.

Lemma unshown_mapped key a n flags p off w :
  resolve p ≠ key ∨ flags_shared flags = false →
  unshown key w → unshown key (mapped a n flags p off w).
Proof.
  intros Hp Hu mp x. simpl. rewrite elem_of_cons. intros [->|Hin]; [|by apply Hu].
  unfold shows. simpl. destruct Hp as [Hp| ->]; [|done]. rewrite bool_decide_false by done.
  by rewrite andb_false_r.
Qed.

Lemma unshown_unmapped key a w : unshown key w → unshown key (unmapped a w).
Proof. intros Hu mp x Hin%unmapped_sub. by apply Hu. Qed.
End Coherence.

(** ** Recovery of a file *)

Section RecoverSpec.
Context {M : Type} `{PMemLaws M}.
Implicit Types (w : world M) (key p : string).

(** A store that only the latest mapping shows. *)
Lemma put_pm_window w m' mp0 rest bk :
  let w' := put_sys (put_pm m' (w_sys w)) w in
  w_maps w = mp0 :: rest → mp_shared mp0 = true → mp_path mp0 = bk →
  (∀ mp x, mp ∈ rest → shows bk x mp = false) →
  (∀ x, ¬ (mp_addr mp0 ≤ x < mp_addr mp0 + mp_len mp0) → view m' x = view (w_pm w) x) →
  (∀ mp, mp ∈ rest → rng_disj (mp_addr mp0) (mp_len mp0) (mp_addr mp) (mp_len mp)) →
  maps_ok w →
  maps_ok w'
  ∧ (∀ key x, key ≠ bk → byte_at key w' x = byte_at key w x)
  ∧ (∀ x f, w_files w !! bk = Some f → 0 ≤ x < f_size f →
       byte_at bk w' x = if in_rng (mp_off mp0) (mp_len mp0) x
                         then view m' (mp_addr mp0 + (x - mp_off mp0)) else byte_at bk w x).
Proof.
  intros w' Hmaps Hsh Hpath Hrest Hm Hap [Hd Hc].
  assert (∀ mp key x, mp ∈ rest → shows key x mp = true →
    view m' (mp_addr mp + (x - mp_off mp)) = view (w_pm w) (mp_addr mp + (x - mp_off mp))) as Hv.
  { intros mp key x Hin Hs. apply shows_rng in Hs as (_ & _ & Hr).
    specialize (Hap mp Hin). unfold rng_disj in Hap. apply Hm. lia. }
  assert (∀ key x, key ≠ bk → shows key x mp0 = false) as Hno.
  { intros key x Hk. unfold shows. rewrite bool_decide_false by congruence.
    by rewrite andb_false_r. }
  assert (∀ key x, key ≠ bk → byte_at key w' x = byte_at key w x) as Hother.
  { intros key x Hk. apply byte_at_pm. rewrite Hmaps. intros mp [->|Hin]%elem_of_cons Hs.
    - by rewrite Hno in Hs. - by eapply Hv. }
  assert (∀ x f, w_files w !! bk = Some f → 0 ≤ x < f_size f →
       byte_at bk w' x = if in_rng (mp_off mp0) (mp_len mp0) x
                         then view m' (mp_addr mp0 + (x - mp_off mp0)) else byte_at bk w x) as Hbk.
  { intros x f Hf Hx. destruct (in_rng (mp_off mp0) (mp_len mp0) x) eqn:E.
    - unfold byte_at. simpl. rewrite Hf. rewrite (proj2 (in_rng_spec 0 (f_size f) x)) by lia.
      rewrite Hmaps. simpl. unfold shows at 1. rewrite Hsh, Hpath, E.
      by rewrite bool_decide_true.
    - apply byte_at_pm. rewrite Hmaps. intros mp [->|Hin]%elem_of_cons Hs; [|by eapply Hv].
      apply shows_rng in Hs as (_ & _ & Hr). apply in_rng_false in E. lia. }
  split_and!; [|done|done]. split; [done|].
  intros mp key x f Hin Hs Hf Hx. simpl in Hin. rewrite Hmaps in Hin.
  destruct (decide (key = bk)) as [->|Hk].
  - apply elem_of_cons in Hin as [->|Hin]; [|by rewrite Hrest in Hs].
    rewrite (Hbk x f) by done. apply shows_rng in Hs as (_ & _ & Hr).
    by rewrite (proj2 (in_rng_spec _ _ _)) by done.
  - apply elem_of_cons in Hin as [->|Hin]; [by rewrite Hno in Hs|].
    rewrite Hother by done. rewrite <-(Hc mp key x f); [by eapply Hv| |done..].
    rewrite Hmaps. by right.
Qed.

(** What a log area holds depends only on its bytes. *)
Lemma log_image_ext (m1 m2 : mem) lp us :
  (∀ x, lp ≤ x < content lp + total us → m1 x = m2 x) →
  log_image m1 lp us → log_image m2 lp us.
Proof.
  intros Hx [Ho He Hd Hj]. pose proof (total_nonneg us). unfold content, sizeof_layout in *.
  split; try done.
  - rewrite <-Ho. apply loadN_ext. intros x Hr. symmetry. apply Hx. lia.
  - apply (encodes_ext m1); [|done]. intros x Hr. unfold content, sizeof_layout in *.
    apply Hx. lia.
Qed.

(** Undoing entries that lie inside a range changes nothing outside it. *)
Lemma apply_undos_outside (m : mem) us a n x :
  Forall (λ u, a ≤ u_addr u ∧ u_addr u + blen (u_data u) ≤ a + n) us →
  ¬ (a ≤ x < a + n) → apply_undos m us x = m x.
Proof.
  intros Hin Hx. rewrite apply_undos_spec. destruct (first_value us x) eqn:E; [|done].
  exfalso. apply Hx. revert E. induction Hin as [|u us Hu Hin IH]; simpl; [done|].
  unfold u_covers. destruct (in_rng _ _ x) eqn:E; [|done]. apply in_rng_spec in E. lia.
Qed.

(** A kernel that grants every call, honours an address hint, and otherwise maps
    the [n]-th call at [room n], where [L] bytes are free. *)
Record obliging (k : kernel) (room : nat → Z) (L : Z) : Prop := {
  ob_open n p : k_open k n p = true;
  ob_hint n h l fl : h ≠ 0 → k_mmap k n h l fl = Some h;
  ob_room n l fl : k_mmap k n 0 l fl = Some (room n);
  ob_munmap n : k_munmap k n = true;
  ob_madvise n : k_madvise k n = true;
  ob_lseek n : k_lseek k n = true;
  ob_write n l : k_write k n l = l;
  ob_copy n : k_copy_file k n = Some true;
  ob_send n l : k_sendfile k n l = l;
  ob_apart n n' : n ≠ n' → rng_disj (room n) L (room n') L;
}.

Context (k : kernel) (room : nat → Z) (L : Z) (Hk : obliging k room L).
Context `{NvslLaws}.

Lemma sys_open_runs p c w :
  is_regular_file p w = true → sys_open k p c w = Ret true (tick w).
Proof.
  intros Hp. unfold sys_open. rewrite (ob_open _ _ _ Hk), Hp. by rewrite orb_true_r.
Qed.

Lemma real_mmap_hint h n fl p off w :
  h ≠ 0 → real_mmap k h n fl p off w = Ret (Some h) (tick (mapped h n fl p off w)).
Proof. intros Hh. unfold real_mmap. by rewrite (ob_hint _ _ _ Hk). Qed.

Lemma real_mmap_room n fl p off w :
  real_mmap k 0 n fl p off w
  = Ret (Some (room (w_calls w))) (tick (mapped (room (w_calls w)) n fl p off w)).
Proof. unfold real_mmap. by rewrite (ob_room _ _ _ Hk). Qed.

Lemma unmap_runs a n w : unmap k a n w = Ret true (tick (unmapped a w)).
Proof. unfold unmap. by rewrite (ob_munmap _ _ _ Hk). Qed.

(** The log file of a thread. *)
Definition log_name (pid tid : Z) : string := to_string pid +:+ "." +:+ to_string tid.
Definition log_file (pid tid : Z) w : string := path_join (w_log_loc w) (log_name pid tid +:+ ".log").

Lemma get_log_by_id_runs pid tid w :
  is_regular_file (log_file pid tid w) w = true →
  let lf := log_file pid tid w in
  let lp := room (S (w_calls w)) in
  get_log_by_id k (log_name pid tid) 0 w
  = Ret (lp, lf) (tick (mapped lp (file_size_of lf w) MAP_SHARED lf 0 (tick w))).
Proof.
  intros Hf lf lp. unfold get_log_by_id, bind, get. fold (log_file pid tid w).
  rewrite sys_open_runs by done. simpl. by rewrite real_mmap_room.
Qed.

Lemma parse_line pid tid a :
  0 ≤ pid < 2 ^ 31 → 0 ≤ tid < 2 ^ 64 → 0 ≤ a < 2 ^ 64 →
  split_n (dependency_line pid tid a) comma 3 = [to_string pid; to_string tid; to_string a]
  ∧ stoi (to_string pid) = Some pid ∧ stoull 10 (to_string tid) = Some tid
  ∧ stoull 10 (to_string a) = Some a.
Proof.
  intros Hp Ht Ha. split_and!; [|by apply stoi_to_string|by apply stoull_to_string..].
  apply split_commas; apply to_string_plain; (lia || done).
Qed.

(** The log of a thread, on file, holds the entries [us]; [lp] is where it will
    be mapped. *)
Record log_on_file (pid tid lp : Z) (us : list undo) w : Prop := {
  lf_there : is_regular_file (log_file pid tid w) w = true;
  lf_size : sizeof_layout + total us ≤ file_size_of (log_file pid tid w) w ≤ L;
  lf_image : log_image (λ x, file_byte (log_file pid tid w) w (x - lp)) lp us;
}.

(** Entries of the file at [a] do not run past its end. *)
Definition undo_inside (a n : Z) (u : undo) : Prop := u_addr u + blen (u_data u) ≤ a + n.

(** What [recover] leaves: every file but the backing file as it was, and the
    backing file with the entries [fs] undone. *)
Record recovered (f : PmemFile) (a : Z) (fs : list undo) w w' : Prop := {
  rc_ok : maps_ok w';
  rc_maps mp : mp ∈ w_maps w' → mp ∈ w_maps w;
  rc_sys : ∃ m, w_sys w' = put_pm m (w_sys w);
  rc_loc : w_log_loc w' = w_log_loc w;
  rc_calls : (w_calls w ≤ w_calls w')%nat;
  rc_size key : f_size <$> w_files w' !! key = f_size <$> w_files w !! key;
  rc_other key x : key ≠ resolve (get_backing_fname f) → byte_at key w' x = byte_at key w x;
  rc_backing x : 0 ≤ x < file_size_of (get_backing_fname f) w →
    file_byte (get_backing_fname f) w' x
    = if in_rng 0 (len f) x then default (file_byte (get_backing_fname f) w x) (first_value fs (a + x))
      else file_byte (get_backing_fname f) w x;
}.

Definition sane_ids (pid tid a : Z) : Prop := 0 ≤ pid < 2 ^ 31 ∧ 0 ≤ tid < 2 ^ 64 ∧ 0 < a < 2 ^ 64.

Lemma is_regular_lookup p w : is_regular_file p w = true → ∃ f, w_files w !! resolve p = Some f.
Proof. intros Hp%bool_decide_eq_true. destruct Hp as [f Hf]. eauto. Qed.

(** The worlds [recover] goes through for one log: log and backing file mapped,
    entries replayed, both unmapped. *)
Definition both_mapped (f : PmemFile) (lf : string) (lp a : Z) w : world M :=
  tick (mapped a (len f) (Z.lor MAP_SHARED_VALIDATE MAP_SYNC) (get_backing_fname f) 0
    (tick (tick (mapped lp (file_size_of lf w) MAP_SHARED lf 0 (tick w))))).
Definition replayed (f : PmemFile) (lp a : Z) w : world M :=
  put_sys (put_pm (recover_log lp a (len f) (w_pm w)) (w_sys w)) w.

Lemma recover_one_runs f pid tid a w :
  let lf := log_file pid tid w in
  let lp := room (S (w_calls w)) in
  sane_ids pid tid a → is_regular_file (get_backing_fname f) w = true →
  is_regular_file lf w = true →
  recover_one k f (dependency_line pid tid a) w
  = Ret tt (tick (unmapped a (tick (unmapped lp (replayed f lp a (both_mapped f lf lp a w)))))).
Proof.
  intros lf lp (Hpid & Htid & Ha) Hbk Hlf.
  destruct (parse_line pid tid a) as (Hs & Hp1 & Hp2 & Hp3); [lia..|].
  unfold recover_one. rewrite Hs, Hp1, Hp2, Hp3. fold (log_name pid tid).
  unfold bind at 1. rewrite get_log_by_id_runs by done. cbv beta iota zeta.
  fold (get_backing_fname f). unfold bind at 1. rewrite sys_open_runs by done.
  cbn [negb]. unfold bind at 1. rewrite real_mmap_hint by lia.
  unfold bind, get, on_mem, modify. cbn [fst snd]. rewrite unmap_runs. cbn [negb].
  rewrite unmap_runs. reflexivity.
Qed.

Lemma both_mapped_spec f lf lp a us w :
  0 < len f → 0 < file_size_of lf w ≤ L → maps_ok w →
  apart lp L w → apart a (len f) w → rng_disj lp L a (len f) →
  sizeof_layout + total us ≤ file_size_of lf w →
  log_image (λ x, file_byte lf w (x - lp)) lp us →
  let w3 := both_mapped f lf lp a w in
  maps_ok w3 ∧ same_files w w3 ∧ log_image (view (w_pm w3)) lp us
  ∧ (∀ x, a ≤ x < a + len f → view (w_pm w3) x = file_byte (get_backing_fname f) w (x - a)).
Proof.
  intros Hlen Hsz Hok Hap1 Hap2 Hd Hcap Him w3.
  assert (apart lp (file_size_of lf w) w) as Hap1'.
  { intros mp Hin. specialize (Hap1 mp Hin). unfold rng_disj in *. lia. }
  set (w1 := mapped lp (file_size_of lf w) MAP_SHARED lf 0 (tick w)).
  assert (maps_ok w1) as Hok1 by (apply (mapped_ok _ _ _ _ _ w); [lia|done..]).
  assert (same_files w w1) as Hs1 by (by apply (mapped_same_files _ _ _ _ _ w)).
  assert (apart a (len f) w1) as Hap2'.
  { apply (apart_mapped _ _ _ _ _ _ _ w); [done|]. unfold rng_disj in *. lia. }
  split_and!.
  - by apply (mapped_ok _ _ _ _ _ w1).
  - transitivity w1; [done|]. by apply (mapped_same_files _ _ _ _ _ w1).
  - apply (log_image_ext (λ x, file_byte lf w (x - lp))); [|done]. intros x Hx.
    unfold content, sizeof_layout in *.
    change (w_pm w3) with (w_pm (mapped a (len f) (Z.lor MAP_SHARED_VALIDATE MAP_SYNC)
      (get_backing_fname f) 0 w1)).
    rewrite mapped_view. unfold rng_disj in Hd. rng_cases; [lia|].
    unfold w1. rewrite mapped_view. rng_cases; [|lia]. done.
  - intros x Hx. change (w_pm w3) with (w_pm (mapped a (len f) (Z.lor MAP_SHARED_VALIDATE MAP_SYNC)
      (get_backing_fname f) 0 w1)).
    rewrite mapped_view. rng_cases; [|lia]. apply Hs1.
Qed.

Lemma replayed_spec f lf lp a us w :
  let w3 := both_mapped f lf lp a w in
  let w4 := replayed f lp a w3 in
  let fs := List.filter (in_file a (len f)) us in
  log_image (view (w_pm w3)) lp us → Forall (undo_inside a (len f)) fs →
  maps_ok w3 → apart a (len f) w → rng_disj lp L a (len f) → file_size_of lf w ≤ L →
  unshown (resolve (get_backing_fname f)) w → resolve lf ≠ resolve (get_backing_fname f) →
  maps_ok w4
  ∧ (∀ key x, key ≠ resolve (get_backing_fname f) → byte_at key w4 x = byte_at key w3 x)
  ∧ (∀ x, 0 ≤ x < file_size_of (get_backing_fname f) w →
       file_byte (get_backing_fname f) w4 x
       = if in_rng 0 (len f) x then default (view (w_pm w3) (a + x)) (first_value fs (a + x))
         else file_byte (get_backing_fname f) w3 x)
  ∧ ∀ x, covered fs x = true → durable (w_pm w4) x.
Proof.
  intros w3 w4 fs Him Hin Hok Hap Hd Hsz Hun Hne.
  destruct (recover_log_spec lp a (len f) (w_pm w3) us Him) as [Hv Hdur].
  assert (∀ x, view (w_pm w4) x = default (view (w_pm w3) x) (first_value fs x)) as Hv4.
  { intros x. change (w_pm w4) with (recover_log lp a (len f) (w_pm w3)).
    by rewrite (Hv x), apply_undos_spec. }
  destruct (put_pm_window w3 (w_pm w4)
    (mkMapping a (len f) (resolve (get_backing_fname f)) true 0)
    (mkMapping lp (file_size_of lf w) (resolve lf) true 0 :: w_maps w)
    (resolve (get_backing_fname f)) eq_refl eq_refl eq_refl) as (Hok4 & Hoth & Hbk); try assumption.
  - intros mp x [->|Hm]%elem_of_cons; [|by apply Hun]. unfold shows. simpl.
    by rewrite bool_decide_false by done.
  - intros x Hx. rewrite Hv4, <-apply_undos_spec. apply (apply_undos_outside _ _ a (len f)); [|done].
    apply Forall_forall. intros u Hu. split; [|by eapply Forall_forall in Hin].
    apply list_elem_of_In, filter_In in Hu as [_ Hu]. unfold in_file in Hu. lia.
  - simpl. intros mp [->|Hm]%elem_of_cons; simpl; [|by apply Hap]. unfold rng_disj in *. lia.
  - split_and!; [done|done| |].
    + intros x Hx. unfold file_size_of in Hx.
      destruct (w_files w !! _) as [fl|] eqn:Ef; [|lia].
      unfold file_byte. pose proof (Hbk x fl Ef Hx) as Hb. simpl in Hb.
      etransitivity; [exact Hb|]. rewrite Z.sub_0_r. destruct (in_rng 0 (len f) x); [|done].
      apply Hv4.
    + intros x Hx. apply Hdur. by right.
Qed.

(** Unmapping both files again. *)
Lemma unmap_both_spec a lp w :
  let w' := tick (unmapped a (tick (unmapped lp w))) in
  maps_ok w →
  maps_ok w' ∧ same_files w w'
  ∧ (∀ mp, mp ∈ w_maps w' → mp ∈ w_maps w ∧ mp_addr mp ≠ lp ∧ mp_addr mp ≠ a)
  ∧ w_sys w' = w_sys w ∧ w_log_loc w' = w_log_loc w ∧ (w_calls w ≤ w_calls w')%nat.
Proof.
  intros w' Hok. assert (maps_ok (tick (unmapped lp w))) as Hok5 by by apply maps_ok_tick, unmapped_ok.
  split_and!; try done; [..|simpl; lia].
  - by apply maps_ok_tick, unmapped_ok.
  - transitivity (tick (unmapped lp w)); [by apply same_files_tick, unmapped_same_files|].
    by apply same_files_tick, unmapped_same_files.
  - intros mp Hm. unfold w' in Hm. change (w_maps (tick ?x)) with (w_maps x) in Hm.
    apply unmapped_maps in Hm as [Hm ?]. change (w_maps (tick ?x)) with (w_maps x) in Hm.
    by apply unmapped_maps in Hm as [? ?].
Qed.

Lemma put_pm_twice m m' (y : sys M) : put_pm m (put_pm m' y) = put_pm m y.
Proof. done. Qed.

Lemma both_mapped_rest f lf lp a w :
  let w3 := both_mapped f lf lp a w in
  w_files w3 = w_files w ∧ w_sys w3 = put_pm (w_pm w3) (w_sys w) ∧ w_log_loc w3 = w_log_loc w
  ∧ (w_calls w ≤ w_calls w3)%nat
  ∧ ∀ mp, mp ∈ w_maps w3 → mp_addr mp = a ∨ mp_addr mp = lp ∨ mp ∈ w_maps w.
Proof.
  split_and!; try reflexivity.
  - simpl. lia.
  - intros mp. simpl. rewrite !elem_of_cons. intros [->|[->|?]]; auto.
Qed.

Lemma replayed_rest f lp a w3 :
  let w4 := replayed f lp a w3 in
  w_files w4 = w_files w3 ∧ w_sys w4 = put_pm (w_pm w4) (w_sys w3)
  ∧ w_log_loc w4 = w_log_loc w3 ∧ w_calls w4 = w_calls w3 ∧ w_maps w4 = w_maps w3.
Proof. split_and!; reflexivity. Qed.

Lemma recover_one_spec f pid tid a us w :
  let lp := room (S (w_calls w)) in
  let fs := List.filter (in_file a (len f)) us in
  sane_ids pid tid a → 0 < len f → maps_ok w →
  unshown (resolve (get_backing_fname f)) w →
  resolve (log_file pid tid w) ≠ resolve (get_backing_fname f) →
  is_regular_file (get_backing_fname f) w = true →
  log_on_file pid tid lp us w → Forall (undo_inside a (len f)) fs →
  apart lp L w → apart a (len f) w → rng_disj lp L a (len f) →
  ∃ w', recover_one k f (dependency_line pid tid a) w = Ret tt w' ∧ recovered f a fs w w'
        ∧ ∀ x, covered fs x = true → durable (w_pm w') x.
Proof.
  intros lp fs Hids Hlen Hok Hun Hne Hbk [Hl1 Hl2 Hl3] Hin Hap1 Hap2 Hd.
  pose proof (total_nonneg us). unfold sizeof_layout in Hl2.
  destruct (both_mapped_spec f (log_file pid tid w) lp a us w) as (Hok3 & Hs3 & Him3 & Hv3);
    try done; [lia|unfold sizeof_layout; lia|].
  destruct (replayed_spec f (log_file pid tid w) lp a us w Him3 Hin Hok3 Hap2 Hd (proj2 Hl2) Hun Hne)
    as (Hok4 & Hoth & Hb4 & Hdur).
  destruct (replayed_rest f lp a (both_mapped f (log_file pid tid w) lp a w))
    as (Hf4 & Hs4 & Hl4 & Hc4 & Hm4).
  destruct (both_mapped_rest f (log_file pid tid w) lp a w) as (Hf3 & Hy3 & Hl3' & Hc3 & Hm3).
  pose proof (recover_one_runs f pid tid a w Hids Hbk Hl1) as Hrun. cbv zeta in Hrun. fold lp in Hrun.
  generalize dependent (replayed f lp a (both_mapped f (log_file pid tid w) lp a w)).
  generalize dependent (both_mapped f (log_file pid tid w) lp a w).
  intros w3 Hok3 Hs3 Him3 Hv3 Hf3 Hy3 Hl3' Hc3 Hm3 w4 Hok4 Hoth Hb4 Hdur Hf4 Hs4 Hl4 Hc4 Hm4 Hrun.
  rewrite Hf3 in Hf4. rewrite Hy3, put_pm_twice in Hs4.
  destruct (unmap_both_spec a lp w4 Hok4) as (Hok6 & Hs6 & Hm6 & Hy6 & Hl6 & Hc6).
  eexists. split; [exact Hrun|]. generalize dependent (tick (unmapped a (tick (unmapped lp w4)))).
  intros w6 Hrun Hok6 Hs6 Hm6 Hy6 Hl6 Hc6.
  split.
  2:{ intros x Hx. unfold w_pm. rewrite Hy6. by apply Hdur. }
  split; try done.
  - intros mp Hm. destruct (Hm6 mp Hm) as (Hin4 & ? & ?). rewrite Hm4 in Hin4. by destruct (Hm3 mp Hin4) as [|[|]].
  - rewrite Hy6. eauto.
  - congruence.
  - lia.
  - intros key. rewrite (proj1 (Hs6 key)). by rewrite Hf4.
  - intros key x Hk'. rewrite (proj2 (Hs6 key)), Hoth by done. apply (proj2 (Hs3 key)).
  - intros x Hx. unfold file_byte. rewrite (proj2 (Hs6 _)).
    etransitivity; [by apply Hb4|]. destruct (in_rng 0 (len f) x) eqn:E.
    + apply in_rng_spec in E. rewrite Hv3 by lia. do 2 f_equal. lia.
    + apply (proj2 (Hs3 _)).
Qed.

(** *** Which log needs recovery *)

(** A dependency record: process, thread and mapping address. *)
Definition dep : Type := Z * Z * Z.
Definition dep_line (d : dep) : string := let '(p, t, a) := d in dependency_line p t a.
Definition dep_log (d : dep) w : string := let '(p, t, _) := d in log_file p t w.
Definition dep_sane (d : dep) : Prop := let '(p, t, a) := d in sane_ids p t a.

(** Its log is there and ACTIVE. *)
Definition dep_active w (d : dep) : bool :=
  is_regular_file (dep_log d w) w
  && (loadN 8 (file_byte (dep_log d w) w) 0 =? state_val ACTIVE).

Definition log_fits w (d : dep) : Prop :=
  is_regular_file (dep_log d w) w = true → sizeof_layout ≤ file_size_of (dep_log d w) w ≤ L.

(** Free space for the kernel's own choices. *)
Definition roomy w : Prop := ∀ n, (w_calls w ≤ n)%nat → apart (room n) L w.

(** The files are as they were; a log of [ds] may have stayed mapped. *)
Record stays (ds : list dep) w w' : Prop := {
  st_ok : maps_ok w';
  st_files : same_files w w';
  st_maps mp : mp ∈ w_maps w' → mp ∈ w_maps w ∨
    ∃ n d, (w_calls w ≤ n < w_calls w')%nat ∧ d ∈ ds ∧ mp_addr mp = room n ∧ mp_len mp ≤ L
           ∧ mp_path mp = resolve (dep_log d w);
  st_sys : ∃ m, w_sys w' = put_pm m (w_sys w);
  st_loc : w_log_loc w' = w_log_loc w;
  st_calls : (w_calls w ≤ w_calls w')%nat;
}.

Lemma dep_log_loc d w w' : w_log_loc w' = w_log_loc w → dep_log d w' = dep_log d w.
Proof. destruct d as [[p t] a]. unfold dep_log, log_file. by intros ->. Qed.

Lemma same_files_regular w w' p : same_files w w' → is_regular_file p w' = is_regular_file p w.
Proof.
  intros Hs. unfold is_regular_file. destruct (Hs (resolve p)) as [Hz _].
  destruct (w_files w' !! resolve p), (w_files w !! resolve p); try done.
Qed.

Lemma same_files_size w w' p : same_files w w' → file_size_of p w' = file_size_of p w.
Proof.
  intros Hs. unfold file_size_of. destruct (Hs (resolve p)) as [Hz _].
  destruct (w_files w' !! resolve p), (w_files w !! resolve p); by simplify_eq/=.
Qed.

Lemma same_files_byte w w' p x : same_files w w' → file_byte p w' x = file_byte p w x.
Proof. intros Hs. apply Hs. Qed.

Lemma stays_refl ds w : maps_ok w → stays ds w w.
Proof.
  intros Hok. split; [done|reflexivity|auto| |done|lia].
  exists (w_pm w). unfold w_pm, put_pm. by destruct (w_sys w).
Qed.

Lemma stays_trans ds w1 w2 w3 : stays ds w1 w2 → stays ds w2 w3 → stays ds w1 w3.
Proof.
  intros [A1 A2 A3 [m1 A4] A5 A6] [B1 B2 B3 [m2 B4] B5 B6]. split; try congruence; try lia.
  - by transitivity w2.
  - intros mp Hm. destruct (B3 mp Hm) as [Hm2|(n & d & Hn & Hd & Ha & Hl & Hp)].
    + destruct (A3 mp Hm2) as [?|(n & d & Hn & ?)]; [by left|]. right. exists n, d.
      split; [lia|done].
    + right. exists n, d. split; [lia|]. split_and!; try done. by rewrite <-(dep_log_loc d w1 w2).
  - exists m2. by rewrite B4, A4, put_pm_twice.
Qed.

Lemma stays_roomy ds w w' : stays ds w w' → roomy w → roomy w'.
Proof.
  intros Hs Hr n Hn mp Hm. pose proof (st_calls _ _ _ Hs).
  destruct (st_maps _ _ _ Hs mp Hm) as [Hin|(n' & d & Hn' & _ & Ha & Hl & _)].
  - apply (Hr n); [lia|done].
  - rewrite Ha. pose proof (ob_apart _ _ _ Hk n n' ltac:(lia)). unfold rng_disj in *. lia.
Qed.

Lemma stays_active ds w w' d : stays ds w w' → dep_active w' d = dep_active w d.
Proof.
  intros Hs. pose proof (st_files _ _ _ Hs) as Hf. unfold dep_active.
  rewrite (dep_log_loc d w w') by apply Hs. rewrite (same_files_regular w w') by done.
  do 2 f_equal. apply loadN_ext. intros x _. by apply same_files_byte.
Qed.

Lemma stays_fits ds w w' d : stays ds w w' → log_fits w d → log_fits w' d.
Proof.
  intros Hs. unfold log_fits. rewrite (dep_log_loc d w w') by apply Hs.
  rewrite (same_files_regular w w'), (same_files_size w w') by apply Hs. done.
Qed.

(** The two spellings of a log's path. *)
Lemma dep_log_lfname (p t a : Z) w :
  w_log_loc w ≠ "" →
  resolve (w_log_loc w +:+ "/" +:+ to_string p +:+ "." +:+ to_string t +:+ ".log")
  = resolve (dep_log (p, t, a) w).
Proof.
  intros Hl. unfold dep_log, log_file, log_name. rewrite <-resolve_join by done.
  by rewrite !str_app_assoc.
Qed.

Lemma is_regular_resolve p q w : resolve p = resolve q → is_regular_file p w = is_regular_file q w.
Proof. unfold is_regular_file. by intros ->. Qed.

(** Mapping the log of [d] to look at its state. *)
Definition log_mapped (d : dep) w : world M :=
  tick (mapped (room (S (w_calls w))) (file_size_of (dep_log d w) w) MAP_SHARED (dep_log d w) 0 (tick w)).

Lemma log_mapped_spec ds d w :
  d ∈ ds → maps_ok w → roomy w → is_regular_file (dep_log d w) w = true → log_fits w d →
  let w1 := log_mapped d w in
  stays ds w w1
  ∧ state_word (view (w_pm w1)) (room (S (w_calls w))) = loadN 8 (file_byte (dep_log d w) w) 0.
Proof.
  intros Hin Hok Hr Hreg Hfit w1. specialize (Hfit Hreg). unfold sizeof_layout in Hfit.
  assert (apart (room (S (w_calls w))) (file_size_of (dep_log d w) w) w) as Hap.
  { intros mp Hm. pose proof (Hr (S (w_calls w)) ltac:(lia) mp Hm). unfold rng_disj in *. lia. }
  split; [split|].
  - apply (mapped_ok _ _ _ _ _ w); [lia|done..].
  - by apply (mapped_same_files _ _ _ _ _ w).
  - intros mp. simpl. rewrite elem_of_cons. intros [->|?]; [right|by left].
    exists (S (w_calls w)), d. simpl. split_and!; try done; lia.
  - by eexists.
  - done.
  - simpl. lia.
  - unfold state_word, loadN. f_equal. apply read_bytes_shift. intros i Hi.
    change (w_pm w1) with (w_pm (mapped (room (S (w_calls w))) (file_size_of (dep_log d w) w)
      MAP_SHARED (dep_log d w) 0 w)).
    rewrite mapped_view. rng_cases; [|lia]. f_equal. lia.
Qed.

Lemma stays_unmapped ds a w w1 : stays ds w w1 → stays ds w (tick (unmapped a w1)).
Proof.
  intros [A1 A2 A3 A4 A5 A6]. split; try done.
  - by apply maps_ok_tick, unmapped_ok.
  - transitivity w1; [done|]. by apply same_files_tick, unmapped_same_files.
  - intros mp Hm. change (w_maps (tick ?x)) with (w_maps x) in Hm. apply unmapped_sub in Hm.
    destruct (A3 mp Hm) as [?|(n & d & Hn & ?)]; [by left|]. right. exists n, d.
    split; [simpl; lia|done].
  - simpl. lia.
Qed.

Lemma check_logs_cons (p t a : Z) (ls : list string) w :
  sane_ids p t a → w_log_loc w ≠ "" →
  check_logs k (dependency_line p t a :: ls) w
  = if is_regular_file (dep_log (p, t, a) w) w then
      let w1 := log_mapped (p, t, a) w in
      if state_word (view (w_pm w1)) (room (S (w_calls w))) =? state_val ACTIVE
      then Ret [dependency_line p t a] w1
      else check_logs k ls (tick (unmapped (room (S (w_calls w))) w1))
    else check_logs k ls w.
Proof.
  intros (Hp & Ht & Ha) Hl. destruct (parse_line p t a) as (Hs & _); [lia..|].
  cbn [check_logs]. rewrite Hs. unfold bind at 1, get at 1.
  rewrite (is_regular_resolve _ (dep_log (p, t, a) w) w) by by apply dep_log_lfname.
  destruct (is_regular_file (dep_log (p, t, a) w) w) eqn:Hreg; [|done].
  fold (log_name p t). unfold bind at 1. rewrite get_log_by_id_runs by done.
  cbv zeta. fold (log_mapped (p, t, a) w). unfold bind, get. cbn [fst].
  change (log_file p t w) with (dep_log (p, t, a) w). fold (log_mapped (p, t, a) w).
  destruct (_ =? state_val ACTIVE); [done|]. by rewrite unmap_runs.
Qed.

(** [needs_recovery] finds the first record whose log is ACTIVE. *)
Lemma check_logs_spec ds ds0 w :
  (∀ d, d ∈ ds → d ∈ ds0 ∧ dep_sane d ∧ log_fits w d) →
  w_log_loc w ≠ "" → maps_ok w → roomy w →
  ∃ w', check_logs k (dep_line <$> ds) w
        = Ret (match List.find (dep_active w) ds with Some d => [dep_line d] | None => [] end) w'
        ∧ stays ds0 w w'.
Proof.
  revert w. induction ds as [|d ds IH]; intros w Hds Hl Hok Hr.
  { exists w. split; [done|by apply stays_refl]. }
  destruct (Hds d) as (Hd0 & Hsane & Hfit); [set_solver|].
  destruct d as [[p t] a]. rewrite fmap_cons. cbn [dep_line]. rewrite check_logs_cons by done.
  unfold List.find. fold (List.find (dep_active w)). unfold dep_active at 1.
  destruct (is_regular_file (dep_log (p, t, a) w) w) eqn:Hreg; cbn [andb].
  2:{ apply IH; try done. intros d Hd. apply Hds. set_solver. }
  destruct (log_mapped_spec ds0 (p, t, a) w) as [Hst Hsw]; try done. cbv zeta. rewrite Hsw.
  destruct (_ =? state_val ACTIVE); [by eexists|].
  pose proof (stays_unmapped ds0 (room (S (w_calls w))) _ _ Hst) as Hst2.
  destruct (IH (tick (unmapped (room (S (w_calls w))) (log_mapped (p, t, a) w))))
    as (w' & Hrun & Hst').
  - intros d Hd. destruct (Hds d) as (? & ? & ?); [set_solver|]. split_and!; try done.
    by eapply stays_fits.
  - by rewrite (st_loc _ _ _ Hst2).
  - apply Hst2.
  - by eapply stays_roomy.
  - exists w'. split; [|by eapply stays_trans]. rewrite Hrun. do 2 f_equal.
    erewrite (find_ext (dep_active w)); [done|]. intros d. symmetry. by eapply stays_active.
Qed.

(** *** Opening a file *)

Definition dep_text (ds : list dep) : string :=
  String.concat "" ((λ l, l +:+ newline) <$> (dep_line <$> ds)).

Lemma str_app_chars (x : ascii) (a b : string) :
  x ∈ String.list_ascii_of_string (a +:+ b) →
  x ∈ String.list_ascii_of_string a ∨ x ∈ String.list_ascii_of_string b.
Proof. rewrite list_ascii_app. apply elem_of_app. Qed.

(** The dependency file splits into its records. *)
Lemma split_dep_text ds : Forall dep_sane ds → split (dep_text ds) newline = dep_line <$> ds.
Proof.
  intros Hds. apply split_lines. apply Forall_fmap. eapply Forall_impl; [exact Hds|].
  intros [[p t] a] (Hp & Ht & Ha). cbn [compose dep_line]. unfold dependency_line. split.
  - intros E. apply (f_equal String.list_ascii_of_string) in E. rewrite !list_ascii_app in E.
    simpl in E. by destruct (String.list_ascii_of_string (to_string p)).
  - intros Hin. repeat apply str_app_chars in Hin as [Hin|Hin];
      try (eapply to_string_plain; [| |exact Hin]; [lia|done]).
    all: apply list_elem_of_singleton in Hin; done.
Qed.

(** The entries [us] are in the log of [d], on file. *)
Record dep_holds (d : dep) (us : list undo) w : Prop := {
  dh_there : is_regular_file (dep_log d w) w = true;
  dh_size : sizeof_layout + total us ≤ file_size_of (dep_log d w) w ≤ L;
  dh_off : log_offset (file_byte (dep_log d w) w) 0 = total us;
  dh_enc : encodes (file_byte (dep_log d w) w) sizeof_layout us;
  dh_disj u n : u ∈ us → rng_disj (u_addr u) (blen (u_data u)) (room n) L;
}.

Lemma dep_holds_at (p t a : Z) us w n :
  L < 2 ^ 64 → dep_holds (p, t, a) us w → log_on_file p t (room n) us w.
Proof.
  intros HL [Hth Hsz Hoff Henc Hdis]. unfold sizeof_layout in *. split; try done. split.
  - rewrite <-Hoff. unfold log_offset, loadN. f_equal. apply read_bytes_shift.
    intros i _. f_equal. lia.
  - apply (encodes_shift _ _ (room n)) in Henc. unfold content, sizeof_layout.
    by rewrite Z.add_comm.
  - lia.
  - intros u Hu. specialize (Hdis u n Hu). unfold off_log, rng_disj, content, sizeof_layout in *. lia.
Qed.

Lemma stays_holds ds d us w w' : stays ds w w' → dep_holds d us w → dep_holds d us w'.
Proof.
  intros Hs [Hth Hsz Hoff Henc Hdis]. pose proof (st_files _ _ _ Hs) as Hf.
  split; rewrite ?(dep_log_loc d w w') by apply Hs; try done.
  - by rewrite (same_files_regular w w').
  - by rewrite (same_files_size w w').
  - rewrite <-Hoff. apply loadN_ext. intros. by apply same_files_byte.
  - eapply encodes_ext; [|exact Henc]. intros. symmetry. by apply same_files_byte.
Qed.

(** A file as a process finds it: its dependency records [ds], the logs they
    name with entries [us], and the backing file when a log is ACTIVE. *)
Record closed_file (f : PmemFile) (ds : list dep) (us : list undo) w : Prop := {
  cf_path : path f ≠ "";
  cf_len : 0 < len f;
  cf_ok : maps_ok w;
  cf_roomy : roomy w;
  cf_loc : w_log_loc w ≠ "";
  cf_deps : if is_regular_file (get_dependency_fname f) w
            then file_text (get_dependency_fname f) w = dep_text ds else ds = [];
  cf_dep d : d ∈ ds → dep_sane d ∧ log_fits w d
    ∧ resolve (dep_log d w) ≠ resolve (get_backing_fname f);
  cf_unshown : unshown (resolve (get_backing_fname f)) w;
  cf_active d : List.find (dep_active w) ds = Some d →
    is_regular_file (get_backing_fname f) w = true ∧ dep_holds d us w
    ∧ Forall (undo_inside (snd d) (len f)) (List.filter (in_file (snd d) (len f)) us)
    ∧ apart (snd d) (len f) w ∧ ∀ n, rng_disj (room n) L (snd d) (len f);
}.

(** The entries that are undone, and the address their file was mapped at. *)
Definition to_undo (f : PmemFile) (ds : list dep) (us : list undo) w : Z * list undo :=
  match List.find (dep_active w) ds with
  | Some d => (snd d, List.filter (in_file (snd d) (len f)) us)
  | None => (0, [])
  end.

(** The world after opening: only the backing file has changed. *)
Record reopened (f : PmemFile) (ds : list dep) (us : list undo) w w' : Prop := {
  ro_ok : maps_ok w';
  ro_maps mp : mp ∈ w_maps w' → mp ∈ w_maps w ∨
    ∃ n d, (w_calls w ≤ n < w_calls w')%nat ∧ d ∈ ds ∧ mp_addr mp = room n ∧ mp_len mp ≤ L
           ∧ mp_path mp = resolve (dep_log d w);
  ro_sys : ∃ m, w_sys w' = put_pm m (w_sys w);
  ro_loc : w_log_loc w' = w_log_loc w;
  ro_calls : (w_calls w ≤ w_calls w')%nat;
  ro_size key : f_size <$> w_files w' !! key = f_size <$> w_files w !! key;
  ro_other key x : key ≠ resolve (get_backing_fname f) → byte_at key w' x = byte_at key w x;
  ro_backing x : 0 ≤ x < file_size_of (get_backing_fname f) w →
    file_byte (get_backing_fname f) w' x
    = let '(a, fs) := to_undo f ds us w in
      if in_rng 0 (len f) x
      then default (file_byte (get_backing_fname f) w x) (first_value fs (a + x))
      else file_byte (get_backing_fname f) w x;
}.

Lemma needs_recovery_spec f ds us w :
  closed_file f ds us w →
  ∃ w', needs_recovery k f w
        = Ret (match List.find (dep_active w) ds with Some d => [dep_line d] | None => [] end) w'
        ∧ stays ds w w'.
Proof.
  intros [Hp Hlen Hok Hroom Hloc Hdeps Hdep Hun Hact]. unfold needs_recovery, bind, get.
  destruct (is_regular_file (get_dependency_fname f) w) eqn:E.
  - rewrite Hdeps, split_dep_text.
    2:{ apply Forall_forall. intros d Hd. by apply Hdep. }
    apply check_logs_spec; try done. intros d Hd. destruct (Hdep d Hd) as (? & ? & ?). done.
  - subst ds. exists w. split; [done|by apply stays_refl].
Qed.

Lemma stays_apart ds w w' a n :
  stays ds w w' → apart a n w → (∀ i, rng_disj (room i) L a n) → apart a n w'.
Proof.
  intros Hs Ha Hr mp Hm. destruct (st_maps _ _ _ Hs mp Hm) as [|(i & d & _ & _ & Hi & Hl & _)].
  - by apply Ha.
  - rewrite Hi. specialize (Hr i). unfold rng_disj in *. lia.
Qed.

Lemma stays_unshown ds w w' key :
  stays ds w w' → unshown key w → (∀ d, d ∈ ds → resolve (dep_log d w) ≠ key) → unshown key w'.
Proof.
  intros Hs Hu Hd mp x Hm. destruct (st_maps _ _ _ Hs mp Hm) as [|(i & d & _ & Hin & _ & _ & Hp)].
  - by apply Hu.
  - unfold shows. rewrite bool_decide_false; [by rewrite andb_false_r|].
    rewrite Hp. by apply Hd.
Qed.

Lemma new_PmemFile_spec f ds us w :
  L < 2 ^ 64 → closed_file f ds us w →
  ∃ w', new_PmemFile k (path f) (addr f) (len f) w = Ret f w' ∧ reopened f ds us w w'.
Proof.
  intros HL Hcf. destruct (needs_recovery_spec f ds us w Hcf) as (w1 & Hrun & Hst).
  destruct Hcf as [Hp Hlen Hok Hroom Hloc Hdeps Hdep Hun Hact].
  unfold new_PmemFile. rewrite bool_decide_false by done.
  replace (mkPmemFile (path f) (addr f) (len f)) with f by by destruct f.
  unfold bind at 1. rewrite Hrun. destruct (List.find (dep_active w) ds) as [[[p t] a]|] eqn:Ef.
  2:{ rewrite bool_decide_true by done. exists w1. split; [done|]. destruct Hst as [A1 A2 A3 A4 A5 A6].
    split; try done; unfold to_undo; rewrite ?Ef.
    - intros key. apply A2. - intros key x _. apply A2.
    - intros x Hx. destruct (in_rng 0 (len f) x); apply A2. }
  rewrite bool_decide_false by done. destruct (Hact _ eq_refl) as (Hreg & Hh & Hin & Hap & Hrd).
  apply find_some in Ef as Hdin. destruct Hdin as [Hdin%list_elem_of_In _].
  destruct (Hdep _ Hdin) as (Hsane & _ & Hne).
  destruct (recover_one_spec f p t a us w1) as (w2 & Hrun2 & Hrc & _); try done.
  - apply Hst.
  - eapply stays_unshown; [done..|]. intros d Hd. by apply Hdep.
  - change (log_file p t w1) with (dep_log (p, t, a) w1).
    by rewrite (dep_log_loc _ w w1) by apply Hst.
  - by rewrite (same_files_regular w w1) by apply Hst.
  - apply (dep_holds_at p t a); [done|]. by eapply stays_holds.
  - eapply stays_roomy; [done..|lia].
  - by eapply stays_apart.
  - exists w2. split.
    + unfold bind, when, recover, for_each. cbn [dep_line negb]. unfold bind. by rewrite Hrun2.
    + destruct Hst as [A1 A2 A3 [m1 A4] A5 A6], Hrc as [B1 B2 [m2 B3] B4 B5 B6 B7 B8].
      split; try done; unfold to_undo; rewrite ?Ef.
      * intros mp Hm. destruct (A3 mp (B2 mp Hm)) as [?|(n & d & Hn & ?)]; [by left|].
        right. exists n, d. split; [lia|done].
      * exists m2. by rewrite B3, A4, put_pm_twice.
      * congruence.
      * lia.
      * intros key. rewrite B6. apply A2.
      * intros key x Hk'. rewrite B7 by done. apply A2.
      * intros x Hx. rewrite B8 by by rewrite (same_files_size w w1).
        rewrite !(same_files_byte w w1) by done. done.
Qed.
End RecoverSpec.
