(* ===== verification/Mapping.v ===== *)
(** * The mmap wrapper on a device file

    What a program sees after mmap of a file on /mnt/pmem0: the file is
    recovered when its last process died inside a snapshot, its backing file is
    created or copied back, the backing file is mapped 2^40 bytes above the page
    cache, and the page cache holds the contents of the backing file.  The
    operations are those of [PmemFile]. *)

From stdpp Require Import base list sets strings gmap.
From Stdlib Require Import ZArith Lia Ascii.
From S2P Require Import Prelude Memory PMem Text Log Recovery Snapshot Wrappers PmemFile.

Section Stages.
Context {M : Type} `{PMemLaws M} `{NvslLaws}.
Context (k : kernel) (room : nat → Z) (L : Z) (Hk : obliging k room L).
Context (cfg : config).
Implicit Types (w : world M) (f : PmemFile) (key p : string).

(** What the backing file holds, or will be created with. *)
Definition contents f w (x : Z) : Z :=
  if has_backing_file f w then file_byte (get_backing_fname f) w x else file_byte (path f) w x.

(** A file on the device, not mapped by this process. *)
Record device_file f w : Prop := {
  df_there : is_regular_file (path f) w = true;
  df_size : 0 < file_size_of (path f) w;
  df_unshown : unshown (resolve (path f)) w;
  df_back : unshown (resolve (get_backing_fname f)) w;
  df_keys : resolve (path f) ≠ resolve (get_backing_fname f);
  df_deps : resolve (get_dependency_fname f) ≠ resolve (path f)
            ∧ resolve (get_dependency_fname f) ≠ resolve (get_backing_fname f);
  df_whole : has_backing_file f w = true → len f ≤ file_size_of (get_backing_fname f) w;
}.

Lemma create_backing_file_spec f w :
  device_file f w → maps_ok w → 0 < len f →
  ∃ w', create_backing_file k f w = Ret tt w'
    ∧ maps_ok w' ∧ w_maps w' = w_maps w ∧ w_sys w' = w_sys w ∧ w_log_loc w' = w_log_loc w
    ∧ is_regular_file (get_backing_fname f) w' = true ∧ is_regular_file (path f) w' = true
    ∧ (∀ key, key ≠ resolve (path f) → key ≠ resolve (get_backing_fname f) →
         w_files w' !! key = w_files w !! key)
    ∧ ∀ x, 0 ≤ x < len f → file_byte (path f) w' x = contents f w x
                         ∧ file_byte (get_backing_fname f) w' x = contents f w x.
Proof.
  intros [Hth Hsz Hun Hub Hne [Hd1 Hd2] Hwh] Hok Hlen. unfold create_backing_file, bind at 1, get.
  unfold contents. destruct (has_backing_file f w) eqn:Hb; cbn [negb].
  - unfold bind at 1. rewrite (sys_open_runs k room L Hk) by done. cbn [negb].
    unfold bind at 1. rewrite (sys_open_runs k room L Hk) by done. cbn [negb].
    unfold bind, modify. rewrite (ob_send _ _ _ Hk).
    destruct (len f =? -1) eqn:El; [lia|]. eexists. split; [reflexivity|].
    specialize (Hwh eq_refl). set (w2 := tick (tick (tick w))).
    assert (∀ key x, byte_at key (send_bytes (path f) (get_backing_fname f) (len f) w2) x
      = if decide (key = resolve (path f))
        then if in_rng 0 (Z.max (file_size_of (path f) w) (len f)) x
             then if in_rng 0 (len f) x then file_byte (get_backing_fname f) w x
                  else file_byte (path f) w x else 0
        else byte_at key w x) as Hb'.
    { intros key x. unfold send_bytes. change (file_size_of ?p w2) with (file_size_of p w).
      rewrite Z.min_l by done.
      rewrite (write_file_byte_at (path f) _ w2) by done. done. }
    split_and!; try done.
    + by apply (write_file_ok _ _ w2).
    + unfold is_regular_file, send_bytes, write_file. simpl. apply bool_decide_eq_true.
      destruct (decide (resolve (get_backing_fname f) = resolve (path f))); [congruence|].
      rewrite lookup_insert_ne by congruence. by apply bool_decide_eq_true in Hb.
    + apply bool_decide_eq_true. simpl. rewrite lookup_insert_eq. eauto.
    + intros key Hk1 Hk2. simpl. by rewrite lookup_insert_ne.
    + intros x Hx. unfold file_byte at 1 3. rewrite !Hb'. rewrite decide_True by done.
      rewrite decide_False by congruence. split; [|done]. rng.
  - unfold create_backing_file_internal, bind, get, modify. rewrite Hth. cbn [negb].
    destruct (file_size_of (path f) w =? 0) eqn:E0; [lia|]. rewrite (ob_copy _ _ _ Hk).
    eexists. split; [reflexivity|].
    assert (∀ key x, byte_at key (write_file (get_backing_fname f)
        (mkFile (file_size_of (path f) w) (file_byte (path f) w)) w) x
      = if decide (key = resolve (get_backing_fname f))
        then if in_rng 0 (file_size_of (path f) w) x then file_byte (path f) w x else 0
        else byte_at key w x) as Hb'.
    { intros key x. by rewrite write_file_byte_at. }
    split_and!; try done.
    + by apply (write_file_ok _ _ w).
    + apply bool_decide_eq_true. simpl. rewrite lookup_insert_eq. eauto.
    + apply bool_decide_eq_true. simpl. rewrite lookup_insert_ne by congruence.
      by apply bool_decide_eq_true in Hth.
    + intros key Hk1 Hk2. simpl. by rewrite lookup_insert_ne.
    + intros x Hx. split.
      * etransitivity; [apply (Hb' (resolve (path f)))|]. by rewrite decide_False.
      * etransitivity; [apply (Hb' (resolve (get_backing_fname f)))|]. rewrite decide_True by done.
        unfold file_byte, byte_at, file_size_of.
        destruct (w_files w !! resolve (path f)) as [fl|]; [|by destruct (in_rng _ _ _)].
        by destruct (in_rng 0 (f_size fl) x).
Qed.

(** The file system of a path. *)
Record on_pmem (p : string) : Prop := {
  op_pmem : is_prefix "/mnt/pmem0/" p = true;
  op_cxl : is_prefix "/mnt/cxl0" p = false;
  op_mss : is_prefix "/mnt/mss0" p = false;
}.

(** A path that starts with the mount point of the device. *)
Lemma on_pmem_path p : on_pmem ("/mnt/pmem0/" +:+ p).
Proof. split; rewrite is_prefix_spec; reflexivity || (destruct p; reflexivity). Qed.

(** Where the backing file of [f] goes. *)
Definition back_at f : Z := wrap64 (addr f + 0x10000000000).

Lemma map_backing_file_spec i f w :
  let B := back_at f in
  maps_ok w → is_regular_file (get_backing_fname f) w = true →
  unshown (resolve (get_backing_fname f)) w → on_pmem (get_backing_fname f) →
  B ≠ 0 → apart B (len f) w → 0 < len f →
  ∃ w', map_backing_file k cfg i f w = Ret tt w'
    ∧ maps_ok w' ∧ w_files w' = w_files w ∧ w_log_loc w' = w_log_loc w
    ∧ (∃ m, w_sys w' = put_pm m (put_backing_start 0x20000000000 (w_sys w)))
    ∧ (∀ mp, mp ∈ w_maps w' → mp ∈ w_maps w
         ∨ (mp_addr mp = B ∧ mp_len mp = len f ∧ mp_path mp = resolve (get_backing_fname f)))
    ∧ (∀ key x, key ≠ resolve (get_backing_fname f) → byte_at key w' x = byte_at key w x)
    ∧ (∀ x, view (w_pm w') x = if x =? B then 1
                               else if in_rng B (len f) x
                               then file_byte (get_backing_fname f) w (x - B) else view (w_pm w) x).
Proof.
  intros B Hok Hreg Hun [Hp1 Hp2 Hp3] HB Hap Hlen. unfold map_backing_file. fold (back_at f). fold B.
  unfold bind at 1. rewrite (sys_open_runs k room L Hk) by done. cbn [negb]. rewrite Hp1, Hp2, Hp3.
  cbn [orb]. unfold bind at 1, bind at 1, modify at 1.
  rewrite (real_mmap_hint k room L Hk) by done. unfold bind, get, modify.
  rewrite (ob_madvise _ _ _ Hk). cbn [negb]. eexists. split; [reflexivity|].
  set (w1 := tick (put_sys (put_backing_start 0x20000000000 (w_sys w)) w)).
  set (w2 := mapped B (len f) (Z.lor MAP_SHARED_VALIDATE MAP_SYNC) (get_backing_fname f) 0 w1).
  assert (maps_ok w2) as Hok2 by by (unfold w2; apply mapped_ok).
  destruct (put_pm_window w2 (store B [1] (w_pm w2))
    (mkMapping B (len f) (resolve (get_backing_fname f)) true 0) (w_maps w)
    (resolve (get_backing_fname f)) eq_refl eq_refl eq_refl) as (Hok4 & Hoth & Hbk); try done.
  { intros x Hx. simpl in Hx. rewrite view_store. unfold write_bytes. change (blen [1]) with 1. rng. }
  split_and!; try done.
  - by eexists.
  - simpl. intros mp. rewrite elem_of_cons. intros [->|?]; [by right|by left].
  - intros key x Hx. etransitivity; [by apply Hoth|]. by apply (mapped_byte_at _ _ _ _ _ w1).
  - intros x. etransitivity; [apply view_store|]. unfold write_bytes. change (blen [1]) with 1.
    destruct (x =? B) eqn:E.
    + replace x with B by lia. rewrite Z.sub_diag. rng.
    + destruct (in_rng B 1 x) eqn:E1; [apply in_rng_spec in E1; lia|].
      transitivity (view (w_pm w2) x); [reflexivity|]. unfold w2. rewrite mapped_view.
      by rewrite Z.add_0_l.
Qed.

(** ** Dependency records *)

Definition text_of (bs : list Z) : string :=
  String.string_of_list_ascii ((λ b, ascii_of_N (Z.to_N b)) <$> bs).

Lemma text_of_text_bytes t : text_of (text_bytes t) = t.
Proof.
  unfold text_of, text_bytes. rewrite <-list_fmap_compose.
  rewrite <-(String.string_of_list_ascii_of_string t) at 2. f_equal.
  induction (String.list_ascii_of_string t) as [|c cs IH]; [done|]. cbn [fmap list_fmap].
  rewrite IH. unfold compose. by rewrite N2Z.id, ascii_N_embedding.
Qed.

Lemma string_of_app a b :
  String.string_of_list_ascii (a ++ b)
  = String.string_of_list_ascii a +:+ String.string_of_list_ascii b.
Proof.
  induction a as [|c a IH]; [done|].
  change (String.String c (String.string_of_list_ascii (a ++ b))
          = String.String c (String.string_of_list_ascii a +:+ String.string_of_list_ascii b)).
  by rewrite IH.
Qed.

(** The text of a file after an append. *)
Lemma append_file_text p bs w :
  unshown (resolve p) w → 0 ≤ file_size_of p w →
  file_text p (append_file p bs w) = file_text p w +:+ text_of bs.
Proof.
  intros Hun Hsz. unfold file_text at 1, append_file.
  assert (file_size_of p (write_file p (mkFile (file_size_of p w + blen bs)
    (write_bytes (file_byte p w) (file_size_of p w) bs)) w) = file_size_of p w + blen bs) as ->.
  { unfold file_size_of at 1, write_file. simpl. by rewrite lookup_insert_eq. }
  pose proof (blen_nonneg bs). unfold blen in *.
  replace (Z.to_nat (file_size_of p w + Z.of_nat (length bs)))
    with (Z.to_nat (file_size_of p w) + length bs)%nat by lia.
  rewrite read_bytes_app, fmap_app, string_of_app. rewrite Z2Nat.id by done. f_equal.
  - unfold file_text. do 2 f_equal. apply read_bytes_ext. intros x Hx.
    unfold file_byte at 1. rewrite write_file_byte_at by done. rewrite decide_True by done. simpl.
    unfold write_bytes, blen. rng.
  - unfold text_of. do 2 f_equal. rewrite Z.add_0_l.
    etransitivity; [|apply (read_write_same (file_byte p w) (file_size_of p w) bs)].
    apply read_bytes_ext. intros x Hx.
    unfold file_byte at 1. rewrite write_file_byte_at by done. rewrite decide_True by done. simpl. rng.
Qed.

Lemma write_dependency_spec f w :
  path f ≠ "" → unshown (resolve (get_dependency_fname f)) w → maps_ok w →
  0 ≤ file_size_of (get_dependency_fname f) w →
  ∃ w', write_dependency k f w = Ret tt w'
    ∧ maps_ok w' ∧ w_sys w' = w_sys w ∧ w_maps w' = w_maps w ∧ w_log_loc w' = w_log_loc w
    ∧ (∀ key, key ≠ resolve (get_dependency_fname f) → w_files w' !! key = w_files w !! key)
    ∧ is_regular_file (get_dependency_fname f) w' = true
    ∧ file_text (get_dependency_fname f) w'
      = file_text (get_dependency_fname f) w +:+ dependency_entry k f.
Proof.
  intros Hp Hun Hok Hsz. unfold write_dependency. rewrite bool_decide_false.
  2:{ unfold get_dependency_fname. intros E. apply (f_equal String.list_ascii_of_string) in E.
      rewrite list_ascii_app in E. apply (f_equal length) in E. rewrite length_app in E.
      apply Hp. destruct (path f) as [|c q]; [done|]. simpl in E. lia. }
  unfold when, write_dependency_internal. cbn [negb]. unfold bind at 1, sys_open.
  rewrite (ob_open _ _ _ Hk). cbn [andb orb negb].
  set (df := get_dependency_fname f) in *.
  set (w1 := if is_regular_file df w then w else write_file df (mkFile 0 (λ _, 0)) w).
  assert (maps_ok w1 ∧ w_sys w1 = w_sys w ∧ w_maps w1 = w_maps w ∧ w_log_loc w1 = w_log_loc w
    ∧ (∀ key, key ≠ resolve df → w_files w1 !! key = w_files w !! key)
    ∧ file_text df w1 = file_text df w ∧ 0 ≤ file_size_of df w1) as (A1 & A2 & A3 & A4 & A5 & A6 & A7).
  { unfold w1. destruct (is_regular_file df w) eqn:E; [by split_and!|].
    apply bool_decide_eq_false, eq_None_not_Some in E.
    split_and!; try done.
    - by apply write_file_ok.
    - intros key Hne. simpl. by rewrite lookup_insert_ne.
    - unfold file_text, file_size_of. simpl. rewrite lookup_insert_eq, E. done.
    - unfold file_size_of. simpl. by rewrite lookup_insert_eq. }
  unfold bind, get, modify. rewrite (ob_write _ _ _ Hk), Z.eqb_refl.
  unfold blen at 1. rewrite Nat2Z.id, firstn_all.
  eexists. split; [reflexivity|].
  assert (unshown (resolve df) w1) as Hun1 by (intros mp x; rewrite A3; apply Hun).
  split_and!; try done.
  - by apply (write_file_ok df _ (tick w1)).
  - intros key Hne. simpl. rewrite lookup_insert_ne by done. by apply A5.
  - apply bool_decide_eq_true. simpl. rewrite lookup_insert_eq. eauto.
  - rewrite <-A6. etransitivity; [by apply (append_file_text df _ (tick w1))|].
    by rewrite text_of_text_bytes.
Qed.

(** ** The page cache *)

Lemma advise_runs mode w :
  ∃ w', advise k mode w = Ret tt w' ∧ w_sys w' = w_sys w ∧ w_files w' = w_files w
        ∧ w_maps w' = w_maps w ∧ w_log_loc w' = w_log_loc w.
Proof.
  unfold advise, bind, get, modify.
  destruct mode, (get_env_val "CXLBUF_USE_HUGEPAGE"); simpl;
    repeat (rewrite (ob_madvise _ _ _ Hk); simpl); by eexists.
Qed.

Lemma byte_at_fields key w w' x :
  w_sys w' = w_sys w → w_files w' = w_files w → w_maps w' = w_maps w →
  byte_at key w' x = byte_at key w x.
Proof. unfold byte_at, w_pm. by intros -> -> ->. Qed.

Lemma map_to_page_cache_spec f flags fd w :
  let A := addr f in
  let g := s_g (w_sys w) in
  let dep := get_dependency_fname f in
  cxlModeEnabled g = true → fd ≠ -1 → fd_to_fname fd = path f → path f ≠ "" →
  on_pmem (path f) → A ≠ 0 → addr_in_range g A = true → 0 < len f → apart A (len f) w →
  maps_ok w → unshown (resolve dep) w → resolve dep ≠ resolve (path f) → 0 ≤ file_size_of dep w →
  ∃ w' m, map_to_page_cache k f flags fd 0 w = Ret (Some A) w'
    ∧ w_sys w' = put_pm m (insert_or_assign fd
         (mkFdMeta fd (mkRange A (wrap64 (A + len f))) (path f)) (w_sys w))
    ∧ (∀ x, view m x = if in_rng A (len f) x then file_byte (path f) w (x - A)
                       else view (w_pm w) x)
    ∧ maps_ok w'
    ∧ is_regular_file dep w' = true ∧ file_text dep w' = file_text dep w +:+ dependency_entry k f.
Proof.
  intros A g dep Hmode Hfd Hname Hp [Hp1 Hp2 Hp3] HA Hrange Hlen Hap Hok Hun Hne Hsz.
  unfold map_to_page_cache, bind at 1, get. fold g. rewrite Hmode, Hname, Hp1.
  rewrite bool_decide_false by done. cbn [andb negb].
  rewrite (proj2 (Z.eqb_neq fd (-1))) by done.
  unfold bind at 1. fold A. rewrite (real_mmap_hint k room L Hk) by done.
  set (fl := page_cache_flags flags A true).
  set (w1 := tick (mapped A (len f) fl (path f) 0 w)).
  assert (maps_ok w1) as Hok1 by by apply (mapped_ok _ _ _ _ _ w).
  assert (same_files w w1) as Hs1 by by apply (mapped_same_files _ _ _ _ _ w).
  assert (unshown (resolve dep) w1) as Hun1.
  { apply (unshown_mapped _ _ _ _ _ _ w); [left; congruence|done]. }
  unfold when. cbn [negb]. unfold bind at 1. unfold bind at 1, modify at 1. rewrite Hrange. cbn [negb andb].
  set (w2 := put_sys _ w1).
  destruct (advise_runs true w2) as (w3 & -> & Hy3 & Hf3 & Hm3 & Hl3).
  assert (maps_ok w3) as Hok3.
  { destruct Hok1 as [Hd Hc]. split.
    - rewrite Hm3. exact Hd.
    - intros mp key x fl' Hin Hs Hf' Hx. rewrite (byte_at_fields key w2 w3) by done.
      rewrite Hm3 in Hin. rewrite Hf3 in Hf'. unfold w_pm. rewrite Hy3.
      by apply (Hc mp key x fl'). }
  assert (file_size_of dep w3 = file_size_of dep w) as Hsz3.
  { unfold file_size_of. by rewrite Hf3. }
  assert (file_text dep w3 = file_text dep w) as Htx.
  { unfold file_text. rewrite Hsz3. do 2 f_equal. apply read_bytes_ext. intros x _.
    unfold file_byte. rewrite (byte_at_fields _ w2 w3) by done. apply Hs1. }
  destruct (write_dependency_spec f w3) as (w4 & Hrun & B1 & B2 & B3 & B4 & B5 & B6 & B7); try done.
  { intros mp x Hin. rewrite Hm3 in Hin. by apply Hun1. }
  { fold dep. lia. }
  exists w4, (w_pm w1). unfold bind. rewrite Hrun. split_and!; try done.
  - by rewrite B2, Hy3.
  - intros x. etransitivity; [apply (mapped_view A (len f) fl (path f) 0 w)|]. by rewrite Z.add_0_l.
  - by rewrite <-Htx.
Qed.

(** ** The wrapper *)

(** What the program is to see: the backing file with the entries of the ACTIVE
    log undone, or the file itself when it has no backing file yet. *)
Definition restored f (ds : list dep) (us : list undo) w (x : Z) : Z :=
  if has_backing_file f w then
    let '(a, fs) := to_undo f ds us w in
    default (file_byte (get_backing_fname f) w x) (first_value fs (a + x))
  else file_byte (path f) w x.

(** The address space the file is to be mapped into. *)
Record free_space (A n : Z) w : Prop := {
  fr_pos : 0 < A ∧ A + 0x10000000000 + n < 2 ^ 64 ∧ n ≤ 0x10000000000;
  fr_cache : apart A n w;
  fr_back : apart (A + 0x10000000000) n w;
  fr_room i : rng_disj (room i) L A n ∧ rng_disj (room i) L (A + 0x10000000000) n;
}.

(** Files the records do not name. *)
Record own_files f (ds : list dep) w : Prop := {
  of_logs d : d ∈ ds → resolve (dep_log d w) ≠ resolve (path f)
                       ∧ resolve (dep_log d w) ≠ resolve (get_dependency_fname f);
  of_deps : unshown (resolve (get_dependency_fname f)) w;
  of_size : 0 ≤ file_size_of (get_dependency_fname f) w;
}.

Lemma reopened_unshown f ds us w w' key :
  reopened room L f ds us w w' → unshown key w → (∀ d, d ∈ ds → resolve (dep_log d w) ≠ key) →
  unshown key w'.
Proof.
  intros Hs Hu Hd mp x Hm.
  destruct (ro_maps _ _ _ _ _ _ _ Hs mp Hm) as [|(i & d & _ & Hin & _ & _ & Hp)]; [by apply Hu|].
  unfold shows. rewrite bool_decide_false; [by rewrite andb_false_r|]. rewrite Hp. by apply Hd.
Qed.

Lemma reopened_apart f ds us w w' a n :
  reopened room L f ds us w w' → apart a n w → (∀ i, rng_disj (room i) L a n) → apart a n w'.
Proof.
  intros Hs Ha Hr mp Hm.
  destruct (ro_maps _ _ _ _ _ _ _ Hs mp Hm) as [|(i & d & _ & _ & Hi & Hl & _)]; [by apply Ha|].
  rewrite Hi. specialize (Hr i). unfold rng_disj in *. lia.
Qed.

Lemma size_fmap_regular w w' p :
  f_size <$> w_files w' !! resolve p = f_size <$> w_files w !! resolve p →
  is_regular_file p w' = is_regular_file p w ∧ file_size_of p w' = file_size_of p w.
Proof.
  unfold is_regular_file, file_size_of.
  destruct (w_files w' !! resolve p), (w_files w !! resolve p); simpl; intros; by simplify_eq.
Qed.

Lemma reopened_device f ds us w w1 :
  reopened room L f ds us w w1 → closed_file room L f ds us w → device_file f w →
  own_files f ds w →
  device_file f w1 ∧ (∀ x, 0 ≤ x < len f → contents f w1 x = restored f ds us w x).
Proof.
  intros Hro Hcf [D1 D2 D3 D4 D5 D6 D7] [O1 O2 O3].
  destruct (size_fmap_regular w w1 (path f) (ro_size _ _ _ _ _ _ _ Hro _)) as [R1 S1].
  destruct (size_fmap_regular w w1 (get_backing_fname f) (ro_size _ _ _ _ _ _ _ Hro _)) as [R2 S2].
  split; [split; try done|].
  - by rewrite R1.
  - by rewrite S1.
  - eapply reopened_unshown; [done..|]. intros d Hd. by apply O1.
  - eapply reopened_unshown; [done..|]. intros d Hd. by apply (cf_dep _ _ _ _ _ _ Hcf).
  - unfold has_backing_file. by rewrite R2, S2.
  - intros x Hx. unfold contents, restored, has_backing_file in *. rewrite R2.
    destruct (is_regular_file (get_backing_fname f) w) eqn:E.
    + specialize (D7 eq_refl). rewrite (ro_backing _ _ _ _ _ _ _ Hro) by lia.
      destruct (to_undo f ds us w). by rewrite (proj2 (in_rng_spec 0 (len f) x)).
    + apply (ro_other _ _ _ _ _ _ _ Hro). done.
Qed.

(** The three steps after the file is open, for a file that is to go to [addr f]. *)
Lemma map_device_file i f flags fd w :
  let A := addr f in
  let B := A + 0x10000000000 in
  let g := s_g (w_sys w) in
  let dep := get_dependency_fname f in
  device_file f w → maps_ok w → free_space A (len f) w → 0 < len f → path f ≠ "" →
  on_pmem (path f) → on_pmem (get_backing_fname f) → fd ≠ -1 → fd_to_fname fd = path f →
  cxlModeEnabled g = true → addr_in_range g A = true →
  unshown (resolve dep) w → 0 ≤ file_size_of dep w →
  ∃ w', (do! create_backing_file k f in do! map_backing_file k cfg i f in
         map_to_page_cache k f flags fd 0) w = Ret (Some A) w'
    ∧ (∀ x, 0 ≤ x < len f → view (w_pm w') (A + x) = contents f w x
                            ∧ view (w_pm w') (B + x) = if x =? 0 then 1 else contents f w x)
    ∧ (∃ m, w_sys w' = put_pm m (insert_or_assign fd
         (mkFdMeta fd (mkRange A (A + len f)) (path f))
         (put_backing_start 0x20000000000 (w_sys w))))
    ∧ file_text dep w' = file_text dep w +:+ dependency_entry k f.
Proof.
  intros A B g dep Hdf Hok [Hpos Hfc Hfb Hroom] Hlen Hp Hop Hopb Hfd Hname Hmode Hrange Hun Hsz.
  assert (back_at f = B) as HB by (apply wrap_small; unfold B, A; lia).
  destruct (create_backing_file_spec f w Hdf Hok Hlen)
    as (w2 & Hrun2 & Hok2 & Hm2 & Hy2 & Hl2 & Hr2 & Hrp2 & Hf2 & Hc2).
  destruct Hdf as [D1 D2 D3 D4 D5 D6 D7].
  destruct (map_backing_file_spec i f w2) as (w3 & Hrun3 & Hok3 & Hf3 & Hl3 & [m3 Hy3] & Hm3 & Ho3 & Hv3);
    try done.
  { intros mp x. rewrite Hm2. apply D4. }
  { rewrite HB. unfold B, A. lia. }
  { rewrite HB. intros mp. rewrite Hm2. apply Hfb. }
  rewrite HB in *.
  assert (∀ x, file_byte dep w3 x = file_byte dep w x) as Hbd.
  { intros x. unfold file_byte. rewrite Ho3 by apply D6. unfold byte_at, w_pm.
    rewrite Hf2 by apply D6. by rewrite Hy2, Hm2. }
  assert (w_files w3 !! resolve dep = w_files w !! resolve dep) as Hfd3.
  { rewrite Hf3. apply Hf2; apply D6. }
  destruct (map_to_page_cache_spec f flags fd w3) as (w4 & m & Hrun4 & Hy4 & Hv4 & _ & _ & Ht4);
    rewrite ?Hy3 in *; try (rewrite ?Hy2; done).
  { fold A. lia. }
  { intros mp Hin. destruct (Hm3 mp Hin) as [Hin'|(-> & -> & _)].
    - rewrite Hm2 in Hin'. by apply Hfc.
    - unfold rng_disj. fold A. lia. }
  { intros mp x Hin. destruct (Hm3 mp Hin) as [Hin'|(_ & _ & Hpt)].
    - rewrite Hm2 in Hin'. by apply Hun.
    - unfold shows. rewrite bool_decide_false; [by rewrite andb_false_r|].
      rewrite Hpt. apply not_eq_sym. apply D6. }
  { apply D6. }
  { fold dep. unfold file_size_of. rewrite Hfd3. exact Hsz. }
  exists w4. unfold bind. rewrite Hrun2, Hrun3, Hrun4. split; [done|]. split_and!.
  - intros x Hx. unfold w_pm. rewrite Hy4. change (s_pm (put_pm m ?y)) with m.
    rewrite !Hv4. fold A. rewrite (proj2 (in_rng_spec A (len f) (A + x))) by lia.
    rewrite (proj2 (in_rng_false A (len f) (B + x))) by (unfold B; lia). split.
    + replace (A + x - A) with x by lia. unfold file_byte. rewrite Ho3 by done. by apply Hc2.
    + rewrite Hv3. destruct (x =? 0) eqn:E.
      * by rewrite (proj2 (Z.eqb_eq (B + x) B)) by lia.
      * rewrite (proj2 (Z.eqb_neq (B + x) B)) by lia.
        rewrite (proj2 (in_rng_spec B (len f) (B + x))) by lia.
        replace (B + x - B) with x by lia. by apply Hc2.
  - exists m. rewrite Hy4, <-Hy2. rewrite wrap_small by (unfold A in *; lia). done.
  - etransitivity; [exact Ht4|]. f_equal. fold dep. unfold file_text, file_size_of.
    rewrite Hfd3. do 2 f_equal.
    apply read_bytes_ext. intros x _. apply Hbd.
Qed.

End Stages.

(** ** Further properties *)

(** The addresses the bump allocator gives to mappings of the sizes [ns]. *)
Fixpoint bump_all (start cur : Z) (ns : list Z) : list (Z * Z) :=
  match ns with
  | [] => []
  | n :: ns => let '(a, next) := bump_addr start cur n in (a, n) :: bump_all start next ns
  end.

Definition pages (n : Z) : Z := (n + 4095) / 4096 * 4096.

Lemma pages_bound n : 0 ≤ n → n ≤ pages n < n + 4096 ∧ pages n mod 4096 = 0.
Proof.
  intros Hn. unfold pages. split; [|apply Z.mod_mul; lia].
  pose proof (Z.div_mod (n + 4095) 4096 ltac:(lia)).
  pose proof (Z.mod_pos_bound (n + 4095) 4096 ltac:(lia)). lia.
Qed.

Lemma bump_addr_eq start cur n :
  0 < start → 0 ≤ cur → 0 ≤ n → (if cur =? 0 then start else cur) + pages n < 2 ^ 64 →
  bump_addr start cur n
  = (if cur =? 0 then start else cur, (if cur =? 0 then start else cur) + pages n).
Proof.
  intros Hs Hc Hn Hb. unfold bump_addr. pose proof (pages_bound n Hn). f_equal.
  assert (0 ≤ n + 4095 < 2 ^ 64).
  { unfold pages in *. pose proof (Z.div_mod (n + 4095) 4096 ltac:(lia)).
    pose proof (Z.mod_pos_bound (n + 4095) 4096 ltac:(lia)).
    destruct (cur =? 0) eqn:E; lia. }
  rewrite (wrap_small 64 (n + 4095)) by lia. fold (pages n). apply wrap_small.
  destruct (cur =? 0) eqn:E; lia.
Qed.

(** The bump allocator of the tracking space gives page-aligned ranges that
    do not overlap and lie at or above the start of the space, as long as the
    rounded sizes fit below 2^64. *)
Theorem bump_ranges_disjoint start cur ns :
  let base := if cur =? 0 then start else cur in
  0 < start → 0 ≤ cur → Forall (λ n, 0 < n) ns →
  base mod 4096 = 0 → base + sum_by pages ns < 2 ^ 64 →
  (∀ a n, (a, n) ∈ bump_all start cur ns →
     base ≤ a ∧ a mod 4096 = 0 ∧ a + n ≤ base + sum_by pages ns)
  ∧ ∀ i j a n b m, (i < j)%nat → bump_all start cur ns !! i = Some (a, n) →
      bump_all start cur ns !! j = Some (b, m) → a + n ≤ b.
Proof.
  intros base Hs Hc Hns. subst base. revert cur Hc.
  induction Hns as [|n ns Hn Hns IH]; intros cur Hc Hal Hb.
  { simpl. split; [set_solver|]. intros i j a n b m _ Hi. done. }
  unfold sum_by in Hb. simpl in Hb. fold (sum_by pages ns) in Hb.
  assert (0 ≤ sum_by pages ns) as Hsum.
  { apply sum_by_nonneg. intros k Hk. rewrite Forall_forall in Hns. specialize (Hns k Hk).
    pose proof (pages_bound k ltac:(lia)). lia. }
  pose proof (pages_bound n ltac:(lia)) as [Hp1 Hp2].
  set (base := if cur =? 0 then start else cur) in *.
  assert (0 < base) as Hb0 by (unfold base; destruct (cur =? 0) eqn:E; lia).
  cbn [bump_all]. rewrite bump_addr_eq by (fold base; lia). fold base.
  specialize (IH (base + pages n) ltac:(lia)).
  rewrite (proj2 (Z.eqb_neq (base + pages n) 0)) in IH by lia.
  destruct IH as [IH1 IH2]; [rewrite Z.add_mod by lia; by rewrite Hal, Hp2|lia|].
  unfold sum_by at 1. simpl. fold (sum_by pages ns). split.
  - intros a m [[= -> ->]|Hin]%elem_of_cons; [lia|]. destruct (IH1 a m Hin) as (? & ? & ?). lia.
  - intros [|i] [|j] a m b m' Hij Hi Hj; simpl in *; [lia| |lia|].
    + injection Hi as <- <-. apply list_elem_of_lookup_2 in Hj. destruct (IH1 b m' Hj). lia.
    + by apply (IH2 i j a m b m'); [lia|..].
Qed.

(** The flags of the page cache mapping: exactly one of MAP_SHARED and
    MAP_PRIVATE is set, private exactly in CXL mode; MAP_SYNC is cleared;
    MAP_FIXED_NOREPLACE is added when an address was chosen; every other flag is
    the caller's. *)
Theorem page_cache_flags_bits flags a mode :
  let r := page_cache_flags flags a mode in
  Z.testbit r 0 = negb mode ∧ Z.testbit r 1 = mode ∧ Z.testbit r 19 = false
  ∧ Z.testbit r 20 = (negb (a =? 0) || Z.testbit flags 20)
  ∧ ∀ b, 2 ≤ b → b ≠ 19 → b ≠ 20 → Z.testbit r b = Z.testbit flags b.
Proof.
  intros r.
  assert (∀ b, 0 ≤ b → Z.testbit r b
    = if (b =? 0) then negb mode else if (b =? 1) then mode else if (b =? 19) then false
      else if (b =? 20) then negb (a =? 0) || Z.testbit flags 20 else Z.testbit flags b) as Hr.
  { intros b Hb.
    assert (∀ j, 0 ≤ j → Z.testbit (2 ^ j) b = (b =? j)) as Hp.
    { intros j Hj. rewrite Z.pow2_bits_eqb by done. apply Z.eqb_sym. }
    pose proof (Hp 19 ltac:(lia) : Z.testbit MAP_SYNC b = _) as P19.
    pose proof (Hp 20 ltac:(lia) : Z.testbit MAP_FIXED_NOREPLACE b = _) as P20.
    pose proof (Hp 0 ltac:(lia) : Z.testbit MAP_SHARED b = _) as P0.
    pose proof (Hp 1 ltac:(lia) : Z.testbit MAP_PRIVATE b = _) as P1.
    assert (Z.testbit MAP_SHARED_VALIDATE b = (b =? 0) || (b =? 1)) as P3.
    { change MAP_SHARED_VALIDATE with (Z.lor MAP_SHARED MAP_PRIVATE).
      by rewrite Z.lor_spec, P0, P1. }
    clear Hp. unfold r, page_cache_flags.
    destruct (a =? 0), mode; rewrite ?Z.lor_spec, ?Z.land_spec, ?Z.lnot_spec by done;
      rewrite ?P0, ?P1, ?P3, ?P19, ?P20;
      destruct (b =? 0) eqn:E0, (b =? 1) eqn:E1, (b =? 19) eqn:E19, (b =? 20) eqn:E20;
      try lia; try (apply Z.eqb_eq in E20; subst b); by destruct (Z.testbit flags _). }
  split_and!; intros; rewrite Hr by lia; try done.
  repeat match goal with |- context [?x =? ?y] => destruct (x =? y) eqn:?; [lia|] end. done.
Qed.

Section Records.
Context {M : Type} `{PMemLaws M} `{NvslLaws}.
Context (k : kernel) (room : nat → Z) (L : Z) (Hk : obliging k room L).
Implicit Types (w : world M).

Lemma dep_text_snoc ds d : dep_text (ds ++ [d]) = dep_text ds +:+ (dep_line d +:+ newline).
Proof.
  unfold dep_text. rewrite !fmap_app. cbn [fmap list_fmap].
  assert (∀ ls (l : string), String.concat "" (ls ++ [l]) = String.concat "" ls +:+ l) as Hc.
  { intros ls l. induction ls as [|a ls IH]; [done|]. simpl app.
    rewrite !concat_cons, IH. by rewrite str_app_assoc. }
  apply Hc.
Qed.

(** C29: A dependency record written by one process is read back by the next: the
    file splits into the old records and the new one, and the parser of the
    recovery gets the process, the thread and the address that were written. *)
Theorem dependency_record_roundtrip f ds w :
  let d := (getpid k, pthread_self k, addr f) in
  path f ≠ "" → unshown (resolve (get_dependency_fname f)) w → maps_ok w →
  0 ≤ file_size_of (get_dependency_fname f) w →
  file_text (get_dependency_fname f) w = dep_text ds → Forall dep_sane (ds ++ [d]) →
  ∃ w', write_dependency k f w = Ret tt w'
    ∧ split (file_text (get_dependency_fname f) w') newline = dep_line <$> (ds ++ [d])
    ∧ ∃ t0 t1 t2, split_n (dep_line d) comma 3 = [t0; t1; t2]
        ∧ stoi t0 = Some (getpid k) ∧ stoull 10 t1 = Some (pthread_self k)
        ∧ stoull 10 t2 = Some (addr f).
Proof.
  intros d Hp Hun Hok Hsz Htx Hds.
  destruct (write_dependency_spec k room L Hk f w Hp Hun Hok Hsz)
    as (w' & Hrun & _ & _ & _ & _ & _ & _ & Ht).
  exists w'. split; [done|]. split.
  - rewrite Ht, Htx. change (dependency_entry k f) with (dep_line d +:+ newline).
    rewrite <-dep_text_snoc. by apply split_dep_text.
  - apply Forall_app in Hds as [_ Hd]. apply Forall_singleton in Hd as (H1' & H2' & H3').
    destruct (parse_line (getpid k) (pthread_self k) (addr f)) as (?&?&?&?); [lia..|]. eauto 10.
Qed.

(** needs_recovery reports the first record of the dependency file whose log
    is ACTIVE, and no other; it changes no file. *)
Theorem needs_recovery_first_active f ds us w :
  closed_file room L f ds us w →
  ∃ w', needs_recovery k f w
        = Ret (match List.find (dep_active w) ds with Some d => [dep_line d] | None => [] end) w'
        ∧ same_files w w'.
Proof.
  intros Hcf. destruct (needs_recovery_spec k room L Hk f ds us w Hcf) as (w' & Hrun & Hst).
  exists w'. split; [done|apply Hst].
Qed.
End Records.

(** The wrapper takes files on /mnt/cxl0 as device files, but the page cache
    mapping refuses them: in CXL mode the call leaves the process with exit code 1
    and changes nothing. *)
Theorem cxl0_mapping_exits {M} `{PMemOps M} `{NvslLaws} (k : kernel) f flags fd off (w : world M) p :
  cxlModeEnabled (s_g (w_sys w)) = true → fd_to_fname fd = "/mnt/cxl0" +:+ p →
  on_device (fd_to_fname fd) = true ∧ map_to_page_cache k f flags fd off w = Exit 1 w.
Proof.
  intros Hm Hf. rewrite Hf. split.
  - unfold on_device. rewrite !is_prefix_spec. by destruct p.
  - unfold map_to_page_cache, bind, get. rewrite Hm, Hf, !is_prefix_spec.
    rewrite bool_decide_false by done. reflexivity.
Qed.

(** ** A crashed file

    A process died inside a snapshot of the file "/mnt/pmem0/data": its
    dependency file names the log of thread 9 of process 7, which is ACTIVE and
    has one entry. *)
Module DemoMap.
Import Px86.

Fixpoint tokens (keep : bool) (sep : ascii) (cur cs : list ascii) : list string :=
  match cs with
  | [] => if keep || negb (bool_decide (cur = [])) then [String.string_of_list_ascii cur] else []
  | c :: cs => if bool_decide (c = sep)
               then String.string_of_list_ascii cur :: tokens keep sep [] cs
               else tokens keep sep (cur ++ [c]) cs
  end.

Definition sep_of (d : string) : ascii := default "000"%char (head (String.list_ascii_of_string d)).

#[export] Instance demo_nvsl : Nvsl := {|
  split s d := tokens false (sep_of d) [] (String.list_ascii_of_string s);
  split_n s d _ := tokens true (sep_of d) [] (String.list_ascii_of_string s);
  is_prefix := String.prefix;
  fd_to_fname fd := if fd =? 3 then "/mnt/pmem0/data"%string
                    else if fd =? 4 then "/mnt/cxl0/data"%string else ""%string;
  get_env_str _ d := d;
  get_env_val _ := false;
|}.

Lemma tokens_app keep sep cur l rest :
  sep ∉ l → tokens keep sep cur (l ++ sep :: rest)
            = String.string_of_list_ascii (cur ++ l) :: tokens keep sep [] rest.
Proof.
  revert cur. induction l as [|c l IH]; intros cur Hn; simpl.
  - by rewrite bool_decide_true, app_nil_r.
  - rewrite bool_decide_false by set_solver. rewrite IH by set_solver.
    by rewrite <-app_assoc.
Qed.

Lemma tokens_end sep cur l :
  sep ∉ l → tokens true sep cur l = [String.string_of_list_ascii (cur ++ l)].
Proof.
  revert cur. induction l as [|c l IH]; intros cur Hn; simpl.
  - by rewrite app_nil_r.
  - rewrite bool_decide_false by set_solver. rewrite IH by set_solver. by rewrite <-app_assoc.
Qed.

#[export] Instance demo_nvsl_laws : NvslLaws.
Proof.
  split; simpl.
  - intros ls Hls. change (sep_of (String.String "010" "")) with "010"%char.
    induction Hls as [|l ls [_ Hl] Hls IH]; [done|]. rewrite fmap_cons.
    rewrite concat_cons, !list_ascii_app. simpl. rewrite <-app_assoc. simpl.
    rewrite tokens_app by done. rewrite IH. simpl. by rewrite String.string_of_list_ascii_of_string.
  - intros a b c Ha Hb Hc. rewrite !list_ascii_app. simpl.
    rewrite !tokens_app by done. rewrite tokens_end by done. simpl.
    by rewrite !String.string_of_list_ascii_of_string.
  - done.
Qed.

Definition start : Z := 0x10000000000.
Definition room (n : nat) : Z := 0x400000000000 + Z.of_nat n * 2 ^ 30.
Definition L : Z := 2 ^ 28.

Definition kern : kernel := {|
  k_open _ _ := true;
  k_mmap n h _ _ := Some (if h =? 0 then room n else h);
  k_munmap _ := true; k_madvise _ := true; k_lseek _ := true;
  k_write _ l := l; k_copy_file _ := Some true; k_sendfile _ l := l; k_fallocate _ := true;
  vram_malloc _ _ := 0x700000000000; cxlfs_malloc _ _ := 0x710000000000;
  getpid := 11; pthread_self := 12;
|}.

Lemma kern_obliging : obliging kern room L.
Proof.
  split; try done.
  - intros n h l fl Hh. simpl. by rewrite (proj2 (Z.eqb_neq h 0)).
  - intros n n' Hn. unfold rng_disj, room, L. lia.
Qed.

Definition g : globals := mkGlobals true true false false start (start + 8192) 0 false.
Definition cfg : config := mkConfig true true true true false false false.
Definition loc : string := "/mnt/pmem0/cxlbuf_logs/".

Definition of_bytes (bs : list Z) : mem := write_bytes (λ _, 0) 0 bs.
(** The old bytes of addresses 8 to 15 of the file. *)
Definition us : list undo := [mkUndo (start + 8) [1; 2; 3; 4; 5; 6; 7; 8]].
Definition log_bytes (state : Z) : list Z :=
  le_split 8 state ++ le_split 8 18 ++ le_split 8 0
  ++ le_split 3 16 ++ le_split 7 (start + 8) ++ [1; 2; 3; 4; 5; 6; 7; 8].
Definition ds : list dep := [(5, 6, start); (7, 9, start)].

(** The files after the crash: the backing file is torn. *)
Definition files : gmap string file := list_to_map [
  ("/mnt/pmem0/data"%string, mkFile 64 (λ _, 5));
  ("/mnt/pmem0/data.cxlbuf_backing"%string, mkFile 66 (λ x, x + 100));
  ("/mnt/pmem0/data-dependencies.txt"%string,
    mkFile (blen (text_bytes (dep_text ds))) (of_bytes (text_bytes (dep_text ds))));
  ("/mnt/pmem0/cxlbuf_logs/5.6.log"%string, mkFile 100 (of_bytes (log_bytes 0)));
  ("/mnt/pmem0/cxlbuf_logs/7.9.log"%string, mkFile 100 (of_bytes (log_bytes 1)))].

Definition y0 : sys machine :=
  mkSys g (px_boot (λ _, 0)) None false true [] 0 (mkTally 0 0 (λ _, 0) [] []).
Definition w0 : world machine := mkWorld y0 files ∅ [] loc 0.
Definition f0 : PmemFile := mkPmemFile "/mnt/pmem0/data" 0 64.

Lemma w0_ok : maps_ok w0.
Proof. split; intros mp; simpl; set_solver. Qed.

Lemma w0_unshown key : unshown key w0.
Proof. intros mp x. simpl. set_solver. Qed.

Lemma w0_apart a n : apart a n w0.
Proof. intros mp. simpl. set_solver. Qed.

Lemma w0_text : file_text (get_dependency_fname f0) w0 = dep_text ds.
Proof. vm_compute. reflexivity. Qed.

Lemma find_active : List.find (dep_active w0) ds = Some (7, 9, start).
Proof. vm_compute. reflexivity. Qed.

Lemma ds_elem (P : dep → Prop) : P (5, 6, start) → P (7, 9, start) → ∀ d, d ∈ ds → P d.
Proof. intros H5 H7 d. unfold ds. rewrite !elem_of_cons, elem_of_nil. by intros [->|[->|[]]]. Qed.

Lemma w0_holds : dep_holds room L (7, 9, start) us w0.
Proof.
  split.
  - vm_compute. reflexivity.
  - apply (bool_decide_unpack _). vm_compute. exact I.
  - vm_compute. reflexivity.
  - vm_compute. done.
  - intros u n ->%list_elem_of_singleton. left. unfold room, start, blen. cbn [u_addr u_data length]. lia.
Qed.

Lemma w0_closed : closed_file room L f0 ds us w0.
Proof.
  split.
  - discriminate.
  - reflexivity.
  - apply w0_ok.
  - intros n _. apply w0_apart.
  - discriminate.
  - change (is_regular_file (get_dependency_fname f0) w0) with true. apply w0_text.
  - apply ds_elem.
    + split_and!; [split_and!; unfold start; lia| |intros E; vm_compute in E; discriminate].
      intros _. apply (bool_decide_unpack _). vm_compute. exact I.
    + split_and!; [split_and!; unfold start; lia| |intros E; vm_compute in E; discriminate].
      intros _. apply (bool_decide_unpack _). vm_compute. exact I.
  - apply w0_unshown.
  - rewrite find_active. intros d [= <-]. split_and!.
    + reflexivity.
    + apply w0_holds.
    + apply Forall_forall. intros u ->%list_elem_of_In%filter_In%proj1%list_elem_of_In%list_elem_of_singleton.
      unfold undo_inside. apply (bool_decide_unpack _). vm_compute. exact I.
    + apply w0_apart.
    + intros n. right. unfold room, start. cbn [snd]. change (len f0) with 64. lia.
Qed.

Lemma f0_device : device_file f0 w0.
Proof.
  split.
  - reflexivity.
  - reflexivity.
  - apply w0_unshown.
  - apply w0_unshown.
  - intros E. vm_compute in E. discriminate.
  - split; intros E; vm_compute in E; discriminate.
  - intros _. apply (bool_decide_unpack _). vm_compute. exact I.
Qed.

Lemma f0_own : own_files f0 ds w0.
Proof.
  split.
  - apply ds_elem; split; intros E; vm_compute in E; discriminate.
  - apply w0_unshown.
  - apply (bool_decide_unpack _). vm_compute. exact I.
Qed.

Lemma f0_space : free_space room L start 64 w0.
Proof.
  split.
  - unfold start. lia.
  - apply w0_apart.
  - apply w0_apart.
  - intros i. unfold rng_disj, room, start. lia.
Qed.


Lemma ds_sane : Forall dep_sane (ds ++ [(getpid kern, pthread_self kern, start)]).
Proof. repeat constructor; unfold start; simpl; lia. Qed.

Lemma dependency_record_roundtrip_witness :
  ∃ w', write_dependency kern (set_addr start f0) w0 = Ret tt w'
    ∧ split (file_text (get_dependency_fname f0) w') newline
      = dep_line <$> (ds ++ [(getpid kern, pthread_self kern, start)]).
Proof.
  destruct (dependency_record_roundtrip kern room L kern_obliging (set_addr start f0) ds w0
    ltac:(discriminate) (w0_unshown _) w0_ok (of_size _ _ _ f0_own) w0_text ds_sane)
    as (w' & Hrun & Hs & _).
  exists w'. split; [exact Hrun|exact Hs].
Defined.

Lemma needs_recovery_first_active_witness :
  ∃ w', needs_recovery kern f0 w0 = Ret [dep_line (7, 9, start)] w' ∧ same_files w0 w'.
Proof.
  pose proof (needs_recovery_first_active kern room L kern_obliging f0 ds us w0 w0_closed) as E.
  rewrite find_active in E. exact E.
Defined.

Lemma bump_ranges_disjoint_witness :
  bump_all start 0 [100; 5000; 4096] = [(start, 100); (start + 4096, 5000); (start + 12288, 4096)]
  ∧ start + 100 ≤ start + 4096.
Proof.
  split; [vm_compute; reflexivity|].
  refine (proj2 (bump_ranges_disjoint start 0 [100; 5000; 4096] _ _ _ _ _)
    0%nat 1%nat start 100 (start + 4096) 5000 _ _ _); try (vm_compute; reflexivity).
  - vm_compute. discriminate.
  - repeat constructor.
Defined.

Lemma cxl0_mapping_exits_witness :
  map_to_page_cache kern f0 1 4 0 w0 = Exit 1 w0.
Proof. exact (proj2 (cxl0_mapping_exits kern f0 1 4 0 w0 "/data" eq_refl eq_refl)). Defined.

(** The files as a new process finds them. *)
Definition reboot (w : world machine) : world machine :=
  mkWorld y0 (map_imap (λ key f, Some (mkFile (f_size f) (byte_at key w))) (w_files w))
    (w_dirs w) [] (w_log_loc w) 0.

(** Recovery leaves the log ACTIVE and its record in the dependency file: when
    a later process has committed new contents to the backing file and the file
    is opened once more, the old entry is undone again, over the new contents. *)
Theorem stale_log_replayed_again :
  let w1 := reboot (state_of (mmap kern cfg 0 0 64 1 3 0 w0)) in
  let w2 := write_file (get_backing_fname f0) (mkFile 66 (λ _, 50)) w1 in
  let w3 := state_of (new_PmemFile kern (path f0) 0 64 w2) in
  dep_active w1 (7, 9, start) = true
  ∧ file_byte (get_backing_fname f0) w2 8 = 50
  ∧ file_byte (get_backing_fname f0) w3 8 = 1 ∧ file_byte (get_backing_fname f0) w3 16 = 50.
Proof. vm_compute. split_and!; reflexivity. Qed.

(** The same file with both logs ACTIVE. *)
Definition w_two : world machine :=
  write_file "/mnt/pmem0/cxlbuf_logs/5.6.log"
    (mkFile 100 (of_bytes (le_split 8 1 ++ le_split 8 11 ++ le_split 8 0
                           ++ le_split 3 2 ++ le_split 7 (start + 24) ++ [77]))) w0.

(** When the logs of two threads are ACTIVE, only the first is undone: the
    byte the second one logged keeps the value of the torn snapshot. *)
Theorem second_active_log_ignored :
  let w' := state_of (new_PmemFile kern (path f0) 0 64 w_two) in
  dep_active w_two (5, 6, start) = true ∧ dep_active w_two (7, 9, start) = true
  ∧ file_byte (get_backing_fname f0) w' 24 = 77
  ∧ file_byte (get_backing_fname f0) w' 8 = file_byte (get_backing_fname f0) w_two 8
  ∧ file_byte (get_backing_fname f0) w' 8 = 108.
Proof. vm_compute. split_and!; reflexivity. Qed.
End DemoMap.
