(* ===== verification/BlkDev.v ===== *)
(** * The user-space block device (libcxlfs/blkdev.cc, include/libcxlfs/blkdev.hh)

    [bdev] is the state of [UserBlkDev] together with the device behind it: the
    requests in flight, the contents of the DMA buffers and of the namespaces.
    SPDK and the device decide when a request completes, whether it fails and
    whether an allocation succeeds: these are the fields of [spdk], a parameter of
    every operation. *)

From stdpp Require Import base list sets.
From Stdlib Require Import ZArith Lia.
From S2P Require Import Prelude Memory.

(** ** Data *)

(** DMA memory: the read buffer, a controller's memory buffer, or heap memory
    of a sequence. *)
Inductive bufid := Buf_read | Buf_cmb (ctrlr : nat) | Buf_heap (seq : nat).

#[export] Instance bufid_eq_dec : EqDecision bufid.
Proof. solve_decision. Defined.

Record ns_entry := mkNs {
  ns_id : nat;
  ns_ctrlr : nat;
  ns_zns : bool; (* zoned namespace *)
  ns_qpair : bool; (* the I/O queue pair is allocated *)
}.

Record ubd_sequence := mkSeq {
  sq_ns : ns_entry;
  sq_buf : bufid;
  is_write : bool;
  using_cmb_io : bool;
  is_completed : Z; (* 0, 1 done, 2 failed *)
}.

Inductive io := IoRead (lba cnt : Z) | IoWrite (lba cnt : Z) | IoReset.

(** A command in flight, and the sequence its callback gets. *)
Record request := mkReq { rq_seq : nat; rq_ns : nat; rq_io : io }.

Record bdev := mkDev {
  namespace_cnt : Z;
  g_namespaces : list ns_entry;
  g_controllers : list nat;
  read_buf : option Z; (* size of the buffer, once allocated *)
  seqs : list ubd_sequence;
  bufs : bufid → list Z;
  queue : list request;
  medium : nat → mem; (* bytes of each namespace *)
  polls : nat;
  freed : list bufid;
}.

(** What SPDK and the device decide. *)
Record spdk := mkSpdk {
  picks : nat → nat → bool; (* the nth poll completes this sequence *)
  cpl_error : nat → bool;
  cmd_rc : nat → Z;
  zmalloc_ok : nat → bool;
  map_cmb : nat → option Z;
  reset_rc : nat → Z;
  zone_reset : nat → mem → mem;
}.

Definition upd_seqs (f : list ubd_sequence → list ubd_sequence) (d : bdev) : bdev :=
  mkDev (namespace_cnt d) (g_namespaces d) (g_controllers d) (read_buf d) (f (seqs d)) (bufs d)
    (queue d) (medium d) (polls d) (freed d).
Definition upd_bufs (f : (bufid → list Z) → bufid → list Z) (d : bdev) : bdev :=
  mkDev (namespace_cnt d) (g_namespaces d) (g_controllers d) (read_buf d) (seqs d) (f (bufs d))
    (queue d) (medium d) (polls d) (freed d).
Definition upd_queue (f : list request → list request) (d : bdev) : bdev :=
  mkDev (namespace_cnt d) (g_namespaces d) (g_controllers d) (read_buf d) (seqs d) (bufs d)
    (f (queue d)) (medium d) (polls d) (freed d).
Definition upd_medium (f : (nat → mem) → nat → mem) (d : bdev) : bdev :=
  mkDev (namespace_cnt d) (g_namespaces d) (g_controllers d) (read_buf d) (seqs d) (bufs d)
    (queue d) (f (medium d)) (polls d) (freed d).
Definition next_poll (d : bdev) : bdev :=
  mkDev (namespace_cnt d) (g_namespaces d) (g_controllers d) (read_buf d) (seqs d) (bufs d)
    (queue d) (medium d) (S (polls d)) (freed d).
Definition set_read_buf (n : Z) (d : bdev) : bdev :=
  mkDev (namespace_cnt d) (g_namespaces d) (g_controllers d) (Some n) (seqs d) (bufs d)
    (queue d) (medium d) (polls d) (freed d).
Definition upd_namespaces (f : list ns_entry → list ns_entry) (d : bdev) : bdev :=
  mkDev (namespace_cnt d) (f (g_namespaces d)) (g_controllers d) (read_buf d) (seqs d) (bufs d)
    (queue d) (medium d) (polls d) (freed d).
Definition count_namespace (d : bdev) : bdev :=
  mkDev (namespace_cnt d + 1) (g_namespaces d) (g_controllers d) (read_buf d) (seqs d) (bufs d)
    (queue d) (medium d) (polls d) (freed d).
Definition upd_controllers (f : list nat → list nat) (d : bdev) : bdev :=
  mkDev (namespace_cnt d) (g_namespaces d) (f (g_controllers d)) (read_buf d) (seqs d) (bufs d)
    (queue d) (medium d) (polls d) (freed d).
Definition add_freed (b : bufid) (d : bdev) : bdev :=
  mkDev (namespace_cnt d) (g_namespaces d) (g_controllers d) (read_buf d) (seqs d) (bufs d)
    (queue d) (medium d) (polls d) (freed d ++ [b]).

Definition set_buf (b : bufid) (bs : list Z) : bdev → bdev :=
  upd_bufs (λ f b', if decide (b = b') then bs else f b').
Definition set_medium (ns : nat) (m : mem) : bdev → bdev :=
  upd_medium (λ f n, if decide (ns = n) then m else f n).
Definition set_completed (id : nat) (v : Z) : bdev → bdev :=
  upd_seqs (alter (λ q, mkSeq (sq_ns q) (sq_buf q) (is_write q) (using_cmb_io q) v) id).
Definition completed (id : nat) (d : bdev) : Z :=
  match seqs d !! id with Some q => is_completed q | None => 0 end.

(** ** Completions *)

Section Ops.
Context (env : spdk).

(** What the device did by the time it posts the completion of [r]. *)
Definition device_effect (r : request) (d : bdev) : bdev :=
  match seqs d !! rq_seq r with
  | None => d
  | Some q =>
      match rq_io r with
      | IoRead lba cnt =>
          set_buf (sq_buf q)
            (read_bytes (medium d (rq_ns r)) (lba * 512) (Z.to_nat (Z.shiftl cnt 9))) d
      | IoWrite lba cnt =>
          set_medium (rq_ns r)
            (write_bytes (medium d (rq_ns r)) (lba * 512)
               (take (Z.to_nat (Z.shiftl cnt 9)) (bufs d (sq_buf q)))) d
      | IoReset => set_medium (rq_ns r) (zone_reset env (rq_ns r) (medium d (rq_ns r))) d
      end
  end.

Definition io_complete (r : request) : cmd bdev unit :=
  if cpl_error env (rq_seq r) then modify (set_completed (rq_seq r) 2)
  else modify (λ d, set_completed (rq_seq r) 1 (device_effect r d)).

Definition reset_zone_complete (r : request) : cmd bdev unit :=
  if cpl_error env (rq_seq r)
  then do! modify (set_completed (rq_seq r) 2) in exit_with 1
  else modify (λ d, set_completed (rq_seq r) 1 (device_effect r d)).

Definition callback (r : request) : cmd bdev unit :=
  match rq_io r with IoReset => reset_zone_complete r | _ => io_complete r end.

(** The requests of namespace [ns] that this poll completes. *)
Definition due (ns : nat) (d : bdev) (r : request) : bool :=
  (rq_ns r =? ns)%nat && picks env (polls d) (rq_seq r).

(** [spdk_nvme_qpair_process_completions]. *)
Definition process_completions (ns : nat) : cmd bdev unit := λ d,
  let now := List.filter (due ns d) (queue d) in
  (do! modify (λ d, next_poll (upd_queue (List.filter (λ r, negb (due ns d r))) d)) in
   for_each now callback) d.

(** [while (not sequence.is_completed) process_completions(qpair)]; a wait that
    outlasts [fuel] polls is a hang. *)
Fixpoint await (fuel : nat) (ns id : nat) : cmd bdev unit := λ d,
  if completed id d =? 0 then
    match fuel with
    | O => Trap d
    | S fuel => (do! process_completions ns in await fuel ns id) d
    end
  else Ret tt d.

(** ** Reads and writes *)

(** The namespace that an LBA is striped to: the loop stops at entry [tgt_ns],
    or leaves a null pointer at the end of the list. *)
Definition pick_ns (start_lba : Z) : cmd bdev (option ns_entry) := λ d,
  if namespace_cnt d =? 0 then Trap d
  else Ret (g_namespaces d !! Z.to_nat (start_lba mod namespace_cnt d)) d.

Definition new_seq (q : ubd_sequence) : cmd bdev nat := λ d,
  Ret (length (seqs d)) (upd_seqs (λ l, l ++ [q]) d).

Definition submit (r : request) : cmd bdev unit := modify (upd_queue (λ l, l ++ [r])).

Context (fuel : nat).

(** The command and the wait, and the copy to the caller: the result code and
    the bytes. *)
Definition issue_read (ns : ns_entry) (start_lba lba_count : Z) : cmd bdev (Z * list Z) :=
  let! id := new_seq (mkSeq ns Buf_read false false 0) in
  do! when (cmd_rc env id =? 0)
        (do! submit (mkReq id (ns_id ns) (IoRead start_lba lba_count)) in
         await fuel (ns_id ns) id) in
  let! d := get in
  ret (if completed id d =? 1 then 0 else -1,
       take (Z.to_nat (Z.shiftl lba_count 9)) (bufs d Buf_read)).

(** The read buffer is allocated by the first read and kept. *)
Definition alloc_read_buf (n : Z) : cmd bdev unit := λ d,
  match read_buf d with
  | Some _ => Ret tt d
  | None => if zmalloc_ok env (length (seqs d)) then Ret tt (set_read_buf n d) else Ret tt d
  end.

Definition read_blocking (start_lba lba_count : Z) : cmd bdev (Z * list Z) :=
  let! ns := pick_ns start_lba in
  let n := Z.shiftl lba_count 9 in
  do! alloc_read_buf n in
  let! d := get in
  match read_buf d with
  | None => ret (-1, [])
  | Some sz =>
      match ns with
      | None => trap
      | Some ns => if sz <? n then trap else issue_read ns start_lba lba_count
      end
  end.

Definition reset_zone_and_wait_for_completion (ns : ns_entry) (id : nat) : cmd bdev unit :=
  if negb (reset_rc env id =? 0) then exit_with 1
  else
    do! submit (mkReq id (ns_id ns) IoReset) in
    do! await fuel (ns_id ns) id in
    modify (set_completed id 0).

(** The buffer of a write: controller memory when it is mapped and large enough,
    else heap memory when the allocation succeeds. *)
Definition write_buf (ns : ns_entry) (id : nat) (n : Z) : option (bufid * bool) :=
  match map_cmb env (ns_ctrlr ns) with
  | Some sz => if sz <? n then if zmalloc_ok env id then Some (Buf_heap id, false) else None
               else Some (Buf_cmb (ns_ctrlr ns), true)
  | None => if zmalloc_ok env id then Some (Buf_heap id, false) else None
  end.

(** Asynchronous write; [None] is the null pointer. *)
Definition write (data : list Z) (start_lba lba_count : Z) : cmd bdev (option nat) :=
  let! ns := pick_ns start_lba in
  match ns with
  | None => trap
  | Some ns =>
      let n := Z.shiftl lba_count 9 in
      let! d := get in
      match write_buf ns (length (seqs d)) n with
      | None => ret None
      | Some (b, cmb) =>
          let! id := new_seq (mkSeq ns b true cmb 0) in
          do! modify (set_buf b (take (Z.to_nat n) data)) in
          do! when (ns_zns ns) (reset_zone_and_wait_for_completion ns id) in
          if negb (cmd_rc env id =? 0) then ret None
          else
            do! submit (mkReq id (ns_id ns) (IoWrite start_lba lba_count)) in
            do! process_completions (ns_id ns) in
            ret (Some id)
      end
  end.

(** [ubd_sequence::free]. *)
Definition seq_free (id : nat) : cmd bdev unit := λ d,
  match seqs d !! id with
  | None => Trap d
  | Some q => if is_write q then Ret tt (add_freed (sq_buf q) d) else Ret tt d
  end.

(** The call of [free] on the null pointer is undefined. *)
Definition write_blocking (data : list Z) (start_lba lba_count : Z) : cmd bdev Z :=
  let! sequence := write data start_lba lba_count in
  match sequence with
  | None => trap
  | Some id =>
      let! d := get in
      do! match seqs d !! id with
          | Some q => await fuel (ns_id (sq_ns q)) id
          | None => ret tt
          end in
      do! seq_free id in
      ret 0
  end.

(** ** Start-up *)

Definition register_ns (active : bool) (ns : ns_entry) : cmd bdev unit :=
  when active (modify (upd_namespaces (λ l, l ++ [ns]))).

(** The namespaces of a controller, each with [spdk_nvme_ns_is_active]; a null
    namespace is skipped. *)
Definition attach_cb (ctrlr : nat) (nss : list (option (ns_entry * bool))) : cmd bdev unit :=
  do! modify (upd_controllers (λ l, l ++ [ctrlr])) in
  for_each nss (λ o,
    match o with
    | None => ret tt
    | Some (ns, active) => do! register_ns active ns in modify count_namespace
    end).

Definition cleanup : cmd bdev unit :=
  modify (λ d, upd_controllers (λ _, []) (upd_namespaces (λ _, []) d)).

(** Allocation of the queue pairs, up to the first failure. *)
Fixpoint alloc_qpairs (qpair_ok : nat → bool) (nss : list ns_entry) : list ns_entry * bool :=
  match nss with
  | [] => ([], true)
  | ns :: nss =>
      let ok := qpair_ok (ns_id ns) in
      let ns' := mkNs (ns_id ns) (ns_ctrlr ns) (ns_zns ns) ok in
      if ok then let '(nss', all) := alloc_qpairs qpair_ok nss in (ns' :: nss', all)
      else (ns' :: nss, false)
  end.

(** [env_ok], [probe_rc] and [qpair_ok] are the results of SPDK's set-up calls,
    [found] what the probe attaches. *)
Definition init (env_ok : bool) (probe_rc : Z) (qpair_ok : nat → bool)
    (found : list (nat * list (option (ns_entry * bool)))) : cmd bdev Z :=
  if negb env_ok then ret 1
  else
    do! for_each found (λ c, attach_cb c.1 c.2) in
    if negb (probe_rc =? 0) then do! cleanup in ret 1
    else
      let! d := get in
      match g_controllers d with
      | [] => do! cleanup in ret 1
      | _ =>
          let '(nss, all) := alloc_qpairs qpair_ok (g_namespaces d) in
          do! modify (upd_namespaces (λ _, nss)) in
          ret (if all then 0 else -1)
      end.
End Ops.

(** ** Pages on the device *)

(** The transfers of the library are pages: eight blocks at a multiple of eight. *)
Definition page_sz : nat := Z.to_nat (Z.shiftl 8 9).

Lemma page_sz_val : Z.of_nat page_sz = 4096.
Proof. reflexivity. Qed.

#[global] Opaque page_sz.
#[global] Arguments read_bytes : simpl never.

Definition page_ns (d : bdev) (p : Z) : option ns_entry :=
  g_namespaces d !! Z.to_nat (p * 8 mod namespace_cnt d).

Definition medium_page (d : bdev) (ns : nat) (p : Z) : list Z :=
  read_bytes (medium d ns) (p * 4096) page_sz.

(** [r] writes (reads) page [p]. *)
Definition writes (r : request) (p : Z) : Prop := rq_io r = IoWrite (p * 8) 8.
Definition reads (r : request) (p : Z) : Prop := rq_io r = IoRead (p * 8) 8.

(** A request of the library: its sequence is waiting, its buffer is its own. *)
Record req_ok (d : bdev) (r : request) : Prop := {
  ro_seq : ∃ q, seqs d !! rq_seq r = Some q ∧ is_completed q = 0
    ∧ match rq_io r with
      | IoWrite _ _ => sq_buf q = Buf_heap (rq_seq r) ∧ length (bufs d (sq_buf q)) = page_sz
      | IoRead _ _ => sq_buf q = Buf_read
      | IoReset => False
      end;
  ro_page : ∃ p ns, 0 ≤ p ∧ (writes r p ∨ reads r p) ∧ page_ns d p = Some ns ∧ ns_id ns = rq_ns r;
}.

(** [d] with the outstanding requests [q]. *)
Record dq (d : bdev) (q : list request) : Prop := {
  dq_req r : r ∈ q → req_ok d r;
  dq_seq : NoDup (map rq_seq q);
  dq_page r r' p : r ∈ q → r' ∈ q → writes r p → writes r' p → r = r';
  dq_read r r' p p' : r ∈ q → r' ∈ q → reads r p → reads r' p' → r = r';
}.

(** Page [p] holds [data] once the outstanding writes are done. *)
Definition holds (d : bdev) (q : list request) (p : Z) (data : list Z) : Prop :=
  (∃ r, r ∈ q ∧ writes r p ∧ bufs d (Buf_heap (rq_seq r)) = data)
  ∨ ((∀ r, r ∈ q → ¬ writes r p) ∧ ∃ ns, page_ns d p = Some ns ∧ medium_page d (ns_id ns) p = data).

Lemma holds_perm d q q' p data : Permutation q q' → holds d q p data → holds d q' p data.
Proof.
  intros Hp [(r & Hr & H1 & H2)|[H1 H2]].
  - left. exists r. by rewrite <-Hp.
  - right. split; [|done]. intros r. rewrite <-Hp. apply H1.
Qed.

Lemma dq_perm d q q' : Permutation q q' → dq d q → dq d q'.
Proof.
  intros Hp [H1 H2 H3 H4]. split.
  - intros r. rewrite <-Hp. apply H1.
  - by rewrite <-Hp.
  - intros r r' p. rewrite <-Hp. apply H3.
  - intros r r' p p'. rewrite <-Hp. apply H4.
Qed.

(** Two pages are disjoint on the medium. *)
Lemma medium_page_write_other m p p' bs :
  length bs = page_sz → p ≠ p' →
  read_bytes (write_bytes m (p * 4096) bs) (p' * 4096) page_sz = read_bytes m (p' * 4096) page_sz.
Proof. intros Hl Hne. apply read_write_other. pose proof page_sz_val. unfold rng_disj, blen. rewrite Hl. lia. Qed.

Lemma medium_page_write_same m p bs :
  length bs = page_sz → read_bytes (write_bytes m (p * 4096) bs) (p * 4096) page_sz = bs.
Proof. intros <-. apply read_write_same. Qed.

(** ** One completion *)

(** What completions never touch. *)
Record same_conf (d d' : bdev) : Prop := {
  sc_cnt : namespace_cnt d' = namespace_cnt d;
  sc_ns : g_namespaces d' = g_namespaces d;
  sc_rbuf : read_buf d' = read_buf d;
  sc_seqs : length (seqs d') = length (seqs d);
  sc_heap n : bufs d' (Buf_heap n) = bufs d (Buf_heap n);
  sc_seq i q : seqs d !! i = Some q →
    ∃ v, seqs d' !! i = Some (mkSeq (sq_ns q) (sq_buf q) (is_write q) (using_cmb_io q) v);
}.

Lemma same_conf_refl d : same_conf d d.
Proof. split; try done. intros i [] Hq. eauto. Qed.

Lemma same_conf_trans d1 d2 d3 : same_conf d1 d2 → same_conf d2 d3 → same_conf d1 d3.
Proof.
  intros [A1 A2 A3 A4 A5 A6] [B1 B2 B3 B4 B5 B6]. split; try congruence.
  intros i q Hq. destruct (A6 i q Hq) as (v & Hv). destruct (B6 i _ Hv) as (v' & Hv'). eauto.
Qed.

Lemma same_conf_page_ns d d' p : same_conf d d' → page_ns d' p = page_ns d p.
Proof. intros []. unfold page_ns. congruence. Qed.

Lemma lookup_set_completed id v d i :
  seqs (set_completed id v d) !! i
  = (if decide (id = i) then (λ q, mkSeq (sq_ns q) (sq_buf q) (is_write q) (using_cmb_io q) v)
                               <$> seqs d !! i else seqs d !! i).
Proof.
  unfold set_completed, upd_seqs. simpl. destruct (decide (id = i)) as [->|Hne].
  - by rewrite list_lookup_alter_eq.
  - by rewrite list_lookup_alter_ne.
Qed.

Section Complete.
Context (env : spdk).

(** The effects of a write and of a read of a page. *)
Lemma device_effect_write d r p q :
  writes r p → seqs d !! rq_seq r = Some q → length (bufs d (sq_buf q)) = page_sz →
  device_effect env r d
  = set_medium (rq_ns r) (write_bytes (medium d (rq_ns r)) (p * 4096) (bufs d (sq_buf q))) d.
Proof.
  intros Hw Hq Hl. unfold device_effect. rewrite Hq, Hw. change (Z.to_nat (Z.shiftl 8 9)) with page_sz.
  rewrite take_ge by lia. by replace (p * 8 * 512) with (p * 4096) by lia.
Qed.

Lemma device_effect_read d r p q :
  reads r p → seqs d !! rq_seq r = Some q →
  device_effect env r d = set_buf (sq_buf q) (medium_page d (rq_ns r) p) d.
Proof.
  intros Hr Hq. unfold device_effect. rewrite Hq, Hr. change (Z.to_nat (Z.shiftl 8 9)) with page_sz.
  unfold medium_page. by replace (p * 8 * 512) with (p * 4096) by lia.
Qed.

Definition finish (r : request) (d : bdev) : bdev := set_completed (rq_seq r) 1 (device_effect env r d).

Lemma finish_seqs d r i :
  req_ok d r → seqs (finish r d) !! i
  = (if decide (rq_seq r = i) then (λ q, mkSeq (sq_ns q) (sq_buf q) (is_write q) (using_cmb_io q) 1)
                               <$> seqs d !! i else seqs d !! i).
Proof.
  intros [(q & Hq & _ & Hb) (p & ns & _ & Hio & _)]. unfold finish. rewrite lookup_set_completed.
  assert (seqs (device_effect env r d) = seqs d) as ->; [|done].
  unfold device_effect. rewrite Hq. by destruct (rq_io r).
Qed.

Lemma finish_conf d r : req_ok d r → same_conf d (finish r d).
Proof.
  intros Hok. pose proof (λ i, finish_seqs d r i Hok) as Hs.
  assert (∀ d', length (seqs (set_completed (rq_seq r) 1 d')) = length (seqs d')) as Hlen.
  { intros d'. unfold set_completed, upd_seqs. simpl. by rewrite length_alter. }
  assert (∀ i q, seqs d !! i = Some q →
    ∃ v, seqs (finish r d) !! i = Some (mkSeq (sq_ns q) (sq_buf q) (is_write q) (using_cmb_io q) v)) as Hseq.
  { intros i q Hq. rewrite Hs, Hq. destruct q. case_decide; simpl; eauto. }
  destruct Hok as [(q & Hq & _ & Hb) (p & ns & _ & Hio & _)].
  unfold finish in *. destruct Hio as [Hw|Hr].
  - rewrite Hw in Hb. destruct Hb as [Hb Hl]. rewrite (device_effect_write d r p q) in * by done.
    split; try done. by rewrite Hlen.
  - rewrite Hr in Hb. rewrite (device_effect_read d r p q) in * by done.
    split; try done; [by rewrite Hlen|]. intros n. simpl. rewrite Hb. done.
Qed.

Lemma finish_completed d r i :
  req_ok d r → completed i (finish r d) = if decide (rq_seq r = i) then 1 else completed i d.
Proof.
  intros Hok. unfold completed. rewrite finish_seqs by done. case_decide as E; [|done].
  destruct Hok as [(q & Hq & _) _]. rewrite <-E, Hq. done.
Qed.

(** The medium of a page that [r] does not write. *)
Lemma finish_medium_other d r p ns :
  req_ok d r → ¬ writes r p → medium_page (finish r d) ns p = medium_page d ns p.
Proof.
  intros [(q & Hq & _ & Hb) (p' & ns' & _ & Hio & _)] Hnw. unfold finish.
  destruct Hio as [Hw|Hr].
  - rewrite Hw in Hb. destruct Hb as [Hb Hl]. rewrite (device_effect_write d r p' q) by done.
    unfold medium_page. simpl. case_decide as E; [|done]. subst ns.
    apply medium_page_write_other; [done|]. intros ->. done.
  - rewrite (device_effect_read d r p' q) by done. done.
Qed.

Lemma finish_medium_same d r p :
  req_ok d r → writes r p → medium_page (finish r d) (rq_ns r) p = bufs d (Buf_heap (rq_seq r)).
Proof.
  intros [(q & Hq & _ & Hb) _] Hw. rewrite Hw in Hb. destruct Hb as [Hb Hl]. unfold finish.
  rewrite (device_effect_write d r p q) by done. unfold medium_page. simpl.
  rewrite decide_True by done. rewrite medium_page_write_same by done. by rewrite Hb.
Qed.

Lemma finish_ro d r r' : req_ok d r → req_ok d r' → rq_seq r ≠ rq_seq r' → req_ok (finish r d) r'.
Proof.
  intros Hok Hok' Hne. pose proof (finish_conf d r Hok) as Hc.
  destruct Hok' as [(q & Hq & Hz & Hb) (p & ns & Hp & Hio & Hns & Hid)]. split.
  - exists q. rewrite finish_seqs by done. rewrite decide_False by done. split_and!; [done..|].
    destruct (rq_io r'); [done| |done]. destruct Hb as [Hb Hl]. split; [done|].
    rewrite Hb in *. by rewrite (sc_heap _ _ Hc).
  - exists p, ns. rewrite (same_conf_page_ns _ _ _ Hc). done.
Qed.

Lemma finish_dq d r q : dq d (r :: q) → dq (finish r d) q.
Proof.
  intros [H1 H2 H3 H4]. simpl in H2. apply NoDup_cons in H2 as [Hni H2].
  pose proof (H1 r (list_elem_of_here _ _)) as Hok. split.
  - intros r' Hr'. apply finish_ro; [done|apply H1; by right|].
    intros E. apply Hni. rewrite E. by apply list_elem_of_fmap_2.
  - done.
  - intros r1 r2 p Hr1 Hr2. apply H3; by right.
  - intros r1 r2 p p' Hr1 Hr2. apply H4; by right.
Qed.

Lemma finish_holds d r q p data : dq d (r :: q) → holds d (r :: q) p data → holds (finish r d) q p data.
Proof.
  intros Hdq Hh. pose proof (dq_req _ _ Hdq r (list_elem_of_here _ _)) as Hok.
  pose proof (finish_conf d r Hok) as Hc.
  destruct Hh as [(r' & Hin & Hw & Hd)|[Hnone (ns & Hns & Hm)]].
  - apply elem_of_cons in Hin as [->|Hin].
    + right. split.
      * intros r' Hr' Hw'. assert (r = r') as <-.
        { apply (dq_page _ _ Hdq r r' p); [left|by right|done|done]. }
        pose proof (dq_seq _ _ Hdq) as Hnd. simpl in Hnd. apply NoDup_cons in Hnd as [Hni _].
        apply Hni. by apply list_elem_of_fmap_2.
      * pose proof Hok as [_ (p' & ns & _ & Hio & Hns & Hid)].
        assert (p' = p) as ->.
        { unfold writes, reads in *. destruct Hio as [Hio|Hio]; rewrite Hw in Hio; [|done].
          injection Hio as Hio. lia. }
        exists ns. rewrite (same_conf_page_ns _ _ _ Hc). split; [done|].
        rewrite Hid. by rewrite finish_medium_same.
    + left. exists r'. split_and!; [done|done|]. by rewrite (sc_heap _ _ Hc).
  - right. split; [intros r' Hr'; apply Hnone; by right|].
    exists ns. rewrite (same_conf_page_ns _ _ _ Hc). split; [done|].
    rewrite finish_medium_other; [done|done|]. apply Hnone. left.
Qed.

Context (Hhealthy : ∀ id, cpl_error env id = false).

Lemma callback_finish d r : req_ok d r → callback env r d = Ret tt (finish r d).
Proof.
  intros [(q & _ & _ & Hb) _]. unfold callback, io_complete. rewrite Hhealthy.
  by destruct (rq_io r).
Qed.

(** What a batch of completions does. *)
Record settled (d : bdev) (now rest : list request) (d' : bdev) : Prop := {
  se_queue : queue d' = queue d;
  se_polls : polls d' = polls d;
  se_conf : same_conf d d';
  se_dq : dq d' rest;
  se_holds p data : holds d (now ++ rest) p data → holds d' rest p data;
  se_done i : completed i d' = if decide (i ∈ map rq_seq now) then 1 else completed i d;
  se_read r p data : r ∈ now → reads r p → (∀ r', r' ∈ now ++ rest → ¬ writes r' p) →
    holds d (now ++ rest) p data → bufs d' Buf_read = data;
  se_noread : (∀ r p, r ∈ now → ¬ reads r p) → bufs d' Buf_read = bufs d Buf_read;
}.

Lemma finish_read_buf d r :
  req_ok d r → (∀ p, ¬ reads r p) → bufs (finish r d) Buf_read = bufs d Buf_read.
Proof.
  intros [(q & Hq & _ & Hb) (p & ns & _ & Hio & _)] Hnr. unfold finish.
  destruct Hio as [Hw|Hr]; [|by destruct (Hnr p)]. rewrite Hw in Hb. destruct Hb as [Hb Hl].
  by rewrite (device_effect_write d r p q).
Qed.

Lemma finish_read_data d r p ns :
  req_ok d r → reads r p → page_ns d p = Some ns →
  bufs (finish r d) Buf_read = medium_page d (ns_id ns) p.
Proof.
  intros [(q & Hq & _ & Hb) (p' & ns' & _ & Hio & Hns' & Hid)] Hr Hns. unfold finish.
  assert (p' = p) as ->.
  { unfold writes, reads in *. destruct Hio as [Hio|Hio]; rewrite Hr in Hio; [done|].
    injection Hio as Hio. lia. }
  rewrite (device_effect_read d r p q) by done. rewrite Hr in Hb. simpl. rewrite Hb.
  rewrite decide_True by done. congruence.
Qed.

Lemma settle now rest d :
  dq d (now ++ rest) → ∃ d', for_each now (callback env) d = Ret tt d' ∧ settled d now rest d'.
Proof.
  revert d. induction now as [|r now IH]; intros d Hdq.
  { exists d. split; [done|]. split; try done; [apply same_conf_refl|]. intros r p data Hr. by apply not_elem_of_nil in Hr. }
  pose proof (dq_req _ _ Hdq r (list_elem_of_here _ _)) as Hok.
  pose proof (finish_conf d r Hok) as Hc.
  destruct (IH (finish r d)) as (d' & E & [Hq Hp Hc' Hdq' Hh Hd Hrd Hnr]).
  { by apply finish_dq. }
  assert (queue (finish r d) = queue d ∧ polls (finish r d) = polls d) as [Hq0 Hp0].
  { unfold finish, device_effect. destruct (seqs d !! rq_seq r); [|done]. by destruct (rq_io r). }
  exists d'. split; [simpl; unfold bind; by rewrite callback_finish|]. split.
  - congruence.
  - congruence.
  - by eapply same_conf_trans.
  - done.
  - intros p data Hho. apply Hh. by apply finish_holds.
  - intros i. rewrite Hd, finish_completed by done.
    destruct (decide (i ∈ map rq_seq now)) as [Hi|Hi].
    + rewrite decide_True; [done|]. by right.
    + destruct (decide (rq_seq r = i)) as [<-|Hne].
      * rewrite decide_True; [done|]. left.
      * rewrite decide_False; [done|]. intros [->|?]%elem_of_cons; done.
  - intros r' p data Hr' Hre Hnw Hho. apply elem_of_cons in Hr' as [->|Hr'].
    + rewrite Hnr.
      * destruct Hho as [(r1 & Hr1 & Hw1 & _)|[_ (ns & Hns & Hm)]]; [by destruct (Hnw r1)|].
        by rewrite (finish_read_data d r p ns).
      * intros r1 p1 Hr1 Hre1.
        assert (r = r1) as <-.
        { apply (dq_read _ _ Hdq r r1 p p1); [left|right; apply elem_of_app; by left|done|done]. }
        pose proof (dq_seq _ _ Hdq) as Hnd. simpl in Hnd. apply NoDup_cons in Hnd as [Hni _].
        apply Hni. apply list_elem_of_fmap_2. apply elem_of_app. by left.
    + apply (Hrd r' p data); [done|done| |by apply finish_holds].
      intros r1 Hr1. apply Hnw. by right.
  - intros Hno. rewrite Hnr.
    + apply finish_read_buf; [done|]. intros p. apply Hno. left.
    + intros r1 p Hr1. apply Hno. by right.
Qed.

(** ** One poll *)

Lemma filter_split {A} (f : A → bool) (l : list A) :
  Permutation l (List.filter f l ++ List.filter (λ x, negb (f x)) l).
Proof.
  induction l as [|a l IH]; simpl; [done|]. destruct (f a); simpl.
  - by constructor.
  - rewrite <-Permutation_middle. by constructor.
Qed.

(** The state after a poll of namespace [ns]. *)
Record polled (ns : nat) (d d' : bdev) : Prop := {
  po_queue : queue d' = List.filter (λ r, negb (due env ns d r)) (queue d);
  po_polls : polls d' = S (polls d);
  po_conf : same_conf d d';
  po_dq : dq d' (queue d');
  po_holds p data : holds d (queue d) p data → holds d' (queue d') p data;
  po_done i : completed i d'
    = if decide (i ∈ map rq_seq (List.filter (due env ns d) (queue d))) then 1 else completed i d;
  po_read r p data : r ∈ queue d → due env ns d r = true → reads r p →
    (∀ r', r' ∈ queue d → ¬ writes r' p) → holds d (queue d) p data → bufs d' Buf_read = data;
  po_noread : (∀ r p, r ∈ queue d → due env ns d r = true → ¬ reads r p) →
    bufs d' Buf_read = bufs d Buf_read;
}.

Lemma poll_step ns d :
  dq d (queue d) → ∃ d', process_completions env ns d = Ret tt d' ∧ polled ns d d'.
Proof.
  intros Hdq. unfold process_completions.
  set (now := List.filter (due env ns d) (queue d)).
  set (rest := List.filter (λ r, negb (due env ns d r)) (queue d)).
  set (d1 := next_poll (upd_queue (λ _, rest) d)).
  assert (∀ k, bind (modify (λ d, next_poll (upd_queue (List.filter (λ r, negb (due env ns d r))) d)))
    (λ _, k) d = k d1) as -> by done.
  pose proof (filter_split (due env ns d) (queue d)) as Hperm. fold now rest in Hperm.
  assert (dq d1 (now ++ rest)) as Hdq1.
  { apply (dq_perm _ _ _ Hperm). destruct Hdq as [Hr H2 H3 H4]. split; try done.
    intros r Hin. by destruct (Hr r Hin). }
  destruct (settle now rest d1 Hdq1) as (d' & E & [Hq Hp Hc Hdq' Hh Hd Hrd Hnr]).
  exists d'. split; [done|].
  assert (∀ r, r ∈ now ++ rest → r ∈ queue d) as Hin by (intros r; by rewrite <-Hperm).
  split.
  - done.
  - done.
  - destruct Hc. by split.
  - by rewrite Hq.
  - intros p data Hho. rewrite Hq. apply Hh. by apply (holds_perm _ _ _ _ _ Hperm).
  - intros i. apply Hd.
  - intros r p data Hr Hdue Hre Hnw Hho. apply (Hrd r p data); [|done|auto|].
    + apply list_elem_of_In, filter_In. split; [by apply list_elem_of_In|done].
    + by apply (holds_perm _ _ _ _ _ Hperm).
  - intros Hno. rewrite Hnr; [done|]. intros r p Hr.
    apply list_elem_of_In, filter_In in Hr as [Hr Hdue]. apply Hno; [by apply list_elem_of_In|done].
Qed.

(** ** Waiting *)

Lemma same_seq_eq d q r r' : dq d q → r ∈ q → r' ∈ q → rq_seq r = rq_seq r' → r = r'.
Proof.
  intros [_ Hnd _ _] [i Hi]%list_elem_of_lookup [j Hj]%list_elem_of_lookup E.
  assert (i = j) as ->; [|congruence].
  apply (NoDup_lookup _ i j (rq_seq r) Hnd); rewrite list_lookup_fmap; [by rewrite Hi|].
  rewrite Hj. simpl. by rewrite E.
Qed.

Lemma due_done ns d r :
  dq d (queue d) → r ∈ queue d →
  bool_decide (rq_seq r ∈ map rq_seq (List.filter (due env ns d) (queue d))) = due env ns d r.
Proof.
  intros Hdq Hr. destruct (due env ns d r) eqn:E.
  - apply bool_decide_eq_true. apply list_elem_of_fmap_2. apply list_elem_of_In, filter_In.
    split; [by apply list_elem_of_In|done].
  - apply bool_decide_eq_false. intros (r' & Er & Hr')%list_elem_of_fmap.
    apply list_elem_of_In, filter_In in Hr' as [Hr' Hdue].
    assert (r = r') as <- by (apply (same_seq_eq d (queue d)); [done|done|by apply list_elem_of_In|done]).
    congruence.
Qed.

(** What a wait leaves: the request is done, the rest of the device goes on. *)
Record awaited (r : request) (d d' : bdev) : Prop := {
  aw_done : completed (rq_seq r) d' = 1;
  aw_conf : same_conf d d';
  aw_dq : dq d' (queue d');
  aw_gone : r ∉ queue d';
  aw_sub r' : r' ∈ queue d' → r' ∈ queue d;
  aw_holds p data : holds d (queue d) p data → holds d' (queue d') p data;
  aw_read p data : reads r p → (∀ r', r' ∈ queue d → ¬ writes r' p) →
    holds d (queue d) p data → bufs d' Buf_read = data;
}.

Lemma await_done r d fuel :
  r ∈ queue d → dq d (queue d) →
  (∃ k, (k < fuel)%nat ∧ picks env (polls d + k) (rq_seq r) = true) →
  ∃ d', await env fuel (rq_ns r) (rq_seq r) d = Ret tt d' ∧ awaited r d d'.
Proof.
  revert d. induction fuel as [|fuel IH]; intros d Hr Hdq (k & Hk & Hpick); [lia|].
  assert (completed (rq_seq r) d = 0) as Hz.
  { destruct (dq_req _ _ Hdq r Hr) as [(q & Hq & Hz & _) _]. unfold completed. by rewrite Hq. }
  simpl. rewrite Hz. simpl. destruct (poll_step (rq_ns r) d Hdq) as (d1 & E & Hpo).
  unfold bind. rewrite E. destruct Hpo as [Hq1 Hp1 Hc1 Hdq1 Hh1 Hd1 Hrd1 Hnr1].
  pose proof (due_done (rq_ns r) d r Hdq Hr) as Hdd. specialize (Hd1 (rq_seq r)).
  assert (∀ r', r' ∈ queue d1 → r' ∈ queue d) as Hsub.
  { intros r' Hr'. rewrite Hq1 in Hr'. apply list_elem_of_In, filter_In in Hr' as [? _].
    by apply list_elem_of_In. }
  destruct (due env (rq_ns r) d r) eqn:Edue.
  - apply bool_decide_eq_true in Hdd. rewrite decide_True in Hd1 by done.
    exists d1. split.
    { destruct fuel; simpl; rewrite Hd1; reflexivity. }
    split; try done.
    + rewrite Hq1. intros Hin. apply list_elem_of_In, filter_In in Hin as [_ Hn]. by rewrite Edue in Hn.
    + intros p data Hre Hnw Hho. by apply (Hrd1 r p data).
  - apply bool_decide_eq_false in Hdd. rewrite decide_False, Hz in Hd1 by done.
    assert (r ∈ queue d1) as Hr1.
    { rewrite Hq1. apply list_elem_of_In, filter_In. split; [by apply list_elem_of_In|]. by rewrite Edue. }
    destruct k as [|k].
    { unfold due in Edue. rewrite Nat.eqb_refl in Edue. simpl in Edue.
      rewrite Nat.add_0_r in Hpick. congruence. }
    destruct (IH d1 Hr1 Hdq1) as (d2 & E2 & [A1 A2 A3 A4 A5 A6 A7]).
    { exists k. split; [lia|]. rewrite Hp1. by replace (S (polls d) + k)%nat with (polls d + S k)%nat by lia. }
    exists d2. split; [done|]. split; try done.
    + by eapply same_conf_trans.
    + intros r' Hr'. auto.
    + intros p data Hho. auto.
    + intros p data Hre Hnw Hho. apply (A7 p data); auto.
Qed.
End Complete.

(** ** Pages as the unit of transfer *)

(** A device that answers: no failure of a command, an allocation or a
    completion; no controller memory buffer. *)
Record healthy (env : spdk) : Prop := {
  h_err id : cpl_error env id = false;
  h_rc id : cmd_rc env id = 0;
  h_malloc id : zmalloc_ok env id = true;
  h_cmb c : map_cmb env c = None;
}.

(** The device between two operations of the library. *)
Record dev_ok (d : bdev) : Prop := {
  do_cnt : namespace_cnt d = Z.of_nat (length (g_namespaces d));
  do_pos : 0 < namespace_cnt d;
  do_zns : Forall (λ ns, ns_zns ns = false) (g_namespaces d);
  do_dq : dq d (queue d);
  do_writes r p : r ∈ queue d → ¬ reads r p;
  do_rbuf : match read_buf d with None => True | Some n => n = 4096 end;
}.

(** No write of page [p] is in flight. *)
Definition quiescent (d : bdev) (p : Z) : Prop := ∀ r, r ∈ queue d → ¬ writes r p.

(** The device completes request [id] within [fuel] polls. *)
Definition answers (env : spdk) (fuel : nat) (d : bdev) : Prop :=
  ∃ k, (k < fuel)%nat ∧ picks env (polls d + k) (length (seqs d)) = true.

Lemma page_ns_some d p :
  dev_ok d → 0 ≤ p → ∃ ns, page_ns d p = Some ns ∧ ns_zns ns = false.
Proof.
  intros [Hc Hpos Hz _ _ _] Hp. unfold page_ns.
  destruct (lookup_lt_is_Some_2 (g_namespaces d) (Z.to_nat (p * 8 mod namespace_cnt d))) as [ns Hns].
  { pose proof (Z.mod_pos_bound (p * 8) (namespace_cnt d) ltac:(lia)). lia. }
  exists ns. split; [done|]. by eapply Forall_lookup_1 in Hz.
Qed.

Lemma pick_ns_page d p ns :
  dev_ok d → page_ns d p = Some ns → pick_ns (p * 8) d = Ret (Some ns) d.
Proof.
  intros [_ Hpos _ _ _ _] Hns. unfold pick_ns. rewrite (proj2 (Z.eqb_neq _ _)) by lia.
  unfold page_ns in Hns. by rewrite Hns.
Qed.

(** A request with a new sequence joins the queue; [b] is the buffer it brings. *)
Definition enqueue (q : ubd_sequence) (b : option (list Z)) (r : request) (d : bdev) : bdev :=
  let d1 := upd_seqs (λ l, l ++ [q]) d in
  let d2 := match b with Some bs => set_buf (sq_buf q) bs d1 | None => d1 end in
  upd_queue (λ l, l ++ [r]) d2.

Section Enqueue.
Context (d : bdev) (q : ubd_sequence) (b : option (list Z)) (r : request).
Context (Hdq : dq d (queue d)).
Context (Hid : rq_seq r = length (seqs d)).
Context (Hbuf : match b with Some _ => sq_buf q = Buf_heap (rq_seq r) | None => True end).
Context (Hnew : req_ok (enqueue q b r d) r).
Context (Hw : ∀ p, writes r p → quiescent d p).
Context (Hr : ∀ p r' p', reads r p → r' ∈ queue d → ¬ reads r' p').

Lemma old_seq r' : r' ∈ queue d → (rq_seq r' < length (seqs d))%nat.
Proof.
  intros Hin. destruct (dq_req _ _ Hdq r' Hin) as [(q' & Hq' & _) _]. by eapply lookup_lt_Some.
Qed.

Lemma enqueue_bufs n :
  (n < length (seqs d))%nat → bufs (enqueue q b r d) (Buf_heap n) = bufs d (Buf_heap n).
Proof.
  intros Hn. unfold enqueue. destruct b; [|done]. simpl. rewrite Hbuf.
  case_decide as E; [|done]. injection E as E. lia.
Qed.

Lemma enqueue_conf :
  namespace_cnt (enqueue q b r d) = namespace_cnt d
  ∧ g_namespaces (enqueue q b r d) = g_namespaces d ∧ read_buf (enqueue q b r d) = read_buf d
  ∧ medium (enqueue q b r d) = medium d ∧ queue (enqueue q b r d) = queue d ++ [r]
  ∧ seqs (enqueue q b r d) = seqs d ++ [q] ∧ polls (enqueue q b r d) = polls d.
Proof. unfold enqueue. by destruct b. Qed.

Lemma enqueue_page_ns p : page_ns (enqueue q b r d) p = page_ns d p.
Proof. unfold page_ns. by destruct enqueue_conf as (-> & -> & _). Qed.

Lemma enqueue_dq : dq (enqueue q b r d) (queue (enqueue q b r d)).
Proof.
  destruct enqueue_conf as (_ & _ & _ & _ & -> & Es & _).
  destruct Hdq as [H1 H2 H3 H4]. split.
  - intros r' [Hin|Hin]%elem_of_app.
    + destruct (H1 r' Hin) as [(q' & Hq' & Hz & Hb) (p & ns & Hp & Hio & Hns & Hn)]. split.
      * exists q'. rewrite Es, lookup_app_l by (by apply old_seq). split_and!; [done..|].
        destruct (rq_io r'); [done| |done]. destruct Hb as [Hb Hl]. split; [done|].
        rewrite Hb in *. by rewrite enqueue_bufs by (by apply old_seq).
      * exists p, ns. by rewrite enqueue_page_ns.
    + apply list_elem_of_singleton in Hin as ->. done.
  - rewrite map_app. apply NoDup_app. split_and!; [done| |apply NoDup_singleton].
    intros n (r' & -> & Hr')%list_elem_of_fmap E%list_elem_of_singleton.
    pose proof (old_seq r' Hr'). lia.
  - intros r1 r2 p [Hr1|Hr1]%elem_of_app [Hr2|Hr2]%elem_of_app.
    + by apply H3.
    + apply list_elem_of_singleton in Hr2 as ->. intros W1 W2. by destruct (Hw p W2 r1).
    + apply list_elem_of_singleton in Hr1 as ->. intros W1 W2. by destruct (Hw p W1 r2).
    + apply list_elem_of_singleton in Hr1 as ->. by apply list_elem_of_singleton in Hr2 as ->.
  - intros r1 r2 p p' [Hr1|Hr1]%elem_of_app [Hr2|Hr2]%elem_of_app.
    + by apply H4.
    + apply list_elem_of_singleton in Hr2 as ->. intros W1 W2. by destruct (Hr p' r1 p W2 Hr1).
    + apply list_elem_of_singleton in Hr1 as ->. intros W1 W2. by destruct (Hr p r2 p' W1 Hr2).
    + apply list_elem_of_singleton in Hr1 as ->. by apply list_elem_of_singleton in Hr2 as ->.
Qed.

Lemma enqueue_holds p data :
  ¬ writes r p → holds d (queue d) p data →
  holds (enqueue q b r d) (queue (enqueue q b r d)) p data.
Proof.
  destruct enqueue_conf as (_ & _ & _ & Em & -> & _ & _).
  intros Hnw [(r' & Hin & Hw' & Hd)|[Hnone (ns & Hns & Hm)]].
  - left. exists r'. split_and!; [apply elem_of_app; by left|done|].
    by rewrite enqueue_bufs by (by apply old_seq).
  - right. split.
    + intros r' [Hin|Hin]%elem_of_app; [by apply Hnone|].
      by apply list_elem_of_singleton in Hin as ->.
    + exists ns. rewrite enqueue_page_ns. split; [done|]. unfold medium_page. by rewrite Em.
Qed.
End Enqueue.

Section Transfers.
Context (env : spdk) (Henv : healthy env) (fuel : nat).

(** The pages keep their contents from [d] to [d']. *)
Definition keeps (d d' : bdev) : Prop :=
  ∀ p data, holds d (queue d) p data → holds d' (queue d') p data.

Lemma issue_read_page d p ns data :
  dev_ok d → read_buf d = Some 4096 → 0 ≤ p → page_ns d p = Some ns → quiescent d p →
  holds d (queue d) p data → length data = page_sz → answers env fuel d →
  ∃ d', issue_read env fuel ns (p * 8) 8 d = Ret (0, data) d'
    ∧ dev_ok d' ∧ (∀ p, page_ns d' p = page_ns d p)
    ∧ (∀ r, r ∈ queue d' → r ∈ queue d) ∧ keeps d d'.
Proof.
  intros Hok Hrb Hp Hns Hqu Hho Hlen (k & Hk & Hpick).
  set (q := mkSeq ns Buf_read false false 0).
  set (r := mkReq (length (seqs d)) (ns_id ns) (IoRead (p * 8) 8)).
  set (d1 := enqueue q None r d).
  assert (req_ok d1 r) as Hnew.
  { split; [|exists p, ns; split_and!; [done|by right|done|done]].
    exists q. split_and!; [|done|done]. simpl. rewrite lookup_app_r, Nat.sub_diag by lia. done. }
  assert (dq d1 (queue d1)) as Hdq1.
  { apply enqueue_dq; try done; try apply Hok.
    intros p0 r' p' _ Hr' Hre'. by apply (do_writes _ Hok r' p'). }
  assert (keeps d d1) as Hh1.
  { intros p' data' Hh. apply enqueue_holds; try done. apply Hok. }
  destruct (await_done env (h_err _ Henv) r d1 fuel) as (d2 & E & [A1 A2 A3 A4 A5 A6 A7]).
  { simpl. apply elem_of_app. right. by apply list_elem_of_singleton. }
  { done. }
  { by exists k. }
  exists d2. unfold issue_read, bind, new_seq. rewrite (h_rc _ Henv). simpl.
  unfold bind, submit, modify. change (upd_queue _ _) with d1. simpl in E. rewrite E.
  unfold get. simpl in A1. rewrite A1. simpl.
  assert (∀ r', r' ∈ queue d2 → r' ∈ queue d) as Hsub.
  { intros r' Hr'. pose proof (A5 r' Hr') as [?|Hr1]%elem_of_app; [done|].
    by apply list_elem_of_singleton in Hr1 as ->. }
  split_and!.
  - rewrite (A7 p data); [|done| |by apply Hh1].
    + pose proof page_sz_val. rewrite take_ge; [done|]. change (Z.shiftl 8 9) with 4096. lia.
    + intros r' [Hr'|Hr']%elem_of_app; [by apply Hqu|]. by apply list_elem_of_singleton in Hr' as ->.
  - destruct A2 as [C1 C2 C3 C4 C5 C6], Hok. split; rewrite ?C1, ?C2, ?C3; try done.
    intros r' p' Hr'. eauto.
  - intros p'. by rewrite (same_conf_page_ns _ _ _ A2).
  - done.
  - intros p' data' Hh. by apply A6, Hh1.
Qed.

(** A page is read: what the device holds for it, provided no write of the page
    is in flight. *)
Lemma read_page d p data :
  dev_ok d → 0 ≤ p → quiescent d p → holds d (queue d) p data → length data = page_sz →
  answers env fuel d →
  ∃ d', read_blocking env fuel (p * 8) 8 d = Ret (0, data) d'
    ∧ dev_ok d' ∧ (∀ p, page_ns d' p = page_ns d p)
    ∧ (∀ r, r ∈ queue d' → r ∈ queue d) ∧ keeps d d'.
Proof.
  intros Hok Hp Hqu Hho Hlen Hans. destruct (page_ns_some d p Hok Hp) as (ns & Hns & _).
  unfold read_blocking, bind. rewrite (pick_ns_page d p ns Hok Hns).
  change (Z.shiftl 8 9) with 4096. unfold alloc_read_buf. rewrite (h_malloc _ Henv).
  destruct (read_buf d) as [n|] eqn:Erb; simpl.
  - pose proof (do_rbuf _ Hok) as Hn. rewrite Erb in Hn. subst n. rewrite Erb. simpl.
    by apply issue_read_page.
  - destruct (issue_read_page (set_read_buf 4096 d) p ns data) as (d' & E & Hr); try done.
    + destruct Hok as [? ? ? [Q1 Q2 Q3 Q4] ? ?]. split; try done. split; try done.
      intros r Hr. by destruct (Q1 r Hr).
    + by exists d'.
Qed.

(** The sequence and the request of a page write. *)
Definition wseq (d : bdev) (ns : ns_entry) : ubd_sequence :=
  mkSeq ns (Buf_heap (length (seqs d))) true false 0.
Definition wreq (d : bdev) (ns : ns_entry) (p : Z) : request :=
  mkReq (length (seqs d)) (ns_id ns) (IoWrite (p * 8) 8).
Definition with_write (d : bdev) (ns : ns_entry) (p : Z) (data : list Z) : bdev :=
  enqueue (wseq d ns) (Some data) (wreq d ns p) d.

Lemma wreq_writes d ns p p' : writes (wreq d ns p) p' ↔ p' = p.
Proof. unfold writes. simpl. split; [intros [= E]; lia|by intros ->]. Qed.

Lemma with_write_queue d ns p data : queue (with_write d ns p data) = queue d ++ [wreq d ns p].
Proof. done. Qed.

Lemma with_write_dq d ns p data :
  dev_ok d → 0 ≤ p → quiescent d p → length data = page_sz → page_ns d p = Some ns →
  dq (with_write d ns p data) (queue (with_write d ns p data))
  ∧ holds (with_write d ns p data) (queue (with_write d ns p data)) p data
  ∧ ∀ p' data', p' ≠ p → holds d (queue d) p' data' →
      holds (with_write d ns p data) (queue (with_write d ns p data)) p' data'.
Proof.
  intros Hok Hp Hqu Hlen Hns. set (d1 := with_write d ns p data).
  assert (bufs d1 (Buf_heap (length (seqs d))) = data) as Hb1 by (simpl; by rewrite decide_True).
  assert (req_ok d1 (wreq d ns p)) as Hnew.
  { split.
    - exists (wseq d ns). split_and!; [|done|split; [done|by rewrite <-Hlen, <-Hb1]].
      simpl. rewrite lookup_app_r, Nat.sub_diag by lia. done.
    - exists p, ns. split_and!; [done| |done|done]. left. by apply wreq_writes. }
  split_and!.
  - apply enqueue_dq; try done; try apply Hok. by intros p' ->%wreq_writes.
  - left. exists (wreq d ns p). split_and!; [|by apply wreq_writes|done].
    apply elem_of_app. right. by apply list_elem_of_singleton.
  - intros p' data' Hne Hh. apply enqueue_holds; try done; try apply Hok. by intros ->%wreq_writes.
Qed.

Lemma write_submits d ns p data :
  dev_ok d → page_ns d p = Some ns → ns_zns ns = false → length data = page_sz →
  write env fuel data (p * 8) 8 d
  = bind (process_completions env (ns_id ns)) (λ _, ret (Some (length (seqs d))))
      (with_write d ns p data).
Proof.
  intros Hok Hns Hz Hlen. unfold write. unfold bind at 1. rewrite (pick_ns_page d p ns Hok Hns).
  unfold bind at 1, get, write_buf. rewrite (h_cmb _ Henv), (h_malloc _ Henv).
  unfold bind at 1, new_seq. unfold bind at 1, modify. unfold bind at 1, when. rewrite Hz.
  unfold ret at 1. rewrite (h_rc _ Henv). simpl negb. cbv iota. unfold bind at 1, submit, modify.
  rewrite take_ge by (change (Z.shiftl 8 9) with 4096; pose proof page_sz_val; lia). reflexivity.
Qed.

(** A page write, submitted and polled once: the page holds the data, other
    pages keep theirs, the write may still be in flight. *)
Record written (d : bdev) (p : Z) (data : list Z) (d' : bdev) : Prop := {
  wr_ok : dev_ok d';
  wr_ns p' : page_ns d' p' = page_ns d p';
  wr_holds : holds d' (queue d') p data;
  wr_others p' data' : p' ≠ p → holds d (queue d) p' data' → holds d' (queue d') p' data';
  wr_quiet p' : p' ≠ p → quiescent d p' → quiescent d' p';
}.

Lemma write_page d p data ns :
  dev_ok d → 0 ≤ p → quiescent d p → length data = page_sz → page_ns d p = Some ns →
  ∃ d', write env fuel data (p * 8) 8 d = Ret (Some (length (seqs d))) d'
    ∧ polled env (ns_id ns) (with_write d ns p data) d' ∧ written d p data d'.
Proof.
  intros Hok Hp Hqu Hlen Hns.
  pose proof (Forall_lookup_1 _ _ _ _ (do_zns _ Hok) Hns) as Hz. cbv beta in Hz.
  destruct (with_write_dq d ns p data Hok Hp Hqu Hlen Hns) as (Hdq & Hh & Hoth).
  destruct (poll_step env (h_err _ Henv) (ns_id ns) (with_write d ns p data) Hdq) as (d' & E & Hpo).
  exists d'. split_and!; [rewrite (write_submits d ns) by done; unfold bind; by rewrite E|done|].
  destruct Hpo as [Q1 Q2 Q3 Q4 Q5 Q6 _ _].
  assert (∀ r', r' ∈ queue d' → r' ∈ queue d ∨ r' = wreq d ns p) as Hsub.
  { intros r' Hr'. rewrite Q1 in Hr'. apply list_elem_of_In, filter_In in Hr' as [Hr' _].
    apply list_elem_of_In in Hr'. rewrite with_write_queue in Hr'.
    apply elem_of_app in Hr' as [?|Hr']; [by left|]. right. by apply list_elem_of_singleton in Hr'. }
  split.
  - destruct Q3 as [C1 C2 C3 C4 C5 C6], Hok. split; rewrite ?C1, ?C2, ?C3; try done.
    intros r' p' [Hr'| ->]%Hsub; [eauto|done].
  - intros p'. by rewrite (same_conf_page_ns _ _ _ Q3).
  - by apply Q5.
  - intros p' data' Hne Hp'. by apply Q5, Hoth.
  - intros p' Hne Hq r' [Hr'| ->]%Hsub; [by apply Hq|]. by intros ->%wreq_writes.
Qed.

(** The wait for a page write that was submitted and polled once. *)
Lemma await_write d p data ns d1 :
  dq (with_write d ns p data) (queue (with_write d ns p data)) →
  polled env (ns_id ns) (with_write d ns p data) d1 →
  (∃ k, (k < fuel)%nat ∧ picks env (S (polls d) + k) (length (seqs d)) = true) →
  ∃ d2, await env fuel (ns_id ns) (length (seqs d)) d1 = Ret tt d2
    ∧ (wreq d ns p ∉ queue d2)
    ∧ same_conf d1 d2 ∧ dq d2 (queue d2) ∧ (∀ r', r' ∈ queue d2 → r' ∈ queue d1) ∧ keeps d1 d2.
Proof.
  intros Hdq Hpo Hpick. set (r := wreq d ns p).
  assert (r ∈ queue (with_write d ns p data)) as Hr.
  { rewrite with_write_queue. apply elem_of_app. right. by apply list_elem_of_singleton. }
  pose proof (due_done env (ns_id ns) _ r Hdq Hr) as Hdd.
  pose proof (po_done _ _ _ _ Hpo (rq_seq r)) as Hdone.
  destruct (due env (ns_id ns) (with_write d ns p data) r) eqn:Ed.
  - apply bool_decide_eq_true in Hdd. rewrite decide_True in Hdone by done. exists d1.
    split_and!; [| |apply same_conf_refl|apply Hpo|by intros r'|by intros p' data'].
    + simpl in Hdone. destruct fuel; simpl; by rewrite Hdone.
    + rewrite (po_queue _ _ _ _ Hpo). intros Hin. apply list_elem_of_In, filter_In in Hin as [_ Hn].
      by rewrite Ed in Hn.
  - destruct (await_done env (h_err _ Henv) r d1 fuel) as (d2 & E2 & [A1 A2 A3 A4 A5 A6 A7]).
    + rewrite (po_queue _ _ _ _ Hpo). apply list_elem_of_In, filter_In.
      split; [by apply list_elem_of_In|]. by rewrite Ed.
    + apply Hpo.
    + by rewrite (po_polls _ _ _ _ Hpo).
    + by exists d2.
Qed.

(** The write that is awaited: no write of the page is in flight any more. *)
Lemma write_blocking_page d p data :
  dev_ok d → 0 ≤ p → quiescent d p → length data = page_sz →
  (∃ k, (k < fuel)%nat ∧ picks env (S (polls d) + k) (length (seqs d)) = true) →
  ∃ d', write_blocking env fuel data (p * 8) 8 d = Ret 0 d'
    ∧ written d p data d' ∧ quiescent d' p.
Proof.
  intros Hok Hp Hqu Hlen Hpick. destruct (page_ns_some d p Hok Hp) as (ns & Hns & Hz).
  destruct (write_page d p data ns Hok Hp Hqu Hlen Hns) as (d1 & E & Hpo & Hwr).
  destruct (with_write_dq d ns p data Hok Hp Hqu Hlen Hns) as (Hdq & _ & _).
  destruct (sc_seq _ _ (po_conf _ _ _ _ Hpo) (length (seqs d)) (wseq d ns)) as (v & Hv).
  { simpl. rewrite lookup_app_r, Nat.sub_diag by lia. done. }
  destruct (await_write d p data ns d1 Hdq Hpo Hpick) as (d2 & E2 & Hgone & Hc2 & Hdq2 & Hsub2 & Hk2).
  destruct (sc_seq _ _ Hc2 _ _ Hv) as (v2 & Hv2).
  set (d3 := add_freed (Buf_heap (length (seqs d))) d2).
  exists d3. split_and!.
  - unfold write_blocking, bind. rewrite E. unfold get. rewrite Hv. simpl. rewrite E2.
    unfold seq_free. rewrite Hv2. done.
  - destruct Hwr as [W1 W2 W3 W4 W5]. split.
    + destruct Hc2 as [C1 C2 C3 C4 C5 C6], W1 as [X1 X2 X3 X4 X5 X6].
      split; simpl; rewrite ?C1, ?C2, ?C3; try done; [|by intros r' p' Hr'; eauto].
      destruct Hdq2 as [Y1 Y2 Y3 Y4]. split; try done. intros r' Hr'. by destruct (Y1 r' Hr').
    + intros p'. rewrite <-W2. apply (same_conf_page_ns _ _ _ Hc2).
    + by apply Hk2.
    + intros p' data' Hne Hh. by apply Hk2, W4.
    + intros p' Hne Hq r' Hr'. by apply (W5 p' Hne Hq r'), Hsub2.
  - intros r' Hr' Hw. pose proof (Hsub2 r' Hr') as Hr1. rewrite (po_queue _ _ _ _ Hpo) in Hr1.
    apply list_elem_of_In, filter_In in Hr1 as [Hr1 _]. apply list_elem_of_In in Hr1.
    assert (r' = wreq d ns p) as ->; [|done].
    apply (dq_page _ _ Hdq r' (wreq d ns p) p); [done| |done|by apply wreq_writes].
    rewrite with_write_queue. apply elem_of_app. right. by apply list_elem_of_singleton.
Qed.
End Transfers.

(** The device answers every request within [fuel] polls, from any point on. *)
Definition live (env : spdk) (fuel : nat) : Prop :=
  ∀ id n, ∃ k, (k < fuel)%nat ∧ picks env (n + k) id = true.

(** ** Properties *)

(** C25: A page written with [write_blocking] is read back by [read_blocking] with
    result 0, and a page that is not written keeps its contents, whatever
    namespace the striping puts the two on and whatever the order in which the
    device completes other requests. *)
Theorem blkdev_page_roundtrip env fuel d p data p' data' :
  healthy env → live env fuel → dev_ok d →
  0 ≤ p → quiescent d p → length data = page_sz →
  0 ≤ p' → p' ≠ p → quiescent d p' → length data' = page_sz → holds d (queue d) p' data' →
  ∃ d1 d2 d3, write_blocking env fuel data (p * 8) 8 d = Ret 0 d1
    ∧ read_blocking env fuel (p * 8) 8 d1 = Ret (0, data) d2
    ∧ read_blocking env fuel (p' * 8) 8 d2 = Ret (0, data') d3.
Proof.
  intros Henv Hlive Hok Hp Hq Hl Hp' Hne Hq' Hl' Hh'.
  destruct (write_blocking_page env Henv fuel d p data Hok Hp Hq Hl (Hlive _ _)) as (d1 & E1 & Hw & Hq1).
  destruct (read_page env Henv fuel d1 p data (wr_ok _ _ _ _ Hw) Hp Hq1 (wr_holds _ _ _ _ Hw) Hl (Hlive _ _))
    as (d2 & E2 & Hok2 & _ & Hsub & Hk).
  destruct (read_page env Henv fuel d2 p' data' Hok2 Hp') as (d3 & E3 & _).
  - intros r Hr. by apply (wr_quiet _ _ _ _ Hw p' Hne Hq'), Hsub.
  - apply Hk. by apply (wr_others _ _ _ _ Hw).
  - done.
  - apply Hlive.
  - by exists d1, d2, d3.
Qed.

(** When the write command is rejected or the buffer cannot be allocated,
    [write_blocking] does not return -1 as it is written to: it calls [free] on
    the null sequence first. *)
Theorem failed_write_dereferences_null env fuel d data lba cnt ns :
  0 < namespace_cnt d → g_namespaces d !! Z.to_nat (lba mod namespace_cnt d) = Some ns →
  ns_zns ns = false → map_cmb env (ns_ctrlr ns) = None →
  zmalloc_ok env (length (seqs d)) = false ∨ cmd_rc env (length (seqs d)) ≠ 0 →
  ∃ d', write_blocking env fuel data lba cnt d = Trap d'.
Proof.
  intros Hc Hns Hz Hcmb Hfail. unfold write_blocking, write, bind, pick_ns.
  rewrite (proj2 (Z.eqb_neq _ _)) by lia. rewrite Hns. unfold get, write_buf. rewrite Hcmb.
  destruct (zmalloc_ok env (length (seqs d))) eqn:Em; [|by eexists].
  destruct Hfail as [|Hrc]; [done|]. unfold new_seq, modify, when. rewrite Hz. unfold ret.
  rewrite (proj2 (Z.eqb_neq _ _) Hrc). simpl. by eexists.
Qed.

(** A device with two empty namespaces that completes every request at the first
    poll. *)
Module DemoDev.
Definition prompt : spdk :=
  mkSpdk (λ _ _, true) (λ _, false) (λ _, 0) (λ _, true) (λ _, None) (λ _, 0) (λ _ m, m).
Definition dev0 : bdev :=
  mkDev 2 [mkNs 0 0 false true; mkNs 1 1 false true] [0; 1]%nat None [] (λ _, []) [] (λ _ _, 0) 0 [].

Lemma prompt_healthy : healthy prompt.
Proof. by split. Qed.

Lemma prompt_live : live prompt 1.
Proof. intros id n. exists 0%nat. split; [lia|done]. Qed.

Lemma dev0_ok : dev_ok dev0.
Proof.
  split; try done.
  - by repeat constructor.
  - split; try (intros r Hr; by apply not_elem_of_nil in Hr).
    + constructor.
    + intros r r' p Hr. by apply not_elem_of_nil in Hr.
    + intros r r' p p' Hr. by apply not_elem_of_nil in Hr.
  - intros r p Hr. by apply not_elem_of_nil in Hr.
Qed.

Lemma dev0_quiescent p : quiescent dev0 p.
Proof. intros r Hr. by apply not_elem_of_nil in Hr. Qed.

Definition page_of (v : Z) : list Z := replicate page_sz v.

Lemma page_of_length v : length (page_of v) = page_sz.
Proof. apply length_replicate. Qed.

Lemma read_zeros n a : read_bytes (λ _, 0) a n = replicate n 0.
Proof. revert a. induction n as [|n IH]; intros a; [done|].
  change (0 :: read_bytes (λ _, 0) (a + 1) n = 0 :: replicate n 0). by rewrite IH.
Qed.

Lemma dev0_holds p : 0 ≤ p → holds dev0 (queue dev0) p (page_of 0).
Proof.
  intros Hp. right. split; [apply dev0_quiescent|].
  destruct (page_ns_some dev0 p dev0_ok Hp) as (ns & Hns & _). exists ns. split; [done|].
  apply read_zeros.
Qed.

Lemma blkdev_page_roundtrip_witness :
  ∃ d1 d2 d3, write_blocking prompt 1 (page_of 7) (3 * 8) 8 dev0 = Ret 0 d1
    ∧ read_blocking prompt 1 (3 * 8) 8 d1 = Ret (0, page_of 7) d2
    ∧ read_blocking prompt 1 (4 * 8) 8 d2 = Ret (0, page_of 0) d3.
Proof.
  apply (blkdev_page_roundtrip prompt 1 dev0 3 (page_of 7) 4 (page_of 0) prompt_healthy prompt_live dev0_ok).
  - lia.
  - apply dev0_quiescent.
  - apply page_of_length.
  - lia.
  - lia.
  - apply dev0_quiescent.
  - apply page_of_length.
  - apply dev0_holds. lia.
Defined.

(** The same device, rejecting every command. *)
Definition rejecting : spdk :=
  mkSpdk (λ _ _, true) (λ _, false) (λ _, -22) (λ _, true) (λ _, None) (λ _, 0) (λ _ m, m).

Lemma failed_write_dereferences_null_witness :
  ∃ d', write_blocking rejecting 1 [] 24 8 dev0 = Trap d'.
Proof.
  apply (failed_write_dereferences_null rejecting 1 dev0 [] 24 8 (mkNs 0 0 false true)).
  - reflexivity.
  - reflexivity.
  - reflexivity.
  - reflexivity.
  - right. discriminate.
Defined.
End DemoDev.
