(* ===== verification/Controller.v ===== *)
(** * The paging controller (libcxlfs/controller.cc, libcxlfs/pfmonitor.cc)

    The controller shows a program a region larger than the memory it uses: at
    most [max_active_pg_cnt] pages are accessible, the others live on the block
    device.  A SIGSEGV runs [handler], whose callback evicts a page when the cache
    is full and reads the missing one.  The abstract specification is a flat
    memory of pages; the refinement theorem says that faults do not change it. *)

From stdpp Require Import base list sets.
From Stdlib Require Import ZArith Lia.
From S2P Require Import Prelude Memory BlkDev.

(** ** State *)

Record ctrlr := mkCtrlr {
  max_active_pg_cnt : Z;
  shm_pg_cnt : Z;
  used_pages : Z;
  faults : Z;
  mapped_pages : list Z; (* the keys, in iteration order *)
  ubd_wr_cq : list nat;
  shm_start : Z; (* 0 is the null pointer *)
  dist : list Z;
  dist_age : Z;
  MAX_DIST_AGE : Z;
  mbd_dist_sz : list Z;
  monitor_thread_running : bool;
  pages : Z → list Z; (* contents of the frames, by page index *)
  prot : Z → bool; (* PROT_READ | PROT_WRITE, otherwise PROT_NONE *)
  dev : bdev;
}.

Definition page_size : Z := 4096.
Definition MAX_MAPPED_PG_LOOKUP : nat := 256.

(** What the kernel, the sampler and the clock decide. *)
Record os := mkOs {
  get_dist : Z → list Z; (* pages sampled as accessed, at the nth call *)
  dist_ns : Z → Z; (* time that call took *)
  rand : Z → Z;
  mprotect_rc : Z → Z;
  mmap_result : Z → Z → Z; (* of the hint and the size; -1 is MAP_FAILED *)
  move_rc : Z;
  pthread_rc : Z;
  junk : list Z; (* a page of malloc'd memory *)
}.

Definition set_dist (ds : list Z) (age maxage : Z) (c : ctrlr) : ctrlr :=
  mkCtrlr (max_active_pg_cnt c) (shm_pg_cnt c) (used_pages c) (faults c) (mapped_pages c) (ubd_wr_cq c)
    (shm_start c) ds age maxage (mbd_dist_sz c) (monitor_thread_running c) (pages c) (prot c) (dev c).
Definition note_dist_sz (c : ctrlr) : ctrlr :=
  mkCtrlr (max_active_pg_cnt c) (shm_pg_cnt c) (used_pages c) (faults c) (mapped_pages c) (ubd_wr_cq c)
    (shm_start c) (dist c) (dist_age c) (MAX_DIST_AGE c) (mbd_dist_sz c ++ [Z.of_nat (length (dist c))])
    (monitor_thread_running c) (pages c) (prot c) (dev c).
Definition clear_dist_sz (c : ctrlr) : ctrlr :=
  mkCtrlr (max_active_pg_cnt c) (shm_pg_cnt c) (used_pages c) (faults c) (mapped_pages c) (ubd_wr_cq c)
    (shm_start c) (dist c) (dist_age c) (MAX_DIST_AGE c) [] (monitor_thread_running c)
    (pages c) (prot c) (dev c).
Definition set_cq (q : list nat) (c : ctrlr) : ctrlr :=
  mkCtrlr (max_active_pg_cnt c) (shm_pg_cnt c) (used_pages c) (faults c) (mapped_pages c) q
    (shm_start c) (dist c) (dist_age c) (MAX_DIST_AGE c) (mbd_dist_sz c) (monitor_thread_running c)
    (pages c) (prot c) (dev c).
Definition set_dev (d : bdev) (c : ctrlr) : ctrlr :=
  mkCtrlr (max_active_pg_cnt c) (shm_pg_cnt c) (used_pages c) (faults c) (mapped_pages c) (ubd_wr_cq c)
    (shm_start c) (dist c) (dist_age c) (MAX_DIST_AGE c) (mbd_dist_sz c) (monitor_thread_running c)
    (pages c) (prot c) d.
Definition set_prot (p : Z) (b : bool) (c : ctrlr) : ctrlr :=
  mkCtrlr (max_active_pg_cnt c) (shm_pg_cnt c) (used_pages c) (faults c) (mapped_pages c) (ubd_wr_cq c)
    (shm_start c) (dist c) (dist_age c) (MAX_DIST_AGE c) (mbd_dist_sz c) (monitor_thread_running c)
    (pages c) (λ q, if q =? p then b else prot c q) (dev c).
Definition set_page (p : Z) (bs : list Z) (c : ctrlr) : ctrlr :=
  mkCtrlr (max_active_pg_cnt c) (shm_pg_cnt c) (used_pages c) (faults c) (mapped_pages c) (ubd_wr_cq c)
    (shm_start c) (dist c) (dist_age c) (MAX_DIST_AGE c) (mbd_dist_sz c) (monitor_thread_running c)
    (λ q, if q =? p then bs else pages c q) (prot c) (dev c).
Definition set_mapped (ms : list Z) (used : Z) (c : ctrlr) : ctrlr :=
  mkCtrlr (max_active_pg_cnt c) (shm_pg_cnt c) used (faults c) ms (ubd_wr_cq c)
    (shm_start c) (dist c) (dist_age c) (MAX_DIST_AGE c) (mbd_dist_sz c) (monitor_thread_running c)
    (pages c) (prot c) (dev c).
Definition set_faults (n : Z) (c : ctrlr) : ctrlr :=
  mkCtrlr (max_active_pg_cnt c) (shm_pg_cnt c) (used_pages c) n (mapped_pages c) (ubd_wr_cq c)
    (shm_start c) (dist c) (dist_age c) (MAX_DIST_AGE c) (mbd_dist_sz c) (monitor_thread_running c)
    (pages c) (prot c) (dev c).
Definition set_sizes (mx cnt : Z) (c : ctrlr) : ctrlr :=
  mkCtrlr mx cnt (used_pages c) (faults c) (mapped_pages c) (ubd_wr_cq c)
    (shm_start c) (dist c) (dist_age c) (MAX_DIST_AGE c) (mbd_dist_sz c) (monitor_thread_running c)
    (pages c) (prot c) (dev c).
(** A new anonymous mapping: zero pages, accessible. *)
Definition map_shm (start : Z) (c : ctrlr) : ctrlr :=
  mkCtrlr (max_active_pg_cnt c) (shm_pg_cnt c) (used_pages c) (faults c) (mapped_pages c) (ubd_wr_cq c)
    start (dist c) (dist_age c) (MAX_DIST_AGE c) (mbd_dist_sz c) (monitor_thread_running c)
    (λ _, replicate page_sz 0) (λ _, true) (dev c).
Definition protect_all (c : ctrlr) : ctrlr :=
  mkCtrlr (max_active_pg_cnt c) (shm_pg_cnt c) (used_pages c) (faults c) (mapped_pages c) (ubd_wr_cq c)
    (shm_start c) (dist c) (dist_age c) (MAX_DIST_AGE c) (mbd_dist_sz c) (monitor_thread_running c)
    (pages c) (λ _, false) (dev c).
Definition thread_started (c : ctrlr) : ctrlr :=
  mkCtrlr (max_active_pg_cnt c) (shm_pg_cnt c) (used_pages c) (faults c) (mapped_pages c) (ubd_wr_cq c)
    (shm_start c) (dist c) (dist_age c) (MAX_DIST_AGE c) (mbd_dist_sz c) true
    (pages c) (prot c) (dev c).

(** ** Operations *)

Section Ops.
Context (o : os) (env : spdk) (fuel : nat).

(** Run an operation of the block device. *)
Definition on_dev {A} (x : cmd bdev A) : cmd ctrlr A := λ c,
  match x (dev c) with
  | Ret a d => Ret a (set_dev d c)
  | Exit code d => Exit code (set_dev d c)
  | Trap d => Trap (set_dev d c)
  end.

(** [fast_rand]: the next seed, a 32-bit word, and the number drawn. *)
Definition next_seed (g_seed : Z) : Z := wrap 32 (214013 * g_seed + 2531011).
Definition fast_rand (g_seed : Z) : Z := Z.land (Z.shiftr (next_seed g_seed) 16) 0x7FFF.

Definition get_available_page (g_seed : Z) (c : ctrlr) : Z :=
  shm_start c + Z.shiftl (fast_rand g_seed mod shm_pg_cnt c) 12.

(** [get_shm], [get_shm_len], [get_shm_end]. *)
Definition get_shm_len (c : ctrlr) : Z := Z.shiftl (shm_pg_cnt c) 12.
Definition get_shm_end (c : ctrlr) : Z := shm_start c + get_shm_len c.

(** Refresh the distribution every [MAX_DIST_AGE] evictions. *)
Definition age_dist (c : ctrlr) : ctrlr :=
  if dist_age c =? MAX_DIST_AGE c then
    let us := dist_ns o (faults c) / 1024 in
    set_dist (get_dist o (faults c)) 0 (if 1 <? us then MAX_DIST_AGE c * us else MAX_DIST_AGE c) c
  else set_dist (dist c) (dist_age c + 1) (MAX_DIST_AGE c) c.

(** The last of the first pages of the map that was not sampled. *)
Definition cold_page (c : ctrlr) : option Z :=
  foldl (λ t p, if bool_decide (p ∈ dist c) then t else Some p) None
    (take (MAX_MAPPED_PG_LOOKUP + 2) (mapped_pages c)).

Definition target_page (c : ctrlr) : option Z :=
  match cold_page c with
  | Some p => Some p
  | None => mapped_pages c !! Z.to_nat (rand o (faults c) mod Z.of_nat (length (mapped_pages c)))
  end.

(** Drop the completed writes from the queue, from the last entry down to entry
    1. *)
Fixpoint reap (i : nat) (q : list nat) (d : bdev) : list nat * bdev :=
  match i with
  | O => (q, d)
  | S j =>
      match q !! i with
      | Some id => if completed id d =? 0 then reap j q d
                   else reap j (delete i q) (state_of (seq_free id d))
      | None => reap j q d
      end
  end.

Definition evict_a_page : cmd ctrlr Z :=
  do! modify age_dist in
  do! modify note_dist_sz in
  let! c := get in
  match target_page c with
  | None => trap
  | Some p =>
      let! sq := on_dev (write env fuel (pages c p) (p * 8) (Z.shiftr page_size 9)) in
      match sq with
      | None => ret (-1)
      | Some id =>
          do! modify (λ c, set_cq (ubd_wr_cq c ++ [id]) c) in
          do! modify (λ c, let '(q, d) := reap (length (ubd_wr_cq c) - 1) (ubd_wr_cq c) (dev c) in
                           set_cq q (set_dev d c)) in
          if mprotect_rc o p =? -1 then exit_with 1
          else
            do! modify (set_prot p false) in
            do! modify (λ c, set_mapped (List.filter (λ q, negb (q =? p)) (mapped_pages c))
                               (wrap64 (used_pages c - 1)) c) in
            ret 0
      end
  end.

(** [mapped_pages[idx] = true]. *)
Definition add_mapped (p : Z) (ms : list Z) : list Z :=
  if bool_decide (p ∈ ms) then ms else ms ++ [p].

(** Returns the buffer; the result of the read is not looked at. *)
Definition map_page_from_blkdev (pf_addr : Z) : cmd ctrlr (list Z) :=
  let pf_addr := Z.shiftl (Z.shiftr pf_addr 12) 12 in
  let! c := get in
  let addr_off := wrap64 (pf_addr - shm_start c) in
  let! r := on_dev (read_blocking env fuel (Z.shiftr addr_off 12 * 8) 8) in
  do! modify (λ c, set_mapped (add_mapped (Z.shiftr addr_off 12) (mapped_pages c)) (used_pages c) c) in
  ret (if bool_decide (r.2 = []) then junk o else r.2).

(** The callback of [monitor_thread]. *)
Definition notify_page_fault (addr : Z) : cmd ctrlr (list Z) :=
  let! c := get in
  do! nvsl_assert (used_pages c <=? max_active_pg_cnt c) in
  do! when (used_pages c =? max_active_pg_cnt c) (do! evict_a_page in ret tt) in
  do! modify (λ c, set_faults (faults c + 1) c) in
  do! modify (λ c, set_mapped (mapped_pages c) (wrap64 (used_pages c + 1)) c) in
  map_page_from_blkdev addr.

(** [PFMonitor::handler] for a SIGSEGV at [place]; [register_range] recorded the
    region. *)
Definition handler (place : Z) : cmd ctrlr unit :=
  let! c := get in
  if (shm_start c <=? place) && (place <? shm_start c + shm_pg_cnt c * page_size) then
    let page_aligned := place / 4096 * 4096 in
    let p := (page_aligned - shm_start c) / 4096 in
    let! src := notify_page_fault page_aligned in
    if mprotect_rc o p =? -1 then exit_with 1
    else
      do! modify (set_prot p true) in
      modify (set_page p src)
  else exit_with 1.

(** [write_to_ubd] and [read_from_ubd]. *)
Definition page_of_addr (addr : Z) (c : ctrlr) : Z := Z.shiftr (wrap64 (addr - shm_start c)) 12.

Definition write_to_ubd (buf : list Z) (addr : Z) : cmd ctrlr unit :=
  let! c := get in
  do! on_dev (write_blocking env fuel buf (page_of_addr addr c * 8) 8) in
  ret tt.

Definition read_from_ubd (addr : Z) : cmd ctrlr (list Z) :=
  let! c := get in
  let! r := on_dev (read_blocking env fuel (page_of_addr addr c * 8) 8) in
  ret r.2.

(** [Controller::init]. *)
Definition init (max_active cnt : Z) : cmd ctrlr Z :=
  do! modify (set_sizes max_active cnt) in
  do! modify (set_faults 0) in
  do! modify (λ c, set_mapped (mapped_pages c) 0 c) in
  let! c := get in
  let shm_addr := mmap_result o (shm_start c) (cnt * page_size) in
  if shm_addr =? -1 then ret (-1)
  else if negb (shm_start c =? 0) && negb (shm_addr =? shm_start c) then exit_with 1
  else
    do! modify (map_shm shm_addr) in
    if mprotect_rc o (-1) =? -1 then ret (-1)
    else
      do! modify protect_all in
      if move_rc o =? -1 then ret (-1)
      else
        if monitor_thread_running c then ret 0
        else if pthread_rc o =? -1 then ret (-1)
        else do! modify thread_started in ret 0.

Definition flush_cache : cmd ctrlr unit :=
  let! c := get in
  if shm_pg_cnt c =? 0 then exit_with 1
  else
    do! for_each (mapped_pages c) (λ p,
      let! c := get in do! on_dev (write_blocking env fuel (pages c p) (p * 8) 8) in ret tt) in
    do! modify (λ c, set_mapped [] (used_pages c) c) in
    do! init (max_active_pg_cnt c) (shm_pg_cnt c) in
    ret tt.

Definition resize_cache (pg_cnt : Z) : cmd ctrlr unit :=
  let! c := get in
  do! modify (set_sizes pg_cnt (shm_pg_cnt c)) in
  when (pg_cnt <? max_active_pg_cnt c) flush_cache.

Definition reset_stats : cmd ctrlr unit := modify (λ c, clear_dist_sz (set_faults 0 c)).

(** ** The program's accesses: the handler runs when the page is protected, then
    the instruction is retried *)

Definition page_at (addr : Z) (c : ctrlr) : Z := (addr - shm_start c) / 4096.
Definition page_off (addr : Z) (c : ctrlr) : Z := (addr - shm_start c) mod 4096.

Definition touch (addr : Z) : cmd ctrlr unit := λ c,
  if prot c (page_at addr c) then Ret tt c else handler addr c.

Definition load_byte (addr : Z) : cmd ctrlr Z :=
  do! touch addr in
  let! c := get in
  ret (nth (Z.to_nat (page_off addr c)) (pages c (page_at addr c)) 0).

Definition store_byte (addr v : Z) : cmd ctrlr unit :=
  do! touch addr in
  modify (λ c, set_page (page_at addr c)
                 (<[Z.to_nat (page_off addr c) := v]> (pages c (page_at addr c))) c).
End Ops.

(** ** The invariant *)

(** The flat memory: the contents of every page. *)
Definition flat : Type := Z → list Z.

Record cinv (c : ctrlr) (F : flat) : Prop := {
  cn_dev : dev_ok (dev c);
  cn_start : 0 < shm_start c ∧ shm_start c mod 4096 = 0
             ∧ shm_start c + shm_pg_cnt c * 4096 < 2 ^ 63;
  cn_cnt : 0 < shm_pg_cnt c;
  cn_nodup : NoDup (mapped_pages c);
  cn_range p : p ∈ mapped_pages c → 0 ≤ p < shm_pg_cnt c;
  cn_used : used_pages c = Z.of_nat (length (mapped_pages c));
  cn_max : used_pages c ≤ max_active_pg_cnt c;
  cn_max1 : 1 ≤ max_active_pg_cnt c < 2 ^ 63;
  cn_prot p : 0 ≤ p < shm_pg_cnt c → prot c p = bool_decide (p ∈ mapped_pages c);
  cn_len p : 0 ≤ p < shm_pg_cnt c → length (F p) = page_sz;
  cn_in p : p ∈ mapped_pages c → pages c p = F p ∧ quiescent (dev c) p;
  cn_out p : 0 ≤ p < shm_pg_cnt c → p ∉ mapped_pages c →
    holds (dev c) (queue (dev c)) p (F p);
}.

(** Devices that differ in the list of freed buffers. *)
Definition set_freed (f : list bufid) (d : bdev) : bdev :=
  mkDev (namespace_cnt d) (g_namespaces d) (g_controllers d) (read_buf d) (seqs d) (bufs d)
    (queue d) (medium d) (polls d) f.

Lemma dev_ok_freed f d : dev_ok d → dev_ok (set_freed f d).
Proof.
  intros [H1 H2 H3 [Q1 Q2 Q3 Q4] H5 H6]. split; try done. split; try done.
  intros r Hr. by destruct (Q1 r Hr).
Qed.

Lemma reap_freed i q d : ∃ q' f, reap i q d = (q', set_freed f d).
Proof.
  revert q d. induction i as [|i IH]; intros q d; simpl.
  { exists q, (freed d). by destruct d. }
  destruct (q !! S i) as [id|]; [|apply IH]. destruct (completed id d =? 0); [apply IH|].
  assert (∃ f, state_of (seq_free id d) = set_freed f d) as (f & ->).
  { unfold seq_free. destruct (seqs d !! id) as [s|]; [|exists (freed d); by destruct d].
    destruct (is_write s); [by eexists|exists (freed d); by destruct d]. }
  destruct (IH (delete (S i) q) (set_freed f d)) as (q' & f' & ->). by exists q', f'.
Qed.

Section Evict.
Context (o : os) (env : spdk) (fuel : nat).
Context (Henv : healthy env) (Hmp : ∀ p, mprotect_rc o p ≠ -1).

(** ** The page to evict *)

Lemma cold_page_mapped c p : cold_page c = Some p → p ∈ mapped_pages c.
Proof.
  unfold cold_page. intros Hc.
  assert (∀ l t, foldl (λ t q, if bool_decide (q ∈ dist c) then t else Some q) t l = Some p →
    p ∈ l ∨ t = Some p) as Hf.
  { induction l as [|q l IH]; intros t Ht; simpl in Ht; [by right|].
    destruct (IH _ Ht) as [?|Hq]; [left; by right|].
    destruct (bool_decide (q ∈ dist c)); [by right|]. injection Hq as ->. left. left. }
  destruct (Hf _ _ Hc) as [Hin|]; [|done]. by apply elem_of_take in Hin as (i & Hi & _);
    eapply list_elem_of_lookup_2.
Qed.

Lemma target_page_mapped c :
  mapped_pages c ≠ [] → ∃ p, target_page o c = Some p ∧ p ∈ mapped_pages c.
Proof.
  intros Hne. unfold target_page. destruct (cold_page c) as [p|] eqn:E.
  - exists p. split; [done|]. by apply cold_page_mapped.
  - destruct (lookup_lt_is_Some_2 (mapped_pages c)
      (Z.to_nat (rand o (faults c) mod Z.of_nat (length (mapped_pages c))))) as [p Hp].
    + destruct (mapped_pages c) as [|q l]; [done|]. simpl length.
      pose proof (Z.mod_pos_bound (rand o (faults c)) (Z.of_nat (S (length l))) ltac:(lia)). lia.
    + exists p. split; [done|]. by eapply list_elem_of_lookup_2.
Qed.

(** ** Eviction *)

(** The part of the state that the invariant reads. *)
Definition core (c : ctrlr) :=
  (max_active_pg_cnt c, shm_pg_cnt c, used_pages c, mapped_pages c, shm_start c, pages c, prot c, dev c).

Lemma cinv_core c c' F : core c = core c' → cinv c F → cinv c' F.
Proof.
  destruct c, c'. unfold core. simpl. intros [= <- <- <- <- <- <- <- <-] [].
  simpl in *. by split.
Qed.

Lemma core_age c : core (note_dist_sz (age_dist o c)) = core c.
Proof. unfold age_dist. by destruct (dist_age c =? MAX_DIST_AGE c). Qed.

(** The core after page [p] was written to the device and protected. *)
Definition evicted (c : ctrlr) (p : Z) (d : bdev) (c' : ctrlr) : Prop :=
  core c' = (max_active_pg_cnt c, shm_pg_cnt c, wrap64 (used_pages c - 1),
             List.filter (λ q, negb (q =? p)) (mapped_pages c), shm_start c, pages c,
             (λ q, if q =? p then false else prot c q), d).

Lemma evict_core c :
  mapped_pages c ≠ [] → dev_ok (dev c) →
  (∀ p, p ∈ mapped_pages c → 0 ≤ p ∧ quiescent (dev c) p ∧ length (pages c p) = page_sz) →
  ∃ c' p d f, evict_a_page o env fuel c = Ret 0 c' ∧ p ∈ mapped_pages c
    ∧ written (dev c) p (pages c p) d ∧ evicted c p (set_freed f d) c'.
Proof.
  intros Hne Hok Hpg. pose proof (core_age c) as Hcore.
  remember (note_dist_sz (age_dist o c)) as c1 eqn:Ec1.
  injection Hcore as E1 E2 E3 E4 E5 E6 E7 E8.
  destruct (target_page_mapped c1) as (p & Ht & Hp); [congruence|]. rewrite E4 in Hp.
  destruct (Hpg p Hp) as (Hp0 & Hqu & Hlen).
  destruct (page_ns_some (dev c) p Hok Hp0) as (ns & Hns & _).
  destruct (write_page env Henv fuel (dev c) p (pages c p) ns Hok Hp0 Hqu Hlen Hns) as (d & E & _ & Hw).
  set (q := ubd_wr_cq c1 ++ [length (seqs (dev c))]).
  destruct (reap_freed (length q - 1) q d) as (q' & f & Hreap).
  eexists _, p, d, f. split_and!; [|done|done|].
  - unfold evict_a_page. unfold bind at 1, modify at 1. unfold bind at 1, modify at 1. rewrite <-Ec1.
    unfold bind at 1, get at 1. rewrite Ht. unfold bind at 1, on_dev. rewrite E8, E6.
    change (Z.shiftr page_size 9) with 8. rewrite E.
    unfold bind, modify. simpl. fold q. rewrite Hreap.
    rewrite (proj2 (Z.eqb_neq _ _) (Hmp p)). reflexivity.
  - unfold evicted, core. simpl. rewrite E1, E2, E3, E4, E5, E6, E7. done.
Qed.

Lemma filter_other_length (l : list Z) p :
  NoDup l → p ∈ l → S (length (List.filter (λ q, negb (q =? p)) l)) = length l.
Proof.
  induction 1 as [|q l Hq Hnd IH]; intros Hp; [by apply not_elem_of_nil in Hp|]. simpl.
  apply elem_of_cons in Hp as [->|Hp].
  - rewrite Z.eqb_refl. simpl. f_equal. clear IH Hnd. induction l as [|x l IH]; simpl; [done|].
    rewrite (proj2 (Z.eqb_neq x q)) by (intros ->; apply Hq; left). simpl. f_equal. apply IH.
    intros Hin. apply Hq. by right.
  - rewrite (proj2 (Z.eqb_neq q p)) by (intros ->; done). simpl. f_equal. by apply IH.
Qed.

Lemma elem_of_filter_other (l : list Z) p q :
  q ∈ List.filter (λ q, negb (q =? p)) l ↔ q ∈ l ∧ q ≠ p.
Proof.
  rewrite !list_elem_of_In, filter_In. rewrite negb_true_iff, Z.eqb_neq. done.
Qed.

Lemma NoDup_filter_other (l : list Z) p : NoDup l → NoDup (List.filter (λ q, negb (q =? p)) l).
Proof. rewrite !NoDup_ListNoDup. apply List.NoDup_filter. Qed.

(** A full cache makes room for one page; the flat memory stays. *)
Lemma evict_ok c F :
  cinv c F → mapped_pages c ≠ [] →
  ∃ c' p, evict_a_page o env fuel c = Ret 0 c' ∧ cinv c' F ∧ p ∈ mapped_pages c
    ∧ mapped_pages c' = List.filter (λ q, negb (q =? p)) (mapped_pages c)
    ∧ max_active_pg_cnt c' = max_active_pg_cnt c ∧ shm_pg_cnt c' = shm_pg_cnt c
    ∧ shm_start c' = shm_start c
    ∧ ∀ q, q ∉ mapped_pages c → quiescent (dev c) q → quiescent (dev c') q.
Proof.
  intros Hc Hne. pose proof Hc as [Hd Hst Hcnt Hnd Hrg Hu Hm Hm1 Hpr Hlen Hin Hout].
  destruct (evict_core c Hne Hd) as (c' & p & d & f & E & Hp & [W1 W2 W3 W4 W5] & Hev).
  { intros p Hp. destruct (Hin p Hp) as [-> Hq]. pose proof (Hrg p Hp). split_and!; [lia|done|auto]. }
  injection Hev as F1 F2 F3 F4 F5 F6 F7 F8. destruct (Hin p Hp) as [Hpp Hpq].
  pose proof (filter_other_length _ p Hnd Hp) as Hl.
  rewrite wrap_small in F3 by lia.
  assert (∀ q, q ∈ mapped_pages c' ↔ q ∈ mapped_pages c ∧ q ≠ p) as Hel
    by (intros q; rewrite F4; apply elem_of_filter_other).
  exists c', p. split_and!; try done.
  - split; rewrite ?F1, ?F2, ?F3, ?F5, ?F8; try done.
    + by apply dev_ok_freed.
    + rewrite F4. by apply NoDup_filter_other.
    + intros q [Hq _]%Hel. by apply Hrg.
    + rewrite F4. lia.
    + lia.
    + intros q Hq. rewrite F7. destruct (q =? p) eqn:Eq.
      * apply Z.eqb_eq in Eq as ->. symmetry. apply bool_decide_eq_false. rewrite Hel. tauto.
      * apply Z.eqb_neq in Eq. rewrite Hpr by done. apply bool_decide_ext. rewrite Hel. tauto.
    + intros q Hq%Hel. destruct Hq as [Hq Hqp]. rewrite F6. destruct (Hin q Hq) as [-> Hqq].
      split; [done|]. by apply W5.
    + intros q Hq Hnq. destruct (decide (q = p)) as [->|Hqp].
      * rewrite <-Hpp. exact W3.
      * change (holds d (queue d) q (F q)). apply W4; [done|]. apply Hout; [done|].
        intros Hq'. apply Hnq, Hel. done.
  - intros q Hq Hqq. rewrite F8. apply W5; [|done]. intros ->. done.
Qed.

(** ** Faults *)

Lemma add_mapped_new p ms : p ∉ ms → add_mapped p ms = ms ++ [p].
Proof. intros Hp. unfold add_mapped. by rewrite bool_decide_eq_false_2. Qed.

Context (Hlive : live env fuel).

(** A cache with a free frame takes a page from the device. *)
Lemma fault_ok c F p :
  cinv c F → 0 ≤ p < shm_pg_cnt c → p ∉ mapped_pages c → quiescent (dev c) p →
  used_pages c < max_active_pg_cnt c →
  let c1 := set_mapped (mapped_pages c) (wrap64 (used_pages c + 1)) (set_faults (faults c + 1) c) in
  ∃ c2, map_page_from_blkdev o env fuel (shm_start c + p * 4096) c1 = Ret (F p) c2
    ∧ (shm_start c2 = shm_start c ∧ shm_pg_cnt c2 = shm_pg_cnt c
       ∧ max_active_pg_cnt c2 = max_active_pg_cnt c)
    ∧ mapped_pages c2 = mapped_pages c ++ [p]
    ∧ cinv (set_page p (F p) (set_prot p true c2)) F.
Proof.
  intros Hc Hp Hnp Hqu Hfree. cbv zeta.
  pose proof Hc as [Hd Hst Hcnt Hnd Hrg Hu Hm Hm1 Hpr Hlen Hin Hout].
  rewrite (wrap_small 64 (used_pages c + 1)) by lia. set (c1 := set_mapped _ _ _).
  destruct (read_page env Henv fuel (dev c) p (F p) Hd) as (d' & E & Hd' & Hns & Hsub & Hk);
    [lia|done|by apply Hout|by apply Hlen|apply Hlive|].
  assert (Z.shiftl (Z.shiftr (shm_start c + p * 4096) 12) 12 = shm_start c + p * 4096) as Epf.
  { rewrite Z.shiftl_mul_pow2, Z.shiftr_div_pow2 by lia. change (2 ^ 12) with 4096.
    destruct Hst as (_ & Hmod & _). pose proof (Z.div_mod (shm_start c) 4096 ltac:(lia)).
    rewrite Z.div_add by lia. lia. }
  assert (wrap64 (shm_start c + p * 4096 - shm_start c) = p * 4096) as Eoff.
  { rewrite wrap_small; [lia|]. destruct Hst as (? & _ & ?). nia. }
  assert (Z.shiftr (p * 4096) 12 = p) as Eidx.
  { rewrite Z.shiftr_div_pow2 by lia. change (2 ^ 12) with 4096. by rewrite Z.div_mul. }
  assert (F p ≠ []) as Hnn.
  { intros EF. pose proof (Hlen p Hp) as Hl. rewrite EF in Hl. pose proof page_sz_val. simpl in Hl. lia. }
  eexists. split_and!.
  - unfold map_page_from_blkdev. rewrite Epf. unfold bind at 1, get.
    change (shm_start c1) with (shm_start c). rewrite Eoff, Eidx.
    unfold bind at 1, on_dev. change (dev c1) with (dev c). rewrite E.
    unfold bind, modify, ret. rewrite bool_decide_eq_false_2 by done. reflexivity.
  - done.
  - done.
  - done.
  - simpl. by apply add_mapped_new.
  - split; simpl; rewrite ?add_mapped_new by done; try done.
    + apply NoDup_app. split_and!; [done| |apply NoDup_singleton].
      intros q Hq ->%list_elem_of_singleton. done.
    + intros q [Hq|Hq]%elem_of_app; [by apply Hrg|]. by apply list_elem_of_singleton in Hq as ->.
    + rewrite length_app. simpl. lia.
    + lia.
    + intros q Hq. destruct (q =? p) eqn:Eq.
      * apply Z.eqb_eq in Eq as ->. symmetry. apply bool_decide_eq_true. apply elem_of_app. right.
        by apply list_elem_of_singleton.
      * apply Z.eqb_neq in Eq. rewrite Hpr by done. apply bool_decide_ext.
        rewrite elem_of_app, list_elem_of_singleton. tauto.
    + intros q Hq. destruct (q =? p) eqn:Eq.
      * apply Z.eqb_eq in Eq as ->. split; [done|]. intros r Hr. by apply Hqu, Hsub.
      * apply Z.eqb_neq in Eq. apply elem_of_app in Hq as [Hq|Hq%list_elem_of_singleton]; [|done].
        destruct (Hin q Hq) as [-> Hqq]. split; [done|]. intros r Hr. by apply Hqq, Hsub.
    + intros q Hq Hnq. apply Hk. apply Hout; [done|]. intros Hq'. apply Hnq. apply elem_of_app. by left.
Qed.

Lemma place_page c place p :
  shm_start c mod 4096 = 0 → shm_start c + p * 4096 ≤ place < shm_start c + p * 4096 + 4096 →
  place / 4096 * 4096 = shm_start c + p * 4096.
Proof.
  intros Hmod Hpl. pose proof (Z.div_mod (shm_start c) 4096 ltac:(lia)).
  pose proof (Z.div_mod place 4096 ltac:(lia)). pose proof (Z.mod_pos_bound place 4096 ltac:(lia)). lia.
Qed.

(** The eviction step of the callback. *)
Definition make_room : cmd ctrlr unit := λ c,
  (when (used_pages c =? max_active_pg_cnt c) (do! evict_a_page o env fuel in ret tt)) c.

Lemma make_room_ok c F p :
  cinv c F → p ∉ mapped_pages c → quiescent (dev c) p →
  ∃ c', make_room c = Ret tt c' ∧ cinv c' F ∧ (p ∉ mapped_pages c') ∧ quiescent (dev c') p
    ∧ used_pages c' < max_active_pg_cnt c' ∧ shm_pg_cnt c' = shm_pg_cnt c ∧ shm_start c' = shm_start c
    ∧ max_active_pg_cnt c' = max_active_pg_cnt c.
Proof.
  intros Hc Hnp Hq. unfold make_room. pose proof (cn_used _ _ Hc). pose proof (cn_max _ _ Hc).
  pose proof (cn_max1 _ _ Hc).
  destruct (used_pages c =? max_active_pg_cnt c) eqn:E; simpl.
  - apply Z.eqb_eq in E. destruct (evict_ok c F Hc) as (c' & pe & E' & Hc' & Hpe & Hms & Hmx & Hsz & Hss & Hqq).
    { intros Hnil. rewrite Hnil in *. simpl in *. lia. }
    exists c'. unfold bind. rewrite E'. split_and!; try done.
    + rewrite Hms, elem_of_filter_other. tauto.
    + by apply Hqq.
    + rewrite (cn_used _ _ Hc'), Hms, Hmx.
      pose proof (filter_other_length _ pe (cn_nodup _ _ Hc) Hpe). lia.
  - apply Z.eqb_neq in E. exists c. split_and!; try done. lia.
Qed.

Lemma notify_ok c F p :
  cinv c F → 0 ≤ p < shm_pg_cnt c → p ∉ mapped_pages c → quiescent (dev c) p →
  ∃ c2, notify_page_fault o env fuel (shm_start c + p * 4096) c = Ret (F p) c2
    ∧ (shm_start c2 = shm_start c ∧ shm_pg_cnt c2 = shm_pg_cnt c
       ∧ max_active_pg_cnt c2 = max_active_pg_cnt c)
    ∧ p ∈ mapped_pages c2 ∧ cinv (set_page p (F p) (set_prot p true c2)) F.
Proof.
  intros Hc Hp Hnp Hq.
  destruct (make_room_ok c F p Hc Hnp Hq) as (c1 & E1 & Hc1 & Hnp1 & Hq1 & Hfree & Hsz & Hss & Hmx).
  destruct (fault_ok c1 F p Hc1) as (c2 & E2 & (Hss2 & Hsz2 & Hmx2) & Hms2 & Hc2);
    [by rewrite Hsz|done..|].
  exists c2. rewrite Hss in E2. split_and!; try congruence.
  - unfold make_room, bind in E1. unfold notify_page_fault, bind, get, nvsl_assert, modify.
    rewrite (proj2 (Z.leb_le (used_pages c) (max_active_pg_cnt c))) by (apply Hc).
    unfold ret at 1. rewrite E1. exact E2.
  - rewrite Hms2. apply elem_of_app. right. by apply list_elem_of_singleton.
Qed.

(** The handler on a fault of page [p]. *)
Lemma handler_ok c F p place :
  cinv c F → 0 ≤ p < shm_pg_cnt c → p ∉ mapped_pages c → quiescent (dev c) p →
  shm_start c + p * 4096 ≤ place < shm_start c + p * 4096 + 4096 →
  ∃ c', handler o env fuel place c = Ret tt c' ∧ cinv c' F ∧ p ∈ mapped_pages c'
    ∧ shm_start c' = shm_start c ∧ shm_pg_cnt c' = shm_pg_cnt c
    ∧ max_active_pg_cnt c' = max_active_pg_cnt c.
Proof.
  intros Hc Hp Hnp Hq Hpl. destruct (cn_start _ _ Hc) as (Hs0 & Hmod & Hs63).
  destruct (notify_ok c F p Hc Hp Hnp Hq) as (c2 & E & (Hss & Hsz & Hmx) & Hin & Hc2).
  exists (set_page p (F p) (set_prot p true c2)). split_and!; try done.
  unfold handler, page_size, bind, get, modify.
  rewrite (proj2 (Z.leb_le (shm_start c) place)) by nia.
  rewrite (proj2 (Z.ltb_lt place (shm_start c + shm_pg_cnt c * 4096))) by nia. cbv beta iota zeta delta [andb].
  rewrite (place_page c place p) by done.
  replace ((shm_start c + p * 4096 - shm_start c) / 4096) with p
    by (rewrite Z.add_simpl_l, Z.div_mul; lia).
  rewrite E, (proj2 (Z.eqb_neq _ _) (Hmp p)). reflexivity.
Qed.

(** ** Accesses *)

Definition in_shm (addr : Z) (c : ctrlr) : Prop :=
  shm_start c ≤ addr < shm_start c + shm_pg_cnt c * 4096.

Lemma page_at_range addr c :
  in_shm addr c → 0 ≤ page_at addr c < shm_pg_cnt c
    ∧ shm_start c + page_at addr c * 4096 ≤ addr < shm_start c + page_at addr c * 4096 + 4096.
Proof.
  unfold in_shm, page_at. intros Ha.
  pose proof (Z.div_mod (addr - shm_start c) 4096 ltac:(lia)).
  pose proof (Z.mod_pos_bound (addr - shm_start c) 4096 ltac:(lia)). lia.
Qed.

(** The access can be served: the page is there, or no write of it is in
    flight. *)
Definition servable (addr : Z) (c : ctrlr) : Prop :=
  prot c (page_at addr c) = true ∨ quiescent (dev c) (page_at addr c).

Lemma touch_ok c F addr :
  cinv c F → in_shm addr c → servable addr c →
  ∃ c', touch o env fuel addr c = Ret tt c' ∧ cinv c' F ∧ page_at addr c ∈ mapped_pages c'
    ∧ shm_start c' = shm_start c ∧ shm_pg_cnt c' = shm_pg_cnt c
    ∧ max_active_pg_cnt c' = max_active_pg_cnt c.
Proof.
  intros Hc Ha Hs. destruct (page_at_range addr c Ha) as [Hp Hpl]. unfold touch.
  pose proof (cn_prot _ _ Hc _ Hp) as Hpr.
  destruct (prot c (page_at addr c)) eqn:E.
  - symmetry in Hpr. apply bool_decide_eq_true in Hpr. by exists c.
  - symmetry in Hpr. apply bool_decide_eq_false in Hpr. unfold servable in Hs. rewrite E in Hs.
    destruct Hs as [|Hs]; [done|]. by apply handler_ok.
Qed.

(** The flat memory after a byte store. *)
Definition flat_store (F : flat) (p off v : Z) : flat :=
  λ q, if q =? p then <[Z.to_nat off := v]> (F p) else F q.

Lemma load_ok c F addr :
  cinv c F → in_shm addr c → servable addr c →
  ∃ c', load_byte o env fuel addr c
        = Ret (nth (Z.to_nat (page_off addr c)) (F (page_at addr c)) 0) c'
    ∧ cinv c' F ∧ shm_start c' = shm_start c ∧ shm_pg_cnt c' = shm_pg_cnt c.
Proof.
  intros Hc Ha Hs. destruct (touch_ok c F addr Hc Ha Hs) as (c' & E & Hc' & Hin & Hss & Hsz & _).
  exists c'. unfold load_byte, bind, get, ret. rewrite E. unfold page_off, page_at in *. rewrite Hss.
  destruct (cn_in _ _ Hc' _ Hin) as [-> _]. done.
Qed.

Lemma store_ok c F addr v :
  cinv c F → in_shm addr c → servable addr c →
  ∃ c', store_byte o env fuel addr v c = Ret tt c'
    ∧ cinv c' (flat_store F (page_at addr c) (page_off addr c) v)
    ∧ page_at addr c ∈ mapped_pages c'
    ∧ shm_start c' = shm_start c ∧ shm_pg_cnt c' = shm_pg_cnt c.
Proof.
  intros Hc Ha Hs. destruct (touch_ok c F addr Hc Ha Hs) as (c1 & E & Hc1 & Hin & Hss & Hsz & _).
  eexists. split_and!.
  - unfold store_byte, bind, modify. rewrite E. reflexivity.
  - unfold page_at, page_off in *. rewrite Hss in *. set (p := (addr - shm_start c) / 4096) in *.
    destruct (cn_in _ _ Hc1 p Hin) as [Hpg Hq]. rewrite Hpg.
    destruct Hc1 as [Hd Hst Hcnt Hnd Hrg Hu Hm Hm1 Hpr Hlen Hin' Hout].
    split; simpl; try done; unfold flat_store.
    + intros q Hr. destruct (q =? p) eqn:Eq; [|auto]. rewrite length_insert. apply Hlen. by apply Hrg.
    + intros q Hqm. destruct (q =? p) eqn:Eq; [|auto]. apply Z.eqb_eq in Eq as ->. done.
    + intros q Hr Hnq. destruct (q =? p) eqn:Eq; [|auto]. apply Z.eqb_eq in Eq as ->. done.
  - done.
  - done.
  - done.
Qed.

(** ** Flushing *)

(** What the loop of [flush_cache] keeps, with the pages [rest] still to write. *)
Record flushing (c0 : ctrlr) (F : flat) (rest : list Z) (c : ctrlr) : Prop := {
  fl_core : core c = core (set_dev (dev c) c0);
  fl_dev : dev_ok (dev c);
  fl_quiet p : p ∈ mapped_pages c0 → quiescent (dev c) p;
  fl_holds p : 0 ≤ p < shm_pg_cnt c0 → p ∉ rest → holds (dev c) (queue (dev c)) p (F p);
}.

Definition flush_page (p : Z) : cmd ctrlr unit :=
  let! c := get in do! on_dev (write_blocking env fuel (pages c p) (p * 8) 8) in ret tt.

Lemma flush_pages_ok c0 F rest c :
  (∀ p, p ∈ mapped_pages c0 →
    0 ≤ p < shm_pg_cnt c0 ∧ pages c0 p = F p ∧ length (F p) = page_sz) →
  (∀ p, p ∈ rest → p ∈ mapped_pages c0) → flushing c0 F rest c →
  ∃ c', for_each rest flush_page c = Ret tt c' ∧ flushing c0 F [] c'.
Proof.
  intros Hc0. revert c. induction rest as [|p rest IH]; intros c Hsub Hfl; [by exists c|].
  destruct Hfl as [Hcore Hd Hq Hh]. injection Hcore as E1 E2 E3 E4 E5 E6 E7.
  assert (p ∈ mapped_pages c0) as Hp by (apply Hsub; left).
  destruct (Hc0 p Hp) as (Hr & Hpg & Hl).
  destruct (write_blocking_page env Henv fuel (dev c) p (F p) Hd) as (d & E & [W1 W2 W3 W4 W5] & Hqp);
    [lia|by apply Hq|done|apply Hlive|].
  destruct (IH (set_dev d c)) as (c' & E' & Hfl').
  { intros q Hqr. apply Hsub. by right. }
  { split; simpl.
    - unfold core. simpl. congruence.
    - done.
    - intros q Hqm. destruct (decide (q = p)) as [->|Hne]; [done|]. apply W5; auto.
    - intros q Hqr Hnq. destruct (decide (q = p)) as [->|Hne]; [done|]. apply W4; [done|].
      apply Hh; [done|]. intros [->|?]%elem_of_cons; done. }
  exists c'. split; [|done]. simpl. unfold bind at 1, flush_page, bind, get, on_dev, ret.
  rewrite E6, Hpg, E. exact E'.
Qed.

Context (Hmm : ∀ a n, mmap_result o a n = a) (Hmv : move_rc o ≠ -1) (Hpt : pthread_rc o ≠ -1).

(** [init] on a cache whose pages are all on the device. *)
Lemma init_ok c F mx :
  dev_ok (dev c) → 0 < shm_start c ∧ shm_start c mod 4096 = 0
    ∧ shm_start c + shm_pg_cnt c * 4096 < 2 ^ 63 →
  0 < shm_pg_cnt c → mapped_pages c = [] → 1 ≤ mx < 2 ^ 63 →
  (∀ p, 0 ≤ p < shm_pg_cnt c → length (F p) = page_sz
    ∧ holds (dev c) (queue (dev c)) p (F p)) →
  ∃ c', init o mx (shm_pg_cnt c) c = Ret 0 c' ∧ cinv c' F
    ∧ max_active_pg_cnt c' = mx ∧ mapped_pages c' = [] ∧ shm_start c' = shm_start c
    ∧ shm_pg_cnt c' = shm_pg_cnt c.
Proof.
  intros Hd Hst Hcnt Hms Hmx Hh. unfold init, bind, modify, get. simpl. rewrite Hmm.
  rewrite (proj2 (Z.eqb_neq (shm_start c) (-1))) by lia.
  rewrite Z.eqb_refl, andb_false_r, (proj2 (Z.eqb_neq _ _) (Hmp (-1))), (proj2 (Z.eqb_neq _ _) Hmv).
  assert (∀ run, cinv (mkCtrlr mx (shm_pg_cnt c) 0 0 (mapped_pages c) (ubd_wr_cq c) (shm_start c) (dist c)
    (dist_age c) (MAX_DIST_AGE c) (mbd_dist_sz c) run (λ _, replicate page_sz 0) (λ _, false) (dev c)) F) as Hci.
  { intros run. rewrite Hms. split; simpl; try done; try lia.
    - constructor.
    - intros p Hp. by apply not_elem_of_nil in Hp.
    - intros p Hp. apply Hh. done.
    - intros p Hp. by apply not_elem_of_nil in Hp.
    - intros p Hp _. by apply Hh. }
  destruct (monitor_thread_running c).
  - eexists. split; [reflexivity|]. split_and!; try done. apply Hci.
  - rewrite (proj2 (Z.eqb_neq _ _) Hpt). eexists. split; [reflexivity|]. split_and!; try done. apply Hci.
Qed.

(** [flush_cache], also with a limit below the number of mapped pages. *)
Lemma flush_cache_ok c F mx :
  cinv (set_sizes mx (shm_pg_cnt c) c) F → 1 ≤ max_active_pg_cnt c < 2 ^ 63 →
  ∃ c', flush_cache o env fuel c = Ret tt c' ∧ cinv c' F
    ∧ max_active_pg_cnt c' = max_active_pg_cnt c ∧ mapped_pages c' = []
    ∧ shm_start c' = shm_start c ∧ shm_pg_cnt c' = shm_pg_cnt c.
Proof.
  intros [Hd Hst Hcnt Hnd Hrg Hu Hm Hm1 Hpr Hlen Hin Hout] Hmax. simpl in *.
  destruct (flush_pages_ok c F (mapped_pages c) c) as (c1 & E & [Hcore Hd1 _ Hh]); [|done| |].
  { intros p Hp. destruct (Hin p Hp) as [Hpg _]. split_and!; auto. by apply Hrg. by apply Hrg. }
  { split; [by destruct c|done|intros p Hp; by apply Hin|done]. }
  injection Hcore as E1 E2 E3 E4 E5 E6 E7.
  set (c2 := set_mapped [] (used_pages c1) c1).
  destruct (init_ok c2 F (max_active_pg_cnt c)) as (c' & E' & Hc' & Hmx & Hms & Hss & Hsz); simpl; try done.
  { by rewrite E5, E2. }
  { by rewrite E2. }
  { rewrite E2. intros p Hp. split; [by apply Hlen|]. apply Hh; [done|]. apply not_elem_of_nil. }
  exists c'. split_and!; try done; simpl in *; try congruence.
  unfold flush_cache. unfold bind at 1, get. rewrite (proj2 (Z.eqb_neq _ _)) by lia.
  unfold bind at 1. change (for_each (mapped_pages c) _ c) with (for_each (mapped_pages c) flush_page c).
  rewrite E. unfold bind, modify. fold c2. change (shm_pg_cnt c2) with (shm_pg_cnt c1) in E'.
  rewrite E2 in E'. rewrite E'. done.
Qed.

Lemma resize_cache_ok c F n :
  cinv c F → 1 ≤ n < 2 ^ 63 →
  ∃ c', resize_cache o env fuel n c = Ret tt c' ∧ cinv c' F ∧ max_active_pg_cnt c' = n
    ∧ (n < max_active_pg_cnt c → mapped_pages c' = []).
Proof.
  intros Hc Hn. unfold resize_cache, bind, get, modify. set (c0 := set_sizes n (shm_pg_cnt c) c).
  destruct (n <? max_active_pg_cnt c) eqn:E; simpl.
  - destruct (flush_cache_ok c0 F (max_active_pg_cnt c)) as (c' & E' & Hc' & Hmx & Hms & _); [|done|].
    { by apply (cinv_core c). }
    by exists c'.
  - apply Z.ltb_ge in E. exists c0. split_and!; try done; [|lia].
    destruct Hc. split; simpl; try done; lia.
Qed.
End Evict.

(** ** Properties *)

(** The accesses of a program to the region. *)
Inductive access := Load (addr : Z) | Store (addr v : Z).

Definition acc_addr (a : access) : Z := match a with Load x => x | Store x _ => x end.

(** The flat memory: the values loaded and the memory left. *)
Fixpoint flat_run (start : Z) (F : flat) (l : list access) : list Z * flat :=
  match l with
  | [] => ([], F)
  | Load a :: l =>
      let '(vs, F') := flat_run start F l in
      (nth (Z.to_nat ((a - start) mod 4096)) (F ((a - start) / 4096)) 0 :: vs, F')
  | Store a v :: l => flat_run start (flat_store F ((a - start) / 4096) ((a - start) mod 4096) v) l
  end.

(** Runs of the paged memory, with the cache resized between accesses. *)
Inductive paged_run (o : os) (env : spdk) (fuel : nat)
  : ctrlr → list access → list Z → ctrlr → Prop :=
| pr_nil c : paged_run o env fuel c [] [] c
| pr_load c a v c1 l vs c2 :
    in_shm a c → servable a c → load_byte o env fuel a c = Ret v c1 →
    paged_run o env fuel c1 l vs c2 → paged_run o env fuel c (Load a :: l) (v :: vs) c2
| pr_store c a v c1 l vs c2 :
    in_shm a c → servable a c → store_byte o env fuel a v c = Ret tt c1 →
    paged_run o env fuel c1 l vs c2 → paged_run o env fuel c (Store a v :: l) vs c2.

(** A kernel that grants what the controller asks for. *)
Record kind_os (o : os) : Prop := {
  ko_mprotect p : mprotect_rc o p ≠ -1;
  ko_mmap a n : mmap_result o a n = a;
  ko_move : move_rc o ≠ -1;
  ko_pthread : pthread_rc o ≠ -1;
}.




(** ** A small cache *)

Module DemoCtrlr.
Import DemoDev.

Definition kind : os :=
  mkOs (λ _, []) (λ _, 0) (λ _, 0) (λ _, 0) (λ a _, a) 0 0 [].

Lemma kind_ok : kind_os kind.
Proof. by split. Qed.

(** Four pages, one of them accessible at a time, nothing mapped yet. *)
Definition c0 : ctrlr :=
  mkCtrlr 1 4 0 0 [] [] 0x100000 [] 0 100 [] true (λ _, []) (λ _, false) dev0.
Definition F0 : flat := λ _, page_of 0.

Lemma c0_inv : cinv c0 F0.
Proof.
  split; simpl; try done; try lia.
  all: try apply dev0_ok; try apply NoDup_nil_2; try (intros p _; apply page_of_length);
    try (intros p Hp; by apply not_elem_of_nil in Hp).
  intros p Hp _. apply dev0_holds. lia.
Qed.



(** A store and a load of the same byte of page 2. *)
Definition a2 : Z := 0x100000 + 2 * 4096 + 5.


(** ** A device that is slow to write

    Writes complete after fifty polls, reads at once: sequences 0 and 2 are the
    writes of the run below. *)
Definition slow : spdk :=
  mkSpdk (λ n id, match id with 0%nat | 2%nat => (50 <=? n)%nat | _ => true end)
    (λ _, false) (λ _, 0) (λ _, true) (λ _, None) (λ _, 0) (λ _ m, m).

Lemma slow_healthy : healthy slow.
Proof. by split. Qed.

Lemma slow_live : live slow 51.
Proof.
  intros id n. exists 50%nat. split; [lia|].
  assert ((50 <=? n + 50)%nat = true) as E by (apply Nat.leb_le; lia).
  by destruct id as [|[|[|id]]].
Qed.

(** Page 0 is mapped and holds 7s. *)
Definition c7 : ctrlr :=
  mkCtrlr 1 4 1 0 [0] [] 0x100000 [] 0 100 [] true (λ _, page_of 7) (λ p, p =? 0) dev0.

Definition touch1 : outcome ctrlr unit := touch kind slow 51 (0x100000 + 4096) c7.
Definition reload0 : outcome ctrlr Z := load_byte kind slow 51 0x100000 (state_of touch1).

Definition ret_val {S} (x : outcome S Z) : option Z := match x with Ret v _ => Some v | _ => None end.

(** Eviction does not wait for its write.  On a device that never fails and
    answers every request, a program that touches another page of a full cache and
    comes back loads the old contents of its page: the read of the page overtakes
    the write of the eviction, and the store is lost. *)
Theorem eviction_loses_store :
  nth 0 (pages c7 0) 0 = 7 ∧ prot c7 0 = true
  ∧ (∃ c, touch1 = Ret tt c) ∧ ret_val reload0 = Some 0.
Proof.
  split_and!.
  - vm_compute. reflexivity.
  - reflexivity.
  - vm_compute. eexists. reflexivity.
  - vm_compute. reflexivity.
Qed.
End DemoCtrlr.
