(* ===== verification/BTree.v ===== *)
(** * The B-tree of the examples (examples/btree/btree.hh, examples/btree/btree.cc)

    A B-tree of order 8 on a heap of nodes, the data structure the benchmarks
    run on the library.  A node is a struct with arrays of fixed length; the
    operations are the C++ methods, on a heap with an allocator.  [BTreeSpec]
    relates the heap to trees. *)

From stdpp Require Import base list gmap sorting.
From Stdlib Require Import ZArith Lia.
From S2P Require Import Prelude.

(** ** Data *)

Definition BTREE_ORDER : Z := 8.
Definition BTREE_MIN : Z := BTREE_ORDER / 2 - 1.

Record btree_node_item_t := mkItem { key : Z; val : Z }.

#[export] Instance item_eq_dec : EqDecision btree_node_item_t.
Proof. solve_decision. Defined.

(** [items] has seven elements, [children] eight; 0 is the null pointer. *)
Record btree_node_t := mkNode {
  count : Z;
  items : list btree_node_item_t;
  children : list Z;
}.

Record btree_t := mkBTree {
  root : Z;
  hp : gmap Z btree_node_t;
}.

Definition set_root (r : Z) (s : btree_t) : btree_t := mkBTree r (hp s).
Definition set_hp (h : gmap Z btree_node_t) (s : btree_t) : btree_t := mkBTree (root s) h.

(** ** Arrays of a node *)

(** The bytes behind the items are the children: two of them make an item. *)
Fixpoint as_items (ps : list Z) : list btree_node_item_t :=
  match ps with
  | a :: b :: ps => mkItem a b :: as_items ps
  | _ => []
  end.

Definition item_view (n : btree_node_t) : list btree_node_item_t :=
  items n ++ as_items (children n).

(** [None] is an access outside the node. *)
Definition item_at (n : btree_node_t) (i : Z) : option btree_node_item_t :=
  if 0 <=? i then item_view n !! Z.to_nat i else None.

Definition child_at (n : btree_node_t) (i : Z) : option Z :=
  if 0 <=? i then children n !! Z.to_nat i else None.

Definition put_items (its : list btree_node_item_t) (n : btree_node_t) : btree_node_t :=
  mkNode (count n) its (children n).
Definition put_children (cs : list Z) (n : btree_node_t) : btree_node_t :=
  mkNode (count n) (items n) cs.
Definition put_count (c : Z) (n : btree_node_t) : btree_node_t :=
  mkNode c (items n) (children n).

Definition put_item (i : Z) (it : btree_node_item_t) (n : btree_node_t) : option btree_node_t :=
  if (0 <=? i) && (i <? BTREE_ORDER - 1)
  then Some (put_items (<[Z.to_nat i := it]> (items n)) n) else None.

Definition put_child (i : Z) (p : Z) (n : btree_node_t) : option btree_node_t :=
  if (0 <=? i) && (i <? BTREE_ORDER)
  then Some (put_children (<[Z.to_nat i := p]> (children n)) n) else None.

(** [memmove] of [k] elements from index [src] of [from] to index [dst] of [to]. *)
Definition splice {A} (dst src k : nat) (from to : list A) : list A :=
  take dst to ++ take k (drop src from) ++ drop (dst + k) to.

Definition in_bounds (i k n : Z) : bool := (0 <=? i) && (0 <=? k) && (i + k <=? n).

(** [memmove(&items[dst], &items[src], sizeof(item) * k)]. *)
Definition move_items (dst src k : Z) (n : btree_node_t) : option btree_node_t :=
  if in_bounds dst k 7 && in_bounds src k 11
  then Some (put_items (splice (Z.to_nat dst) (Z.to_nat src) (Z.to_nat k) (item_view n) (items n)) n)
  else None.

Definition move_children (dst src k : Z) (n : btree_node_t) : option btree_node_t :=
  if in_bounds dst k 8 && in_bounds src k 8
  then Some (put_children (splice (Z.to_nat dst) (Z.to_nat src) (Z.to_nat k) (children n) (children n)) n)
  else None.

(** ** Methods of the node *)

Definition node_init (n : btree_node_t) : btree_node_t := put_count 0 n.

Definition set_item (pos : Z) (item : btree_node_item_t) (n : btree_node_t) : option btree_node_t :=
  n ← put_item pos item n; Some (put_count (wrap64 (count n + 1)) n).

Definition node_clear (pos : Z) (n : btree_node_t) : option btree_node_t :=
  put_item pos (mkItem 0 0) n.

(** Guards the two macros of the header. *)
Definition NODE_CONTAINS_ITEM (n : btree_node_t) (i k : Z) : option bool :=
  if i =? count n then Some false else it ← item_at n i; Some (key it =? k).

Definition NODE_CHILD_CAN_CONTAIN_ITEM (n : btree_node_t) (i k : Z) : option bool :=
  below ← (if i =? count n then Some true else it ← item_at n i; Some (k <? key it));
  if (below : bool) then c ← child_at n i; Some (negb (c =? 0)) else Some false.

Section Methods.
(** The allocator of the mapped file: where the next node goes, and what its
    memory holds. *)
Context (fresh : gmap Z btree_node_t → Z) (raw : gmap Z btree_node_t → btree_node_t).

(** Dereferencing a pointer. *)
Definition load (p : Z) : cmd btree_t btree_node_t := λ s,
  match hp s !! p with Some n => Ret n s | None => Trap s end.
Definition write (p : Z) (n : btree_node_t) : cmd btree_t unit := modify (λ s,
  set_hp (<[p := n]> (hp s)) s).
Definition lift {A} (o : option A) : cmd btree_t A :=
  match o with Some a => ret a | None => trap end.
(** Change the node at [p]. *)
Definition update (p : Z) (f : btree_node_t → option btree_node_t) : cmd btree_t unit :=
  let! n := load p in
  let! n := lift (f n) in
  write p n.

Definition allocate : cmd btree_t Z := λ s,
  let p := fresh (hp s) in
  Ret p (set_hp (<[p := raw (hp s)]> (hp s)) s).
Definition deallocate (p : Z) : cmd btree_t unit := λ s,
  match hp s !! p with Some _ => Ret tt (set_hp (delete p (hp s)) s) | None => Trap s end.

(** ** Methods of the tree *)

Definition init : cmd btree_t unit := modify (set_root 0).

(** The recursion of [clear_node]: children before [count], then the node. *)
Fixpoint clear_node (fuel : nat) (node : Z) : cmd btree_t unit :=
  match fuel with
  | O => trap
  | S fuel =>
      if node =? 0 then ret tt
      else
        let! n := load node in
        do! for_each (seqZ 0 (count n)) (λ i,
              let! n := load node in
              let! c := lift (child_at n i) in
              clear_node fuel c) in
        deallocate node
  end.

Definition clear (fuel : nat) : cmd btree_t Z :=
  let! s := get in
  do! clear_node fuel (root s) in
  do! modify (set_root 0) in
  ret 0.

Definition insert_node_empty_tree (item : btree_node_item_t) : cmd btree_t unit :=
  let! s := get in
  do! when (root s =? 0) (let! p := allocate in modify (set_root p)) in
  let! s := get in
  do! update (root s) (λ n, Some (node_init n)) in
  update (root s) (set_item 0 item).

(** Both shifts of [insert_node], when the slot is taken. *)
Definition make_room (pos : Z) (n : btree_node_t) : option btree_node_t :=
  it ← item_at n pos;
  if key it =? 0 then Some n
  else
    n ← move_items (pos + 1) pos (BTREE_ORDER - 2 - pos) n;
    move_children (pos + 1) pos (BTREE_ORDER - 1 - pos) n.

Definition insert_node (node pos : Z) (item : btree_node_item_t) (left right : Z)
    : cmd btree_t unit :=
  do! update node (make_room pos) in
  do! update node (put_child pos left) in
  do! update node (put_child (pos + 1) right) in
  update node (set_item pos item).

(** One turn of the loop of [split_node] on the node and its new right sibling,
    which are different objects. *)
Definition split_step (c : Z) (st : option (btree_node_t * btree_node_t)) (i : Z)
    : option (btree_node_t * btree_node_t) :=
  '(node, rsib) ← st;
  '(node, rsib) ←
    (if i =? BTREE_ORDER - 1 then Some (node, rsib)
     else
       it ← item_at node i;
       rsib ← put_item (count rsib) it rsib;
       node ← node_clear i node;
       Some (node, put_count (count rsib + 1) rsib));
  p ← child_at node i;
  rsib ← put_child (i - c) p rsib;
  node ← put_child i 0 node;
  Some (node, rsib).

Definition split_node (node : Z) : cmd btree_t (Z * btree_node_item_t) :=
  let! rsib := allocate in
  do! update rsib (λ n, Some (node_init n)) in
  let c := BTREE_ORDER / 2 in
  let! n := load node in
  let! r := load rsib in
  let! item := lift (item_at n (c - 1)) in
  let! n := lift (node_clear (c - 1) n) in
  let! nr := lift (foldl (split_step c) (Some (n, r)) (seqZ c (BTREE_ORDER - c))) in
  do! write node (put_count (c - 1) (fst nr)) in
  do! write rsib (snd nr) in
  ret (rsib, item).

(** The first part of [find_dest_node]: split a full node; the node to go on
    with. *)
Definition split_full (node parent k pos : Z) : cmd btree_t Z :=
  let! n := load node in
  if count n =? BTREE_ORDER - 1 then
    let! rm := split_node node in
    let '(rsib, m) := rm in
    if negb (parent =? 0) then
      do! insert_node parent pos m node rsib in
      ret (if key m <? k then rsib else node)
    else
      let! up := allocate in
      do! update up (λ n, Some (node_init n)) in
      do! update up (λ n, Some (put_count 1 n)) in
      do! update up (put_item 0 m) in
      do! update up (put_child 0 node) in
      do! update up (put_child 1 rsib) in
      do! modify (set_root up) in
      ret up
  else ret node.

(** The loop: the first position whose key is greater, or the end; [None] when
    the loop runs out. *)
Fixpoint scan_pos (n : btree_node_t) (k : Z) (ixs : list Z) : option (option Z) :=
  match ixs with
  | [] => Some None
  | i :: ixs =>
      if count n =? i then Some (Some i)
      else it ← item_at n i;
           if k <? key it then Some (Some i) else scan_pos n k ixs
  end.

(** The destination node and the position in it. *)
Fixpoint find_dest_node (fuel : nat) (node parent k pos : Z) : cmd btree_t (Z * Z) :=
  match fuel with
  | O => trap
  | S fuel =>
      let! node := split_full node parent k pos in
      let! n := load node in
      let! r := lift (scan_pos n k (seqZ 0 (BTREE_ORDER - 1))) in
      match r with
      | Some i =>
          let! c := lift (child_at n i) in
          if c =? 0 then ret (node, i) else find_dest_node fuel c node k i
      | None =>
          let! c := lift (child_at n (BTREE_ORDER - 1)) in
          find_dest_node fuel c node k (BTREE_ORDER - 2)
      end
  end.

Definition insert_item (node pos : Z) (item : btree_node_item_t) : cmd btree_t unit :=
  do! update node (λ n,
    it ← item_at n pos;
    if key it =? 0 then Some n else move_items (pos + 1) pos (BTREE_ORDER - 2 - pos) n) in
  update node (set_item pos item).

Definition is_empty : cmd btree_t bool :=
  let! s := get in
  if root s =? 0 then ret true else let! n := load (root s) in ret (count n =? 0).

Definition insert (fuel : nat) (k value : Z) : cmd btree_t Z :=
  let item := mkItem k value in
  let! e := is_empty in
  if e then do! insert_node_empty_tree item in ret 0
  else
    let! s := get in
    let! d := find_dest_node fuel (root s) 0 k 0 in
    do! insert_item (fst d) (snd d) item in
    ret 0.

(** ** Removal *)

Definition rotate_right (rsb node parent pos : Z) : cmd btree_t unit :=
  let! pn := load parent in
  let! sep := lift (item_at pn pos) in
  let! n := load node in
  do! insert_item node (count n) sep in
  let! r := load rsb in
  let! it := lift (item_at r 0) in
  do! update parent (put_item pos it) in
  let! n := load node in
  let! r := load rsb in
  let! c := lift (child_at r 0) in
  do! update node (put_child (count n) c) in
  do! update rsb (λ r, Some (put_count (wrap64 (count r - 1)) r)) in
  do! update rsb (λ r, move_items 0 1 (count r) r) in
  update rsb (λ r, move_children 0 1 (count r + 1) r).

Definition rotate_left (lsb node parent pos : Z) : cmd btree_t unit :=
  let! pn := load parent in
  let! sep := lift (item_at pn (pos - 1)) in
  do! insert_item node 0 sep in
  let! l := load lsb in
  let! it := lift (item_at l (count l - 1)) in
  do! update parent (put_item (pos - 1) it) in
  do! update node (λ n, move_children 1 0 (count n) n) in
  let! l := load lsb in
  let! c := lift (child_at l (count l)) in
  do! update node (put_child 0 c) in
  update lsb (λ l, Some (put_count (wrap64 (count l - 1)) l)).

(** [memcpy] of the items and children of [rn] behind those of the node. *)
Definition append_node (rn : btree_node_t) (n : btree_node_t) : option btree_node_t :=
  if in_bounds (count n) (count rn) 7 && in_bounds (count n) (count rn + 1) 8
     && in_bounds 0 (count rn) 7 then
    let at_ := Z.to_nat (count n) in
    Some (mkNode (count n + count rn)
            (splice at_ 0 (Z.to_nat (count rn)) (items rn) (items n))
            (splice at_ 0 (Z.to_nat (count rn + 1)) (children rn) (children n)))
  else None.

Definition merge (rn node parent pos : Z) : cmd btree_t unit :=
  let! pn := load parent in
  let! sep := lift (item_at pn pos) in
  do! update node (λ n, set_item (count n) sep n) in
  let! r := load rn in
  do! update node (append_node r) in
  do! deallocate rn in
  do! update parent (λ n, Some (put_count (wrap64 (count n - 1)) n)) in
  do! update parent (λ n, move_items pos (pos + 1) (wrap64 (count n - pos)) n) in
  do! update parent (λ n, move_children (pos + 1) (pos + 2) (wrap64 (count n - pos + 1)) n) in
  let! pn := load parent in
  let! s := get in
  when ((count pn =? 0) && (parent =? root s))
    (do! deallocate (root s) in modify (set_root node)).

Definition rebalance (node parent pos : Z) : cmd btree_t unit :=
  let! pn := load parent in
  let! rsb := (if count pn <=? pos then ret 0 else lift (child_at pn (pos + 1))) in
  let! lsb := (if pos =? 0 then ret 0 else lift (child_at pn (pos - 1))) in
  let big (p : Z) : cmd btree_t bool :=
    (if p =? 0 then ret false else let! n := load p in ret (BTREE_MIN <? count n)) in
  let! br := big rsb in
  if br then rotate_right rsb node parent pos
  else
    let! bl := big lsb in
    if bl then rotate_left lsb node parent pos
    else if rsb =? 0 then merge node lsb parent (pos - 1)
    else merge rsb node parent pos.

(** The leaf and its parent. *)
Fixpoint get_leftmost_leaf (fuel : nat) (node parent : Z) : cmd btree_t (Z * Z) :=
  match fuel with
  | O => trap
  | S fuel =>
      let! n := load node in
      let! c := lift (child_at n 0) in
      if c =? 0 then ret (node, parent) else get_leftmost_leaf fuel c node
  end.

(** The removal of item [pos] from a leaf. *)
Definition remove_from_leaf (pos : Z) (n : btree_node_t) : option btree_node_t :=
  n ← (if (count n =? 1) || (pos =? BTREE_ORDER - 2) then node_clear pos n
       else move_items pos (pos + 1) (wrap64 (count n - pos)) n);
  Some (put_count (wrap64 (count n - 1)) n).

Fixpoint remove_from_node (fuel : nat) (node parent pos : Z) : cmd btree_t unit :=
  match fuel with
  | O => trap
  | S fuel =>
      let! n := load node in
      let! c0 := lift (child_at n 0) in
      if c0 =? 0 then update node (remove_from_leaf pos)
      else
        let! rchild := lift (child_at n (pos + 1)) in
        let! lmlp := get_leftmost_leaf fuel rchild node in
        let '(lm, lp) := lmlp in
        let! l := load lm in
        let! it := lift (item_at l 0) in
        do! update node (put_item pos it) in
        do! remove_from_node fuel lm lp 0 in
        let! l := load lm in
        when (count l <? BTREE_MIN) (rebalance lm lp (if lp =? node then pos + 1 else 0))
  end.

(** The loop of [remove_item] stops at the first position [pick] decides on. *)
Inductive pick := PickItem (i : Z) | PickChild (i : Z) | PickNone.

Fixpoint pick_pos (n : btree_node_t) (k : Z) (ixs : list Z) : option pick :=
  match ixs with
  | [] => Some PickNone
  | i :: ixs =>
      a ← NODE_CONTAINS_ITEM n i k;
      if (a : bool) then Some (PickItem i)
      else
        b ← NODE_CHILD_CAN_CONTAIN_ITEM n i k;
        if (b : bool) then Some (PickChild i) else pick_pos n k ixs
  end.

Definition positions (n : btree_node_t) : list Z := seqZ 0 (count n + 1).

Fixpoint remove_item (fuel : nat) (node parent k pos : Z) : cmd btree_t Z :=
  match fuel with
  | O => trap
  | S fuel =>
      let! n := load node in
      let! d := lift (pick_pos n k (positions n)) in
      let! r :=
        match d with
        | PickItem i =>
            let! it := lift (item_at n i) in
            do! remove_from_node fuel node parent i in
            ret (val it)
        | PickChild i =>
            let! c := lift (child_at n i) in
            remove_item fuel c node k i
        | PickNone => ret 0
        end in
      do! when (negb (parent =? 0))
            (let! n := load node in
             when (count n <? BTREE_MIN) (rebalance node parent pos)) in
      ret r
  end.

Definition remove (fuel : nat) (k : Z) : cmd btree_t Z :=
  let! s := get in remove_item fuel (root s) 0 k 0.

(** ** Lookup and iteration *)

Fixpoint get_in_node (fuel : nat) (node k : Z) : cmd btree_t Z :=
  match fuel with
  | O => trap
  | S fuel =>
      let! n := load node in
      let! d := lift (pick_pos n k (positions n)) in
      match d with
      | PickItem i => let! it := lift (item_at n i) in ret (val it)
      | PickChild i => let! c := lift (child_at n i) in get_in_node fuel c k
      | PickNone => ret 0
      end
  end.

Definition btree_get (fuel : nat) (k : Z) : cmd btree_t Z :=
  let! s := get in
  if root s =? 0 then ret 0 else get_in_node fuel (root s) k.

Fixpoint lookup_in_node (fuel : nat) (node k : Z) : cmd btree_t Z :=
  match fuel with
  | O => trap
  | S fuel =>
      let! n := load node in
      let! d := lift (pick_pos n k (positions n)) in
      match d with
      | PickItem i => ret 1
      | PickChild i => let! c := lift (child_at n i) in lookup_in_node fuel c k
      | PickNone => ret 0
      end
  end.

Definition btree_map_lookup (fuel : nat) (k : Z) : cmd btree_t Z :=
  let! s := get in
  if root s =? 0 then ret 0 else lookup_in_node fuel (root s) k.

(** The callback gets and returns its argument; a result other than 0 stops the
    iteration. *)
Section Foreach.
Context {A : Type} (cb : Z → Z → A → A * Z).

(** One turn of the loop: the child, then the item. *)
Definition foreach_step (rec : Z → A → cmd btree_t (A * Z)) (n : btree_node_t)
    (st : cmd btree_t (A * Z)) (i : Z) : cmd btree_t (A * Z) :=
  let! st := st in
  let '(a, rc) := st in
  if negb (rc =? 0) then ret (a, rc)
  else
    let! c := lift (child_at n i) in
    let! r := rec c a in
    let '(a, rc) := r in
    if negb (rc =? 0) then ret (a, 1)
    else if i =? count n then ret (a, 0)
    else
      let! it := lift (item_at n i) in
      if key it =? 0 then ret (a, 0)
      else let '(a, rc) := cb (key it) (val it) a in
           ret (a, if rc =? 0 then 0 else 1).

Fixpoint foreach_node (fuel : nat) (node : Z) (a : A) : cmd btree_t (A * Z) :=
  match fuel with
  | O => trap
  | S fuel =>
      if node =? 0 then ret (a, 0)
      else
        let! n := load node in
        foldl (foreach_step (foreach_node fuel) n) (ret (a, 0)) (positions n)
  end.

Definition foreach (fuel : nat) (a : A) : cmd btree_t (A * Z) :=
  let! s := get in foreach_node fuel (root s) a.
End Foreach.
End Methods.
