(* ===== verification/BTreeSpec.v ===== *)
(** * Correctness of the B-tree

    [shape h d t]: the heap [h] holds the tree [t], all of whose leaves are at
    depth [d] and whose nodes other than the root have at least [BTREE_MIN]
    items.  [represents] adds that the bindings are in key order.  Insertion keeps
    the invariant and adds one binding; get, lookup and foreach read the
    bindings. *)

From stdpp Require Import base list gmap sorting.
From Stdlib Require Import ZArith Lia.
From S2P Require Import Prelude BTree.

Abbreviation item := btree_node_item_t.
Abbreviation heap := (gmap Z btree_node_t).

(** ** Trees *)

Inductive tree := Node (p : Z) (its : list item) (cs : list tree).

Definition ptr (t : tree) : Z := let '(Node p _ _) := t in p.
Definition titems (t : tree) : list item := let '(Node _ its _) := t in its.

(** Lists between which the items stand. *)
Fixpoint weave (its : list item) (ls : list (list item)) {struct ls} : list item :=
  match ls with
  | [] => its
  | l :: ls => l ++ match its with [] => [] | it :: its => it :: weave its ls end
  end.

(** The bindings of a tree, in order. *)
Fixpoint flatten (t : tree) : list item :=
  let '(Node _ its cs) := t in weave its (List.map flatten cs).

Fixpoint nodes (t : tree) : list Z :=
  let '(Node p _ cs) := t in p :: List.concat (List.map nodes cs).

(** The node [n] has the items [its] and, unless it is a leaf, the children
    [ps]. *)
Record holds (n : btree_node_t) (its : list item) (ps : list Z) : Prop := {
  ho_count : count n = Z.of_nat (length its);
  ho_items : ∃ r, items n = its ++ r;
  ho_li : length (items n) = 7%nat;
  ho_lc : length (children n) = 8%nat;
  ho_children : ∃ r, children n = ps ++ r;
  ho_leaf : ps = [] → children n = replicate 8 0;
  ho_null : Forall (λ p, p ≠ 0) ps;
  ho_keys : Forall (λ it, key it ≠ 0) its;
}.

Inductive shape (h : heap) : nat → tree → Prop :=
| shape_leaf p n its :
    p ≠ 0 → h !! p = Some n → holds n its [] → shape h 0 (Node p its [])
| shape_node d p n its cs :
    p ≠ 0 → h !! p = Some n → holds n its (ptr <$> cs) → length cs = S (length its) →
    Forall (shape h d) cs → Forall (λ c, 3 ≤ length (titems c))%nat cs →
    shape h (S d) (Node p its cs).

Definition key_le (a b : item) : Prop := key a ≤ key b.
Abbreviation in_order := (StronglySorted key_le).

(** ** Ordered lists *)

Lemma in_order_app l1 l2 :
  in_order (l1 ++ l2)
  ↔ in_order l1 ∧ in_order l2 ∧ ∀ a b, a ∈ l1 → b ∈ l2 → key_le a b.
Proof.
  induction l1 as [|x l1 IH]; simpl.
  { split; [|tauto]. intros. split_and!; [constructor|done|]. intros a b Ha. by apply elem_of_nil in Ha. }
  split.
  - intros Hs. apply StronglySorted_inv in Hs as [Hs Hx]. apply IH in Hs as (H1 & H2 & H3).
    rewrite Forall_forall in Hx. split_and!; [|done|].
    + constructor; [done|]. apply Forall_forall. set_solver.
    + intros a b [->|Ha]%elem_of_cons Hb; [apply Hx; set_solver|by apply H3].
  - intros (H1 & H2 & H3). apply StronglySorted_inv in H1 as [H1 Hx]. constructor.
    + apply IH. split_and!; [done..|]. intros a b Ha Hb. apply H3; set_solver.
    + apply Forall_app. split; [done|]. apply Forall_forall. intros b Hb. apply H3; set_solver.
Qed.

(** Replacing the middle by a list with one more binding, whose key fits. *)
Lemma in_order_insert pre l post l' it :
  in_order (pre ++ l ++ post) → in_order l' → l' ≡ₚ it :: l →
  (∀ a, a ∈ pre → key_le a it) → (∀ b, b ∈ post → key_le it b) →
  in_order (pre ++ l' ++ post).
Proof.
  rewrite !in_order_app. intros (H1 & (H2 & H3 & H4) & H5) Hl' Hp Hpre Hpost.
  split_and!; try done.
  - intros a b. rewrite Hp. intros [->|Ha]%elem_of_cons Hb; [by apply Hpost|by apply H4].
  - intros a b Ha. rewrite elem_of_app, Hp. intros [[->|Hb]%elem_of_cons|Hb].
    + by apply Hpre. + apply H5; set_solver. + apply H5; set_solver.
Qed.

Lemma length_S_inv_nil {A} (l : list A) : length l = 1%nat → ∃ a, l = [a].
Proof. destruct l as [|a [|]]; try done. eauto. Qed.

(** ** Weaving *)

Definition left_of (its : list item) (ls : list (list item)) : list item :=
  List.concat (zip_with (λ l it, l ++ [it]) ls its).
Definition right_of (its : list item) (ls : list (list item)) : list item :=
  List.concat (zip_with (λ it l, it :: l) its ls).

Lemma weave_right its l ls :
  length ls = length its → weave its (l :: ls) = l ++ right_of its ls.
Proof.
  unfold right_of. revert l ls. induction its as [|it its IH]; intros l [|l' ls] Hl; try done.
  simpl in Hl. injection Hl as Hl. simpl weave at 1.
  change (match ls with [] => its | l0 :: ls0 => _ end) with (weave its ls).
  specialize (IH l' ls Hl). simpl in *. by rewrite IH.
Qed.

Lemma weave_split its1 its2 ls1 l ls2 :
  length ls1 = length its1 → length ls2 = length its2 →
  weave (its1 ++ its2) (ls1 ++ l :: ls2) = left_of its1 ls1 ++ l ++ right_of its2 ls2.
Proof.
  unfold left_of. revert ls1. induction its1 as [|it its1 IH]; intros [|l1 ls1] H1 H2; try done.
  - simpl app. by rewrite weave_right.
  - simpl in H1. injection H1 as H1. cbn [app weave zip_with List.concat].
    rewrite IH by done. by rewrite <-!app_assoc.
Qed.

(** A separator between two lists. *)
Lemma weave_split2 its1 m its2 ls1 la lb ls2 :
  length ls1 = length its1 → length ls2 = length its2 →
  weave (its1 ++ m :: its2) (ls1 ++ la :: lb :: ls2)
  = weave (its1 ++ its2) (ls1 ++ (la ++ m :: lb) :: ls2).
Proof.
  intros H1 H2. rewrite (weave_split its1 (m :: its2) ls1 la (lb :: ls2)) by (simpl; lia).
  rewrite weave_split by done. unfold right_of. simpl. by rewrite <-!app_assoc.
Qed.

(** Cutting at a separator. *)
Lemma weave_cat a m b la lb :
  length la = S (length a) → weave (a ++ m :: b) (la ++ lb) = weave a la ++ m :: weave b lb.
Proof.
  revert la. induction a as [|x a IH]; intros la Hl.
  - destruct (length_S_inv_nil la Hl) as [l ->]. simpl. by rewrite app_nil_r.
  - destruct la as [|l la]; [done|]. simpl in Hl. injection Hl as Hl.
    cbn [app weave]. rewrite IH by done. by rewrite <-app_assoc.
Qed.

Lemma left_of_le its ls k :
  length ls = length its → in_order (left_of its ls) → Forall (λ it, key it ≤ k) its →
  ∀ a, a ∈ left_of its ls → key a ≤ k.
Proof.
  unfold left_of. revert ls. induction its as [|it its IH]; intros [|l ls] Hl Hs Hk a; try done;
    simpl in *; [set_solver|].
  apply Forall_cons in Hk as [Hit Hk]. rewrite !in_order_app in Hs.
  destruct Hs as ((_ & _ & H1) & H2 & _). rewrite !elem_of_app, list_elem_of_singleton.
  intros [[Ha| ->]|Ha]; [|done|by apply (IH ls); [lia|..]].
  specialize (H1 a it Ha ltac:(set_solver)). unfold key_le in H1. lia.
Qed.

Lemma right_of_ge its ls k :
  length ls = length its → in_order (right_of its ls) → Forall (λ it, k ≤ key it) its →
  ∀ b, b ∈ right_of its ls → k ≤ key b.
Proof.
  unfold right_of. revert ls. induction its as [|it its IH]; intros [|l ls] Hl Hs Hk b; try done;
    simpl in *; [set_solver|].
  apply Forall_cons in Hk as [Hit Hk]. apply StronglySorted_inv in Hs as [Hs Hx].
  rewrite in_order_app in Hs. destruct Hs as (_ & H2 & _). rewrite elem_of_cons, elem_of_app.
  intros [->|[Hb|Hb]]; [done| |by apply (IH ls); [lia|..]].
  rewrite Forall_forall in Hx. specialize (Hx b ltac:(set_solver)). unfold key_le in Hx. lia.
Qed.

(** How many items have a key at most [k]. *)
Fixpoint rank (k : Z) (its : list item) : nat :=
  match its with
  | [] => 0
  | it :: its => if k <? key it then 0 else S (rank k its)
  end.

Lemma rank_le k its : (rank k its ≤ length its)%nat.
Proof. induction its as [|it its IH]; simpl; [lia|]. destruct (k <? key it); lia. Qed.

Lemma rank_split k its :
  in_order its →
  Forall (λ it, key it ≤ k) (take (rank k its) its) ∧ Forall (λ it, k ≤ key it) (drop (rank k its) its).
Proof.
  induction its as [|it its IH]; simpl; intros Hs; [by split|].
  apply StronglySorted_inv in Hs as [Hs Hx]. destruct (k <? key it) eqn:E; simpl.
  - split; [done|]. constructor; [lia|]. eapply Forall_impl; [exact Hx|].
    unfold key_le. simpl. lia.
  - destruct (IH Hs) as [H1 H2]. split; [constructor; [lia|done]|done].
Qed.

(** The items of a node are in order. *)
Lemma weave_items_sorted its ls : in_order (weave its ls) → length ls = S (length its) → in_order its.
Proof.
  revert ls. induction its as [|it its IH]; intros [|l ls] Hs Hl; try done; [constructor|].
  simpl in Hs, Hl. apply in_order_app in Hs as (_ & Hs & _). apply StronglySorted_inv in Hs as [Hs Hx].
  constructor; [apply (IH ls); [done|lia]|].
  apply Forall_forall. intros x Hin. rewrite Forall_forall in Hx. apply Hx.
  clear -Hin. revert ls. induction its as [|it' its IH']; intros ls; [set_solver|].
  destruct ls as [|l' ls]; simpl; [done|]. apply elem_of_cons in Hin as [->|Hin]; [set_solver|].
  rewrite elem_of_app. right. right. by apply IH'.
Qed.

(** ** Nodes *)

Lemma nat_leb (i : nat) : (0 <=? Z.of_nat i) = true.
Proof. apply Z.leb_le. lia. Qed.

Lemma holds_room n its ps : holds n its ps → (length its ≤ 7)%nat.
Proof. intros [Hc [r Hi] Hl]. rewrite Hi, length_app in Hl. lia. Qed.

Lemma item_view_lookup n i : (i < length (items n))%nat → item_view n !! i = items n !! i.
Proof. intros. unfold item_view. by rewrite lookup_app_l. Qed.

Lemma holds_item n its ps (i : nat) it :
  holds n its ps → its !! i = Some it → item_at n (Z.of_nat i) = Some it.
Proof.
  intros [Hc [r Hi] Hl] Hit. apply lookup_lt_Some in Hit as Hlt. unfold item_at.
  rewrite nat_leb. rewrite Nat2Z.id.
  rewrite item_view_lookup by (rewrite Hi, length_app; lia). by rewrite Hi, lookup_app_l.
Qed.

Lemma holds_some_item n its ps (i : nat) :
  holds n its ps → (i < 7)%nat → ∃ it, item_at n (Z.of_nat i) = Some it.
Proof.
  intros Hh Hi. unfold item_at. rewrite nat_leb.
  rewrite Nat2Z.id, item_view_lookup by by rewrite (ho_li _ _ _ Hh).
  apply lookup_lt_is_Some. by rewrite (ho_li _ _ _ Hh).
Qed.

Lemma holds_child n its ps (i : nat) p :
  holds n its ps → ps !! i = Some p → child_at n (Z.of_nat i) = Some p.
Proof.
  intros [_ _ _ _ [r Hc]] Hp. unfold child_at. rewrite nat_leb.
  apply lookup_lt_Some in Hp as Hlt. by rewrite Nat2Z.id, Hc, lookup_app_l.
Qed.

Lemma leaf_child n its (i : nat) :
  holds n its [] → (i < 8)%nat → child_at n (Z.of_nat i) = Some 0.
Proof.
  intros Hh Hi. unfold child_at. rewrite nat_leb.
  rewrite (ho_leaf _ _ _ Hh eq_refl), Nat2Z.id. by apply lookup_replicate_2.
Qed.

Lemma scan_pos_from n its ps k (j : nat) :
  holds n its ps → (length its ≤ 6)%nat → (j ≤ length its)%nat →
  scan_pos n k (seqZ (Z.of_nat j) (7 - Z.of_nat j))
  = Some (Some (Z.of_nat (j + rank k (drop j its)))).
Proof.
  intros Hh H6. remember (length its - j)%nat as m eqn:Hm. revert j Hm.
  induction m as [|m IH]; intros j Hm Hj; rewrite seqZ_cons by lia; cbn [scan_pos];
    rewrite (ho_count _ _ _ Hh).
  - rewrite (proj2 (Z.eqb_eq _ _)) by lia. rewrite drop_ge by lia. simpl. do 2 f_equal. lia.
  - rewrite (proj2 (Z.eqb_neq _ _)) by lia.
    destruct (lookup_lt_is_Some_2 its j) as [it Hit]; [lia|].
    rewrite (holds_item n its ps j it) by done. cbn [mbind option_bind].
    rewrite (drop_S its it j) by done. simpl rank. destruct (k <? key it) eqn:E.
    + do 2 f_equal. lia.
    + replace (Z.succ (Z.of_nat j)) with (Z.of_nat (S j)) by lia.
      replace (Z.pred (7 - Z.of_nat j)) with (7 - Z.of_nat (S j)) by lia.
      rewrite IH by lia. do 2 f_equal. lia.
Qed.

Lemma scan_pos_rank n its ps k :
  holds n its ps → (length its ≤ 6)%nat →
  scan_pos n k (seqZ 0 (BTREE_ORDER - 1)) = Some (Some (Z.of_nat (rank k its))).
Proof. intros Hh H6. apply (scan_pos_from n its ps k 0 Hh H6). lia. Qed.

(** *** Inserting into the arrays *)

(** The array after the shift from [i] and the store at [i]. *)
Lemma shift_store {A} (l x : list A) (i k : nat) (a : A) :
  length l = S (i + k) →
  <[i := a]> (splice (S i) i k (l ++ x) l) = take i l ++ a :: take k (drop i l).
Proof.
  intros Hl. unfold splice. rewrite drop_app_le by lia. rewrite take_app_le by (rewrite length_drop; lia).
  rewrite (drop_ge l (S i + k)) by lia. rewrite app_nil_r.
  rewrite insert_take_drop by (rewrite length_app, length_take; lia).
  rewrite take_app_le by (rewrite length_take; lia). rewrite take_take, Nat.min_l by lia.
  f_equal. f_equal. rewrite drop_app_ge by (rewrite length_take; lia).
  rewrite length_take, Nat.min_l by lia. by rewrite Nat.sub_diag.
Qed.

(** In terms of the occupied prefix [p] of the array. *)
Lemma shift_store_prefix {A} (p r x : list A) (i k : nat) (a : A) :
  length (p ++ r) = S (i + k) → (i ≤ length p)%nat → (length p ≤ i + k)%nat →
  ∃ r', <[i := a]> (splice (S i) i k ((p ++ r) ++ x) (p ++ r)) = (take i p ++ a :: drop i p) ++ r'.
Proof.
  intros Hl Hi Hp. rewrite shift_store by done.
  rewrite (take_app_le p) by done. rewrite (drop_app_le p) by done.
  rewrite take_app_ge by (rewrite length_drop; lia).
  eexists. rewrite <-app_assoc. reflexivity.
Qed.

(** A store behind the occupied prefix. *)
Lemma store_end {A} (p r : list A) (a : A) :
  r ≠ [] → ∃ r', <[length p := a]> (p ++ r) = (p ++ [a]) ++ r'.
Proof.
  intros Hr. destruct r as [|x r]; [done|]. exists r.
  rewrite insert_app_r_alt, Nat.sub_diag by lia. simpl. by rewrite <-app_assoc.
Qed.

Lemma holds_key_nonzero n its ps (i : nat) it :
  holds n its ps → (i ≤ length its)%nat → item_at n (Z.of_nat i) = Some it → key it = 0 →
  i = length its.
Proof.
  intros Hh Hi Hit Hk. destruct (decide (i < length its)%nat) as [Hlt|]; [|lia]. exfalso.
  destruct (lookup_lt_is_Some_2 its i Hlt) as [it' Hit'].
  rewrite (holds_item n its ps i it') in Hit by done. injection Hit as ->.
  pose proof (ho_keys _ _ _ Hh) as Hks. rewrite Forall_lookup in Hks. by apply (Hks i it).
Qed.

(** The items after [insert_item] at position [i]. *)
Lemma room_items n its ps (i : nat) it it0 :
  holds n its ps → (i ≤ length its)%nat → (length its ≤ 6)%nat →
  item_at n (Z.of_nat i) = Some it0 →
  let l := if key it0 =? 0 then items n
           else splice (S i) i (6 - i) (item_view n) (items n) in
  (∃ r, <[i := it]> l = (take i its ++ it :: drop i its) ++ r) ∧ length l = 7%nat.
Proof.
  intros Hh Hi H6 Hit0 l. pose proof Hh as [Hc [r Hr] Hl _ _ _ _ _].
  destruct (key it0 =? 0) eqn:E; unfold l.
  - assert (i = length its) as -> by (eapply holds_key_nonzero; [done..|lia]).
    split; [|done]. rewrite Hr, take_ge, drop_ge by lia. apply store_end.
    intros ->. rewrite Hr, app_nil_r in Hl. lia.
  - unfold item_view. split.
    + rewrite Hr in *. apply shift_store_prefix; lia.
    + unfold splice. rewrite !length_app, !length_take, !length_drop, length_app. lia.
Qed.

Lemma move_items_room n (i : nat) :
  (i ≤ 6)%nat →
  move_items (Z.of_nat i + 1) (Z.of_nat i) (BTREE_ORDER - 2 - Z.of_nat i) n
  = Some (put_items (splice (S i) i (6 - i) (item_view n) (items n)) n).
Proof.
  intros Hi. unfold move_items, in_bounds, BTREE_ORDER.
  rewrite (proj2 (andb_true_iff _ _)).
  - do 3 f_equal; lia.
  - split; rewrite !andb_true_iff, !Z.leb_le; lia.
Qed.

Lemma put_item_nat n (i : nat) it :
  (i ≤ 6)%nat → put_item (Z.of_nat i) it n = Some (put_items (<[i := it]> (items n)) n).
Proof.
  intros Hi. unfold put_item, BTREE_ORDER. rewrite nat_leb, (proj2 (Z.ltb_lt _ _)) by lia.
  by rewrite Nat2Z.id.
Qed.

Lemma put_child_nat n (i : nat) p :
  (i ≤ 7)%nat → put_child (Z.of_nat i) p n = Some (put_children (<[i := p]> (children n)) n).
Proof.
  intros Hi. unfold put_child, BTREE_ORDER. rewrite nat_leb, (proj2 (Z.ltb_lt _ _)) by lia.
  by rewrite Nat2Z.id.
Qed.

(** The body of [insert_item]. *)
Definition item_room (pos : Z) (n : btree_node_t) : option btree_node_t :=
  it ← item_at n pos;
  if key it =? 0 then Some n else move_items (pos + 1) pos (BTREE_ORDER - 2 - pos) n.

Lemma node_insert n its ps (i : nat) it :
  holds n its ps → (i ≤ length its)%nat → (length its ≤ 6)%nat → key it ≠ 0 →
  ∃ n1 n2, item_room (Z.of_nat i) n = Some n1 ∧ set_item (Z.of_nat i) it n1 = Some n2
           ∧ holds n2 (take i its ++ it :: drop i its) ps.
Proof.
  intros Hh Hi H6 Hk. destruct (holds_some_item n its ps i Hh ltac:(lia)) as [it0 Hit0].
  destruct (room_items n its ps i it it0 Hh Hi H6 Hit0) as [[r Hr] Hl].
  set (l := if key it0 =? 0 then items n else _) in *.
  exists (put_items l n). eexists. split_and!.
  - unfold item_room. rewrite Hit0. cbn [mbind option_bind]. unfold l.
    destruct (key it0 =? 0); [by destruct n|]. by rewrite move_items_room by lia.
  - unfold set_item. rewrite put_item_nat by lia. reflexivity.
  - destruct Hh as [Hc _ Hli Hlc [rc Hch] Hleaf Hnull Hkeys].
    split; simpl; try done.
    + rewrite Hc, wrap_small by lia. rewrite length_app. simpl.
      rewrite length_take, length_drop. lia.
    + eauto.
    + by rewrite length_insert.
    + by exists rc.
    + apply Forall_app. split; [by apply Forall_take|]. constructor; [done|by apply Forall_drop].
Qed.

(** The children after both stores of [insert_node]. *)
Lemma room_children (C ps1 ps2 rc : list Z) q (l r : Z) (moved : bool) :
  C = (ps1 ++ q :: ps2) ++ rc → length C = 8%nat → (length ps1 + length ps2 ≤ 6)%nat →
  (moved = false → ps2 = []) →
  let i := length ps1 in
  let C1 := if moved then splice (S i) i (7 - i) C C else C in
  ∃ rc', <[S i := r]> (<[i := l]> C1) = (ps1 ++ l :: r :: ps2) ++ rc'
         ∧ length (<[S i := r]> (<[i := l]> C1)) = 8%nat.
Proof.
  intros HC Hl8 Hlen Hmv i C1.
  assert (∀ y Y, <[S i := r]> (ps1 ++ l :: y :: Y) = ps1 ++ l :: r :: Y) as Hset.
  { intros y Y. rewrite insert_app_r_alt by (unfold i; lia). unfold i.
    replace (S (length ps1) - length ps1)%nat with 1%nat by lia. done. }
  destruct moved; unfold C1.
  - replace (splice (S i) i (7 - i) C C) with (splice (S i) i (7 - i) (C ++ []) C)
      by by rewrite app_nil_r.
    rewrite shift_store by (unfold i; lia).
    assert (take i C = ps1) as ->.
    { subst C. rewrite <-app_assoc. apply take_app_length. }
    assert (drop i C = q :: ps2 ++ rc) as ->.
    { subst C. rewrite <-app_assoc. apply drop_app_length. }
    destruct (7 - i)%nat as [|k] eqn:Ek; [unfold i in Ek; lia|]. simpl take.
    rewrite Hset. rewrite take_app_ge by (unfold i in Ek; lia).
    eexists. split; [by rewrite <-app_assoc|].
    subst C. rewrite !length_app in *. simpl in *. rewrite !length_app in *.
    rewrite length_take. unfold i in Ek. lia.
  - specialize (Hmv eq_refl). subst ps2.
    destruct rc as [|y rc]; [subst C; rewrite !length_app in Hl8; simpl in *; lia|].
    exists rc. subst C. rewrite <-!app_assoc. simpl.
    rewrite insert_app_r_alt by (unfold i; lia). unfold i at 1. rewrite Nat.sub_diag. simpl.
    rewrite Hset. split; [done|]. rewrite ?length_insert. rewrite ?length_app in *. simpl in *. rewrite ?length_insert. simpl. lia.
Qed.

Lemma move_children_room n (i : nat) :
  (i ≤ 6)%nat →
  move_children (Z.of_nat i + 1) (Z.of_nat i) (BTREE_ORDER - 1 - Z.of_nat i) n
  = Some (put_children (splice (S i) i (7 - i) (children n) (children n)) n).
Proof.
  intros Hi. unfold move_children, in_bounds, BTREE_ORDER.
  rewrite (proj2 (andb_true_iff _ _)).
  - do 3 f_equal; lia.
  - split; rewrite !andb_true_iff, !Z.leb_le; lia.
Qed.

Lemma parent_insert n its ps1 q ps2 m (l r : Z) :
  let i := length ps1 in
  holds n its (ps1 ++ q :: ps2) → (length its ≤ 6)%nat → length its = (length ps1 + length ps2)%nat →
  l ≠ 0 → r ≠ 0 → key m ≠ 0 →
  ∃ n1 n2 n3 n4,
    make_room (Z.of_nat i) n = Some n1 ∧ put_child (Z.of_nat i) l n1 = Some n2
    ∧ put_child (Z.of_nat i + 1) r n2 = Some n3 ∧ set_item (Z.of_nat i) m n3 = Some n4
    ∧ holds n4 (take i its ++ m :: drop i its) (ps1 ++ l :: r :: ps2).
Proof.
  intros i Hh H6 Hlen Hl Hr Hk.
  destruct (holds_some_item n its _ i Hh ltac:(unfold i; lia)) as [it0 Hit0].
  destruct (room_items n its _ i m it0 Hh ltac:(unfold i; lia) H6 Hit0) as [[ri Hri] Hli].
  pose proof Hh as [Hc _ Hli0 Hlc [rc Hch] Hleaf Hnull Hkeys].
  destruct (room_children (children n) ps1 ps2 rc q l r (negb (key it0 =? 0)) Hch Hlc ltac:(lia))
    as (rc' & Hrc & Hlrc).
  { intros Hz%negb_false_iff%Z.eqb_eq.
    pose proof (holds_key_nonzero n its _ i it0 Hh ltac:(unfold i; lia) Hit0 Hz) as Hi.
    destruct ps2; [done|]. simpl in *. unfold i in Hi. lia. }
  set (L := if key it0 =? 0 then items n else _) in *.
  set (C := if negb (key it0 =? 0) then _ else children n) in *. cbv zeta in Hrc, Hlrc. fold i in Hrc, Hlrc, C.
  exists (mkNode (count n) L C), (mkNode (count n) L (<[i := l]> C)),
    (mkNode (count n) L (<[S i := r]> (<[i := l]> C))).
  eexists. split_and!.
  - unfold make_room. rewrite Hit0. cbn [mbind option_bind]. unfold L, C.
    destruct (key it0 =? 0); [by destruct n|]. rewrite move_items_room by (unfold i; lia).
    cbn [mbind option_bind]. by rewrite move_children_room by (unfold i; lia).
  - by rewrite put_child_nat by (unfold i; lia).
  - replace (Z.of_nat i + 1) with (Z.of_nat (S i)) by lia.
    by rewrite put_child_nat by (unfold i; lia).
  - unfold set_item. rewrite put_item_nat by (unfold i; lia). reflexivity.
  - split; simpl; try done.
    + rewrite Hc, wrap_small by lia. rewrite length_app. simpl.
      rewrite length_take, length_drop. unfold i. lia.
    + eauto.
    + by rewrite length_insert.
    + eauto.
    + intros E. by destruct ps1.
    + apply Forall_app in Hnull as [Hn1 Hn2]. apply Forall_cons in Hn2 as [_ Hn2].
      apply Forall_app. split; [done|]. by repeat constructor.
    + apply Forall_app. split; [by apply Forall_take|]. constructor; [done|by apply Forall_drop].
Qed.

(** *** Splitting a full node *)

(** A list of known length, element by element. *)
Lemma length_S_inv {A} (l : list A) n : length l = S n → ∃ a l', l = a :: l' ∧ length l' = n.
Proof. destruct l as [|a l']; [done|]. intros [= <-]. eauto. Qed.

Ltac explode l :=
  repeat match goal with
  | H : length l = S _ |- _ =>
      let a := fresh "a" in let l' := fresh "l" in let E := fresh "E" in
      destruct (length_S_inv l _ H) as (a & l' & E & ?); subst l; clear H; explode l'
  | H : length l = 0%nat |- _ => apply length_zero_iff_nil in H; subst l
  end.

(** The split of the arrays: the median, the left and the right node. *)
Definition split_arrays (n r : btree_node_t) : option (btree_node_item_t * btree_node_t * btree_node_t) :=
  it ← item_at n 3;
  n ← node_clear 3 n;
  nr ← foldl (split_step 4) (Some (n, r)) (seqZ 4 4);
  Some (it, put_count 3 (fst nr), snd nr).

Lemma split_arrays_eq i0 i1 i2 i3 i4 i5 i6 j0 j1 j2 j3 j4 j5 j6 c0 c1 c2 c3 c4 c5 c6 c7 cn :
  split_arrays (mkNode cn [i0; i1; i2; i3; i4; i5; i6] [c0; c1; c2; c3; c4; c5; c6; c7])
    (mkNode 0 [j0; j1; j2; j3; j4; j5; j6] (replicate 8 0))
  = let z := mkItem 0 0 in
    Some (i3, mkNode 3 [i0; i1; i2; z; z; z; z] [c0; c1; c2; c3; 0; 0; 0; 0],
          mkNode 3 [i4; i5; i6; j3; j4; j5; j6] [c4; c5; c6; c7; 0; 0; 0; 0]).
Proof. reflexivity. Qed.

Lemma split_arrays_spec n its ps rw :
  holds n its ps → length its = 7%nat → (ps = [] ∨ length ps = 8%nat) →
  length (items rw) = 7%nat → children rw = replicate 8 0 →
  ∃ m nl nr, split_arrays n (node_init rw) = Some (m, nl, nr)
    ∧ its = take 3 its ++ m :: drop 4 its
    ∧ holds nl (take 3 its) (take 4 ps) ∧ holds nr (drop 4 its) (drop 4 ps).
Proof.
  intros [Hc [r Hr] Hli Hlc [rc Hrc] Hleaf Hnull Hkeys] H7 Hps Hrw Hrc0.
  destruct n as [cn li lc], rw as [crw lrw lcrw]. simpl in *. subst lcrw.
  assert (r = []) as -> by (rewrite Hr, length_app in Hli; destruct r; simpl in *; [done|lia]).
  rewrite app_nil_r in Hr. subst li. explode its. explode lrw.
  repeat (apply Forall_cons in Hkeys as [? Hkeys]).
  destruct Hps as [->|Hps].
  - rewrite (Hleaf eq_refl) in *. do 3 eexists. split; [apply split_arrays_eq|].
    split; [done|]. split; (split; simpl; try done; try (by repeat constructor);
      try (by eexists); try (by repeat constructor)).
  - assert (rc = []) as -> by (rewrite Hrc, length_app in Hlc; destruct rc; simpl in *; [done|lia]).
    rewrite app_nil_r in Hrc. subst lc. explode ps.
    repeat (apply Forall_cons in Hnull as [? Hnull]).
    do 3 eexists. split; [apply split_arrays_eq|].
    split; [done|]. split; (split; simpl; try done; try (by repeat constructor); by eexists).
Qed.

(** ** The heap *)

Lemma nodes_children p its cs q :
  q ∈ nodes (Node p its cs) ↔ q = p ∨ ∃ c, c ∈ cs ∧ q ∈ nodes c.
Proof.
  simpl. rewrite elem_of_cons. apply or_iff_compat_l.
  induction cs as [|c cs IH]; simpl; [set_solver|]. rewrite elem_of_app, IH. set_solver.
Qed.

Lemma shape_dom h d t q : shape h d t → q ∈ nodes t → is_Some (h !! q).
Proof.
  revert t. induction d as [|d IH]; intros t Hs; inversion Hs; subst.
  - simpl. rewrite list_elem_of_singleton. intros ->. eauto.
  - rewrite nodes_children. intros [->|(c & Hc & Hq)]; [eauto|].
    apply (IH c); [|done]. by eapply Forall_forall.
Qed.

Lemma shape_frame h h' d t :
  (∀ q, q ∈ nodes t → h' !! q = h !! q) → shape h d t → shape h' d t.
Proof.
  revert t. induction d as [|d IH]; intros t Hq Hs; inversion Hs as [p n its ?? Hh|? p n its cs ?? Hh Hl Hf Ho]; subst.
  - econstructor; [done| |done]. rewrite Hq; [done|]. simpl. set_solver.
  - econstructor; [done| |done..| |done].
    + rewrite Hq; [done|]. simpl. set_solver.
    + apply Forall_forall. intros c Hc. apply IH; [|by eapply Forall_forall].
      intros q Hin. apply Hq, nodes_children. eauto.
Qed.

Lemma shape_root h d t :
  shape h d t → ptr t ≠ 0 ∧ ptr t ∈ nodes t ∧
  ∃ n ps, h !! ptr t = Some n ∧ holds n (titems t) ps.
Proof. intros Hs. inversion Hs; subst; simpl; split_and!; eauto; set_solver. Qed.

Lemma NoDup_concat_map {A} (f : A → list Z) l1 c l2 :
  NoDup (List.concat (List.map f (l1 ++ c :: l2))) ↔
  NoDup (f c) ∧ NoDup (List.concat (List.map f (l1 ++ l2)))
  ∧ ∀ q, q ∈ f c → q ∉ List.concat (List.map f (l1 ++ l2)).
Proof.
  rewrite !map_app, !concat_app. simpl.
  rewrite (Permutation_app_swap_app _ (f c)). rewrite NoDup_app. tauto.
Qed.

Lemma in_concat_map {A} (f : A → list Z) l q :
  q ∈ List.concat (List.map f l) ↔ ∃ c, c ∈ l ∧ q ∈ f c.
Proof.
  induction l as [|c l IH]; simpl; [set_solver|]. rewrite elem_of_app, IH. set_solver.
Qed.

Lemma update_runs p f n n' r (h : heap) :
  h !! p = Some n → f n = Some n' →
  update p f (mkBTree r h) = Ret tt (mkBTree r (<[p := n']> h)).
Proof.
  intros Hp Hf. unfold update, load, bind. simpl. rewrite Hp. simpl. by rewrite Hf.
Qed.

(** The tree [s] has the bindings [bs], in key order; [d] is its depth. *)
Inductive represents (s : btree_t) : nat → list item → Prop :=
| rep_empty : root s = 0 → represents s 0 []
| rep_tree d t :
    root s = ptr t → shape (hp s) d t → NoDup (nodes t) → in_order (flatten t) →
    (d = 0%nat ∨ titems t ≠ []) →
    represents s d (flatten t).

Section Insertion.
Context (fresh : heap → Z) (raw : heap → btree_node_t).

(** An allocator that returns new memory filled with zeros, as a mapped file
    does that nothing was freed in. *)
Record zeroing_allocator : Prop := {
  za_new h : h !! fresh h = None;
  za_null h : fresh h ≠ 0;
  za_items h : length (items (raw h)) = 7%nat;
  za_children h : children (raw h) = replicate 8 0;
}.
Context (Ha : zeroing_allocator).

Lemma insert_item_runs p n n1 n2 (pos : Z) it r (h : heap) :
  h !! p = Some n → item_room pos n = Some n1 → set_item pos it n1 = Some n2 →
  insert_item p pos it (mkBTree r h) = Ret tt (mkBTree r (<[p := n2]> h)).
Proof.
  intros Hp H1 H2. unfold insert_item, bind. rewrite (update_runs p _ n n1) by done.
  rewrite (update_runs p _ n1 n2) by (done || apply lookup_insert_eq). by rewrite insert_insert_eq.
Qed.

Lemma insert_node_runs p n n1 n2 n3 n4 (pos : Z) it (lc rc : Z) r (h : heap) :
  h !! p = Some n → make_room pos n = Some n1 → put_child pos lc n1 = Some n2 →
  put_child (pos + 1) rc n2 = Some n3 → set_item pos it n3 = Some n4 →
  insert_node p pos it lc rc (mkBTree r h) = Ret tt (mkBTree r (<[p := n4]> h)).
Proof.
  intros Hp H1 H2 H3 H4. unfold insert_node, bind.
  rewrite (update_runs p _ n n1) by done.
  rewrite (update_runs p _ n1 n2) by (done || apply lookup_insert_eq).
  rewrite (update_runs p _ n2 n3) by (done || apply lookup_insert_eq).
  rewrite (update_runs p _ n3 n4) by (done || apply lookup_insert_eq).
  by rewrite !insert_insert_eq.
Qed.

Lemma split_node_runs p n m nl nr r (h : heap) :
  h !! p = Some n → split_arrays n (node_init (raw h)) = Some (m, nl, nr) →
  split_node fresh raw p (mkBTree r h)
  = Ret (fresh h, m) (mkBTree r (<[fresh h := nr]> (<[p := nl]> h))).
Proof.
  intros Hp Hsp. assert (p ≠ fresh h) as Hne by (intros ->; by rewrite (za_new Ha) in Hp).
  unfold split_node. unfold bind at 1, allocate. cbv beta iota zeta. unfold set_hp. cbn [hp root].
  unfold bind at 1. rewrite (update_runs _ _ (raw h) (node_init (raw h)))
    by (done || apply lookup_insert_eq).
  rewrite insert_insert_eq. unfold load, bind, lift, ret. cbn [hp].
  rewrite lookup_insert_ne, Hp by done. cbv beta iota. cbn [hp]. rewrite lookup_insert_eq.
  cbv beta iota zeta. change (BTREE_ORDER / 2 - 1) with 3.
  change (BTREE_ORDER / 2) with 4. change (BTREE_ORDER - 4) with 4.
  unfold split_arrays in Hsp. destruct (item_at n 3) as [it|]; [|done]. cbn [mbind option_bind] in Hsp.
  destruct (node_clear 3 n) as [n1|]; [|done]. cbn [mbind option_bind] in Hsp.
  destruct (foldl (split_step 4) _ _) as [[n2 r2]|]; [|done]. cbn [mbind option_bind fst snd] in Hsp.
  injection Hsp as -> <- <-. unfold write, modify, set_hp. cbn [hp root fst snd].
  do 2 f_equal. rewrite insert_insert_ne by done. rewrite insert_insert_eq.
  by rewrite insert_insert_ne.
Qed.

(** The loop of [find_dest_node], after the split. *)
Definition descend (fuel : nat) (node k : Z) : cmd btree_t (Z * Z) :=
  let! n := load node in
  let! r := lift (scan_pos n k (seqZ 0 (BTREE_ORDER - 1))) in
  match r with
  | Some i =>
      let! c := lift (child_at n i) in
      if c =? 0 then ret (node, i) else find_dest_node fresh raw fuel c node k i
  | None =>
      let! c := lift (child_at n (BTREE_ORDER - 1)) in
      find_dest_node fresh raw fuel c node k (BTREE_ORDER - 2)
  end.

Lemma find_dest_node_eq fuel node parent k pos s :
  find_dest_node fresh raw (S fuel) node parent k pos s
  = (let! node := split_full fresh raw node parent k pos in descend fuel node k) s.
Proof. reflexivity. Qed.

(** [t'] in [h'] is [t] of [h] with one more binding; the heap outside [t] is
    untouched, and new nodes are new memory. *)
Record inserted (d : nat) (h : heap) (t : tree) (it : item) (h' : heap) (t' : tree) : Prop := {
  in_ptr : ptr t' = ptr t;
  in_grow : (length (titems t) ≤ length (titems t'))%nat;
  in_shape : shape h' d t';
  in_nodup : NoDup (nodes t');
  in_perm : flatten t' ≡ₚ it :: flatten t;
  in_sorted : in_order (flatten t');
  in_frame q : q ∉ nodes t → is_Some (h !! q) → h' !! q = h !! q;
  in_new q : q ∈ nodes t' → q ∈ nodes t ∨ h !! q = None;
}.

Lemma shape_node_inv h d p its cs :
  shape h (S d) (Node p its cs) →
  p ≠ 0 ∧ (∃ n, h !! p = Some n ∧ holds n its (ptr <$> cs)) ∧ length cs = S (length its)
  ∧ Forall (shape h d) cs ∧ Forall (λ c, 3 ≤ length (titems c))%nat cs.
Proof. intros Hs. inversion Hs; subst. split_and!; eauto. Qed.

Lemma flatten_middle p its1 its2 cs1 c cs2 :
  length cs1 = length its1 → length cs2 = length its2 →
  flatten (Node p (its1 ++ its2) (cs1 ++ c :: cs2))
  = left_of its1 (List.map flatten cs1) ++ flatten c ++ right_of its2 (List.map flatten cs2).
Proof.
  intros H1 H2. simpl. rewrite map_app. simpl. apply weave_split; by rewrite length_map.
Qed.

Lemma insert_into_child d h p its1 its2 cs1 c cs2 it h' c' :
  let t := Node p (its1 ++ its2) (cs1 ++ c :: cs2) in
  shape h (S d) t → NoDup (nodes t) → in_order (flatten t) →
  length cs1 = length its1 →
  Forall (λ x, key x ≤ key it) its1 → Forall (λ x, key it ≤ key x) its2 →
  inserted d h c it h' c' →
  inserted (S d) h t it h' (Node p (its1 ++ its2) (cs1 ++ c' :: cs2)).
Proof.
  intros t Hs Hnd Hso Hl1 Hk1 Hk2 [I1 I2 I3 I4 I5 I6 I7 I8].
  apply shape_node_inv in Hs as (Hp & (n & Hn & Hh) & Hlen & Hsh & Hocc).
  assert (length cs2 = length its2) as Hl2.
  { rewrite !length_app in Hlen. simpl in Hlen. lia. }
  simpl nodes in Hnd. apply NoDup_cons in Hnd as [Hp' Hnd].
  apply NoDup_concat_map in Hnd as (Hndc & Hndr & Hdis).
  apply Forall_app in Hsh as [Hsh1 Hsh2]. apply Forall_cons in Hsh2 as [Hshc Hsh2].
  apply Forall_app in Hocc as [Ho1 Ho2]. apply Forall_cons in Ho2 as [Hoc Ho2].
  assert (p ∉ nodes c) as Hpc.
  { intros Hin. apply Hp', in_concat_map. exists c. split; [set_solver|done]. }
  assert (∀ c0, c0 ∈ cs1 ++ cs2 → shape h d c0 → shape h' d c0) as Hfr.
  { intros c0 Hc0 Hs0. apply (shape_frame h); [|done]. intros q Hq. apply I7.
    - intros Hqc. apply (Hdis q Hqc), in_concat_map. eauto.
    - by eapply shape_dom. }
  unfold t in *. rewrite flatten_middle in Hso by done. split; try done.
  - apply shape_node with n; try done.
    + rewrite I7; [done..|]. eauto.
    + rewrite fmap_app, fmap_cons, I1. by rewrite fmap_app, fmap_cons in Hh.
    + rewrite !length_app in *. simpl in *. lia.
    + apply Forall_app. rewrite Forall_forall in Hsh1. rewrite Forall_forall in Hsh2.
      split; [|constructor; [done|]]; apply Forall_forall; intros; apply Hfr; set_solver.
    + apply Forall_app. split; [done|]. constructor; [lia|done].
  - simpl nodes. apply NoDup_cons. split.
    + rewrite in_concat_map. intros (c0 & Hc0 & Hq). apply elem_of_app in Hc0.
      rewrite elem_of_cons in Hc0. destruct Hc0 as [Hc0|[->|Hc0]].
      * apply Hp', in_concat_map. exists c0. set_solver.
      * destruct (I8 p Hq) as [|Hno]; [done|]. by rewrite Hn in Hno.
      * apply Hp', in_concat_map. exists c0. set_solver.
    + apply NoDup_concat_map. split_and!; try done. intros q Hq Hin.
      destruct (I8 q Hq) as [Hqc|Hno]; [by apply (Hdis q)|].
      apply in_concat_map in Hin as (c0 & Hc0 & Hq0).
      assert (is_Some (h !! q)) as [x Hx].
      { eapply shape_dom; [|exact Hq0]. rewrite Forall_forall in Hsh1. rewrite Forall_forall in Hsh2.
        apply elem_of_app in Hc0 as [?|?]; auto. }
      congruence.
  - rewrite !flatten_middle by done. rewrite I5. simpl. by rewrite <-Permutation_middle.
  - rewrite flatten_middle by done. eapply in_order_insert; [exact Hso|exact I6|exact I5|..].
    + intros a Ha'. unfold key_le. apply in_order_app in Hso as (Hs1 & _).
      eapply left_of_le; [|exact Hs1|done|done]. by rewrite length_map.
    + intros b Hb. unfold key_le. apply in_order_app in Hso as (_ & Hs2 & _).
      apply in_order_app in Hs2 as (_ & Hs2 & _).
      eapply right_of_ge; [|exact Hs2|done|done]. by rewrite length_map.
  - intros q Hq. apply I7. intros Hin. apply Hq, nodes_children. right. exists c. set_solver.
  - intros q. rewrite !nodes_children. intros [->|(c0 & Hc0 & Hq)]; [by left; left|].
    apply elem_of_app in Hc0. rewrite elem_of_cons in Hc0. destruct Hc0 as [Hc0|[->|Hc0]].
    + left. right. exists c0. set_solver.
    + destruct (I8 q Hq); [|by right]. left. right. exists c. set_solver.
    + left. right. exists c0. set_solver.
Qed.

(** Splitting a full tree into two, around its median. *)
Lemma split_tree d h c :
  shape h d c → length (titems c) = 7%nat → NoDup (nodes c) →
  ∃ n m nl nr cl cr,
    h !! ptr c = Some n ∧ count n = 7 ∧ split_arrays n (node_init (raw h)) = Some (m, nl, nr)
    ∧ ptr cl = ptr c ∧ ptr cr = fresh h ∧ length (titems cl) = 3%nat ∧ length (titems cr) = 3%nat
    ∧ key m ≠ 0 ∧ flatten c = flatten cl ++ m :: flatten cr
    ∧ nodes cl ++ nodes cr ≡ₚ fresh h :: nodes c
    ∧ ∀ h1, h1 !! fresh h = Some nr → h1 !! ptr c = Some nl →
        (∀ q, q ∈ nodes c → q ≠ ptr c → h1 !! q = h !! q) → shape h1 d cl ∧ shape h1 d cr.
Proof.
  intros Hs H7 Hnd. destruct c as [p its cs]. simpl in H7. cbn [ptr].
  assert (∃ n, p ≠ 0 ∧ h !! p = Some n ∧ holds n its (ptr <$> cs)
    ∧ (ptr <$> cs = [] ∨ length (ptr <$> cs) = 8%nat)) as (n & Hp & Hn & Hh & Hps).
  { inversion Hs; subst; eexists; split_and!; eauto. right. rewrite length_fmap. lia. }
  destruct (split_arrays_spec n its (ptr <$> cs) (raw h)) as (m & nl & nr & Hsp & Hits & Hhl & Hhr);
    [done..|apply Ha|apply Ha|].
  assert (count n = 7) as Hc7 by (rewrite (ho_count _ _ _ Hh); lia).
  assert (key m ≠ 0) as Hkm.
  { pose proof (ho_keys _ _ _ Hh) as Hks. rewrite Hits in Hks. apply Forall_app in Hks as [_ Hks].
    by apply Forall_cons in Hks as [? _]. }
  exists n, m, nl, nr, (Node p (take 3 its) (take 4 cs)), (Node (fresh h) (drop 4 its) (drop 4 cs)).
  simpl nodes in Hnd. apply NoDup_cons in Hnd as [Hpn Hnd].
  split_and!; try done.
  - simpl. rewrite length_take. lia.
  - simpl. rewrite length_drop. lia.
  - cbn [flatten]. replace (weave its (List.map flatten cs))
      with (weave (take 3 its ++ m :: drop 4 its) (List.map flatten cs)) by by rewrite <-Hits.
    inversion Hs as [|? ? ? ? ? ? ? ? Hlen]; subst; [reflexivity|].
    rewrite <-(take_drop 4 cs) at 1. rewrite map_app. apply weave_cat.
    rewrite length_map, !length_take. lia.
  - simpl. etransitivity; [|apply perm_swap]. apply perm_skip. rewrite <-Permutation_middle.
    rewrite <-concat_app, <-map_app, take_drop. done.
  - intros h1 Hq1 Hp1 Hfr. rewrite fmap_take in Hhl || idtac.
    inversion Hs as [|? ? ? ? ? ? ? ? Hlen Hshs Hocc]; subst.
    + rewrite !take_nil, !drop_nil in *. split; econstructor; eauto; apply Ha.
    + assert (Forall (shape h1 d0) cs) as Hsh1.
      { apply Forall_forall. intros c Hc. apply (shape_frame h); [|by eapply Forall_forall].
        intros q Hq. apply Hfr; [apply nodes_children; eauto|]. intros ->.
        apply Hpn, in_concat_map. eauto. }
      rewrite <-!fmap_take, <-!fmap_drop in *.
      split; (eapply shape_node; [done || apply (za_null Ha)|done|done|..]).
      * rewrite !length_take. lia.
      * by apply Forall_take.
      * by apply Forall_take.
      * rewrite !length_drop. lia.
      * by apply Forall_drop.
      * by apply Forall_drop.
Qed.

Lemma nodes_middle p its cs1 c cs2 :
  nodes (Node p its (cs1 ++ c :: cs2))
  ≡ₚ p :: nodes c ++ List.concat (List.map nodes (cs1 ++ cs2)).
Proof.
  simpl. rewrite !map_app, !concat_app. simpl. apply perm_skip.
  by rewrite Permutation_app_swap_app.
Qed.

Lemma nodes_middle2 p its cs1 cl cr cs2 :
  nodes (Node p its (cs1 ++ cl :: cr :: cs2))
  ≡ₚ p :: (nodes cl ++ nodes cr) ++ List.concat (List.map nodes (cs1 ++ cs2)).
Proof.
  simpl. rewrite !map_app, !concat_app. simpl. apply perm_skip.
  rewrite Permutation_app_swap_app. rewrite <-!app_assoc. apply Permutation_app_head.
  by rewrite Permutation_app_swap_app.
Qed.

(** What a split of the child [c] of a node leaves. *)
Record child_split (d : nat) (h : heap) p its1 its2 cs1 c cs2 (h1 : heap) m cl cr : Prop := {
  sp_shape : shape h1 (S d) (Node p (its1 ++ m :: its2) (cs1 ++ cl :: cr :: cs2));
  sp_nodes : nodes (Node p (its1 ++ m :: its2) (cs1 ++ cl :: cr :: cs2))
             ≡ₚ fresh h :: nodes (Node p (its1 ++ its2) (cs1 ++ c :: cs2));
  sp_flat : flatten (Node p (its1 ++ m :: its2) (cs1 ++ cl :: cr :: cs2))
            = flatten (Node p (its1 ++ its2) (cs1 ++ c :: cs2));
  sp_l : length (titems cl) = 3%nat;
  sp_r : length (titems cr) = 3%nat;
  sp_frame q : q ∉ nodes (Node p (its1 ++ its2) (cs1 ++ c :: cs2)) → q ≠ fresh h → h1 !! q = h !! q;
  sp_dom q : h1 !! q = None → h !! q = None;
}.

Lemma split_child d h r p its1 its2 cs1 c cs2 k :
  let t := Node p (its1 ++ its2) (cs1 ++ c :: cs2) in
  shape h (S d) t → NoDup (nodes t) → length cs1 = length its1 →
  (length (its1 ++ its2) ≤ 6)%nat → length (titems c) = 7%nat →
  ∃ h1 m cl cr,
    split_full fresh raw (ptr c) p k (Z.of_nat (length cs1)) (mkBTree r h)
    = Ret (if key m <? k then ptr cr else ptr cl) (mkBTree r h1)
    ∧ child_split d h p its1 its2 cs1 c cs2 h1 m cl cr.
Proof.
  intros t Hs Hnd Hl1 H6 H7.
  pose proof Hs as (Hp & (n & Hn & Hh) & Hlen & Hsh & Hocc)%shape_node_inv.
  assert (length cs2 = length its2) as Hl2 by (rewrite !length_app in Hlen; simpl in Hlen; lia).
  assert (p ≠ fresh h ∧ fresh h ∉ nodes t) as [Hpf Hft].
  { split; [intros E; by rewrite E, (za_new Ha) in Hn|]. intros Hin.
    destruct (shape_dom _ _ _ _ Hs Hin) as [x Hx]. by rewrite (za_new Ha) in Hx. }
  unfold t in Hnd. rewrite nodes_middle in Hnd. apply NoDup_cons in Hnd as [Hpn Hnd].
  apply NoDup_app in Hnd as (Hndc & Hdis & Hndr).
  apply Forall_app in Hsh as [Hsh1 Hsh2]. apply Forall_cons in Hsh2 as [Hshc Hsh2].
  apply Forall_app in Hocc as [Ho1 Ho2]. apply Forall_cons in Ho2 as [Hoc Ho2].
  destruct (split_tree d h c Hshc H7 Hndc)
    as (nc & m & nl & nr & cl & cr & Hc & Hc7 & Hsp & Epl & Epr & Hll & Hlr & Hkm & Hfl & Hpm & Hshp).
  rewrite fmap_app, fmap_cons in Hh.
  destruct (parent_insert n (its1 ++ its2) (ptr <$> cs1) (ptr c) (ptr <$> cs2) m (ptr cl) (ptr cr))
    as (n1 & n2 & n3 & n4 & R1 & R2 & R3 & R4 & Hh4); try done.
  { rewrite length_app, !length_fmap. lia. }
  { rewrite Epl. by apply (shape_root h d c). }
  { rewrite Epr. apply (za_null Ha). }
  rewrite length_fmap in *.
  assert (ptr c ∈ nodes c) as Hcin by by apply (shape_root h d c).
  assert (ptr c ≠ p ∧ ptr c ≠ fresh h) as [Hcp Hcf].
  { split; [intros E; apply Hpn; rewrite <-E; set_solver|]. intros E. by rewrite E, (za_new Ha) in Hc. }
  set (h0 := <[fresh h := nr]> (<[ptr c := nl]> h)).
  set (h1 := <[p := n4]> h0).
  assert (∀ q, q ≠ p → q ≠ fresh h → q ≠ ptr c → h1 !! q = h !! q) as Hfr.
  { intros q ???. unfold h1, h0. by rewrite !lookup_insert_ne. }
  exists h1, m, cl, cr. split.
  - unfold split_full, bind at 1, load. cbn [hp]. rewrite Hc.
    rewrite Hc7. change (7 =? BTREE_ORDER - 1) with true. cbv iota.
    unfold bind at 1. rewrite (split_node_runs (ptr c) nc m nl nr) by done. fold h0. cbv iota beta zeta.
    rewrite (proj2 (Z.eqb_neq p 0)) by done. cbn [negb]. unfold bind.
    rewrite Epl in R2. rewrite Epr in R3. rewrite (insert_node_runs p n n1 n2 n3 n4); try done.
    + by rewrite Epr, Epl.
    + unfold h0. by rewrite !lookup_insert_ne by done.
  - assert (shape h1 d cl ∧ shape h1 d cr) as [Hs1 Hs2].
    { apply Hshp.
      - unfold h1, h0. by rewrite lookup_insert_ne, lookup_insert_eq by done.
      - unfold h1, h0. by rewrite !lookup_insert_ne, lookup_insert_eq by done.
      - intros q Hq Hne. apply Hfr; [|intros ->|done].
        + intros ->. apply Hpn. set_solver.
        + apply Hft. unfold t. rewrite nodes_middle. set_solver. }
    split; try done.
    + apply shape_node with n4; try done.
      * unfold h1. apply lookup_insert_eq.
      * rewrite fmap_app, !fmap_cons. rewrite take_app_length', drop_app_length' in Hh4 by done.
        exact Hh4.
      * rewrite !length_app in *. simpl in *. lia.
      * assert (∀ c0, c0 ∈ cs1 ++ cs2 → shape h d c0 → shape h1 d c0) as Hkeep.
        { intros c0 Hc0 Hs0. apply (shape_frame h); [|done]. intros q Hq.
          assert (q ∈ List.concat (List.map nodes (cs1 ++ cs2))) as Hin.
          { apply in_concat_map. eauto. }
          apply Hfr; intros ->.
          - apply Hpn. set_solver.
          - apply Hft. unfold t. rewrite nodes_middle. set_solver.
          - by apply (Hdis (ptr c)). }
        rewrite Forall_forall in Hsh1. rewrite Forall_forall in Hsh2.
        apply Forall_app. split; [|constructor; [done|constructor; [done|]]];
          apply Forall_forall; intros; apply Hkeep; set_solver.
      * apply Forall_app. split; [done|]. constructor; [lia|]. constructor; [lia|done].
    + rewrite nodes_middle2, nodes_middle, Hpm. simpl. apply perm_swap.
    + simpl. rewrite !map_app. simpl.
      rewrite weave_split2 by (by rewrite length_map). by rewrite Hfl.
    + intros q Hq Hqf. apply Hfr; [intros ->|done|intros ->].
      * apply Hq. rewrite nodes_middle. set_solver.
      * apply Hq. rewrite nodes_middle. set_solver.
    + intros q. unfold h1, h0. intros Hq. rewrite !lookup_insert_None in Hq. tauto.
Qed.

Lemma child_facts d h p its1 its2 cs1 c cs2 :
  let t := Node p (its1 ++ its2) (cs1 ++ c :: cs2) in
  shape h (S d) t → NoDup (nodes t) → in_order (flatten t) → length cs1 = length its1 →
  shape h d c ∧ NoDup (nodes c) ∧ in_order (flatten c).
Proof.
  intros t Hs Hnd Hso Hl1.
  apply shape_node_inv in Hs as (_ & _ & Hlen & Hsh & _). split_and!.
  - apply Forall_app in Hsh as [_ Hsh]. by apply Forall_cons in Hsh as [? _].
  - unfold t in Hnd. rewrite nodes_middle in Hnd. apply NoDup_cons in Hnd as [_ Hnd].
    by apply NoDup_app in Hnd as [? _].
  - unfold t in Hso. rewrite flatten_middle in Hso.
    + apply in_order_app in Hso as (_ & Hso & _). by apply in_order_app in Hso as (? & _).
    + done.
    + rewrite !length_app in Hlen. simpl in Hlen. lia.
Qed.

(** Splitting a child first makes no difference. *)
Lemma inserted_after_split d h p its1 its2 cs1 c cs2 h1 m cl cr it h' t' :
  child_split d h p its1 its2 cs1 c cs2 h1 m cl cr →
  inserted (S d) h1 (Node p (its1 ++ m :: its2) (cs1 ++ cl :: cr :: cs2)) it h' t' →
  inserted (S d) h (Node p (its1 ++ its2) (cs1 ++ c :: cs2)) it h' t'.
Proof.
  intros [S1 S2 S3 S4 S5 S6 S7] [I1 I2 I3 I4 I5 I6 I7 I8]. split; try done.
  - simpl in *. rewrite !length_app in *. simpl in *. lia.
  - by rewrite S3 in I5.
  - intros q Hq [x Hx]. assert (q ≠ fresh h) as Hqf by (intros ->; by rewrite (za_new Ha) in Hx).
    rewrite I7.
    + by apply S6.
    + rewrite S2. set_solver.
    + rewrite S6 by done. eauto.
  - intros q Hq. destruct (I8 q Hq) as [Hin|Hno]; [|right; by apply S7].
    rewrite S2 in Hin. apply elem_of_cons in Hin as [->|?]; [right; apply Ha|by left].
Qed.

(** The loop on a leaf. *)
Lemma descend_leaf fuel h r p its k v :
  shape h 0 (Node p its []) → (length its ≤ 6)%nat → in_order its → k ≠ 0 →
  ∃ h' t', (let! dp := descend fuel p k in insert_item (fst dp) (snd dp) (mkItem k v)) (mkBTree r h)
           = Ret tt (mkBTree r h') ∧ inserted 0 h (Node p its []) (mkItem k v) h' t'.
Proof.
  intros Hs H6 Hso Hk. inversion Hs as [? n ? Hp Hn Hh|]; subst.
  pose proof (rank_le k its) as Hrk. destruct (rank_split k its Hso) as [Hr1 Hr2].
  destruct (node_insert n its [] (rank k its) (mkItem k v) Hh Hrk H6 Hk) as (n1 & n2 & R1 & R2 & Hh2).
  exists (<[p := n2]> h), (Node p (take (rank k its) its ++ mkItem k v :: drop (rank k its) its) []).
  split.
  - unfold bind at 1, descend, bind at 1, load. cbn [hp]. rewrite Hn.
    rewrite (scan_pos_rank n its []) by done. unfold lift at 1, bind at 1, ret at 1.
    rewrite (leaf_child n its) by (done || lia). unfold lift, bind, ret. cbn [Z.eqb fst snd].
    by apply (insert_item_runs p n n1 n2).
  - split; try done.
    + simpl. rewrite length_app. simpl. rewrite length_take, length_drop. lia.
    + apply shape_leaf with n2; [done|apply lookup_insert_eq|done].
    + simpl. apply NoDup_singleton.
    + simpl. by rewrite <-Permutation_middle, take_drop.
    + simpl. rewrite Forall_forall in Hr1. rewrite Forall_forall in Hr2.
      pose proof Hso as Hso'. rewrite <-(take_drop (rank k its) its) in Hso'.
      apply (in_order_insert (take (rank k its) its) [] (drop (rank k its) its) [mkItem k v] (mkItem k v));
        [done|repeat constructor|done|done|done].
    + intros q Hq _. simpl in Hq. by rewrite lookup_insert_ne by set_solver.
    + intros q. by left.
Qed.

(** The statement of the induction: the loop, started at a node that is not full,
    finds the place for the binding. *)
Definition descends (d fuel : nat) : Prop := ∀ h r t k v,
  shape h d t → NoDup (nodes t) → (length (titems t) ≤ 6)%nat → in_order (flatten t) → k ≠ 0 →
  ∃ h' t', (let! dp := descend fuel (ptr t) k in insert_item (fst dp) (snd dp) (mkItem k v)) (mkBTree r h)
           = Ret tt (mkBTree r h') ∧ inserted d h t (mkItem k v) h' t'.

(** The loop at an inner node goes on in the child at the rank of the key. *)
Lemma descend_enters fuel h r p n its cs c k :
  h !! p = Some n → holds n its (ptr <$> cs) → (length its ≤ 6)%nat →
  cs !! rank k its = Some c → ptr c ≠ 0 →
  descend fuel p k (mkBTree r h)
  = find_dest_node fresh raw fuel (ptr c) p k (Z.of_nat (rank k its)) (mkBTree r h).
Proof.
  intros Hn Hh H6 Hc Hc0. unfold descend, bind at 1, load. cbn [hp].
  rewrite Hn, (scan_pos_rank n its (ptr <$> cs)) by done.
  unfold lift at 1, bind at 1, ret at 1.
  rewrite (holds_child n its (ptr <$> cs) (rank k its) (ptr c)); [|done|by rewrite list_lookup_fmap, Hc].
  unfold lift, bind, ret. by rewrite (proj2 (Z.eqb_neq _ _)) by done.
Qed.

(** A node that is not full is not split. *)
Lemma split_full_skip d h r c parent k pos :
  shape h d c → (length (titems c) ≤ 6)%nat →
  split_full fresh raw (ptr c) parent k pos (mkBTree r h) = Ret (ptr c) (mkBTree r h).
Proof.
  intros Hs H6. apply shape_root in Hs as (_ & _ & n & ps & Hn & Hh).
  unfold split_full, bind, load. cbn [hp]. rewrite Hn, (ho_count _ _ _ Hh).
  rewrite (proj2 (Z.eqb_neq _ _)); [done|]. unfold BTREE_ORDER. lia.
Qed.

(** The loop continued in a child that is full. *)
Lemma descend_full d fuel h r p its1 its2 cs1 c cs2 k v :
  let t := Node p (its1 ++ its2) (cs1 ++ c :: cs2) in
  descends d fuel → shape h (S d) t → NoDup (nodes t) → in_order (flatten t) →
  (length (its1 ++ its2) ≤ 6)%nat → length cs1 = length its1 → length (titems c) = 7%nat → k ≠ 0 →
  Forall (λ x, key x ≤ k) its1 → Forall (λ x, k ≤ key x) its2 →
  ∃ h' t', (let! dp := find_dest_node fresh raw (S fuel) (ptr c) p k (Z.of_nat (length cs1)) in
            insert_item (fst dp) (snd dp) (mkItem k v)) (mkBTree r h)
           = Ret tt (mkBTree r h') ∧ inserted (S d) h t (mkItem k v) h' t'.
Proof.
  intros t IH Hs Hnd Hso H6 Hl1 H7 Hk Hr1 Hr2.
  destruct (split_child d h r p its1 its2 cs1 c cs2 k Hs Hnd Hl1 H6 H7)
    as (h1 & m & cl & cr & Hrun & Hsplit).
  unfold bind at 1. rewrite find_dest_node_eq. unfold bind at 1. rewrite Hrun.
  pose proof Hsplit as [S1 S2 S3 S4 S5 S6 S7].
  assert (NoDup (nodes (Node p (its1 ++ m :: its2) (cs1 ++ cl :: cr :: cs2)))) as Hnd1.
  { rewrite S2. apply NoDup_cons. split; [|done]. intros Hin.
    destruct (shape_dom _ _ _ _ Hs Hin) as [x Hx]. by rewrite (za_new Ha) in Hx. }
  assert (in_order (flatten (Node p (its1 ++ m :: its2) (cs1 ++ cl :: cr :: cs2)))) as Hso1
    by by rewrite S3.
  destruct (key m <? k) eqn:Em.
  - rewrite (cons_middle m its1 its2), app_assoc in S1, Hnd1, Hso1.
    rewrite (cons_middle cl cs1), app_assoc in S1, Hnd1, Hso1.
    destruct (child_facts d h1 p (its1 ++ [m]) its2 (cs1 ++ [cl]) cr cs2 S1 Hnd1 Hso1)
      as (Hs' & Hnd' & Hso'); [rewrite !length_app; simpl; lia|].
    destruct (IH h1 r cr k v Hs' Hnd' ltac:(lia) Hso' Hk) as (h' & c' & Hrun' & Hins).
    eexists h', _. split; [exact Hrun'|]. eapply inserted_after_split; [exact Hsplit|].
    rewrite (cons_middle m its1 its2), app_assoc. rewrite (cons_middle cl cs1), app_assoc.
    eapply insert_into_child; try done.
    + rewrite !length_app. simpl. lia.
    + apply Forall_app. split; [done|]. constructor; [simpl; lia|done].
  - destruct (child_facts d h1 p its1 (m :: its2) cs1 cl (cr :: cs2) S1 Hnd1 Hso1 Hl1)
      as (Hs' & Hnd' & Hso').
    destruct (IH h1 r cl k v Hs' Hnd' ltac:(lia) Hso' Hk) as (h' & c' & Hrun' & Hins).
    eexists h', _. split; [exact Hrun'|]. eapply inserted_after_split; [exact Hsplit|].
    eapply insert_into_child; try done. constructor; [simpl; lia|done].
Qed.

Lemma descend_spec d fuel : (d ≤ fuel)%nat → descends d fuel.
Proof.
  revert fuel. induction d as [|d IH]; intros fuel Hfuel h r [p its cs] k v Hs Hnd H6 Hso Hk.
  { inversion Hs; subst. by apply descend_leaf. }
  pose proof Hs as (Hp & (n & Hn & Hh) & Hlen & Hsh & Hocc)%shape_node_inv.
  assert (in_order its) as Hits by (eapply weave_items_sorted; [exact Hso|by rewrite length_map]).
  pose proof (rank_le k its) as Hrk. destruct (rank_split k its Hits) as [Hr1 Hr2].
  destruct (lookup_lt_is_Some_2 cs (rank k its)) as [c Hc]; [lia|].
  assert (ptr c ≠ 0) as Hc0 by (apply (shape_root h d); by eapply Forall_lookup_1).
  cbn [ptr]. unfold bind at 1. rewrite (descend_enters fuel h r p n its cs c k) by done.
  destruct fuel as [|fuel]; [lia|]. specialize (IH fuel ltac:(lia)).
  apply take_drop_middle in Hc. set (i := rank k its) in *. set (cs2 := drop (S i) cs) in *.
  assert (length (take i cs) = i) as Hli by (rewrite length_take; lia).
  assert (length (take i cs) = length (take i its)) as Hl1 by (rewrite !length_take; lia).
  rewrite <-(take_drop i its) in Hs, Hnd, Hso, H6 |- *. rewrite <-Hc in Hs, Hnd, Hso, H6 |- *.
  cbn [titems] in H6. set (cs1 := take i cs) in *.
  destruct (child_facts d h p _ _ cs1 c cs2 Hs Hnd Hso Hl1) as (Hsc & Hndc & Hsoc).
  destruct (decide (length (titems c) = 7%nat)) as [H7|H7].
  - destruct (descend_full d fuel h r p _ _ cs1 c cs2 k v IH Hs Hnd Hso H6 Hl1 H7 Hk Hr1 Hr2)
      as (h' & t' & Hrun & Hins).
    rewrite Hli in Hrun. by exists h', t'.
  - assert (length (titems c) ≤ 6)%nat as Hc6.
    { pose proof (shape_root _ _ _ Hsc) as (_ & _ & nc & ps & _ & Hhc).
      pose proof (holds_room _ _ _ Hhc). lia. }
    destruct (IH h r c k v Hsc Hndc Hc6 Hsoc Hk) as (h' & c' & Hrun' & Hins).
    eexists h', _. split; [|by eapply insert_into_child].
    rewrite find_dest_node_eq. unfold bind at 1. by rewrite (split_full_skip d).
Qed.

(** The new root above a split. *)
Lemma up_node (m : item) (p q : Z) rw :
  length (items rw) = 7%nat → children rw = replicate 8 0 → p ≠ 0 → q ≠ 0 → key m ≠ 0 →
  ∃ n1 n2 n3, put_item 0 m (put_count 1 (node_init rw)) = Some n1 ∧ put_child 0 p n1 = Some n2
    ∧ put_child 1 q n2 = Some n3 ∧ holds n3 [m] [p; q].
Proof.
  intros Hl Hc Hp Hq Hm. destruct rw as [c l cs]. simpl in *. subst cs. explode l.
  do 3 eexists. split_and!; [reflexivity..|].
  split; simpl; try done; try (by eexists); by repeat constructor.
Qed.

Lemma split_root d h r c k :
  shape h d c → NoDup (nodes c) → in_order (flatten c) → length (titems c) = 7%nat → ptr c = r →
  ∃ h1 t1, split_full fresh raw r 0 k 0 (mkBTree r h) = Ret (ptr t1) (mkBTree (ptr t1) h1)
    ∧ shape h1 (S d) t1 ∧ NoDup (nodes t1) ∧ flatten t1 = flatten c ∧ length (titems t1) = 1%nat.
Proof.
  intros Hs Hnd Hso H7 <-.
  destruct (split_tree d h c Hs H7 Hnd)
    as (nc & m & nl & nr & cl & cr & Hc & Hc7 & Hsp & Epl & Epr & Hll & Hlr & Hkm & Hfl & Hpm & Hshp).
  pose proof (shape_root _ _ _ Hs) as (Hp0 & Hpin & _).
  assert (fresh h ∉ nodes c) as Hfc.
  { intros Hin. destruct (shape_dom _ _ _ _ Hs Hin) as [x Hx]. by rewrite (za_new Ha) in Hx. }
  assert (ptr c ≠ fresh h) as Hcf by (intros E; by rewrite E in Hpin).
  set (h0 := <[fresh h := nr]> (<[ptr c := nl]> h)).
  set (up := fresh h0).
  assert (h0 !! up = None) as Hup by apply Ha.
  assert (up ≠ fresh h ∧ up ∉ nodes c ∧ up ≠ 0) as (Hu1 & Hu2 & Hu3).
  { split_and!; [| |apply Ha].
    - intros E. by rewrite E in Hup; unfold h0 in Hup; rewrite lookup_insert_eq in Hup.
    - intros Hin. destruct (shape_dom _ _ _ _ Hs Hin) as [x Hx].
      unfold h0 in Hup. rewrite !lookup_insert_None in Hup. destruct Hup as ((Hno & _) & _). congruence. }
  destruct (up_node m (ptr c) (fresh h) (raw h0)) as (n1 & n2 & n3 & R1 & R2 & R3 & Hh);
    [apply Ha|apply Ha|done|apply Ha|done|].
  exists (<[up := n3]> h0), (Node up [m] [cl; cr]). split_and!; try done.
  - unfold split_full, bind at 1, load. cbn [hp]. rewrite Hc, Hc7.
    change (7 =? BTREE_ORDER - 1) with true. cbv iota. unfold bind at 1.
    rewrite (split_node_runs (ptr c) nc m nl nr) by done. fold h0. cbv iota beta zeta.
    change (negb (0 =? 0)) with false. cbv iota.
    unfold bind at 1, allocate. cbv beta iota zeta. unfold set_hp. cbn [hp root]. fold up.
    do 5 (unfold bind at 1; erewrite update_runs by (apply lookup_insert_eq || eassumption || reflexivity);
      rewrite ?insert_insert_eq).
    unfold modify, bind, ret, set_root. cbn [hp root ptr]. done.
  - assert (shape (<[up := n3]> h0) d cl ∧ shape (<[up := n3]> h0) d cr) as [Hs1 Hs2].
    { apply Hshp.
      - rewrite lookup_insert_ne by done. apply lookup_insert_eq.
      - rewrite lookup_insert_ne by (intros ->; done). unfold h0.
        by rewrite lookup_insert_ne, lookup_insert_eq by done.
      - intros q Hq Hne. assert (q ≠ up ∧ q ≠ fresh h) as [? ?] by (split; intros ->; done).
        unfold h0. by rewrite !lookup_insert_ne. }
    apply shape_node with n3; try done.
    + apply lookup_insert_eq.
    + simpl. by rewrite Epl, Epr.
    + by repeat constructor.
    + repeat constructor; lia.
  - simpl nodes. rewrite app_nil_r. rewrite Hpm. apply NoDup_cons. split; [set_solver|].
    apply NoDup_cons. by split.
  - simpl. by rewrite app_nil_r.
Qed.

Lemma insert_empty fuel k v h :
  k ≠ 0 → ∃ s', insert fresh raw fuel k v (mkBTree 0 h) = Ret 0 s' ∧ represents s' 0 [mkItem k v].
Proof.
  intros Hk. unfold insert, is_empty, bind at 1, bind at 1, get. cbn [root]. cbn [Z.eqb].
  unfold ret at 1. unfold insert_node_empty_tree, bind, get, when. cbn [root Z.eqb].
  unfold allocate, modify, set_hp, set_root. cbn [root hp].
  set (p := fresh h). set (rw := raw h).
  assert (length (items rw) = 7%nat) as Hl by apply Ha.
  assert (children rw = replicate 8 0) as Hc by apply Ha.
  rewrite (update_runs p _ rw (node_init rw)) by (done || apply lookup_insert_eq).
  erewrite update_runs by (apply lookup_insert_eq || reflexivity). eexists. split; [reflexivity|].
  change [mkItem k v] with (flatten (Node p [mkItem k v] [])). apply rep_tree; try done; cycle 3.
  - by left.
  - simpl. eapply shape_leaf; [apply Ha|apply lookup_insert_eq|].
    destruct rw as [c l cs]. simpl in *. subst cs. explode l.
    split; simpl; try done; try (by eexists); by repeat constructor.
  - apply NoDup_singleton.
  - repeat constructor.
Qed.
End Insertion.

(** A root that removals have left without items. *)
Lemma insert_emptied fresh raw fuel k v h p n :
  k ≠ 0 → p ≠ 0 → h !! p = Some n → holds n [] [] →
  ∃ s', insert fresh raw fuel k v (mkBTree p h) = Ret 0 s' ∧ represents s' 0 [mkItem k v].
Proof.
  intros Hk Hp Hn [Hc _ Hl _ _ Hleaf _ _]. unfold insert, is_empty, bind at 1, bind at 1, get. cbn [root].
  rewrite (proj2 (Z.eqb_neq p 0)) by done. unfold bind at 1, load. cbn [hp]. rewrite Hn, Hc.
  unfold ret at 1. change (Z.of_nat (length []) =? 0) with true. cbv iota.
  unfold insert_node_empty_tree, bind, get, when. cbn [root].
  rewrite (proj2 (Z.eqb_neq p 0)) by done. unfold ret at 1. cbn [root].
  rewrite (update_runs p _ n (node_init n)) by done.
  destruct n as [c l cs]. simpl in Hl, Hc, Hleaf. rewrite (Hleaf eq_refl) in *. explode l.
  erewrite update_runs by (apply lookup_insert_eq || reflexivity). eexists. split; [reflexivity|].
  change [mkItem k v] with (flatten (Node p [mkItem k v] [])). apply rep_tree; try done; [| | |by left].
  - simpl. eapply shape_leaf; [done|apply lookup_insert_eq|].
    split; simpl; try done; try (by eexists); by repeat constructor.
  - apply NoDup_singleton.
  - repeat constructor.
Qed.

Lemma insert_spec fresh raw fuel k v s d bs :
  zeroing_allocator fresh raw → represents s d bs → k ≠ 0 → (d + 2 ≤ fuel)%nat →
  ∃ s' d' bs', insert fresh raw fuel k v s = Ret 0 s' ∧ represents s' d' bs'
    ∧ bs' ≡ₚ mkItem k v :: bs ∧ (d' ≤ S d)%nat.
Proof.
  intros Ha Hrep Hk Hfuel. destruct s as [r h]. inversion Hrep as [Hr|? t Hr Hs Hnd Hso Hne]; subst; simpl in Hr.
  { subst r. destruct (insert_empty fresh raw Ha fuel k v h Hk) as (s' & Hrun & Hrep').
    exists s', 0%nat, [mkItem k v]. split_and!; [done..|lia]. }
  simpl in Hs. pose proof (shape_root _ _ _ Hs) as (Hp & _ & n & ps & Hn & Hh).
  destruct (decide (titems t = [])) as [Et|Hne'].
  { destruct Hne as [->|]; [|done]. inversion Hs as [p n' its Hp' Hn' Hh'|]; subst. simpl in Et. subst its.
    destruct (insert_emptied fresh raw fuel k v h p n' Hk Hp' Hn' Hh') as (s' & Hrun & Hrep').
    exists s', 0%nat, [mkItem k v]. split_and!; [done..|lia]. }
  clear Hne. rename Hne' into Hne.
  assert (∀ x, (let! e := is_empty in if e : bool then do! insert_node_empty_tree fresh raw (mkItem k v) in ret 0
           else let! s := get in
                let! d := find_dest_node fresh raw fuel (root s) 0 k 0 in
                do! insert_item (fst d) (snd d) (mkItem k v) in ret 0) (mkBTree r h) = x →
    x = (let! d := find_dest_node fresh raw fuel r 0 k 0 in
         do! insert_item (fst d) (snd d) (mkItem k v) in ret 0) (mkBTree r h)) as Hrun.
  { intros x <-. unfold is_empty, bind at 1, bind at 1, get. cbn [root].
    rewrite (proj2 (Z.eqb_neq r 0)) by congruence. unfold bind at 1, load. cbn [hp].
    rewrite Hr, Hn. unfold ret at 1. rewrite (ho_count _ _ _ Hh).
    rewrite (proj2 (Z.eqb_neq _ _)); [done|]. destruct (titems t); [done|]. simpl. lia. }
  specialize (Hrun _ eq_refl). fold (insert fresh raw fuel k v) in Hrun. rewrite Hrun. clear Hrun.
  destruct fuel as [|fuel]; [lia|]. unfold bind at 1. rewrite find_dest_node_eq.
  destruct (decide (length (titems t) = 7%nat)) as [H7|H7].
  - destruct (split_root fresh raw Ha d h r t k Hs Hnd Hso H7 (eq_sym Hr))
      as (h1 & t1 & Hsp & Hs1 & Hnd1 & Hf1 & Hl1).
    destruct (descend_spec fresh raw Ha (S d) fuel ltac:(lia) h1 (ptr t1) t1 k v) as (h' & t' & Hrun & [I1 I2 I3 I4 I5 I6 I7 I8]);
      try done; [lia|by rewrite Hf1|].
    exists (mkBTree (ptr t1) h'), (S d), (flatten t'). split_and!.
    + unfold bind at 1. rewrite Hsp. unfold bind in *.
      destruct (descend fresh raw fuel (ptr t1) k (mkBTree (ptr t1) h1)); try done.
      by rewrite Hrun.
    + apply rep_tree; try done. right. destruct (titems t'); simpl in *; [lia|done].
    + by rewrite I5, Hf1.
    + lia.
  - assert (length (titems t) ≤ 6)%nat as H6 by (pose proof (holds_room _ _ _ Hh); lia).
    destruct (descend_spec fresh raw Ha d fuel ltac:(lia) h r t k v) as (h' & t' & Hrun & [I1 I2 I3 I4 I5 I6 I7 I8]);
      try done.
    exists (mkBTree r h'), d, (flatten t'). split_and!; try done; [..|lia].
    + unfold bind at 1. rewrite Hr at 1. rewrite (split_full_skip fresh raw d) by done. unfold bind in *.
      destruct (descend fresh raw fuel (ptr t) k (mkBTree r h)); try done. by rewrite Hrun.
    + apply rep_tree; simpl; try congruence. right. destruct (titems t') eqn:Et; [|done].
      destruct (titems t); simpl in *; [done|lia].
Qed.

(** ** Lookup *)

(** Where the loop of a lookup stops. *)
Fixpoint pick_in (j : nat) (k : Z) (its : list item) (leaf : bool) : pick :=
  match its with
  | [] => if leaf then PickNone else PickChild (Z.of_nat j)
  | it :: its =>
      if key it =? k then PickItem (Z.of_nat j)
      else if negb leaf && (k <? key it) then PickChild (Z.of_nat j)
      else pick_in (S j) k its leaf
  end.

Lemma node_child_null n its ps (i : nat) :
  holds n its ps → (ps = [] ∨ length ps = S (length its)) → (i ≤ length its)%nat →
  ∃ c, child_at n (Z.of_nat i) = Some c ∧ (c =? 0) = bool_decide (ps = []).
Proof.
  intros Hh Hps Hi. pose proof (holds_room _ _ _ Hh). destruct Hps as [->|Hps].
  - exists 0. split; [by eapply leaf_child; [|lia]|done].
  - destruct (lookup_lt_is_Some_2 ps i) as [c Hc]; [lia|]. exists c.
    split; [by eapply holds_child|]. pose proof (ho_null _ _ _ Hh) as Hn.
    eapply Forall_lookup_1 in Hn; [|exact Hc]. rewrite bool_decide_false by by destruct ps.
    by apply Z.eqb_neq.
Qed.

Lemma pick_pos_from n its ps k (j : nat) :
  holds n its ps → (ps = [] ∨ length ps = S (length its)) → (j ≤ length its)%nat →
  pick_pos n k (seqZ (Z.of_nat j) (count n + 1 - Z.of_nat j))
  = Some (pick_in j k (drop j its) (bool_decide (ps = []))).
Proof.
  intros Hh Hps. rewrite (ho_count _ _ _ Hh).
  remember (length its - j)%nat as m eqn:Hm. revert j Hm.
  induction m as [|m IH]; intros j Hm Hj; rewrite seqZ_cons by lia; cbn [pick_pos];
    unfold NODE_CONTAINS_ITEM, NODE_CHILD_CAN_CONTAIN_ITEM; rewrite (ho_count _ _ _ Hh);
    destruct (node_child_null n its ps j Hh Hps Hj) as (c & Hc & Hc0).
  - rewrite (proj2 (Z.eqb_eq _ _)) by lia. cbn [mbind option_bind]. rewrite Hc.
    cbn [mbind option_bind]. rewrite Hc0, drop_ge by lia. simpl.
    destruct (bool_decide (ps = [])); simpl; [|done]. by replace (Z.pred _) with 0 by lia.
  - rewrite (proj2 (Z.eqb_neq _ _)) by lia.
    destruct (lookup_lt_is_Some_2 its j) as [it Hit]; [lia|].
    rewrite (holds_item n its ps j it) by done. cbn [mbind option_bind].
    rewrite (drop_S its it j) by done. cbn [pick_in]. destruct (key it =? k); [done|].
    assert (pick_pos n k (seqZ (Z.succ (Z.of_nat j)) (Z.pred (Z.of_nat (length its) + 1 - Z.of_nat j)))
      = Some (pick_in (S j) k (drop (S j) its) (bool_decide (ps = [])))) as Hrec.
    { replace (Z.succ (Z.of_nat j)) with (Z.of_nat (S j)) by lia.
      replace (Z.pred _) with (Z.of_nat (length its) + 1 - Z.of_nat (S j)) by lia.
      apply IH; lia. }
    destruct (k <? key it).
    + rewrite Hc. cbn [mbind option_bind]. rewrite Hc0.
      destruct (bool_decide (ps = [])); [exact Hrec|done].
    + rewrite andb_false_r. exact Hrec.
Qed.

Lemma pick_pos_spec n its ps k :
  holds n its ps → (ps = [] ∨ length ps = S (length its)) →
  pick_pos n k (positions n) = Some (pick_in 0 k its (bool_decide (ps = []))).
Proof.
  intros Hh Hps. pose proof (pick_pos_from n its ps k 0 Hh Hps ltac:(lia)) as Hf.
  unfold positions. by replace (count n + 1) with (count n + 1 - Z.of_nat 0) by lia.
Qed.

(** What the position says about the items, when they are in order. *)
Lemma pick_in_spec j k its leaf :
  in_order its →
  match pick_in j k its leaf with
  | PickItem i => ∃ n it, i = Z.of_nat (j + n) ∧ its !! n = Some it ∧ key it = k
  | PickChild i => ∃ n, i = Z.of_nat (j + n) ∧ (n ≤ length its)%nat ∧ leaf = false
      ∧ Forall (λ it, key it ≤ k - 1) (take n its) ∧ Forall (λ it, k + 1 ≤ key it) (drop n its)
  | PickNone => leaf = true ∧ ∀ it, it ∈ its → key it ≠ k
  end.
Proof.
  revert j. induction its as [|it its IH]; intros j Hs; simpl.
  { destruct leaf; [split; [done|set_solver]|]. exists 0%nat. split_and!; try done. f_equal. lia. }
  apply StronglySorted_inv in Hs as [Hs Hx]. destruct (key it =? k) eqn:E1.
  { exists 0%nat, it. split_and!; [f_equal; lia|done|lia]. }
  destruct (negb leaf && (k <? key it)) eqn:E2.
  - apply andb_true_iff in E2 as [E2 E3]. exists 0%nat. simpl.
    split_and!; [f_equal; lia|lia|by destruct leaf|done|]. constructor; [lia|].
    eapply Forall_impl; [exact Hx|]. unfold key_le. simpl. lia.
  - specialize (IH (S j) Hs). destruct (pick_in (S j) k its leaf) as [i|i|].
    + destruct IH as (n & x & -> & Hn & Hk). exists (S n), x. split_and!; [f_equal; lia|done..].
    + destruct IH as (n & -> & Hn & -> & H1 & H2). exists (S n). simpl in *.
      split_and!; [f_equal; lia|lia|done| |done]. constructor; [lia|done].
    + destruct IH as [-> IH]. split; [done|]. intros x [->|Hin]%elem_of_cons; [lia|by apply IH].
Qed.

Lemma weave_elem_item its ls it :
  it ∈ its → length ls = S (length its) → it ∈ weave its ls.
Proof.
  revert ls. induction its as [|x its IH]; intros [|l ls] Hin Hl; try done; simpl.
  - by apply elem_of_nil in Hin.
  - apply elem_of_cons in Hin as [->|Hin]; [set_solver|]. simpl in Hl.
    rewrite elem_of_app, elem_of_cons. right. right. apply IH; [done|lia].
Qed.

(** The outcome of a search for [k] among [bs]. *)
Definition finds (k : Z) (bs : list item) (r : option item) : Prop :=
  match r with
  | Some it => it ∈ bs ∧ key it = k
  | None => ∀ it, it ∈ bs → key it ≠ k
  end.

(** A search that goes on in the child [c] decides for the whole node. *)
Lemma finds_child p i1 i2 cs1 c cs2 k f :
  length cs1 = length i1 → length cs2 = length i2 →
  in_order (flatten (Node p (i1 ++ i2) (cs1 ++ c :: cs2))) →
  Forall (λ it, key it ≤ k - 1) i1 → Forall (λ it, k + 1 ≤ key it) i2 →
  finds k (flatten c) f → finds k (flatten (Node p (i1 ++ i2) (cs1 ++ c :: cs2))) f.
Proof.
  intros E1 E2 Hso H1 H2 Hr. rewrite flatten_middle in Hso |- * by done.
  apply in_order_app in Hso as (HsL & HsM & _). apply in_order_app in HsM as (HsC & HsR & _).
  destruct f as [it|]; simpl in *; [set_solver|].
  intros it. rewrite !elem_of_app. intros [Hin|[Hin|Hin]]; [|by apply Hr|].
  - assert (key it ≤ k - 1); [|lia]. refine (left_of_le _ _ _ _ HsL H1 it Hin). by rewrite length_map.
  - assert (k + 1 ≤ key it); [|lia]. refine (right_of_ge _ _ _ _ HsR H2 it Hin). by rewrite length_map.
Qed.

(** The node in which the search of a tree ends, in terms of [pick_pos]: an
    item, a child to go on with, or nothing. *)
Lemma search_step h d t k :
  shape h d t → in_order (flatten t) →
  ∃ n p, h !! ptr t = Some n ∧ pick_pos n k (positions n) = Some p ∧
    match p with
    | PickItem i => ∃ it, item_at n i = Some it ∧ finds k (flatten t) (Some it)
    | PickChild i => ∃ d' c, d = S d' ∧ child_at n i = Some (ptr c) ∧ shape h d' c
        ∧ in_order (flatten c) ∧ ∀ r, finds k (flatten c) r → finds k (flatten t) r
    | PickNone => finds k (flatten t) None
    end.
Proof.
  intros Hs Hso. destruct d as [|d].
  - inversion Hs as [p n its Hp Hn Hh|]; subst. exists n. eexists.
    split_and!; [done|apply (pick_pos_spec n its []); [done|by left]|]. cbn [flatten weave List.map] in *.
    pose proof (pick_in_spec 0 k its (bool_decide ([] =@{list Z} [])) Hso) as Hpk.
    destruct (pick_in _ _ _ _).
    + destruct Hpk as (j & it & -> & Hj & Hk). exists it.
      split; [by eapply holds_item|]. split; [by eapply list_elem_of_lookup_2|done].
    + destruct Hpk as (j & _ & _ & Hf & _). done.
    + exact (proj2 Hpk).
  - destruct t as [p its cs]. apply shape_node_inv in Hs as (Hp & (n & Hn & Hh) & Hlen & Hsh & _).
    exists n. eexists. split_and!; [done|apply (pick_pos_spec n its (ptr <$> cs)); [done|right; by rewrite length_fmap]|].
    assert (in_order its) as Hits by (eapply weave_items_sorted; [exact Hso|by rewrite length_map]).
    pose proof (pick_in_spec 0 k its (bool_decide (ptr <$> cs = [])) Hits) as Hpk.
    destruct (pick_in _ _ _ _).
    + destruct Hpk as (j & it & -> & Hj & Hk). exists it. split; [by eapply holds_item|].
      split; [|done]. simpl. apply weave_elem_item; [by eapply list_elem_of_lookup_2|].
      by rewrite length_map.
    + destruct Hpk as (j & -> & Hj & _ & H1 & H2).
      destruct (lookup_lt_is_Some_2 cs j) as [c Hc]; [lia|]. exists d, c.
      assert (child_at n (Z.of_nat (0 + j)) = Some (ptr c)) as Hch.
      { change (0 + j)%nat with j. eapply holds_child; [done|]. by rewrite list_lookup_fmap, Hc. }
      pose proof (Forall_lookup_1 _ _ _ _ Hsh Hc) as Hsc.
      apply take_drop_middle in Hc. revert Hso. rewrite <-(take_drop j its), <-Hc. intros Hso.
      assert (length (take j cs) = length (take j its)) as E1 by (rewrite !length_take; lia).
      assert (length (drop (S j) cs) = length (drop j its)) as E2 by (rewrite !length_drop; lia).
      split_and!; try done; [|intros r; by apply finds_child].
      rewrite flatten_middle in Hso by done. apply in_order_app in Hso as (_ & HsM & _).
      by apply in_order_app in HsM as (? & _).
    + destruct Hpk as [Hf _]. apply bool_decide_eq_true in Hf. by destruct cs.
Qed.

(** Both searches follow the same path. *)
Lemma searches_agree fuel d t k r h :
  shape h d t → in_order (flatten t) → (d < fuel)%nat →
  ∃ f, finds k (flatten t) f
    ∧ get_in_node fuel (ptr t) k (mkBTree r h) = Ret (match f with Some it => val it | None => 0 end) (mkBTree r h)
    ∧ lookup_in_node fuel (ptr t) k (mkBTree r h) = Ret (match f with Some _ => 1 | None => 0 end) (mkBTree r h).
Proof.
  revert d t. induction fuel as [|fuel IH]; intros d t Hs Hso Hd; [lia|].
  destruct (search_step h d t k Hs Hso) as (n & p & Hn & Hp & Hres).
  cbn [get_in_node lookup_in_node]. unfold bind, load. cbn [hp]. rewrite Hn, Hp. cbn [lift].
  unfold ret. destruct p as [i|i|].
  - destruct Hres as (it & Hit & Hf). exists (Some it). split; [done|]. by rewrite Hit.
  - destruct Hres as (d' & c & -> & Hc & Hs' & Hso' & Hf).
    destruct (IH d' c Hs' Hso' ltac:(lia)) as (f & Hff & Hg & Hl).
    exists f. split; [by apply Hf|]. rewrite Hc. split; [exact Hg|exact Hl].
  - exists None. done.
Qed.

Lemma get_spec fuel k s d bs :
  represents s d bs → (d < fuel)%nat →
  ∃ f, finds k bs f
    ∧ btree_get fuel k s = Ret (match f with Some it => val it | None => 0 end) s
    ∧ btree_map_lookup fuel k s = Ret (match f with Some _ => 1 | None => 0 end) s.
Proof.
  intros Hrep Hd. destruct s as [r h]. unfold btree_get, btree_map_lookup, bind, get.
  inversion Hrep as [Hr|? t Hr Hs Hnd Hso Hne]; subst; simpl in *.
  - subst r. exists None. split; [intros it Hin; by apply elem_of_nil in Hin|done].
  - pose proof (shape_root _ _ _ Hs) as (Hp & _). rewrite (proj2 (Z.eqb_neq r 0)) by congruence.
    rewrite Hr. by apply (searches_agree fuel d).
Qed.

(** ** Iteration *)

Section Iteration.
Context {A : Type} (cb : Z → Z → A → A * Z).

(** The callback on one binding. *)
Definition visit (a : A) (it : item) : A := fst (cb (key it) (val it) a).

Lemma foreach_step_ext rec n c1 c2 l s :
  c1 s = c2 s → foldl (foreach_step cb rec n) c1 l s = foldl (foreach_step cb rec n) c2 l s.
Proof.
  revert c1 c2. induction l as [|i l IH]; intros c1 c2 Hc; simpl; [done|].
  apply IH. unfold foreach_step, bind. by rewrite Hc.
Qed.

(** The loop from position [j], each child [i] having the bindings [ls !! i]. *)
Lemma foreach_from rec n its ps (ls : list (list item)) s (j : nat) a :
  (∀ k v b, snd (cb k v b) = 0) → holds n its ps → length ls = S (length its) →
  (∀ i l, ls !! i = Some l → ∃ c, child_at n (Z.of_nat i) = Some c
     ∧ ∀ b, rec c b s = Ret (foldl visit b l, 0) s) →
  (j ≤ length its)%nat →
  foldl (foreach_step cb rec n) (ret (a, 0)) (seqZ (Z.of_nat j) (count n + 1 - Z.of_nat j)) s
  = Ret (foldl visit a (weave (drop j its) (drop j ls)), 0) s.
Proof.
  intros Hcb Hh Hls Hrec. rewrite (ho_count _ _ _ Hh).
  remember (length its - j)%nat as m eqn:Hm. revert j a Hm.
  induction m as [|m IH]; intros j a Hm Hj; rewrite seqZ_cons by lia; cbn [foldl];
    destruct (lookup_lt_is_Some_2 ls j) as [l Hl]; try lia;
    destruct (Hrec j l Hl) as (c & Hc & Hrun); rewrite (drop_S ls l j) by done.
  - assert (foreach_step cb rec n (ret (a, 0)) (Z.of_nat j) s = Ret (foldl visit a l, 0) s) as E.
    { unfold foreach_step, bind, ret. cbn [Z.eqb negb]. rewrite Hc. cbn [lift]. unfold ret.
      rewrite Hrun. cbn [Z.eqb negb]. rewrite (ho_count _ _ _ Hh), (proj2 (Z.eqb_eq _ _)) by lia. done. }
    rewrite seqZ_nil by lia. cbn [foldl]. rewrite E, drop_ge by lia.
    simpl. by rewrite app_nil_r.
  - destruct (lookup_lt_is_Some_2 its j) as [it Hit]; [lia|].
    assert (foreach_step cb rec n (ret (a, 0)) (Z.of_nat j) s
      = Ret (visit (foldl visit a l) it, 0) s) as E.
    { unfold foreach_step, bind, ret. cbn [Z.eqb negb]. rewrite Hc. cbn [lift]. unfold ret.
      rewrite Hrun. cbn [Z.eqb negb]. rewrite (ho_count _ _ _ Hh), (proj2 (Z.eqb_neq _ _)) by lia.
      rewrite (holds_item n its ps j it) by done. cbn [lift]. unfold ret.
      pose proof (Forall_lookup_1 _ _ _ _ (ho_keys _ _ _ Hh) Hit) as Hk. simpl in Hk.
      rewrite (proj2 (Z.eqb_neq _ _)) by done. unfold visit.
      pose proof (Hcb (key it) (val it) (foldl visit a l)) as Hz. unfold visit in Hz.
      destruct (cb _ _ _) as [b rc]. simpl in *. by rewrite Hz. }
    rewrite (foreach_step_ext _ _ _ (ret (visit (foldl visit a l) it, 0))) by done.
    replace (Z.succ (Z.of_nat j)) with (Z.of_nat (S j)) by lia.
    replace (Z.pred _) with (Z.of_nat (length its) + 1 - Z.of_nat (S j)) by lia.
    rewrite IH by lia. rewrite (drop_S its it j) by done. cbn [weave].
    by rewrite foldl_app.
Qed.

Lemma weave_nils its : weave its (replicate (S (length its)) []) = its.
Proof. induction its as [|it its IH]; [done|]. cbn [length replicate weave app] in *. by rewrite IH. Qed.

Lemma foreach_node_spec fuel d t a r h :
  (∀ k v b, snd (cb k v b) = 0) → shape h d t → (d + 2 ≤ fuel)%nat →
  foreach_node cb fuel (ptr t) a (mkBTree r h) = Ret (foldl visit a (flatten t), 0) (mkBTree r h).
Proof.
  intros Hcb. revert d t a. induction fuel as [|fuel IH]; intros d t a Hs Hf; [lia|].
  pose proof (shape_root _ _ _ Hs) as (Hp & _). cbn [foreach_node].
  rewrite (proj2 (Z.eqb_neq _ _)) by done. unfold bind, load. cbn [hp].
  destruct d as [|d].
  - inversion Hs as [p n its Hp' Hn Hh|]; subst. cbn [ptr] in *. rewrite Hn.
    unfold positions. replace (count n + 1) with (count n + 1 - Z.of_nat 0) by lia.
    rewrite (foreach_from _ n its [] (replicate (S (length its)) []) _ 0 a Hcb Hh);
      [|by rewrite length_replicate| |lia].
    + rewrite !drop_0, weave_nils. done.
    + intros i l [-> Hi]%lookup_replicate. exists 0. pose proof (holds_room _ _ _ Hh).
      split; [eapply leaf_child; [done|lia]|]. intros b. destruct fuel; [lia|]. done.
  - destruct t as [p its cs]. apply shape_node_inv in Hs as (_ & (n & Hn & Hh) & Hlen & Hsh & _).
    cbn [ptr]. rewrite Hn. unfold positions.
    replace (count n + 1) with (count n + 1 - Z.of_nat 0) by lia.
    rewrite (foreach_from _ n its (ptr <$> cs) (List.map flatten cs) _ 0 a Hcb Hh);
      [done|by rewrite length_map| |lia].
    + intros i l Hl. change (List.map flatten cs) with (flatten <$> cs) in Hl.
      rewrite list_lookup_fmap in Hl. destruct (cs !! i) as [c|] eqn:Hc; [|done].
      simpl in Hl. injection Hl as <-. exists (ptr c).
      split; [eapply holds_child; [done|]; by rewrite list_lookup_fmap, Hc|].
      intros b. apply (IH d); [by eapply Forall_lookup_1|lia].
Qed.
End Iteration.


