(* ===== verification/BTreeUse.v ===== *)
(** * What the B-tree promises its users

    The theorems on whole trees: insertion, search and iteration on any tree,
    the bound on the depth, the round trip of a sequence of insertions, removal
    from a tree of one node; then concrete trees, on which the theorems are
    applied and the cases are run in which the code goes wrong. *)

From stdpp Require Import base list gmap sorting.
From Stdlib Require Import ZArith Lia.
From S2P Require Import Prelude BTree BTreeSpec.

(** ** Sizes *)

Lemma weave_length its ls :
  length ls = S (length its) →
  (length (weave its ls) + 1 = sum_list_with (λ l, length l + 1) ls)%nat.
Proof.
  revert ls. induction its as [|it its IH]; intros [|l ls] Hl; try done; simpl in Hl |- *.
  - destruct ls; [|done]. rewrite app_nil_r. simpl. lia.
  - rewrite length_app. simpl. specialize (IH ls ltac:(lia)). lia.
Qed.

Lemma sum_list_with_ge {A} (f : A → nat) m l :
  Forall (λ x, m ≤ f x)%nat l → (length l * m ≤ sum_list_with f l)%nat.
Proof. induction 1; simpl; lia. Qed.

(** A subtree below the root is at least half full. *)
Lemma subtree_size h d t :
  shape h d t → (3 ≤ length (titems t))%nat → (4 ^ S d ≤ length (flatten t) + 1)%nat.
Proof.
  revert t. induction d as [|d IH]; intros [p its cs] Hs H3.
  - inversion Hs; subst. simpl in *. lia.
  - apply shape_node_inv in Hs as (_ & _ & Hlen & Hsh & Hmin). cbn [flatten titems] in *.
    rewrite weave_length by by rewrite length_map.
    assert (Forall (λ l, 4 ^ S d ≤ length l + 1)%nat (List.map flatten cs)) as Hall.
    { apply List.Forall_map, Forall_forall. intros c Hc. rewrite Forall_forall in Hsh, Hmin.
      apply IH; [by apply Hsh|by apply Hmin]. }
    apply (sum_list_with_ge (λ l, length l + 1)%nat) in Hall. rewrite length_map, Hlen in Hall.
    rewrite Nat.pow_succ_r'. nia.
Qed.

Lemma tree_size h d t :
  shape h d t → (1 ≤ length (titems t))%nat → (2 * 4 ^ d ≤ length (flatten t) + 1)%nat.
Proof.
  intros Hs H1. destruct d as [|d]; destruct t as [p its cs].
  - inversion Hs; subst. simpl in *. lia.
  - apply shape_node_inv in Hs as (_ & _ & Hlen & Hsh & Hmin). cbn [flatten titems] in *.
    rewrite weave_length by by rewrite length_map.
    assert (Forall (λ l, 4 ^ S d ≤ length l + 1)%nat (List.map flatten cs)) as Hall.
    { apply List.Forall_map, Forall_forall. intros c Hc. rewrite Forall_forall in Hsh, Hmin.
      eapply subtree_size; [by apply Hsh|by apply Hmin]. }
    apply (sum_list_with_ge (λ l, length l + 1)%nat) in Hall. rewrite length_map, Hlen in Hall. nia.
Qed.

Lemma represents_depth s d bs : represents s d bs → (d = 0 ∨ 2 * 4 ^ d ≤ length bs + 1)%nat.
Proof.
  intros [|d' t Hr Hs Hnd Hso [->|Hne]]; [by left..|]. right. eapply tree_size; [done|].
  destruct (titems t); [done|]. simpl. lia.
Qed.

(** ** Sequences of insertions *)

Definition insert_all (fresh : heap → Z) (raw : heap → btree_node_t) (fuel : nat) (kvs : list item)
    : cmd btree_t unit :=
  for_each kvs (λ kv, do! insert fresh raw fuel (key kv) (val kv) in ret tt).

Lemma insert_all_spec fresh raw fuel kvs s d bs :
  zeroing_allocator fresh raw → represents s d bs → Forall (λ kv, key kv ≠ 0) kvs →
  (length kvs + d + 2 ≤ fuel)%nat →
  ∃ s' d' bs', insert_all fresh raw fuel kvs s = Ret tt s' ∧ represents s' d' bs'
    ∧ bs' ≡ₚ kvs ++ bs ∧ (d' ≤ length kvs + d)%nat.
Proof.
  intros Ha. revert s d bs. induction kvs as [|[k v] kvs IH]; intros s d bs Hrep Hks Hf.
  - exists s, d, bs. split_and!; try done.
  - apply Forall_cons in Hks as [Hk Hks]. simpl in Hk, Hf.
    destruct (insert_spec fresh raw fuel k v s d bs Ha Hrep Hk ltac:(lia)) as (s1 & d1 & bs1 & Hrun & Hrep1 & Hp1 & Hd1).
    destruct (IH s1 d1 bs1 Hrep1 Hks ltac:(lia)) as (s' & d' & bs' & Hrun' & Hrep' & Hp' & Hd').
    exists s', d', bs'. split_and!; [|done| |simpl; lia].
    + unfold insert_all in *. cbn [for_each]. unfold bind, ret in *. cbn [key val]. by rewrite Hrun.
    + rewrite Hp', Hp1. simpl. symmetry. apply Permutation_middle.
Qed.

Lemma finds_unique k kvs bs f :
  NoDup (key <$> kvs) → bs ≡ₚ kvs → finds k bs f → f = find (λ kv, key kv =? k) kvs.
Proof.
  intros Hnd Hp Hf. destruct (find _ kvs) as [kv|] eqn:E.
  - apply List.find_some in E as [Hin Hk]. apply list_elem_of_In in Hin. apply Z.eqb_eq in Hk.
    destruct f as [it|]; simpl in Hf.
    + destruct Hf as [Hit Hkey]. rewrite Hp in Hit. f_equal.
      apply list_elem_of_lookup in Hin as [i Hi]. apply list_elem_of_lookup in Hit as [j Hj].
      assert (i = j) as ->; [|congruence]. apply (NoDup_lookup (key <$> kvs) i j k Hnd);
        rewrite list_lookup_fmap, ?Hi, ?Hj; simpl; congruence.
    + exfalso. apply (Hf kv); [by rewrite Hp|done].
  - destruct f as [it|]; [|done]. simpl in Hf. destruct Hf as [Hit Hkey]. rewrite Hp in Hit.
    apply list_elem_of_In in Hit. pose proof (List.find_none _ _ E it Hit) as Hn. simpl in Hn. lia.
Qed.

(** ** Properties *)


(** get returns the value of a binding of the key, and 0 when the key is not
    bound; lookup returns 1 and 0 in the same cases.  Neither changes the tree,
    and a tree of depth [d] takes at most [d + 1] calls. *)
Theorem get_reads_binding fuel k s d bs :
  represents s d bs → (d < fuel)%nat →
  ∃ f, finds k bs f
    ∧ btree_get fuel k s = Ret (match f with Some it => val it | None => 0 end) s
    ∧ btree_map_lookup fuel k s = Ret (match f with Some _ => 1 | None => 0 end) s.
Proof. apply get_spec. Qed.

(** foreach calls the callback once on every binding, in key order, and
    returns 0, when the callback never stops it. *)
Theorem foreach_in_order {A} (cb : Z → Z → A → A * Z) fuel a s d bs :
  (∀ k v b, snd (cb k v b) = 0) → represents s d bs → (d + 2 ≤ fuel)%nat →
  foreach cb fuel a s = Ret (foldl (visit cb) a bs, 0) s ∧ in_order bs.
Proof.
  intros Hcb Hrep Hf. destruct s as [r h]. unfold foreach, bind, get.
  inversion Hrep as [Hr|? t Hr Hs Hnd Hso Hne]; subst; simpl in *.
  - subst r. destruct fuel; [lia|]. split; [done|constructor].
  - rewrite Hr. split; [|done]. by apply (foreach_node_spec cb fuel d).
Qed.

(** The depth of the tree is logarithmic in the number of its bindings: a
    tree of depth [d > 0] has at least [2 * 4 ^ d - 1] of them. *)
Theorem depth_logarithmic s d bs :
  represents s d bs → d ≠ 0%nat → (2 * 4 ^ d ≤ length bs + 1)%nat.
Proof. intros [->|H]%represents_depth Hd; done. Qed.

(** ** Removal from a leaf *)

(** The arrays after the item at [i] is removed. *)
Lemma remove_items n its (i : nat) :
  holds n its [] → (i < length its)%nat →
  ∃ n' r, remove_from_leaf (Z.of_nat i) n = Some n' ∧ count n' = Z.of_nat (length its) - 1
    ∧ items n' = (take i its ++ drop (S i) its) ++ r ∧ length (items n') = 7%nat
    ∧ children n' = children n.
Proof.
  intros Hh Hi. pose proof (holds_room _ _ _ Hh) as H7.
  pose proof Hh as [Hc [r Hr] Hl Hlc _ Hleaf _ _]. specialize (Hleaf eq_refl).
  assert (length its + length r = 7)%nat as Hlen by (rewrite <-Hl, Hr, length_app; lia).
  unfold remove_from_leaf. rewrite Hc.
  destruct ((Z.of_nat (length its) =? 1) || (Z.of_nat i =? BTREE_ORDER - 2)) eqn:E.
  - assert (S i = length its) as Hlast by (apply orb_true_iff in E; unfold BTREE_ORDER in E; lia).
    unfold node_clear, put_item. rewrite nat_leb. unfold BTREE_ORDER.
    rewrite (proj2 (Z.ltb_lt _ _)) by lia. cbn [andb mbind option_bind].
    do 2 eexists. split; [reflexivity|]. cbn [count items children put_count put_items].
    rewrite Hc, Nat2Z.id, wrap_small, length_insert by lia. split_and!; try done.
    rewrite Hr, (drop_ge its), (app_nil_r (take i its)) by lia.
    rewrite insert_app_l by lia. rewrite insert_take_drop, (drop_ge its) by lia.
    rewrite <-app_assoc. reflexivity.
  - assert (wrap64 (Z.of_nat (length its) - Z.of_nat i) = Z.of_nat (length its - i)) as ->
      by (rewrite wrap_small; lia).
    unfold move_items, in_bounds. rewrite !(proj2 (Z.leb_le _ _)) by lia. cbn [andb mbind option_bind].
    do 2 eexists. split; [reflexivity|]. cbn [count items children put_count put_items].
    rewrite Hc, wrap_small by lia.
    replace (Z.to_nat (Z.of_nat i + 1)) with (S i) by lia. rewrite !Nat2Z.id.
    assert (length (item_view n) = 11%nat) as Hv.
    { unfold item_view. rewrite length_app, Hl, Hleaf. done. }
    split_and!; [done| | |done].
    + unfold splice, item_view. rewrite Hr, <-(app_assoc its). rewrite (take_app_le its) by lia.
      rewrite (drop_app_le its _ (S i)) by lia. rewrite take_app_ge by (rewrite length_drop; lia).
      rewrite <-!app_assoc. reflexivity.
    + unfold splice. rewrite !length_app, !length_take, !length_drop, Hv, Hl. lia.
Qed.

Lemma remove_holds n its (i : nat) :
  holds n its [] → (i < length its)%nat →
  ∃ n', remove_from_leaf (Z.of_nat i) n = Some n' ∧ holds n' (take i its ++ drop (S i) its) [].
Proof.
  intros Hh Hi. destruct (remove_items n its i Hh Hi) as (n' & r & Hrm & Hc & Hit & Hl & Hch).
  pose proof Hh as [_ _ _ Hlc _ Hleaf _ Hks]. exists n'. split; [done|].
  split; rewrite ?Hch; try done; [|by eexists|by eexists|].
  - rewrite Hc, length_app, length_take, length_drop. lia.
  - apply Forall_app. split; [by apply Forall_take|by apply Forall_drop].
Qed.

Lemma in_order_sublist l1 l2 : l1 `sublist_of` l2 → in_order l2 → in_order l1.
Proof.
  induction 1 as [|x l1 l2 Hs IH|x l1 l2 Hs IH]; intros Ho; [done|..];
    apply StronglySorted_inv in Ho as [Ho Hx]; [|by apply IH].
  constructor; [by apply IH|]. rewrite Forall_forall in *. intros y Hy. apply Hx.
  by eapply elem_of_sublist.
Qed.

Lemma delete_sublist {A} (l : list A) i : (take i l ++ drop (S i) l) `sublist_of` l.
Proof.
  rewrite <-(take_drop i l) at 3. apply sublist_app; [done|].
  assert (drop (S i) l = drop 1 (drop i l)) as -> by (rewrite drop_drop; f_equal; lia).
  destruct (drop i l); [done|]. simpl. by constructor.
Qed.

(** Removal from a tree of one node: remove takes out one binding of the key
    and returns its value, keeping the others in order; when the key is not
    bound it returns 0 and leaves the tree as it is. *)
Theorem remove_from_root_leaf fuel k s bs :
  represents s 0 bs → root s ≠ 0 → (2 ≤ fuel)%nat →
  (∃ i it s', bs !! i = Some it ∧ key it = k ∧ remove fuel k s = Ret (val it) s'
     ∧ represents s' 0 (take i bs ++ drop (S i) bs))
  ∨ ((∀ it, it ∈ bs → key it ≠ k) ∧ remove fuel k s = Ret 0 s).
Proof.
  intros Hrep Hr Hf. destruct s as [r h]. simpl in Hr.
  destruct fuel as [|[|fuel]]; [lia..|].
  inversion Hrep as [|? t Hr' Hs Hnd Hso Hne]; subst; simpl in *; [done|].
  inversion Hs as [p n its Hp Hn Hh|]; subst. cbn [flatten weave List.map ptr] in *.
  pose proof (pick_pos_spec n its [] k Hh (or_introl eq_refl)) as Hpick.
  pose proof (pick_in_spec 0 k its (bool_decide ([] =@{list Z} [])) Hso) as Hsp.
  destruct (pick_in _ _ _ _) as [j|j|].
  - left. destruct Hsp as (i & it & -> & Hi & Hk). exists i, it.
    destruct (remove_holds n its i Hh) as (n' & Hrm & Hh'); [by eapply lookup_lt_Some|].
    exists (mkBTree p (<[p := n']> h)). split_and!; [done..| |].
    + unfold remove, bind, get. cbn [root remove_item]. unfold bind, load. cbn [hp]. rewrite Hn, Hpick.
      cbn [lift]. unfold ret. rewrite (holds_item n its [] (0 + i) it) by done. cbn [lift remove_from_node].
      unfold bind, ret, load, when. cbn [hp]. rewrite Hn.
      rewrite (leaf_child n its 0 Hh ltac:(lia) : child_at n 0 = Some 0). cbn [lift]. unfold ret. change (0 =? 0) with true. cbv iota.
      by rewrite (update_runs p _ n n') by done.
    + change (take i its ++ drop (S i) its) with (flatten (Node p (take i its ++ drop (S i) its) [])).
      apply rep_tree; try done; [| |by left].
      * apply shape_leaf with n'; [done|apply lookup_insert_eq|done].
      * simpl. eapply in_order_sublist; [apply delete_sublist|done].
  - destruct Hsp as (i & _ & _ & Hfalse & _). done.
  - right. split; [exact (proj2 Hsp)|]. unfold remove, bind, get. cbn [root remove_item].
    unfold bind, load. cbn [hp]. by rewrite Hn, Hpick.
Qed.

(** ** A merge under a full parent *)

(** An update ends in a trap, or changes the one node. *)
Lemma update_cases p f (s : btree_t) :
  (∃ s', update p f s = Trap s')
  ∨ (∃ n n', hp s !! p = Some n ∧ f n = Some n' ∧ update p f s = Ret tt (set_hp (<[p := n']> (hp s)) s)).
Proof.
  unfold update, bind, load. destruct (hp s !! p) as [n|] eqn:E; [|left; by eexists].
  destruct (f n) as [n'|] eqn:Ef; [|left; by eexists]. right. by exists n, n'.
Qed.

Lemma deallocate_cases p (s : btree_t) :
  (∃ s', deallocate p s = Trap s') ∨ deallocate p s = Ret tt (set_hp (delete p (hp s)) s).
Proof. unfold deallocate. destruct (hp s !! p); [by right|left; by eexists]. Qed.

(** The second shift of merge in a parent that had seven items. *)
Lemma shift_past_node (n : btree_node_t) pos :
  count n = 6 → 0 ≤ pos ≤ 6 → move_children (pos + 1) (pos + 2) (wrap64 (count n - pos + 1)) n = None.
Proof.
  intros Hc Hp. rewrite Hc, wrap_small by lia. unfold move_children, in_bounds.
  rewrite (proj2 (Z.leb_gt (pos + 2 + _) 8)) by lia. by rewrite !andb_false_r.
Qed.

(** A deficient node that is the only child of its parent cannot be rebalanced: it
    has no sibling, and the code merges with the left one at position -1. *)
Lemma rebalance_only_child node parent (s : btree_t) pn :
  hp s !! parent = Some pn → count pn = 0 → rebalance node parent 0 s = Trap s.
Proof.
  intros Hp Hc. unfold rebalance, bind at 1, load at 1. rewrite Hp, Hc. cbn.
  unfold merge, bind at 1, load at 1. by rewrite Hp.
Qed.

(** A merge of two children of a node with seven items always leaves the node:
    it moves one child pointer too many, from behind the last one.  This holds for
    every heap and every position. *)
Theorem merge_reads_past_full_parent rn node parent pos (s : btree_t) pn :
  hp s !! parent = Some pn → count pn = BTREE_ORDER - 1 → 0 ≤ pos ≤ 6 → node ≠ parent → rn ≠ parent →
  ∃ s', merge rn node parent pos s = Trap s'.
Proof.
  intros Hp Hc Hpos Hn Hr. unfold BTREE_ORDER in Hc. unfold merge. unfold bind at 1, load at 1. rewrite Hp.
  unfold bind at 1. destruct (item_at pn pos) as [sep|]; simpl lift; [|by eexists]. unfold ret at 1.
  unfold bind at 1. destruct (update_cases node (λ n, set_item (count n) sep n) s) as [[s' ->]|(n1 & n1' & _ & _ & ->)];
    [by eexists|].
  unfold bind at 1, load at 1. cbn [hp set_hp]. destruct (<[node := n1']> (hp s) !! rn) as [r|]; [|by eexists].
  unfold bind at 1. destruct (update_cases node (append_node r) (set_hp (<[node := n1']> (hp s)) s))
    as [[s' ->]|(n2 & n2' & _ & _ & ->)]; [by eexists|]. cbn [hp set_hp].
  unfold bind at 1. set (s2 := set_hp _ _). destruct (deallocate_cases rn s2) as [[s' ->]| ->]; [by eexists|].
  assert (hp (set_hp (delete rn (hp s2)) s2) !! parent = Some pn) as Hp3.
  { unfold s2. cbn [hp set_hp]. by rewrite lookup_delete_ne, !lookup_insert_ne. }
  set (s3 := set_hp (delete rn (hp s2)) s2) in *. clearbody s3. clear s2.
  unfold bind at 1.
  destruct (update_cases parent (λ n, Some (put_count (wrap64 (count n - 1)) n)) s3) as [[s' ->]|(n3 & n3' & E3 & F3 & ->)];
    [by eexists|].
  rewrite E3 in Hp3. injection Hp3 as ->. injection F3 as <-. unfold bind at 1.
  match goal with |- context [update parent ?f ?s4] => destruct (update_cases parent f s4) as [[s' ->]|(n4 & n4' & E4 & F4 & ->)] end;
    [by eexists|].
  cbn [hp set_hp] in E4. rewrite lookup_insert_eq in E4. injection E4 as <-.
  assert (count n4' = 6) as Hc4.
  { unfold move_items in F4. destruct (_ && _); [|done]. injection F4 as <-. simpl. rewrite Hc. by vm_compute. }
  unfold bind at 1.
  match goal with |- context [update parent ?f ?s5] => destruct (update_cases parent f s5) as [[s' ->]|(n5 & n5' & E5 & F5 & _)] end;
    [by eexists|].
  cbn [hp set_hp] in E5. rewrite lookup_insert_eq in E5. injection E5 as <-.
  by rewrite shift_past_node in F5.
Qed.

(** ** Concrete trees *)

Module Demo.

(** The next free index, and a node of zeros. *)
Definition fresh (h : heap) : Z := 1 + foldr Z.max 0 (fst <$> map_to_list h).
Definition raw (h : heap) : btree_node_t := mkNode 0 (replicate 7 (mkItem 0 0)) (replicate 8 0).

Lemma demo_allocator : zeroing_allocator fresh raw.
Proof.
  split; intros h; try done.
  - destruct (h !! fresh h) as [n|] eqn:E; [|done]. apply elem_of_map_to_list in E.
    apply (list_elem_of_fmap_2 fst) in E. apply foldr_max_ge in E. unfold fresh in E. simpl in E. lia.
  - unfold fresh. pose proof (foldr_max_nonneg (fst <$> map_to_list h)). lia.
Qed.

Definition empty : btree_t := mkBTree 0 ∅.
Definition numbers (a n : Z) : list item := (λ k, mkItem k (10 * k)) <$> seqZ a n.
Definition built (kvs : list item) : btree_t := state_of (insert_all fresh raw 40 kvs empty).
Definition collect (k v : Z) (l : list (Z * Z)) : list (Z * Z) * Z := (l ++ [(k, v)], 0).
Definition bindings (s : btree_t) : outcome btree_t (list (Z * Z) * Z) := foreach collect 40 [] s.

(** Eight bindings make a root with two leaves. *)
Definition eight : btree_t := built (numbers 1 8).
Definition eight_tree : tree :=
  Node 3 (numbers 4 1) [Node 1 (numbers 1 3) []; Node 2 (numbers 5 4) []].

Ltac holds_by_computation :=
  split; [reflexivity|eexists; reflexivity|reflexivity|reflexivity|eexists; reflexivity
         |try discriminate; reflexivity|repeat constructor; discriminate|repeat constructor; discriminate].

Lemma eight_shape : shape (hp eight) 1 eight_tree.
Proof.
  eapply shape_node; [discriminate|vm_compute; reflexivity|holds_by_computation|reflexivity| |].
  - repeat constructor; (eapply shape_leaf; [discriminate|vm_compute; reflexivity|holds_by_computation]).
  - repeat constructor; simpl; lia.
Qed.

Lemma eight_represents : represents eight 1 (numbers 1 8).
Proof.
  change (numbers 1 8) with (flatten eight_tree). apply rep_tree.
  - vm_compute. reflexivity.
  - apply eight_shape.
  - apply (bool_decide_unpack _). vm_compute. exact I.
  - repeat constructor; discriminate.
  - right. discriminate.
Qed.

(** A root that is a leaf. *)
Definition three : btree_t := built (numbers 1 3).

Lemma three_represents : represents three 0 (numbers 1 3).
Proof.
  change (numbers 1 3) with (flatten (Node 1 (numbers 1 3) [])). apply rep_tree.
  - vm_compute. reflexivity.
  - eapply shape_leaf; [discriminate|vm_compute; reflexivity|holds_by_computation].
  - apply (bool_decide_unpack _). vm_compute. exact I.
  - repeat constructor; discriminate.
  - by left.
Qed.


Lemma get_reads_binding_witness :
  ∃ f, finds 7 (numbers 1 8) f
    ∧ btree_get 2 7 eight = Ret (match f with Some it => val it | None => 0 end) eight
    ∧ btree_map_lookup 2 7 eight = Ret (match f with Some _ => 1 | None => 0 end) eight.
Proof.
  apply (get_reads_binding 2 7 eight 1 (numbers 1 8)); [exact eight_represents|lia].
Defined.

Lemma foreach_in_order_witness :
  foreach collect 3 [] eight = Ret (foldl (visit collect) [] (numbers 1 8), 0) eight
  ∧ in_order (numbers 1 8).
Proof.
  apply (foreach_in_order collect 3 [] eight 1 (numbers 1 8)); [reflexivity|exact eight_represents|lia].
Defined.


Lemma depth_logarithmic_witness : (2 * 4 ^ 1 ≤ length (numbers 1 8) + 1)%nat.
Proof. apply (depth_logarithmic eight 1 (numbers 1 8)); [exact eight_represents|discriminate]. Defined.

Lemma remove_from_root_leaf_witness :
  (∃ i it s', numbers 1 3 !! i = Some it ∧ key it = 2 ∧ remove 2 2 three = Ret (val it) s'
     ∧ represents s' 0 (take i (numbers 1 3) ++ drop (S i) (numbers 1 3)))
  ∨ ((∀ it, it ∈ numbers 1 3 → key it ≠ 2) ∧ remove 2 2 three = Ret 0 three).
Proof.
  apply (remove_from_root_leaf 2 2 three (numbers 1 3)); [exact three_represents|vm_compute; discriminate|lia].
Defined.

(** Where the code goes wrong. *)
Definition traps {S A} (o : outcome S A) : bool := match o with Trap _ => true | _ => false end.

(** remove does not test for an empty tree: it reads through the null root. *)
Theorem remove_from_empty_tree : traps (remove 40 1 empty) = true.
Proof. vm_compute. reflexivity. Qed.

(** Taking the separator out of the root fourteen times, its successor each time
    from the same leaf, empties the parent of that leaf: only the leaf is
    rebalanced.  The next removal then rebalances an only child. *)
Definition root_key (s : btree_t) : Z :=
  match hp s !! root s with Some n => default 0 (key <$> head (items n)) | None => 0 end.
Fixpoint remove_roots (n : nat) (s : btree_t) : list Z * outcome btree_t Z :=
  match n with
  | O => ([], Ret 0 s)
  | S n =>
      match remove 40 (root_key s) s with
      | Ret v s' => let '(vs, o) := remove_roots n s' in (v :: vs, o)
      | o => ([], o)
      end
  end.

Theorem removals_empty_inner_node :
  let s := state_of (remove_roots 14 (built (numbers 1 33))).2 in
  (remove_roots 14 (built (numbers 1 33))).1 = (λ k, 10 * k) <$> seqZ 16 14
  ∧ btree_get 40 30 s = Ret 300 s
  ∧ traps (remove 40 30 s) = true.
Proof. vm_compute. split; [reflexivity|split; reflexivity]. Qed.

(** The tree of the first 32 numbers has a full root. *)
Definition full_root : btree_node_t :=
  mkNode 7 ((λ k, mkItem k (10 * k)) <$> [4; 8; 12; 16; 20; 24; 28]) [1; 2; 4; 5; 6; 7; 8; 9].

Lemma full_root_at : hp (built (numbers 1 32)) !! 3 = Some full_root.
Proof. vm_compute. reflexivity. Qed.

Lemma merge_reads_past_full_parent_witness :
  ∃ s', merge 2 1 3 0 (built (numbers 1 32)) = Trap s'.
Proof.
  exact (merge_reads_past_full_parent 2 1 3 0 (built (numbers 1 32)) full_root full_root_at
    eq_refl ltac:(lia) ltac:(discriminate) ltac:(discriminate)).
Defined.

(** remove reaches such a merge. *)
Theorem remove_runs_into_merge :
  traps (insert_all fresh raw 40 (numbers 1 32) empty) = false
  ∧ traps (remove 40 1 (built (numbers 1 32))) = true
  ∧ traps (remove 40 1 (built (numbers 1 20))) = false.
Proof. split_and!; vm_compute; reflexivity. Qed.

(** Key 0 marks a free slot: insert takes it, and foreach does not show it. *)
Theorem key_zero_is_not_iterated :
  (∃ s, insert fresh raw 40 0 9 three = Ret 0 s
     ∧ btree_get 40 0 s = Ret 9 s
     ∧ bindings s = Ret ([(1, 10); (2, 20); (3, 30)], 0) s).
Proof. eexists. split_and!; vm_compute; reflexivity. Qed.

(** clear frees the children before [count] only: the last leaf stays
    allocated. *)
Theorem clear_leaks_last_child :
  ∃ s, clear 40 eight = Ret 0 s ∧ root s = 0 ∧ dom (hp s) = {[ 2 ]}.
Proof. eexists. split_and!; vm_compute; reflexivity. Qed.
End Demo.
