(* ===== verification/BTreeRemove.v ===== *)
(** * Removal from the B-tree

    rotate_right, rotate_left and merge of examples/btree/btree.cc keep the
    bindings of a tree and repair the occupancy of one child; rebalance chooses
    among them; and remove, on a tree whose inner nodes have a free slot, takes out
    one binding and keeps the invariant of [BTreeSpec], for every key that is not a
    separator two or more levels above the leaves.  The two conditions are the ones
    the counterexamples of [BTreeUse] show to be needed. *)

From stdpp Require Import base list gmap sorting.
From Stdlib Require Import ZArith Lia.
From S2P Require Import Prelude BTree BTreeSpec BTreeUse.

(** ** Arrays *)

(** The elements behind position [length a] move one place to the front, and
    overwrite it. *)
Lemma array_shift_down {A} (a b r y : list A) (x : A) (k : nat) (to : list A) :
  to = (a ++ x :: b) ++ r → (length b ≤ k)%nat → (S (length a) + k ≤ length (to ++ y))%nat →
  (length a + k ≤ length to)%nat →
  ∃ r', splice (length a) (S (length a)) k (to ++ y) to = (a ++ b) ++ r'
    ∧ length (splice (length a) (S (length a)) k (to ++ y) to) = length to.
Proof.
  intros -> Hk Hfrom Hto. rewrite !length_app in *. simpl in *. unfold splice.
  eexists. split.
  - rewrite <-!app_assoc. rewrite take_app_length.
    rewrite (drop_app_ge a) by lia. replace (S (length a) - length a)%nat with 1%nat by lia.
    simpl drop at 1. rewrite drop_0. rewrite (take_app_ge b) by lia.
    rewrite <-!app_assoc. reflexivity.
  - rewrite !length_app, !length_take, !length_drop, !length_app. simpl. rewrite ?length_app. simpl. lia.
Qed.

Lemma move_items_down n (i1 i2 : list item) x r :
  items n = (i1 ++ x :: i2) ++ r → length (items n) = 7%nat → length (children n) = 8%nat →
  ∃ l r', move_items (Z.of_nat (length i1)) (Z.of_nat (length i1) + 1) (Z.of_nat (length i2)) n
          = Some (put_items l n)
    ∧ l = (i1 ++ i2) ++ r' ∧ length l = 7%nat.
Proof.
  intros Hi H7 H8. assert (length i1 + length i2 ≤ 6)%nat as Hlen.
  { rewrite Hi, !length_app in H7. simpl in H7. lia. }
  destruct (array_shift_down i1 i2 r (as_items (children n)) x (length i2) (items n) Hi) as (r' & Hr & Hl);
    rewrite ?length_app; try lia.
  unfold move_items, in_bounds. rewrite !(proj2 (Z.leb_le _ _)) by lia. cbn [andb].
  replace (Z.to_nat (Z.of_nat (length i1) + 1)) with (S (length i1)) by lia. rewrite !Nat2Z.id.
  unfold item_view. do 2 eexists. split; [reflexivity|]. by rewrite Hl, <-Hr.
Qed.

Lemma move_children_down n (p1 p2 : list Z) x r (k : nat) :
  children n = (p1 ++ x :: p2) ++ r → length (children n) = 8%nat →
  (length p2 ≤ k)%nat → (S (length p1) + k ≤ 8)%nat →
  ∃ l r', move_children (Z.of_nat (length p1)) (Z.of_nat (length p1) + 1) (Z.of_nat k) n
          = Some (put_children l n)
    ∧ l = (p1 ++ p2) ++ r' ∧ length l = 8%nat.
Proof.
  intros Hc H8 Hk Hb.
  destruct (array_shift_down p1 p2 r [] x k (children n) Hc) as (r' & Hr & Hl);
    rewrite ?app_nil_r; try lia. rewrite app_nil_r in Hr, Hl.
  unfold move_children, in_bounds. rewrite !(proj2 (Z.leb_le _ _)) by lia. cbn [andb].
  replace (Z.to_nat (Z.of_nat (length p1) + 1)) with (S (length p1)) by lia. rewrite !Nat2Z.id.
  do 2 eexists. split; [reflexivity|]. by rewrite Hl, <-Hr.
Qed.

(** Moving null pointers changes nothing. *)
Lemma move_children_null n dst src k :
  children n = replicate 8 0 → in_bounds dst k 8 = true → in_bounds src k 8 = true →
  move_children dst src k n = Some n.
Proof.
  intros Hc H1 H2. unfold move_children. rewrite H1, H2. cbn [andb]. f_equal.
  unfold put_children. destruct n as [c l ch]. cbn [count items children] in *. subst ch. f_equal.
  unfold in_bounds in *. rewrite !andb_true_iff, !Z.leb_le in *. unfold splice.
  rewrite take_replicate, !drop_replicate, take_replicate, <-!replicate_add. f_equal. lia.
Qed.

Lemma put_child_null n i :
  children n = replicate 8 0 → (0 ≤ i < 8) → put_child i 0 n = Some n.
Proof.
  intros Hc Hi. unfold put_child, BTREE_ORDER.
  rewrite (proj2 (Z.leb_le _ _)), (proj2 (Z.ltb_lt _ _)) by lia. cbn [andb]. f_equal.
  unfold put_children. destruct n as [c l ch]. cbn [count items children] in *. subst ch. f_equal.
  by rewrite insert_replicate.
Qed.

(** ** Steps on single nodes *)

(** A node has one child more than items, or is a leaf. *)
Definition kids {A} (its : list item) (cs : list A) : Prop := cs = [] ∨ length cs = S (length its).

Lemma holds_keys_app n i1 x i2 ps : holds n (i1 ++ x :: i2) ps → key x ≠ 0.
Proof. intros [_ _ _ _ _ _ _ Hk]. apply Forall_app in Hk as [_ Hk]. by apply Forall_cons in Hk as [? _]. Qed.

Lemma holds_put_item n i1 x i2 ps it :
  holds n (i1 ++ x :: i2) ps → key it ≠ 0 →
  ∃ n', put_item (Z.of_nat (length i1)) it n = Some n' ∧ holds n' (i1 ++ it :: i2) ps.
Proof.
  intros Hh Hk. pose proof (holds_room _ _ _ Hh) as H7. rewrite length_app in H7. simpl in H7.
  rewrite put_item_nat by lia. eexists. split; [reflexivity|].
  destruct Hh as [Hc [r Hi] Hli Hlc Hch Hlf Hn Hks]. split; try done; cbn [put_items items count].
  - rewrite Hc, !length_app. done.
  - exists r. rewrite Hi, <-!app_assoc. by rewrite insert_app_r_alt, Nat.sub_diag by lia.
  - by rewrite length_insert.
  - apply Forall_app in Hks as [Hk1 Hk2]. apply Forall_cons in Hk2 as [_ Hk2].
    apply Forall_app. split; [done|]. by constructor.
Qed.

(** A store of a child behind the last one. *)
Lemma push_child n its ps mv :
  holds n its ps → (ps = [] ∧ mv = [] ∨ ∃ c, mv = [c] ∧ c ≠ 0 ∧ length ps = length its ∧ ps ≠ []) →
  ∃ n', put_child (count n) (List.hd 0 mv) n = Some n' ∧ holds n' its (ps ++ mv).
Proof.
  intros Hh Hmv. pose proof (holds_room _ _ _ Hh) as H7.
  pose proof Hh as [Hc Hi Hli Hlc [rc Hch] Hlf Hn Hks].
  destruct Hmv as [[-> ->]|(c & -> & Hc0 & Hl & Hne)].
  - exists n. split; [|done]. rewrite Hc. apply put_child_null; [by apply Hlf|lia].
  - rewrite Hc, put_child_nat by lia. eexists. split; [reflexivity|]. split; try done; cbn [put_children children].
    + by rewrite length_insert.
    + rewrite Hch, <-Hl. apply store_end. intros ->. rewrite Hch, app_nil_r in Hlc. lia.
    + by destruct ps.
    + apply Forall_app. split; [done|]. by constructor.
Qed.

(** The right sibling gives its first item and its first child away. *)
Lemma drop_first n m its ps :
  holds n (m :: its) ps → kids (m :: its) ps →
  let n0 := put_count (wrap64 (count n - 1)) n in
  ∃ n1 n2, move_items 0 1 (count n0) n0 = Some n1 ∧ move_children 0 1 (count n1 + 1) n1 = Some n2
    ∧ holds n2 its (tail ps).
Proof.
  intros Hh Hps n0. pose proof (holds_room _ _ _ Hh) as H7. simpl in H7.
  pose proof Hh as [Hc [r Hi] Hli Hlc [rc Hch] Hlf Hn Hks]. simpl in Hc.
  assert (count n0 = Z.of_nat (length its)) as Hc0 by (unfold n0; simpl; rewrite Hc, wrap_small; lia).
  destruct (move_items_down n0 [] its m r Hi Hli Hlc) as (l & r' & Hmv & Hl & Hl7). simpl in Hmv.
  assert (count (put_items l n0) = Z.of_nat (length its)) as Hc1 by exact Hc0.
  apply Forall_cons in Hks as [_ Hks]. exists (put_items l n0). rewrite Hc0, Hc1.
  destruct Hps as [->|Hps].
  - exists (put_items l n0). split; [exact Hmv|]. split.
    + apply move_children_null; [by apply Hlf| |]; unfold in_bounds; rewrite !(proj2 (Z.leb_le _ _)) by lia; done.
    + split; try done; cbn [put_items items]; [by exists r'|by exists rc].
  - destruct ps as [|p ps]; [done|]. simpl in Hps. injection Hps as Hps.
    destruct (move_children_down (put_items l n0) [] ps p rc (length ps) Hch Hlc) as (lc & rc' & Hmc & Hlc' & Hl8); [lia|simpl; lia|].
    exists (put_children lc (put_items l n0)). split; [exact Hmv|]. split.
    + rewrite <-Hmc. simpl length. f_equal. lia.
    + apply Forall_cons in Hn as [_ Hn]. split; try done; cbn [put_items items put_children children]; [by exists r'|by exists rc'|].
      simpl. intros ->. done.
Qed.

(** The left sibling gives its last item and its last child away: only the count
    changes. *)
Lemma drop_last n its m ps mv :
  holds n (its ++ [m]) (ps ++ mv) → (ps = [] → mv = []) →
  holds (put_count (wrap64 (count n - 1)) n) its ps.
Proof.
  intros Hh Hps. pose proof (holds_room _ _ _ Hh) as H7. rewrite length_app in H7. simpl in H7.
  destruct Hh as [Hc [r Hi] Hli Hlc [rc Hch] Hlf Hn Hks]. rewrite length_app in Hc. simpl in Hc.
  split; try done; cbn [put_count count items children].
  - rewrite Hc, wrap_small; lia.
  - exists ([m] ++ r). by rewrite Hi, <-app_assoc.
  - exists (mv ++ rc). by rewrite Hch, <-app_assoc.
  - intros ->. apply Hlf. by rewrite Hps.
  - by apply Forall_app in Hn as [? _].
  - by apply Forall_app in Hks as [? _].
Qed.

(** A child moves in before the first one. *)
Lemma unshift_child n its ps mv :
  holds n its ps → (length its ≤ 7)%nat →
  (ps = [] ∧ mv = [] ∨ ∃ c, mv = [c] ∧ c ≠ 0 ∧ length ps = length its ∧ ps ≠ []) →
  ∃ n1 n2, move_children 1 0 (count n) n = Some n1 ∧ put_child 0 (List.hd 0 mv) n1 = Some n2
    ∧ holds n2 its (mv ++ ps).
Proof.
  intros Hh H7 Hmv. pose proof Hh as [Hc Hi Hli Hlc [rc Hch] Hlf Hn Hks].
  destruct Hmv as [[-> ->]|(c & -> & Hc0 & Hl & Hne)].
  - exists n, n. split_and!; [|apply put_child_null; [by apply Hlf|lia]|done]. rewrite Hc.
    apply move_children_null; [by apply Hlf| |]; unfold in_bounds; rewrite !(proj2 (Z.leb_le _ _)) by lia; done.
  - unfold move_children. rewrite Hc. unfold in_bounds. rewrite !(proj2 (Z.leb_le _ _)) by lia. cbn [andb].
    do 2 eexists. split; [reflexivity|]. split; [reflexivity|].
    change (Z.to_nat 1) with 1%nat. change (Z.to_nat 0) with 0%nat. rewrite Nat2Z.id, <-Hl.
    assert (<[0%nat := c]> (splice 1 0 (length ps) (children n) (children n))
            = (c :: ps) ++ drop (1 + length ps) (children n)) as E.
    { unfold splice. rewrite drop_0. replace (take (length ps) (children n)) with ps
        by by rewrite Hch, take_app_length.
      destruct (children n) as [|x ch]; done. }
    split; try done; cbn [put_children children List.hd].
    + rewrite E, length_app, length_drop, Hlc. simpl. lia.
    + eexists. exact E.
    + by constructor.
Qed.

(** The separator comes down behind the items of the left node. *)
Lemma push_item n its ps it :
  holds n its ps → (length its ≤ 6)%nat → key it ≠ 0 →
  ∃ n', set_item (count n) it n = Some n' ∧ holds n' (its ++ [it]) ps.
Proof.
  intros Hh H6 Hk. pose proof Hh as [Hc [r Hi] Hli Hlc Hch Hlf Hn Hks].
  unfold set_item. rewrite Hc, put_item_nat by lia. cbn [mbind option_bind]. eexists.
  split; [reflexivity|]. split; try done; cbn [put_items put_count items count].
  - rewrite Hc, length_app, wrap_small by lia. simpl. lia.
  - rewrite Hi. apply store_end. intros ->. rewrite Hi, app_nil_r in Hli. lia.
  - by rewrite length_insert.
  - apply Forall_app. split; [done|]. by constructor.
Qed.

(** The contents of the right node follow those of the left one. *)
Lemma append_node_holds n r i1 i2 p1 p2 :
  holds n i1 p1 → holds r i2 p2 → (length i1 + length i2 ≤ 7)%nat →
  (p1 = [] ∧ p2 = [] ∨ length p1 = length i1 ∧ length p2 = S (length i2)) →
  ∃ n', append_node r n = Some n' ∧ holds n' (i1 ++ i2) (p1 ++ p2).
Proof.
  intros [Hc1 [r1 Hi1] Hli1 Hlc1 [q1 Hch1] Hlf1 Hn1 Hk1] [Hc2 [r2 Hi2] Hli2 Hlc2 [q2 Hch2] Hlf2 Hn2 Hk2] H7 Hp.
  unfold append_node, in_bounds. rewrite Hc1, Hc2, !(proj2 (Z.leb_le _ _)) by lia. cbn [andb].
  eexists. split; [reflexivity|]. rewrite !Nat2Z.id.
  replace (Z.to_nat (Z.of_nat (length i2) + 1)) with (S (length i2)) by lia.
  split; cbn [count items children].
  - rewrite length_app. lia.
  - unfold splice. rewrite drop_0, Hi1, Hi2, !take_app_length, app_assoc. by eexists.
  - unfold splice. rewrite !length_app, !length_take, !length_drop. lia.
  - unfold splice. rewrite !length_app, !length_take, !length_drop. lia.
  - destruct Hp as [[-> ->]|[E1 E2]]; [by eexists|]. unfold splice.
    rewrite drop_0, Hch1, Hch2, <-E1, <-E2, !take_app_length, app_assoc. by eexists.
  - intros E. apply app_nil in E as [-> ->]. rewrite (Hlf1 eq_refl), (Hlf2 eq_refl). unfold splice.
    rewrite drop_0, !take_replicate, drop_replicate, <-!replicate_add. f_equal. lia.
  - by apply Forall_app.
  - by apply Forall_app.
Qed.

(** The parent loses the separator and the pointer to the right node. *)
Lemma drop_separator n i1 sep i2 p1 a b p2 :
  holds n (i1 ++ sep :: i2) (p1 ++ a :: b :: p2) →
  length p1 = length i1 → length p2 = length i2 → (length i1 + length i2 ≤ 5)%nat →
  let n0 := put_count (wrap64 (count n - 1)) n in
  let pos := Z.of_nat (length i1) in
  ∃ n1 n2, move_items pos (pos + 1) (wrap64 (count n0 - pos)) n0 = Some n1
    ∧ move_children (pos + 1) (pos + 2) (wrap64 (count n1 - pos + 1)) n1 = Some n2
    ∧ holds n2 (i1 ++ i2) (p1 ++ a :: p2).
Proof.
  intros [Hc [r Hi] Hli Hlc [rc Hch] Hlf Hn Hks] E1 E2 H5 n0 pos.
  rewrite length_app in Hc. simpl in Hc.
  assert (count n0 = Z.of_nat (length i1 + length i2)) as Hc0.
  { unfold n0. simpl. rewrite Hc, wrap_small; lia. }
  destruct (move_items_down n0 i1 i2 sep r Hi Hli Hlc) as (l & r' & Hmv & Hl & Hl7).
  assert (children (put_items l n0) = ((p1 ++ [a]) ++ b :: p2) ++ rc) as Hch'.
  { cbn. by rewrite Hch, <-!app_assoc. }
  destruct (move_children_down (put_items l n0) (p1 ++ [a]) p2 b rc (S (length p2)) Hch' Hlc)
    as (lc & rc' & Hmc & Hlc' & Hl8); [lia|rewrite length_app; simpl; lia|].
  exists (put_items l n0), (put_children lc (put_items l n0)). split_and!.
  - rewrite Hc0, wrap_small by (unfold pos; lia). rewrite <-Hmv. f_equal. unfold pos. lia.
  - change (count (put_items l n0)) with (count n0). rewrite Hc0, wrap_small by (unfold pos; lia).
    rewrite <-Hmc. rewrite length_app. simpl. unfold pos. f_equal; lia.
  - apply Forall_app in Hks as [Hk1 Hk2]. apply Forall_cons in Hk2 as [_ Hk2].
    apply Forall_app in Hn as [Hn1 Hn2]. apply Forall_cons in Hn2 as [Hna Hn2].
    apply Forall_cons in Hn2 as [_ Hn2].
    split; cbn [put_children put_items items children count].
    + change (count (put_children lc (put_items l n0))) with (count n0). rewrite length_app. lia.
    + by exists r'.
    + done.
    + done.
    + exists rc'. by rewrite Hlc', <-!app_assoc.
    + by destruct p1.
    + apply Forall_app. split; [done|]. by constructor.
    + by apply Forall_app.
Qed.

(** ** Runs on the heap *)

Lemma load_runs p n r (h : heap) : h !! p = Some n → load p (mkBTree r h) = Ret n (mkBTree r h).
Proof. intros Hp. unfold load. simpl. by rewrite Hp. Qed.

Lemma deallocate_runs p n r (h : heap) :
  h !! p = Some n → deallocate p (mkBTree r h) = Ret tt (mkBTree r (delete p h)).
Proof. intros Hp. unfold deallocate. simpl. by rewrite Hp. Qed.

(** [h'] is [h] with new contents at a parent and two of its children; the second
    child may be gone. *)
Record patched (h : heap) p pn a na b (nb : option btree_node_t) (h' : heap) : Prop := {
  pa_parent : h' !! p = Some pn;
  pa_left : h' !! a = Some na;
  pa_right : h' !! b = nb;
  pa_rest q : q ≠ p → q ≠ a → q ≠ b → h' !! q = h !! q;
}.

Ltac heap_lookup :=
  rewrite ?lookup_insert_eq, ?lookup_delete_eq by done;
  repeat first [rewrite lookup_insert_eq | rewrite lookup_delete_eq
               | rewrite lookup_insert_ne by congruence | rewrite lookup_delete_ne by congruence];
  try done; try reflexivity.

(** Run the next command: a load, a read of the node, or an update. *)
Ltac run_step :=
  first
    [ erewrite bind_eq; [|apply load_runs; heap_lookup; fail]
    | erewrite bind_eq; [|eapply update_runs; [heap_lookup; fail|eassumption]]
    | match goal with E : ?o = Some ?a |- context [lift ?o] => rewrite E; cbn [lift]; rewrite bind_ret_l end ].

Section Runs.
Context (r : Z) (h : heap) (p a b : Z) (pn na nb : btree_node_t).
Context (Hp : h !! p = Some pn) (Ha : h !! a = Some na) (Hb : h !! b = Some nb).
Context (Hpa : p ≠ a) (Hpb : p ≠ b) (Hab : a ≠ b).

Lemma rotate_right_runs pos sep it c pn' na1 na2 na3 nb1 nb2 :
  item_at pn pos = Some sep → item_room (count na) na = Some na1 → set_item (count na) sep na1 = Some na2 →
  item_at nb 0 = Some it → put_item pos it pn = Some pn' →
  child_at nb 0 = Some c → put_child (count na2) c na2 = Some na3 →
  move_items 0 1 (count (put_count (wrap64 (count nb - 1)) nb)) (put_count (wrap64 (count nb - 1)) nb) = Some nb1 →
  move_children 0 1 (count nb1 + 1) nb1 = Some nb2 →
  ∃ h', rotate_right b a p pos (mkBTree r h) = Ret tt (mkBTree r h') ∧ patched h p pn' a na3 b (Some nb2) h'.
Proof.
  intros E1 E2 E3 E4 E5 E6 E7 E8 E9. unfold rotate_right. do 3 run_step.
  erewrite bind_eq; [|by eapply insert_item_runs]. do 7 run_step.
  erewrite bind_eq; [|eapply update_runs; [heap_lookup; fail|reflexivity]].
  run_step. erewrite update_runs; [|heap_lookup; fail|eassumption].
  eexists. split; [reflexivity|]. split; intros; heap_lookup.
Qed.

Lemma rotate_left_runs pos sep it c pn' na0 nb1 nb2 nb3 nb4 :
  item_at pn (pos - 1) = Some sep → item_room 0 nb = Some nb1 → set_item 0 sep nb1 = Some nb2 →
  item_at na (count na - 1) = Some it → put_item (pos - 1) it pn = Some pn' →
  move_children 1 0 (count nb2) nb2 = Some nb3 → child_at na (count na) = Some c →
  put_child 0 c nb3 = Some nb4 → put_count (wrap64 (count na - 1)) na = na0 →
  ∃ h', rotate_left a b p pos (mkBTree r h) = Ret tt (mkBTree r h') ∧ patched h p pn' a na0 b (Some nb4) h'.
Proof.
  intros E1 E2 E3 E4 E5 E6 E7 E8 <-. unfold rotate_left. do 2 run_step.
  erewrite bind_eq; [|by eapply insert_item_runs]. do 7 run_step.
  erewrite update_runs; [|heap_lookup; fail|reflexivity].
  eexists. split; [reflexivity|]. split; intros; heap_lookup.
Qed.

(** A merge either leaves the parent one child less, or, when the parent was the
    root and has no item left, makes the merged node the root. *)
Lemma merge_runs pos sep na1 na2 pn1 pn2 :
  item_at pn pos = Some sep → set_item (count na) sep na = Some na1 → append_node nb na1 = Some na2 →
  move_items pos (pos + 1) (wrap64 (count (put_count (wrap64 (count pn - 1)) pn) - pos))
    (put_count (wrap64 (count pn - 1)) pn) = Some pn1 →
  move_children (pos + 1) (pos + 2) (wrap64 (count pn1 - pos + 1)) pn1 = Some pn2 →
  ∃ h', patched h p pn2 a na2 b None h'
    ∧ merge b a p pos (mkBTree r h)
      = if (count pn2 =? 0) && (p =? r) then Ret tt (mkBTree a (delete p h')) else Ret tt (mkBTree r h').
Proof.
  intros E1 E2 E3 E4 E5. unfold merge. do 5 run_step.
  erewrite bind_eq; [|eapply deallocate_runs; heap_lookup; fail].
  erewrite bind_eq; [|eapply update_runs; [heap_lookup; fail|reflexivity]].
  do 3 run_step. match goal with |- ∃ h', _ ∧ bind get _ (mkBTree r ?h1) = _ => exists h1 end.
  split; [split; intros; heap_lookup|]. unfold bind at 1, get. cbn [root].
  destruct ((count pn2 =? 0) && (p =? r)) eqn:E; [|done]. apply andb_true_iff in E as [_ E].
  apply Z.eqb_eq in E as <-. unfold when. erewrite bind_eq; [|eapply deallocate_runs; heap_lookup; fail]. done.
Qed.
End Runs.

(** ** Two neighbouring children *)

(** [kids], with the depth of the node. *)
Definition level (d : nat) (its : list item) (cs : list tree) : Prop :=
  match d with O => cs = [] | S _ => length cs = S (length its) end.

Lemma level_kids d its cs : level d its cs → kids its (ptr <$> cs).
Proof. unfold kids. rewrite length_fmap. destruct d; simpl; [intros ->; by left|by right]. Qed.

Lemma shape_iff h d p its cs :
  shape h d (Node p its cs) ↔
  p ≠ 0 ∧ (∃ n, h !! p = Some n ∧ holds n its (ptr <$> cs)) ∧ level d its cs
  ∧ Forall (shape h (pred d)) cs ∧ Forall (λ c, 3 ≤ length (titems c))%nat cs.
Proof.
  split.
  - intros Hs. inversion Hs; subst; simpl; split_and!; eauto.
  - intros (Hp & (n & Hn & Hh) & Hl & Hsh & Ho). destruct d; simpl in Hl.
    + subst cs. by apply shape_leaf with n.
    + by apply shape_node with n.
Qed.

(** A node of depth [S d] whose children may have too few items. *)
Record loose (h : heap) (d : nat) (p : Z) (its : list item) (cs : list tree) : Prop := {
  lo_null : p ≠ 0;
  lo_node : ∃ n, h !! p = Some n ∧ holds n its (ptr <$> cs);
  lo_len : length cs = S (length its);
  lo_shape : Forall (shape h d) cs;
  lo_nodup : NoDup (nodes (Node p its cs));
}.

Lemma loose_shape h d p its cs :
  loose h d p its cs → Forall (λ c, 3 ≤ length (titems c))%nat cs → shape h (S d) (Node p its cs).
Proof. intros [Hp Hn Hl Hs _] Ho. by apply shape_iff. Qed.

(** A node and a new heap that has the same bindings in its place. *)
Record tied (h : heap) (d : nat) (p : Z) its cs (h' : heap) its' cs' : Prop := {
  ti_loose : loose h' d p its' cs';
  ti_flat : flatten (Node p its' cs') = flatten (Node p its cs);
  ti_nodes q : q ∈ nodes (Node p its' cs') → q ∈ nodes (Node p its cs);
  ti_frame q : q ∉ nodes (Node p its cs) → h' !! q = h !! q;
}.

Lemma nodes_pair p its cs1 a ia ca b ib cb cs2 :
  nodes (Node p its (cs1 ++ Node a ia ca :: Node b ib cb :: cs2))
  ≡ₚ p :: a :: b :: List.concat (List.map nodes ((ca ++ cb) ++ (cs1 ++ cs2))).
Proof.
  rewrite nodes_middle2. simpl. apply perm_skip, perm_skip.
  rewrite (map_app nodes (ca ++ cb)), (map_app nodes ca cb), !concat_app.
  rewrite <-!app_assoc. simpl. by rewrite <-Permutation_middle.
Qed.

Lemma nodes_one p its cs1 a ia ca cs2 :
  nodes (Node p its (cs1 ++ Node a ia ca :: cs2))
  ≡ₚ p :: a :: List.concat (List.map nodes (ca ++ (cs1 ++ cs2))).
Proof. rewrite nodes_middle. simpl. by rewrite (map_app nodes ca), concat_app. Qed.

Lemma flatten_join d a ia ca sep b ib cb :
  level d ia ca → level d ib cb →
  flatten (Node a ia ca) ++ sep :: flatten (Node b ib cb)
  = weave (ia ++ sep :: ib) (List.map flatten (ca ++ cb)).
Proof.
  intros H1 H2. destruct d; simpl in H1, H2.
  - by subst ca cb.
  - simpl. rewrite map_app. symmetry. apply weave_cat. by rewrite length_map.
Qed.

Lemma flatten_pair p i1 sep i2 cs1 ta tb cs2 :
  length cs1 = length i1 → length cs2 = length i2 →
  flatten (Node p (i1 ++ sep :: i2) (cs1 ++ ta :: tb :: cs2))
  = left_of i1 (List.map flatten cs1) ++ (flatten ta ++ sep :: flatten tb)
    ++ right_of i2 (List.map flatten cs2).
Proof.
  intros H1 H2. simpl. rewrite map_app. simpl.
  rewrite weave_split2 by by rewrite length_map. by rewrite weave_split by by rewrite length_map.
Qed.

Section Pair.
Context (h h' : heap) (d : nat) (p a b : Z) (i1 i2 ia ib : list item) (sep : item).
Context (cs1 cs2 ca cb : list tree).
Let its := i1 ++ sep :: i2.
Let cs := cs1 ++ Node a ia ca :: Node b ib cb :: cs2.
Context (Hlo : loose h d p its cs) (Hl1 : length cs1 = length i1).

Lemma pair_len2 : length cs2 = length i2.
Proof.
  pose proof (lo_len _ _ _ _ _ Hlo) as Hl. unfold cs, its in Hl. rewrite !length_app in Hl.
  simpl in Hl. lia.
Qed.

Lemma pair_distinct : p ≠ a ∧ p ≠ b ∧ a ≠ b
  ∧ ∀ q, q ∈ List.concat (List.map nodes ((ca ++ cb) ++ (cs1 ++ cs2))) → q ≠ p ∧ q ≠ a ∧ q ≠ b.
Proof.
  pose proof (lo_nodup _ _ _ _ _ Hlo) as Hnd. unfold cs in Hnd. rewrite nodes_pair in Hnd.
  rewrite !NoDup_cons, !not_elem_of_cons in Hnd. destruct Hnd as ((? & ? & ?) & (? & ?) & ? & _).
  split_and!; try done. intros q Hq. split_and!; congruence.
Qed.

(** The two children. *)
Lemma pair_children : shape h d (Node a ia ca) ∧ shape h d (Node b ib cb)
  ∧ Forall (shape h d) cs1 ∧ Forall (shape h d) cs2.
Proof.
  pose proof (lo_shape _ _ _ _ _ Hlo) as Hs. unfold cs in Hs. apply Forall_app in Hs as [? Hs].
  apply Forall_cons in Hs as [? Hs]. by apply Forall_cons in Hs as [? Hs].
Qed.

Context (pn na : btree_node_t) (nb : option btree_node_t) (Hpt : patched h p pn a na b nb h').

Lemma patched_keeps k t : t ∈ (ca ++ cb) ++ (cs1 ++ cs2) → shape h k t → shape h' k t.
Proof.
  intros Ht. apply shape_frame. intros q Hq.
  destruct pair_distinct as (_ & _ & _ & Hd). destruct (Hd q) as (? & ? & ?).
  - apply in_concat_map. eauto.
  - by apply (pa_rest _ _ _ _ _ _ _ _ Hpt).
Qed.

Lemma patched_frame q : q ∉ nodes (Node p its cs) → h' !! q = h !! q.
Proof.
  unfold cs. rewrite nodes_pair, !not_elem_of_cons. intros (? & ? & ? & _).
  by apply (pa_rest _ _ _ _ _ _ _ _ Hpt).
Qed.

Lemma patched_siblings : Forall (shape h' d) cs1 ∧ Forall (shape h' d) cs2.
Proof.
  destruct pair_children as (_ & _ & H1 & H2). rewrite Forall_forall in H1. rewrite Forall_forall in H2.
  split; apply Forall_forall; intros t Ht; apply patched_keeps; try set_solver; auto.
Qed.

Lemma patched_grandchildren :
  Forall (shape h' (pred d)) (ca ++ cb) ∧ Forall (λ c, 3 ≤ length (titems c))%nat (ca ++ cb).
Proof.
  destruct pair_children as ((_ & _ & _ & HA & HA3)%shape_iff & (_ & _ & _ & HB & HB3)%shape_iff & _).
  split; [|by apply Forall_app]. apply Forall_forall. intros t Ht. apply patched_keeps; [set_solver|].
  rewrite Forall_forall in HA. rewrite Forall_forall in HB. apply elem_of_app in Ht as [?|?]; auto.
Qed.

(** A rotation: the items and children of the pair are divided anew. *)
Lemma rotated nb' m ia' ib' ca' cb' :
  nb = Some nb' → holds pn (i1 ++ m :: i2) (ptr <$> cs) →
  holds na ia' (ptr <$> ca') → holds nb' ib' (ptr <$> cb') →
  level d ia' ca' → level d ib' cb' → ca' ++ cb' = ca ++ cb → ia' ++ m :: ib' = ia ++ sep :: ib →
  tied h d p its cs h' (i1 ++ m :: i2) (cs1 ++ Node a ia' ca' :: Node b ib' cb' :: cs2).
Proof.
  intros Enb Hpn Hna Hnb Hla Hlb Ecs Eits.
  destruct patched_grandchildren as [Hg Hg3]. rewrite <-Ecs in Hg, Hg3.
  apply Forall_app in Hg as [Hga Hgb]. apply Forall_app in Hg3 as [Hga3 Hgb3].
  destruct patched_siblings as [Hs1 Hs2].
  destruct pair_children as ((Ha0 & _ & Hla0 & _)%shape_iff & (Hb0 & _ & Hlb0 & _)%shape_iff & _).
  pose proof Hlo as [Hp _ Hlen _ Hnd]. pose proof pair_len2 as Hl2. destruct Hpt as [P1 P2 P3 P4].
  rewrite Enb in P3.
  assert (nodes (Node p (i1 ++ m :: i2) (cs1 ++ Node a ia' ca' :: Node b ib' cb' :: cs2))
          ≡ₚ nodes (Node p its cs)) as Hperm.
  { unfold cs. rewrite !nodes_pair. by rewrite Ecs. }
  split.
  - split; try done.
    + exists pn. split; [done|]. unfold cs in Hpn. rewrite fmap_app in *. exact Hpn.
    + unfold its, cs in Hlen. rewrite !length_app in *. simpl in *. lia.
    + apply Forall_app. split; [done|]. constructor; [apply shape_iff; eauto 10|].
      constructor; [apply shape_iff; eauto 10|done].
    + by rewrite Hperm.
  - unfold cs, its. rewrite !flatten_pair by done.
    by rewrite (flatten_join d _ ia'), (flatten_join d _ ia), Ecs, Eits.
  - intros q. by rewrite Hperm.
  - apply patched_frame.
Qed.

(** A merge: the right node is gone. *)
Lemma merged :
  holds pn (i1 ++ i2) ((ptr <$> cs1) ++ a :: (ptr <$> cs2)) →
  holds na (ia ++ sep :: ib) (ptr <$> ca ++ cb) →
  tied h d p its cs h' (i1 ++ i2) (cs1 ++ Node a (ia ++ sep :: ib) (ca ++ cb) :: cs2).
Proof.
  intros Hpn Hna. destruct patched_grandchildren as [Hg Hg3]. destruct patched_siblings as [Hs1 Hs2].
  destruct pair_children as ((Ha0 & _ & Hla0 & _)%shape_iff & (Hb0 & _ & Hlb0 & _)%shape_iff & _).
  pose proof Hlo as [Hp _ Hlen _ Hnd]. pose proof pair_len2 as Hl2. destruct Hpt as [P1 P2 P3 P4].
  assert (nodes (Node p its cs)
          ≡ₚ b :: nodes (Node p (i1 ++ i2) (cs1 ++ Node a (ia ++ sep :: ib) (ca ++ cb) :: cs2))) as Hperm.
  { unfold cs. rewrite nodes_pair, nodes_one. rewrite (perm_swap b a). apply perm_swap. }
  split.
  - split; try done.
    + exists pn. split; [done|]. rewrite fmap_app. exact Hpn.
    + rewrite !length_app. simpl. lia.
    + apply Forall_app. split; [done|]. constructor; [|done]. apply shape_iff. split_and!; eauto.
      destruct d; simpl in *; [by subst ca cb|]. rewrite !length_app. simpl. lia.
    + rewrite Hperm in Hnd. by apply NoDup_cons in Hnd as [_ ?].
  - unfold cs, its. rewrite flatten_pair by done. rewrite flatten_middle by done.
    by rewrite (flatten_join d _ ia).
  - intros q Hq. rewrite Hperm. set_solver.
  - apply patched_frame.
Qed.
End Pair.

(** ** The three repairs *)

(** What one child hands over to its neighbour: nothing in a leaf, a pointer in an
    inner node. *)
Lemma handed_over h d n its cs (i : nat) :
  holds n its (ptr <$> cs) → level d its cs → Forall (shape h (pred d)) cs → (i ≤ length its)%nat →
  let mv := ptr <$> take 1 (drop i cs) in
  child_at n (Z.of_nat i) = Some (List.hd 0 mv)
  ∧ (d = 0%nat ∧ mv = [] ∨ (d ≠ 0)%nat ∧ ∃ c, mv = [c] ∧ c ≠ 0).
Proof.
  intros Hh Hl Hs Hi mv. pose proof (holds_room _ _ _ Hh) as H7. destruct d as [|d]; simpl in Hl.
  - subst cs. unfold mv. rewrite drop_nil. split; [|by left]. by eapply leaf_child; [|lia].
  - destruct (lookup_lt_is_Some_2 cs i) as [c Hc]; [lia|]. unfold mv. rewrite (drop_S cs c i Hc). simpl.
    split.
    + eapply holds_child; [done|]. by rewrite list_lookup_fmap, Hc.
    + right. split; [done|]. exists (ptr c). split; [done|].
      by apply (shape_root h d c), (Forall_lookup_1 _ _ _ _ Hs Hc).
Qed.

Section Repair.
Context (r : Z) (h : heap) (d : nat) (p a b : Z) (i1 i2 ia ib : list item) (sep : item).
Context (cs1 cs2 ca cb : list tree).
Let its := i1 ++ sep :: i2.
Let cs := cs1 ++ Node a ia ca :: Node b ib cb :: cs2.
Context (Hlo : loose h d p its cs) (Hl1 : length cs1 = length i1).

(** The three nodes. *)
Lemma repair_nodes : ∃ pn na nb,
  (h !! p = Some pn ∧ h !! a = Some na ∧ h !! b = Some nb)
  ∧ holds pn its (ptr <$> cs) ∧ holds na ia (ptr <$> ca) ∧ holds nb ib (ptr <$> cb)
  ∧ item_at pn (Z.of_nat (length i1)) = Some sep ∧ key sep ≠ 0.
Proof.
  destruct (lo_node _ _ _ _ _ Hlo) as (pn & Hpn & Hhp).
  destruct (pair_children _ _ _ _ _ _ _ _ _ _ _ _ _ _ Hlo)
    as ((_ & (na & Hna & Hha) & _)%shape_iff & (_ & (nb & Hnb & Hhb) & _)%shape_iff & _).
  exists pn, na, nb. split_and!; try done.
  - eapply holds_item; [exact Hhp|]. unfold its. by rewrite lookup_app_r, Nat.sub_diag by lia.
  - by eapply holds_keys_app.
Qed.

Lemma rotate_right_tree m ib' :
  ib = m :: ib' → (length ia ≤ 6)%nat →
  ∃ h', rotate_right b a p (Z.of_nat (length cs1)) (mkBTree r h) = Ret tt (mkBTree r h')
    ∧ tied h d p its cs h' (i1 ++ m :: i2)
        (cs1 ++ Node a (ia ++ [sep]) (ca ++ take 1 cb) :: Node b ib' (drop 1 cb) :: cs2).
Proof.
  intros Eib H6. destruct repair_nodes as (pn & na & nb & (Hp & Ha & Hb) & Hhp & Hha & Hhb & Hsep & Hks).
  destruct (pair_distinct _ _ _ _ _ _ _ _ _ _ _ _ _ _ Hlo) as (Hpa & Hpb & Hab & _).
  destruct (pair_children _ _ _ _ _ _ _ _ _ _ _ _ _ _ Hlo)
    as ((_ & _ & Hla & _)%shape_iff & (_ & _ & Hlb & Hsb & _)%shape_iff & _).
  rewrite Hl1.
  destruct (node_insert na ia (ptr <$> ca) (length ia) sep Hha ltac:(lia) H6 Hks) as (na1 & na2 & E1 & E2 & Hh2).
  rewrite take_ge, drop_ge in Hh2 by lia.
  destruct (handed_over h d nb ib cb 0 Hhb Hlb Hsb ltac:(lia)) as [Ec Hmv]. rewrite drop_0 in Ec, Hmv.
  destruct (push_child na2 (ia ++ [sep]) (ptr <$> ca) (ptr <$> take 1 cb) Hh2) as (na3 & E3 & Hh3).
  { destruct Hmv as [[-> E]|(Hd & c & E & Hc)]; [left; simpl in Hla; by subst ca|right].
    exists c. split_and!; try done; destruct d; try done; simpl in Hla; rewrite ?length_fmap, ?length_app; simpl; [lia|].
    by destruct ca. }
  pose proof Hhb as Hhb'. rewrite Eib in Hhb'. assert (key m ≠ 0) as Hkm by by eapply (holds_keys_app _ []).
  destruct (holds_put_item pn i1 sep i2 _ m Hhp Hkm) as (pn' & E4 & Hhp').
  destruct (drop_first nb m ib' _ Hhb') as (nb1 & nb2 & E5 & E6 & Hhb2).
  { rewrite <-Eib. by eapply level_kids. }
  rewrite <-(ho_count _ _ _ Hha) in E1, E2.
  destruct (rotate_right_runs r h p a b pn na nb Hp Ha Hb Hpa Hpb Hab (Z.of_nat (length i1)) sep m
    (List.hd 0 (ptr <$> take 1 cb)) pn' na1 na2 na3 nb1 nb2) as (h' & Hrun & Hpt); try done.
  { eapply (holds_item nb ib _ 0 m); [done|by rewrite Eib]. }
  exists h'. split; [exact Hrun|].
  eapply rotated with (pn := pn') (na := na3) (nb := Some nb2) (nb' := nb2); try done.
  - by rewrite fmap_app.
  - destruct cb; done.
  - destruct d; simpl in *; [by subst ca cb|]. rewrite !length_app, length_take, Hlb. simpl. lia.
  - destruct d; simpl in *; [by subst cb|]. rewrite length_drop. rewrite Eib in Hlb. simpl in *. lia.
  - by rewrite <-app_assoc, take_drop.
  - by rewrite Eib, <-app_assoc.
Qed.

Lemma rotate_left_tree m ia' :
  ia = ia' ++ [m] → (length ib ≤ 6)%nat → ia' ≠ [] →
  ∃ h', rotate_left a b p (Z.of_nat (S (length cs1))) (mkBTree r h) = Ret tt (mkBTree r h')
    ∧ tied h d p its cs h' (i1 ++ m :: i2)
        (cs1 ++ Node a ia' (take (length ia) ca) :: Node b (sep :: ib) (drop (length ia) ca ++ cb) :: cs2).
Proof.
  intros Eia H6 Hne. destruct repair_nodes as (pn & na & nb & (Hp & Ha & Hb) & Hhp & Hha & Hhb & Hsep & Hks).
  destruct (pair_distinct _ _ _ _ _ _ _ _ _ _ _ _ _ _ Hlo) as (Hpa & Hpb & Hab & _).
  destruct (pair_children _ _ _ _ _ _ _ _ _ _ _ _ _ _ Hlo)
    as ((_ & _ & Hla & Hsa & _)%shape_iff & (_ & _ & Hlb & _)%shape_iff & _).
  rewrite Hl1.
  destruct (node_insert nb ib (ptr <$> cb) 0 sep Hhb ltac:(lia) H6 Hks) as (nb1 & nb2 & E1 & E2 & Hh2).
  simpl in Hh2. rewrite drop_0 in Hh2.
  destruct (handed_over h d na ia ca (length ia) Hha Hla Hsa ltac:(lia)) as [Ec Hmv].
  assert (take 1 (drop (length ia) ca) = drop (length ia) ca) as Et.
  { apply take_ge. rewrite length_drop. destruct d; simpl in Hla; [subst ca; simpl; lia|lia]. }
  rewrite Et in Ec, Hmv.
  destruct (unshift_child nb2 (sep :: ib) (ptr <$> cb) (ptr <$> drop (length ia) ca) Hh2) as (nb3 & nb4 & E3 & E4 & Hh4).
  { simpl. lia. }
  { destruct Hmv as [[-> E]|(Hd & c & E & Hc)]; [left; simpl in Hlb; by subst cb|right].
    exists c. split_and!; try done; destruct d; try done; simpl in Hlb; rewrite ?length_fmap; [done|]. by destruct cb. }
  assert (holds na (ia' ++ [m]) ((ptr <$> take (length ia) ca) ++ (ptr <$> drop (length ia) ca))) as Hha'.
  { by rewrite <-fmap_app, take_drop, <-Eia. }
  assert (key m ≠ 0) as Hkm by by eapply (holds_keys_app _ ia' m []).
  destruct (holds_put_item pn i1 sep i2 _ m Hhp Hkm) as (pn' & E5 & Hhp').
  assert (length ia = S (length ia')) as Elen by (rewrite Eia, length_app; simpl; lia).
  apply drop_last in Hha' as Hha0.
  2:{ intros E. destruct d; simpl in Hla; [subst ca; by rewrite drop_nil|].
      apply (f_equal length) in E. rewrite length_fmap, length_take in E. simpl in E. lia. }
  destruct (rotate_left_runs r h p a b pn na nb Hp Ha Hb Hpa Hpb Hab (Z.of_nat (S (length i1))) sep m
    (List.hd 0 (ptr <$> drop (length ia) ca)) pn' (put_count (wrap64 (count na - 1)) na) nb1 nb2 nb3 nb4) as (h' & Hrun & Hpt); try done.
  { rewrite <-Hsep. f_equal. lia. }
  { rewrite (ho_count _ _ _ Hha). replace (Z.of_nat (length ia) - 1) with (Z.of_nat (length ia')) by lia.
    eapply holds_item; [exact Hha'|]. by rewrite lookup_app_r, Nat.sub_diag. }
  { rewrite <-E5. f_equal. lia. }
  { by rewrite (ho_count _ _ _ Hha). }
  exists h'. split; [exact Hrun|].
  eapply rotated with (nb' := nb4); try done.
  - by rewrite fmap_app.
  - destruct d; simpl in *; [subst ca; by rewrite take_nil|]. rewrite length_take. lia.
  - destruct d; simpl in *; [subst ca cb; by rewrite drop_nil|]. rewrite length_app, length_drop. lia.
  - by rewrite app_assoc, take_drop.
  - by rewrite Eia, <-app_assoc.
Qed.

Lemma merge_tree :
  (length ia + length ib ≤ 6)%nat → (length i1 + length i2 ≤ 5)%nat →
  ∃ h', tied h d p its cs h' (i1 ++ i2) (cs1 ++ Node a (ia ++ sep :: ib) (ca ++ cb) :: cs2)
    ∧ merge b a p (Z.of_nat (length cs1)) (mkBTree r h)
      = if decide (i1 ++ i2 = [] ∧ p = r) then Ret tt (mkBTree a (delete p h')) else Ret tt (mkBTree r h').
Proof.
  intros H6 H5. destruct repair_nodes as (pn & na & nb & (Hp & Ha & Hb) & Hhp & Hha & Hhb & Hsep & Hks).
  destruct (pair_distinct _ _ _ _ _ _ _ _ _ _ _ _ _ _ Hlo) as (Hpa & Hpb & Hab & _).
  destruct (pair_children _ _ _ _ _ _ _ _ _ _ _ _ _ _ Hlo)
    as ((_ & _ & Hla & _)%shape_iff & (_ & _ & Hlb & _)%shape_iff & _).
  rewrite Hl1. pose proof (pair_len2 _ _ _ _ _ _ _ _ _ _ _ _ _ _ Hlo Hl1) as Hl2.
  destruct (push_item na ia (ptr <$> ca) sep Hha ltac:(lia) Hks) as (na1 & E1 & Hh1).
  destruct (append_node_holds na1 nb (ia ++ [sep]) ib (ptr <$> ca) (ptr <$> cb) Hh1 Hhb) as (na2 & E2 & Hh2).
  { rewrite length_app. simpl. lia. }
  { rewrite !length_fmap, length_app. destruct d; simpl in *; [left; by subst ca cb|right; lia]. }
  unfold cs in Hhp. rewrite fmap_app in Hhp. simpl in Hhp.
  destruct (drop_separator pn i1 sep i2 (ptr <$> cs1) a b (ptr <$> cs2) Hhp) as (pn1 & pn2 & E3 & E4 & Hh3);
    rewrite ?length_fmap; try done.
  destruct (merge_runs r h p a b pn na nb Hp Ha Hb Hpa Hpb Hab _ sep na1 na2 pn1 pn2 Hsep E1 E2 E3 E4)
    as (h' & Hpt & Hrun).
  exists h'. split.
  - eapply merged; try done. by rewrite fmap_app, (cons_middle sep), app_assoc.
  - rewrite Hrun, (ho_count _ _ _ Hh3). destruct (decide _) as [[-> ->]|Hn].
    + simpl. by rewrite Z.eqb_refl.
    + destruct ((Z.of_nat (length (i1 ++ i2)) =? 0) && (p =? r)) eqn:E; [|reflexivity]. exfalso. apply Hn. apply andb_true_iff in E as [E E'].
      split; [|lia]. apply nil_length_inv. lia.
Qed.
End Repair.

(** ** Rebalancing *)

(** Inner nodes have a free slot. *)
Fixpoint roomy (d : nat) (t : tree) : Prop :=
  match d, t with
  | O, _ => True
  | S d, Node _ its cs => (length its ≤ 6)%nat ∧ Forall (roomy d) cs
  end.

Lemma roomy_regroup d a ia ca b ib cb q i' c' :
  roomy d (Node a ia ca) → roomy d (Node b ib cb) → (length i' ≤ 6)%nat → (∀ x, x ∈ c' → x ∈ ca ++ cb) →
  roomy d (Node q i' c').
Proof.
  destruct d as [|d]; [done|]. intros [_ H1] [_ H2] Hl Hc. split; [done|].
  apply Forall_forall. intros x Hx. rewrite Forall_forall in H1. rewrite Forall_forall in H2.
  apply Hc, elem_of_app in Hx as [Hx|Hx]; auto.
Qed.

(** [l'] is [l] without one binding, or [l]. *)
Definition drops (f : option item) (l l' : list item) : Prop :=
  match f with
  | Some it => ∃ pre post, l = pre ++ it :: post ∧ l' = pre ++ post
  | None => l' = l
  end.

(** What a removal below the tree [t] of depth [d] leaves, when [r] is the root of
    the whole tree: [t'] is at the same place, one item shorter at most, or [t] was
    the root and its only child took its place. *)
Record removed (r : Z) (h : heap) (d : nat) (t : tree) (f : option item)
    (r' : Z) (h' : heap) (d' : nat) (t' : tree) : Prop := {
  rm_shape : shape h' d' t';
  rm_nodup : NoDup (nodes t');
  rm_nodes q : q ∈ nodes t' → q ∈ nodes t;
  rm_frame q : q ∉ nodes t → h' !! q = h !! q;
  rm_flat : drops f (flatten t) (flatten t');
  rm_roomy : roomy d' t';
  rm_root : (r' = r ∧ d' = d ∧ ptr t' = ptr t ∧ (length (titems t) ≤ S (length (titems t')))%nat
               ∧ (r = ptr t → d = 0%nat ∨ titems t' ≠ []))
            ∨ (r = ptr t ∧ r' = ptr t' ∧ d = S d' ∧ titems t' ≠ []);
}.

Lemma tied_removed r h d p its cs h' its' cs' :
  tied h d p its cs h' its' cs' → Forall (λ c, 3 ≤ length (titems c))%nat cs' →
  (length its ≤ S (length its'))%nat → (length its' ≤ 6)%nat → (r = p → its' ≠ []) → Forall (roomy d) cs' →
  removed r h (S d) (Node p its cs) None r h' (S d) (Node p its' cs').
Proof.
  intros [Hlo Hf Hn Hfr] H3 Hl Hl6 Hr Hro. split; try done.
  - by apply loose_shape.
  - by apply (lo_nodup _ _ _ _ _ Hlo).
  - left. split_and!; try done. intros E. right. by apply Hr.
Qed.

Lemma tied_shrinks h d p its cs h' t' :
  tied h d p its cs h' [] [t'] → titems t' ≠ [] → roomy d t' →
  removed p h (S d) (Node p its cs) None (ptr t') (delete p h') d t'.
Proof.
  intros [[Hp (n & Hn & _) _ Hs Hnd] Hf Hns Hfr] Hne Hro. apply Forall_cons in Hs as [Hs _].
  simpl in Hnd. rewrite app_nil_r in Hnd. apply NoDup_cons in Hnd as [Hnot Hnd].
  split; try done.
  - apply (shape_frame h'); [|done]. intros q Hq. apply lookup_delete_ne. by intros ->.
  - intros q Hq. apply Hns. simpl. rewrite app_nil_r. set_solver.
  - intros q Hq. rewrite <-Hfr by done. apply lookup_delete_ne. intros ->. apply Hq. simpl. set_solver.
  - simpl in *. by rewrite app_nil_r in Hf.
  - by right.
Qed.

(** The choice of rebalance, in terms of the siblings. *)
Definition big (t : option tree) : bool :=
  match t with Some t => (3 <? length (titems t))%nat | None => false end.

Lemma rebalance_eval r h d p its cs1 c cs2 :
  loose h d p its (cs1 ++ c :: cs2) →
  let pos := Z.of_nat (length cs1) in
  rebalance (ptr c) p pos (mkBTree r h)
  = (if big (head cs2) then rotate_right (default 0 (ptr <$> head cs2)) (ptr c) p pos
     else if big (last cs1) then rotate_left (default 0 (ptr <$> last cs1)) (ptr c) p pos
     else match head cs2 with
          | None => merge (ptr c) (default 0 (ptr <$> last cs1)) p (pos - 1)
          | Some s => merge (ptr s) (ptr c) p pos
          end) (mkBTree r h).
Proof.
  intros [Hp (n & Hn & Hh) Hlen Hsh _] pos. unfold rebalance.
  erewrite bind_eq; [|by apply load_runs]. rewrite (ho_count _ _ _ Hh).
  rewrite length_app in Hlen. simpl in Hlen.
  assert ((if Z.of_nat (length its) <=? pos then ret 0 else lift (child_at n (pos + 1))) (mkBTree r h)
    = Ret (default 0 (ptr <$> head cs2)) (mkBTree r h)) as E1.
  { destruct cs2 as [|s cs2]; simpl in *; [rewrite (proj2 (Z.leb_le _ _)) by (unfold pos; lia); done|].
    rewrite (proj2 (Z.leb_gt _ _)) by (unfold pos; lia).
    replace (pos + 1) with (Z.of_nat (S (length cs1))) by (unfold pos; lia).
    erewrite holds_child; [done|exact Hh|]. rewrite list_lookup_fmap, lookup_app_r by lia.
    by replace (S (length cs1) - length cs1)%nat with 1%nat by lia. }
  assert ((if pos =? 0 then ret 0 else lift (child_at n (pos - 1))) (mkBTree r h)
    = Ret (default 0 (ptr <$> last cs1)) (mkBTree r h)) as E2.
  { destruct cs1 as [|l cs1 _] using rev_ind; [done|]. rewrite last_snoc. unfold pos. rewrite length_app in *. simpl in *.
    rewrite (proj2 (Z.eqb_neq _ _)) by lia.
    replace (Z.of_nat (length cs1 + 1) - 1) with (Z.of_nat (length cs1)) by lia.
    erewrite holds_child; [done|exact Hh|]. rewrite list_lookup_fmap, <-app_assoc, lookup_app_r by lia.
    by rewrite Nat.sub_diag. }
  erewrite bind_eq by exact E1. erewrite bind_eq by exact E2. clear E1 E2.
  assert (∀ o, (∀ t, o = Some t → shape h d t) →
    (if default 0 (ptr <$> o) =? 0 then ret false
     else let! n := load (default 0 (ptr <$> o)) in ret (BTREE_MIN <? count n)) (mkBTree r h)
    = Ret (big o) (mkBTree r h)) as Hbig.
  { intros [t|] Ht; [|done]. simpl. destruct (shape_root h d t (Ht t eq_refl)) as (H0 & _ & nt & ps & Hnt & Hht).
    rewrite (proj2 (Z.eqb_neq _ _)) by done. erewrite bind_eq; [|by apply load_runs].
    rewrite (ho_count _ _ _ Hht). unfold ret. f_equal. change BTREE_MIN with 3.
    destruct (Nat.ltb_spec 3 (length (titems t))); lia. }
  rewrite Forall_forall in Hsh. cbv zeta. erewrite bind_eq.
  2:{ apply Hbig. intros t Ht. apply Hsh. destruct cs2; simplify_eq/=. set_solver. }
  destruct (big (head cs2)) eqn:B1; [done|]. erewrite bind_eq.
  2:{ apply Hbig. intros t Ht. apply Hsh. apply last_Some_elem_of in Ht. set_solver. }
  destruct (big (last cs1)); [done|]. destruct cs2 as [|s cs2]; [done|]. simpl.
  rewrite (proj2 (Z.eqb_neq _ _)); [done|]. apply (shape_root h d s), Hsh. set_solver.
Qed.

(** A node one of whose children has one item too few. *)
Record deficient (h : heap) (d : nat) (p : Z) its cs1 c cs2 : Prop := {
  de_loose : loose h d p its (cs1 ++ c :: cs2);
  de_two : length (titems c) = 2%nat;
  de_left : Forall (λ c, 3 ≤ length (titems c))%nat cs1;
  de_right : Forall (λ c, 3 ≤ length (titems c))%nat cs2;
  de_room : (length its ≤ 6)%nat;
  de_some : its ≠ [];
  de_roomy : Forall (roomy d) (cs1 ++ c :: cs2);
}.

Lemma take_in {A} (x : A) k l : x ∈ take k l → x ∈ l.
Proof. intros Hx. rewrite <-(take_drop k l). set_solver. Qed.

Lemma drop_in {A} (x : A) k l : x ∈ drop k l → x ∈ l.
Proof. intros Hx. rewrite <-(take_drop k l). set_solver. Qed.

(** The separator before or behind the deficient child. *)
Lemma split_items {A} (its : list A) k : (k < length its)%nat →
  ∃ i1 x i2, its = i1 ++ x :: i2 ∧ length i1 = k.
Proof.
  intros Hk. destruct (lookup_lt_is_Some_2 its k Hk) as [x Hx]. exists (take k its), x, (drop (S k) its).
  split; [by rewrite take_drop_middle|]. rewrite length_take. lia.
Qed.

Lemma repair_right r h d p its cs1 c s cs2 :
  deficient h d p its cs1 c (s :: cs2) → (3 < length (titems s))%nat →
  ∃ h' t', rotate_right (ptr s) (ptr c) p (Z.of_nat (length cs1)) (mkBTree r h) = Ret tt (mkBTree r h')
    ∧ removed r h (S d) (Node p its (cs1 ++ c :: s :: cs2)) None r h' (S d) t'.
Proof.
  intros [Hlo H2 HL HR H6 Hne Hro] Hbig. pose proof (lo_len _ _ _ _ _ Hlo) as Hlen.
  rewrite length_app in Hlen. simpl in Hlen.
  destruct (split_items its (length cs1)) as (i1 & sep & i2 & -> & Hi1); [lia|].
  destruct c as [a ia ca], s as [b [|m ib] cb]; simpl in H2, Hbig; [lia|].
  destruct (rotate_right_tree r h d p a b i1 i2 ia (m :: ib) sep cs1 cs2 ca cb Hlo ltac:(lia) m ib eq_refl ltac:(lia))
    as (h' & Hrun & Hti). exists h'. eexists. split; [exact Hrun|].
  apply Forall_cons in HR as [HR0 HR]. apply Forall_app in Hro as [Hro1 Hro2].
  apply Forall_cons in Hro2 as [Hra Hro2]. apply Forall_cons in Hro2 as [Hrb Hro2].
  eapply tied_removed; [exact Hti|..].
  - apply Forall_app. split; [done|]. constructor; [simpl; rewrite length_app; simpl; lia|].
    constructor; [simpl; lia|done].
  - rewrite !length_app. simpl. lia.
  - rewrite length_app in *. simpl in *. lia.
  - by destruct i1.
  - apply Forall_app. split; [done|].
    constructor; [|constructor; [|done]]; (eapply roomy_regroup; [exact Hra|exact Hrb|..]).
    + rewrite length_app. simpl. lia.
    + intros x. rewrite !elem_of_app. intros [?|Hx]; [by left|right]. by eapply take_in.
    + pose proof (lo_shape _ _ _ _ _ Hlo) as Hs. rewrite Forall_forall in Hs.
      destruct (shape_root h d (Node b (m :: ib) cb)) as (_ & _ & n & ps & _ & Hh); [apply Hs; set_solver|].
      apply holds_room in Hh. simpl in Hh. lia.
    + intros x Hx. rewrite elem_of_app. right. by eapply drop_in.
Qed.

Lemma repair_left r h d p its cs1 l c cs2 :
  deficient h d p its (cs1 ++ [l]) c cs2 → (3 < length (titems l))%nat →
  ∃ h' t', rotate_left (ptr l) (ptr c) p (Z.of_nat (length (cs1 ++ [l]))) (mkBTree r h) = Ret tt (mkBTree r h')
    ∧ removed r h (S d) (Node p its ((cs1 ++ [l]) ++ c :: cs2)) None r h' (S d) t'.
Proof.
  intros [Hlo H2 HL HR H6 Hne Hro] Hbig. pose proof (lo_len _ _ _ _ _ Hlo) as Hlen.
  rewrite <-app_assoc in *. simpl in Hlo, Hlen, Hro |- *. rewrite !length_app in Hlen. simpl in Hlen.
  destruct (split_items its (length cs1)) as (i1 & sep & i2 & -> & Hi1); [lia|].
  destruct l as [a ia ca], c as [b ib cb]. simpl in H2, Hbig.
  destruct ia as [|m ia _] using rev_ind; [simpl in Hbig; lia|]. rewrite length_app in Hbig. simpl in Hbig.
  destruct (rotate_left_tree r h d p a b i1 i2 (ia ++ [m]) ib sep cs1 cs2 ca cb Hlo ltac:(lia) m ia eq_refl
    ltac:(lia)) as (h' & Hrun & Hti); [by destruct ia; simpl in Hbig; [lia|]|].
  exists h'. eexists. split.
  { simpl ptr. rewrite <-Hrun. do 2 f_equal. rewrite length_app. simpl. lia. }
  apply Forall_app in HL as [HL HL0]. apply Forall_app in Hro as [Hro1 Hro2].
  apply Forall_cons in Hro2 as [Hra Hro2]. apply Forall_cons in Hro2 as [Hrb Hro2].
  eapply tied_removed; [exact Hti|..].
  - apply Forall_app. split; [done|]. constructor; [simpl; lia|]. constructor; [simpl; lia|done].
  - rewrite !length_app. simpl. lia.
  - rewrite length_app in *. simpl in *. lia.
  - by destruct i1.
  - apply Forall_app. split; [done|].
    constructor; [|constructor; [|done]]; (eapply roomy_regroup; [exact Hra|exact Hrb|..]).
    + pose proof (lo_shape _ _ _ _ _ Hlo) as Hs. rewrite Forall_forall in Hs.
      destruct (shape_root h d (Node a (ia ++ [m]) ca)) as (_ & _ & n & ps & _ & Hh); [apply Hs; set_solver|].
      apply holds_room in Hh. simpl in Hh. rewrite length_app in Hh. simpl in Hh. lia.
    + intros x Hx. rewrite elem_of_app. left. by eapply take_in.
    + simpl. lia.
    + intros x. rewrite !elem_of_app. intros [Hx|?]; [left|by right]. by eapply drop_in.
Qed.

(** A merge of two neighbours with five items between them. *)
Lemma repair_merge r h d p its cs1 ta tb cs2 :
  loose h d p its (cs1 ++ ta :: tb :: cs2) → (length (titems ta) + length (titems tb) = 5)%nat →
  Forall (λ c, 3 ≤ length (titems c))%nat (cs1 ++ cs2) → (length its ≤ 6)%nat →
  Forall (roomy d) (cs1 ++ ta :: tb :: cs2) →
  ∃ r' h' d' t', merge (ptr tb) (ptr ta) p (Z.of_nat (length cs1)) (mkBTree r h) = Ret tt (mkBTree r' h')
    ∧ removed r h (S d) (Node p its (cs1 ++ ta :: tb :: cs2)) None r' h' d' t'.
Proof.
  intros Hlo H5 H3 H6 Hro. pose proof (lo_len _ _ _ _ _ Hlo) as Hlen. rewrite length_app in Hlen. simpl in Hlen.
  destruct (split_items its (length cs1)) as (i1 & sep & i2 & -> & Hi1); [lia|].
  destruct ta as [a ia ca], tb as [b ib cb]. simpl in H5. rewrite length_app in H6. simpl in H6.
  destruct (merge_tree r h d p a b i1 i2 ia ib sep cs1 cs2 ca cb Hlo ltac:(lia) ltac:(lia) ltac:(lia))
    as (h' & Hti & Hrun). simpl ptr. rewrite Hrun.
  apply Forall_app in Hro as [Hro1 Hro2].
  apply Forall_cons in Hro2 as [Hra Hro2]. apply Forall_cons in Hro2 as [Hrb Hro2].
  assert (roomy d (Node a (ia ++ sep :: ib) (ca ++ cb))) as Hroom.
  { eapply roomy_regroup; [exact Hra|exact Hrb| |done]. rewrite length_app. simpl. lia. }
  assert (length cs2 = length i2) as Hl2 by (rewrite length_app in Hlen; simpl in Hlen; lia).
  destruct (decide (i1 ++ i2 = [] ∧ p = r)) as [[E <-]|Hn].
  - apply app_nil in E as [-> ->]. symmetry in Hi1. apply nil_length_inv in Hi1 as ->. apply nil_length_inv in Hl2 as ->.
    do 4 eexists. split; [reflexivity|].
    apply (tied_shrinks _ _ _ _ _ _ (Node a (ia ++ sep :: ib) (ca ++ cb)) Hti); [|done]. by destruct ia.
  - do 4 eexists. split; [reflexivity|]. apply Forall_app in H3 as [HL HR]. eapply tied_removed; [exact Hti|..].
    + apply Forall_app. split; [done|]. constructor; [simpl; rewrite length_app; simpl; lia|done].
    + rewrite !length_app. simpl. lia.
    + rewrite length_app. lia.
    + naive_solver.
    + apply Forall_app. split; [done|]. by constructor.
Qed.

(** rebalance repairs a child that has two items: it borrows from a sibling that
    can spare an item, the right one first, and merges otherwise. *)
Lemma rebalance_spec r h d p its cs1 c cs2 :
  deficient h d p its cs1 c cs2 →
  ∃ r' h' d' t', rebalance (ptr c) p (Z.of_nat (length cs1)) (mkBTree r h) = Ret tt (mkBTree r' h')
    ∧ removed r h (S d) (Node p its (cs1 ++ c :: cs2)) None r' h' d' t'.
Proof.
  intros Hde. pose proof Hde as [Hlo H2 HL HR H6 Hne Hro]. rewrite (rebalance_eval r h d p its cs1 c cs2) by done.
  destruct (big (head cs2)) eqn:B1.
  { destruct cs2 as [|s cs2]; [done|]. apply Nat.ltb_lt in B1.
    destruct (repair_right r _ _ _ _ _ _ _ _ Hde B1) as (h' & t' & Hrun & Hrm). eauto 10. }
  destruct (big (last cs1)) eqn:B2.
  { destruct cs1 as [|l cs1 _] using rev_ind; [done|]. rewrite last_snoc in *. apply Nat.ltb_lt in B2.
    destruct (repair_left r _ _ _ _ _ _ _ _ Hde B2) as (h' & t' & Hrun & Hrm). eauto 10. }
  destruct cs2 as [|s cs2]; simpl head; cbv iota.
  - destruct cs1 as [|l cs1 _] using rev_ind.
    { exfalso. apply Hne, nil_length_inv. pose proof (lo_len _ _ _ _ _ Hlo) as Hl. simpl in Hl. lia. }
    rewrite last_snoc in *. simpl in B2. apply Nat.ltb_ge in B2. apply Forall_app in HL as [HL HL0].
    apply Forall_cons in HL0 as [HL0 _]. rewrite <-app_assoc in *. simpl in Hlo, Hro.
    destruct (repair_merge r h d p its cs1 l c [] Hlo) as (r' & h' & d' & t' & Hrun & Hrm);
      [lia|by rewrite app_nil_r|done|done|].
    exists r', h', d', t'. split; [|done]. rewrite <-Hrun. simpl. f_equal. rewrite length_app. simpl. lia.
  - simpl in B1. apply Nat.ltb_ge in B1. apply Forall_cons in HR as [HR0 HR].
    apply (repair_merge r h d p its cs1 c s cs2); try done; [lia|]. by apply Forall_app.
Qed.

(** ** Removal below a node *)

Lemma drops_middle f pre l l' post : drops f l l' → drops f (pre ++ l ++ post) (pre ++ l' ++ post).
Proof.
  destruct f as [it|]; simpl; [|by intros ->]. intros (a & b & -> & ->). exists (pre ++ a), (b ++ post).
  by rewrite <-!app_assoc.
Qed.

(** A node after its child [c] has become [c']. *)
Record child_changed (h : heap) (t : tree) (h1 : heap) (d : nat) p its cs : Prop := {
  cc_loose : loose h1 d p its cs;
  cc_nodes q : q ∈ nodes (Node p its cs) → q ∈ nodes t;
  cc_frame q : q ∉ nodes t → h1 !! q = h !! q;
}.

Lemma change_child h d p its cs1 c cs2 h1 n1 its1 c' :
  let t := Node p its (cs1 ++ c :: cs2) in
  shape h (S d) t → NoDup (nodes t) →
  h1 !! p = Some n1 → holds n1 its1 (ptr <$> cs1 ++ c :: cs2) → length its1 = length its →
  shape h1 d c' → ptr c' = ptr c → NoDup (nodes c') → (∀ q, q ∈ nodes c' → q ∈ nodes c) →
  (∀ q, q ≠ p → q ∉ nodes c → h1 !! q = h !! q) →
  child_changed h t h1 d p its1 (cs1 ++ c' :: cs2).
Proof.
  intros t Hs Hnd Hn1 Hh1 El Hsc Hpc Hndc Hin Hfr.
  apply shape_iff in Hs as (Hp & _ & Hlen & Hsh & _). simpl in Hlen, Hsh.
  unfold t in Hnd. rewrite nodes_middle in Hnd. apply NoDup_cons in Hnd as [Hpn Hnd].
  apply NoDup_app in Hnd as (_ & Hdis & Hndr).
  assert (∀ q, q ∈ nodes (Node p its1 (cs1 ++ c' :: cs2)) → q ∈ nodes t) as Hsub.
  { intros q. unfold t. rewrite !nodes_middle. set_solver. }
  split; [|done|].
  - split; try done.
    + exists n1. split; [done|]. rewrite fmap_app in *. simpl in *. by rewrite Hpc.
    + rewrite length_app in *. simpl in *. lia.
    + apply Forall_app in Hsh as [HA HB]. apply Forall_cons in HB as [_ HB].
      assert (∀ t0, t0 ∈ cs1 ++ cs2 → shape h d t0 → shape h1 d t0) as Hkeep.
      { intros t0 Ht0. apply shape_frame. intros q Hq.
        assert (q ∈ List.concat (List.map nodes (cs1 ++ cs2))) as Hq' by (apply in_concat_map; eauto).
        apply Hfr; [intros ->; set_solver|]. intros Hqc. by apply (Hdis q). }
      rewrite Forall_forall in HA. rewrite Forall_forall in HB. apply Forall_app.
      split; [|constructor; [done|]]; apply Forall_forall; intros t0 Ht0; apply Hkeep; auto; set_solver.
    + rewrite nodes_middle. apply NoDup_cons. split; [set_solver|]. apply NoDup_app. split_and!; try done.
      intros q Hq. apply Hdis. by apply Hin.
  - intros q. unfold t. rewrite nodes_middle, not_elem_of_cons, not_elem_of_app. intros (Hqp & Hqc & _).
    by apply Hfr.
Qed.

Lemma removed_after r h d p its cs its1 cs1 h1 f r' h' d' t' :
  child_changed h (Node p its cs) h1 d p its1 cs1 → length its1 = length its →
  drops f (flatten (Node p its cs)) (flatten (Node p its1 cs1)) →
  removed r h1 (S d) (Node p its1 cs1) None r' h' d' t' →
  removed r h (S d) (Node p its cs) f r' h' d' t'.
Proof.
  intros [_ Hn Hf] El Hd [S1 S2 S3 S4 S5 S6 S7]. split; try done.
  - intros q Hq. by apply Hn, S3.
  - intros q Hq. rewrite S4; [by apply Hf|]. intros Hq'. by apply Hq, Hn.
  - simpl in S5. by rewrite S5.
  - simpl in *. by rewrite <-El.
Qed.

(** The check at the end of [remove_item], and of [remove_from_node]. *)
Definition settle (node parent pos : Z) : cmd btree_t unit :=
  let! n := load node in when (count n <? BTREE_MIN) (rebalance node parent pos).

Lemma settle_idle r h d c parent pos :
  shape h d c → (3 ≤ length (titems c))%nat → settle (ptr c) parent pos (mkBTree r h) = Ret tt (mkBTree r h).
Proof.
  intros (_ & _ & n & ps & Hn & Hh)%shape_root H3. unfold settle. erewrite bind_eq; [|by apply load_runs].
  rewrite (ho_count _ _ _ Hh), (proj2 (Z.ltb_ge _ _)); [done|]. change BTREE_MIN with 3. lia.
Qed.

Lemma settle_spec r h d p its cs1 c cs2 :
  loose h d p its (cs1 ++ c :: cs2) → (2 ≤ length (titems c))%nat →
  Forall (λ c, 3 ≤ length (titems c))%nat cs1 → Forall (λ c, 3 ≤ length (titems c))%nat cs2 →
  (length its ≤ 6)%nat → its ≠ [] → Forall (roomy d) (cs1 ++ c :: cs2) →
  ∃ r' h' d' t', settle (ptr c) p (Z.of_nat (length cs1)) (mkBTree r h) = Ret tt (mkBTree r' h')
    ∧ removed r h (S d) (Node p its (cs1 ++ c :: cs2)) None r' h' d' t'.
Proof.
  intros Hlo H2 HL HR H6 Hne Hro. pose proof (lo_shape _ _ _ _ _ Hlo) as Hsh.
  apply Forall_app in Hsh as [_ Hsh]. apply Forall_cons in Hsh as [Hsc _].
  destruct (decide (3 ≤ length (titems c))%nat) as [H3|H3].
  - do 4 eexists. split; [by eapply settle_idle|]. apply tied_removed; try done; [|lia].
    apply Forall_app. split; [done|]. by constructor.
  - destruct (rebalance_spec r h d p its cs1 c cs2) as (r' & h' & d' & t' & Hrun & Hrm).
    { split; try done. lia. }
    exists r', h', d', t'. split; [|done]. destruct (shape_root _ _ _ Hsc) as (_ & _ & n & ps & Hn & Hh).
    unfold settle. erewrite bind_eq; [|by apply load_runs]. rewrite (ho_count _ _ _ Hh), (proj2 (Z.ltb_lt _ _)); [done|].
    change BTREE_MIN with 3. lia.
Qed.

(** Removal from a leaf. *)
Lemma remove_leaf fuel r h p its (i : nat) it parent :
  shape h 0 (Node p its []) → its !! i = Some it → (1 ≤ fuel)%nat →
  ∃ n', remove_from_node fuel p parent (Z.of_nat i) (mkBTree r h) = Ret tt (mkBTree r (<[p := n']> h))
    ∧ holds n' (take i its ++ drop (S i) its) []
    ∧ removed r h 0 (Node p its []) (Some it) r (<[p := n']> h) 0 (Node p (take i its ++ drop (S i) its) []).
Proof.
  intros (Hp & (n & Hn & Hh) & _)%shape_iff Hi Hf. destruct fuel as [|fuel]; [lia|]. apply lookup_lt_Some in Hi as Hlt.
  destruct (remove_holds n its i Hh Hlt) as (n' & Hrm & Hh'). exists n'. split_and!; [|done|].
  - cbn [remove_from_node]. erewrite bind_eq; [|by apply load_runs].
    rewrite (leaf_child n its 0 Hh ltac:(lia) : child_at n 0 = Some 0). cbn [lift]. rewrite bind_ret_l.
    by apply (update_runs p _ n).
  - split; try done.
    + apply shape_leaf with n'; [done|apply lookup_insert_eq|done].
    + apply NoDup_singleton.
    + intros q Hq. apply lookup_insert_ne. intros ->. apply Hq. simpl. set_solver.
    + simpl. exists (take i its), (drop (S i) its). split; [by rewrite take_drop_middle|done].
    + left. split_and!; try done; [|by left]. simpl. rewrite length_app, length_take, length_drop. lia.
Qed.

(** What [remove_from_node] does at a node above the leaves. *)
Lemma separator_run fuel r (h : heap) p n n' q l c0 y pos parent s1 :
  h !! p = Some n → child_at n 0 = Some c0 → c0 ≠ 0 → child_at n (pos + 1) = Some q →
  h !! q = Some l → child_at l 0 = Some 0 → item_at l 0 = Some y → put_item pos y n = Some n' →
  remove_from_node (S fuel) q p 0 (mkBTree r (<[p := n']> h)) = Ret tt s1 →
  remove_from_node (S (S fuel)) p parent pos (mkBTree r h) = settle q p (pos + 1) s1.
Proof.
  intros Hn Hc0 Hc00 Hq Hl Hl0 Hy Hput Hrun. remember (S fuel) as fuel1 eqn:Ef. cbn [remove_from_node].
  erewrite bind_eq; [|by apply load_runs].
  rewrite Hc0. cbn [lift]. rewrite bind_ret_l, (proj2 (Z.eqb_neq _ _)) by done.
  rewrite Hq. cbn [lift]. rewrite bind_ret_l.
  assert (get_leftmost_leaf fuel1 q p (mkBTree r h) = Ret (q, p) (mkBTree r h)) as Hgl.
  { rewrite Ef. cbn [get_leftmost_leaf]. erewrite bind_eq; [|by apply load_runs]. by rewrite Hl0. }
  erewrite bind_eq; [|exact Hgl]. cbv iota beta. erewrite bind_eq; [|by apply load_runs].
  rewrite Hy. cbn [lift]. rewrite bind_ret_l. erewrite bind_eq; [|by eapply update_runs].
  erewrite bind_eq; [|exact Hrun]. by rewrite Z.eqb_refl.
Qed.

(** Removal of the separator between two leaves: its successor, the first item of
    the right leaf, takes its place. *)
Lemma remove_separator fuel r h p i1 x i2 cs1 ta tb cs2 parent :
  let t := Node p (i1 ++ x :: i2) (cs1 ++ ta :: tb :: cs2) in
  shape h 1 t → NoDup (nodes t) → roomy 1 t → length cs1 = length i1 → (2 ≤ fuel)%nat →
  ∃ r' h' d' t',
    remove_from_node fuel p parent (Z.of_nat (length i1)) (mkBTree r h) = Ret tt (mkBTree r' h')
    ∧ removed r h 1 t (Some x) r' h' d' t'.
Proof.
  intros t Hs Hnd [H6 _] Hl1 Hf. destruct fuel as [|[|fuel]]; [lia..|].
  pose proof Hs as (Hp & (n & Hn & Hh) & Hlen & Hsh & H3)%shape_iff. simpl in Hlen.
  assert (length cs2 = length i2) as Hl2 by (rewrite !length_app in Hlen; simpl in Hlen; lia).
  apply Forall_app in Hsh as [HsA HsB]. apply Forall_cons in HsB as [Hsa HsB]. apply Forall_cons in HsB as [Hsb HsB].
  apply Forall_app in H3 as [H3A H3B]. apply Forall_cons in H3B as [H3a H3B]. apply Forall_cons in H3B as [H3b H3B].
  destruct tb as [q ys cb]. pose proof Hsb as (Hq & (l & Hl & Hhl) & Hlv & _)%shape_iff. simpl in Hlv. subst cb.
  destruct ys as [|y ys]; [simpl in H3b; lia|].
  assert (q ≠ p) as Hqp.
  { intros ->. unfold t in Hnd. simpl in Hnd. apply NoDup_cons in Hnd as [Hnot _]. apply Hnot, in_concat_map.
    exists (Node p (y :: ys) []). simpl. set_solver. }
  assert (key y ≠ 0) as Hky by by eapply (holds_keys_app _ []).
  destruct (holds_put_item n i1 x i2 _ y Hh Hky) as (n' & Hput & Hh').
  set (h0 := <[p := n']> h).
  assert (h0 !! q = Some l) as Hl0 by (unfold h0; by rewrite lookup_insert_ne).
  assert (shape h0 0 (Node q (y :: ys) [])) as Hsb0 by by apply shape_leaf with l.
  destruct (remove_leaf (S fuel) r h0 q (y :: ys) 0 y p Hsb0 eq_refl ltac:(lia)) as (l' & Hrun & Hhl' & Hrm).
  simpl in Hhl'. rewrite drop_0 in Hhl'. set (h1 := <[q := l']> h0) in *.
  assert (child_changed h t h1 0 p (i1 ++ y :: i2) ((cs1 ++ [ta]) ++ Node q ys [] :: cs2)) as Hcc.
  { unfold t. replace (cs1 ++ ta :: Node q (y :: ys) [] :: cs2) with ((cs1 ++ [ta]) ++ Node q (y :: ys) [] :: cs2)
      by by rewrite <-app_assoc.
    eapply change_child with (n1 := n'); rewrite <-?app_assoc; try done.
    - unfold h1, h0. by rewrite lookup_insert_ne, lookup_insert_eq.
    - by rewrite !length_app.
    - apply shape_leaf with l'; [done|apply lookup_insert_eq|done].
    - apply NoDup_singleton.
    - intros z Hz Hzq. unfold h1, h0. rewrite !lookup_insert_ne; [done|done|]. intros ->. simpl in Hzq. set_solver. }
  destruct (settle_spec r h1 0 p (i1 ++ y :: i2) (cs1 ++ [ta]) (Node q ys []) cs2 (cc_loose _ _ _ _ _ _ _ Hcc))
    as (r' & h' & d' & t' & Hset & Hrm'); try done.
  { simpl in H3b |- *. lia. }
  { apply Forall_app. split; [done|]. by constructor. }
  { rewrite !length_app in *. done. }
  { by destruct i1. }
  { by apply Forall_forall. }
  exists r', h', d', t'. split.
  - destruct (handed_over h 1 n _ _ 0 Hh Hlen) as [Hc0 [[? _]|(_ & c0 & Ec0 & Hc00)]]; [|lia|done|].
    { apply Forall_app. split; [done|]. by repeat constructor. }
    rewrite Ec0 in Hc0. replace (Z.of_nat (length (cs1 ++ [ta]))) with (Z.of_nat (length i1) + 1) in Hset
      by (rewrite length_app; simpl; lia).
    rewrite <-Hset. eapply separator_run; try done; [| |].
    + replace (Z.of_nat (length i1) + 1) with (Z.of_nat (S (length cs1))) by lia. eapply holds_child; [exact Hh|].
      rewrite list_lookup_fmap, lookup_app_r by lia. by replace (S (length cs1) - length cs1)%nat with 1%nat by lia.
    + exact (leaf_child l _ 0 Hhl ltac:(lia)).
    + exact (holds_item l _ _ 0 y Hhl eq_refl).
  - eapply removed_after; [exact Hcc|by rewrite !length_app| |exact Hrm'].
    unfold t. rewrite <-app_assoc. simpl app. rewrite !flatten_pair by done.
    apply drops_middle. by exists (flatten ta), (y :: ys).
Qed.

(** ** Removal from a tree *)

(** The separators two or more levels above the leaves. *)
Fixpoint deep (d : nat) (t : tree) : list item :=
  match d, t with
  | S (S _ as d), Node _ its cs => its ++ List.concat (List.map (deep d) cs)
  | _, _ => []
  end.

(** [remove_item] without the check at its end. *)
Definition remove_body (fuel : nat) (node parent k : Z) : cmd btree_t Z :=
  let! n := load node in
  let! d := lift (pick_pos n k (positions n)) in
  match d with
  | PickItem i =>
      let! it := lift (item_at n i) in
      do! remove_from_node fuel node parent i in
      ret (val it)
  | PickChild i =>
      let! c := lift (child_at n i) in
      remove_item fuel c node k i
  | PickNone => ret 0
  end.

Lemma remove_item_eq fuel node parent k pos s :
  remove_item (S fuel) node parent k pos s
  = (let! r := remove_body fuel node parent k in
     do! when (negb (parent =? 0)) (settle node parent pos) in ret r) s.
Proof.
  cbn [remove_item]. unfold remove_body, settle, bind. destruct (load node s) as [n s1| |]; [|done..].
  by destruct (lift (pick_pos n k (positions n)) s1) as [d s2| |].
Qed.

Definition value_of (f : option item) : Z := match f with Some it => val it | None => 0 end.

(** The result of a removal of [k] from [t]. *)
Definition removal (o : outcome btree_t Z) (r : Z) (h : heap) (d : nat) (t : tree) (k : Z) : Prop :=
  ∃ f r' h' d' t', o = Ret (value_of f) (mkBTree r' h') ∧ finds k (flatten t) f
    ∧ removed r h d t f r' h' d' t'
    ∧ (f = None → r' = r ∧ h' = h ∧ d' = d ∧ t' = t).

Lemma removed_none r h d t :
  shape h d t → NoDup (nodes t) → roomy d t → (r = ptr t → d = 0%nat ∨ titems t ≠ []) →
  removed r h d t None r h d t.
Proof. intros. split; try done. left. split_and!; try done. lia. Qed.

Lemma remove_body_leaf fuel r h p its k parent :
  shape h 0 (Node p its []) → in_order its → (1 ≤ fuel)%nat →
  removal (remove_body fuel p parent k (mkBTree r h)) r h 0 (Node p its []) k.
Proof.
  intros Hs Hso Hf. pose proof Hs as (Hp & (n & Hn & Hh) & _)%shape_iff. unfold remove_body.
  erewrite bind_eq; [|by apply load_runs]. rewrite (pick_pos_spec n its [] k Hh (or_introl eq_refl)).
  cbn [lift]. rewrite bind_ret_l.
  pose proof (pick_in_spec 0 k its (bool_decide ([] =@{list Z} [])) Hso) as Hsp.
  destruct (pick_in _ _ _ _) as [j|j|].
  - destruct Hsp as (i & it & -> & Hi & Hk). simpl plus.
    destruct (remove_leaf fuel r h p its i it parent Hs Hi Hf) as (n' & Hrun & _ & Hrm).
    exists (Some it). do 4 eexists. split_and!; [| |exact Hrm|done].
    + rewrite (holds_item n its [] i it) by done. cbn [lift]. rewrite bind_ret_l. by erewrite bind_eq.
    + split; [|done]. by eapply list_elem_of_lookup_2.
  - destruct Hsp as (i & _ & _ & Hfalse & _). done.
  - exists None. do 4 eexists. split_and!; [reflexivity|exact (proj2 Hsp)| |done].
    apply removed_none; try done; [apply NoDup_singleton|by left].
Qed.

(** A tree from which [k] can be removed: it is the whole tree, with the root [r],
    or a subtree. *)
Record removable (r : Z) (h : heap) (d : nat) (t : tree) (k : Z) : Prop := {
  ra_shape : shape h d t;
  ra_nodup : NoDup (nodes t);
  ra_order : in_order (flatten t);
  ra_roomy : roomy d t;
  ra_deep : Forall (λ it, key it ≠ k) (deep d t);
  ra_place : (r = ptr t ∧ (d = 0%nat ∨ titems t ≠ [])) ∨ (r ∉ nodes t ∧ 3 ≤ length (titems t))%nat;
}.

Lemma removable_root r h d t k : removable r h d t k → r = ptr t → d = 0%nat ∨ titems t ≠ [].
Proof.
  intros [Hs _ _ _ _ [[_ ?]|[Hn _]]] ->; [done|]. exfalso. apply Hn. by apply (shape_root h d t).
Qed.

Lemma removable_some r h d p its cs k : removable r h (S d) (Node p its cs) k → its ≠ [].
Proof. intros [_ _ _ _ _ [[_ [?|?]]|[_ H]]]; [done..|]. simpl in H. intros ->. simpl in H. lia. Qed.

Lemma removable_child r h d p its cs1 c cs2 k :
  removable r h (S d) (Node p its (cs1 ++ c :: cs2)) k → length cs1 = length (take (length cs1) its) →
  removable r h d c k ∧ r ∉ nodes c ∧ p ∉ nodes c.
Proof.
  intros [Hs Hnd Hso Hro Hde Hpl] Hl. set (j := length cs1) in *.
  assert (r ∉ nodes c ∧ p ∉ nodes c ∧ (3 ≤ length (titems c))%nat) as (Hr & Hp & H3).
  { pose proof Hs as (_ & _ & _ & _ & H3)%shape_iff. apply Forall_app in H3 as [_ H3].
    apply Forall_cons in H3 as [H3 _]. rewrite nodes_middle in Hnd. apply NoDup_cons in Hnd as [Hpn _].
    split_and!; [|set_solver|done]. destruct Hpl as [[-> _]|[Hr _]]; [simpl; set_solver|].
    rewrite nodes_middle in Hr. set_solver. }
  split; [|done]. rewrite <-(take_drop j its) in Hs, Hso.
  destruct (child_facts d h p (take j its) (drop j its) cs1 c cs2 Hs) as (H1 & H2 & H4); try done.
  split; try done; [| |by right].
  - destruct Hro as [_ Hro]. apply Forall_app in Hro as [_ Hro]. by apply Forall_cons in Hro as [? _].
  - destruct d as [|d]; [simpl; by destruct c|]. cbn [deep] in Hde. apply Forall_app in Hde as [_ Hde].
    rewrite map_app, concat_app in Hde. apply Forall_app in Hde as [_ Hde]. cbn [List.map List.concat] in Hde.
    by apply Forall_app in Hde as [? _].
Qed.

(** The removal went on in a child: the child is settled, and the node is again a
    tree. *)
Lemma removal_child fuel r h d p its cs1 c cs2 k i1 i2 :
  let t := Node p its (cs1 ++ c :: cs2) in
  removable r h (S d) t k → its = i1 ++ i2 → length cs1 = length i1 →
  Forall (λ it, key it ≤ k - 1) i1 → Forall (λ it, k + 1 ≤ key it) i2 →
  removal (remove_body fuel (ptr c) p k (mkBTree r h)) r h d c k →
  removal (remove_item (S fuel) (ptr c) p k (Z.of_nat (length cs1)) (mkBTree r h)) r h (S d) t k.
Proof.
  intros t Hra -> Hl1 Hk1 Hk2 (f & r1 & h1 & d1 & c1 & Hrun & Hfi & Hrm & Hnone).
  destruct (removable_child r h d p _ cs1 c cs2 k Hra) as (Hrc & Hrn & Hpn); [by rewrite Hl1, take_app_length|].
  pose proof Hra as [Hs Hnd Hso Hro Hde Hpl].
  pose proof Hs as (Hp & (n & Hn & Hh) & Hlen & Hsh & H3)%shape_iff. simpl in Hlen, Hsh.
  assert (length cs2 = length i2) as Hl2 by (rewrite !length_app in Hlen; simpl in Hlen; lia).
  apply Forall_app in H3 as [H3A H3B]. apply Forall_cons in H3B as [H3c H3B].
  apply (finds_child p i1 i2 cs1 c cs2 k f Hl1 Hl2 Hso Hk1 Hk2) in Hfi as Hft.
  pose proof Hrm as [R1 R2 R3 R4 R5 R6 R7]. destruct R7 as [(-> & -> & Hpc & Hle & _)|(-> & _)].
  2:{ exfalso. apply Hrn. by apply (shape_root h d c), Hrc. }
  unfold removal. rewrite remove_item_eq. erewrite bind_eq by exact Hrun.
  rewrite (proj2 (Z.eqb_neq p 0)) by done. cbn [negb when].
  destruct f as [it|].
  - assert (child_changed h t h1 d p (i1 ++ i2) (cs1 ++ c1 :: cs2)) as Hcc.
    { eapply change_child with (n1 := n); try done; [by rewrite R4|]. intros q _ Hq. by apply R4. }
    destruct Hro as [H6 Hro]. apply Forall_app in Hro as [HroA HroB]. apply Forall_cons in HroB as [_ HroB].
    destruct (settle_spec r h1 d p (i1 ++ i2) cs1 c1 cs2 (cc_loose _ _ _ _ _ _ _ Hcc))
      as (r' & h' & d' & t' & Hset & Hrm'); try done; [lia|by eapply removable_some| |].
    { apply Forall_app. split; [done|]. by constructor. }
    exists (Some it), r', h', d', t'. split_and!; [|done| |done].
    + rewrite <-Hpc. by erewrite bind_eq by exact Hset.
    + eapply removed_after; [exact Hcc|done| |exact Hrm']. rewrite !flatten_middle by done. by apply drops_middle.
  - destruct (Hnone eq_refl) as (_ & -> & _ & ->). exists None, r, h, (S d), t. split_and!; [|done| |done].
    + by erewrite bind_eq by (eapply settle_idle; [exact R1|done]).
    + apply removed_none; try done. by eapply removable_root.
Qed.

(** The key is a separator right above the leaves. *)
Lemma removal_separator fuel r h d p its cs k (j : nat) it n parent :
  removable r h (S d) (Node p its cs) k → h !! p = Some n → holds n its (ptr <$> cs) →
  its !! j = Some it → key it = k → (2 ≤ fuel)%nat →
  removal ((let! x := lift (item_at n (Z.of_nat j)) in
            do! remove_from_node fuel p parent (Z.of_nat j) in ret (val x)) (mkBTree r h)) r h (S d) (Node p its cs) k.
Proof.
  intros [Hs Hnd Hso Hro Hde Hpl] Hn Hh Hj Hk Hf. destruct d as [|d].
  2:{ exfalso. cbn [deep] in Hde. apply Forall_app in Hde as [Hde _]. by eapply Forall_lookup_1 in Hde. }
  pose proof Hs as (_ & _ & Hlen & _)%shape_iff. simpl in Hlen. apply lookup_lt_Some in Hj as Hlt.
  rewrite (holds_item n its _ j it Hh Hj). cbn [lift]. unfold removal. rewrite bind_ret_l.
  assert (finds k (flatten (Node p its cs)) (Some it)) as Hfi.
  { split; [|done]. simpl. apply weave_elem_item; [by eapply list_elem_of_lookup_2|by rewrite length_map]. }
  destruct (split_items cs j) as (cs1 & ta & cs' & -> & Hl1); [lia|].
  destruct cs' as [|tb cs2]; [rewrite length_app in Hlen; simpl in Hlen; lia|].
  apply take_drop_middle in Hj. rewrite <-Hj in Hs, Hnd, Hro, Hfi |- *.
  destruct (remove_separator fuel r h p (take j its) it (drop (S j) its) cs1 ta tb cs2 parent Hs Hnd Hro)
    as (r' & h' & d' & t' & Hrun & Hrm); [rewrite length_take; lia|done|].
  replace (length (take j its)) with j in Hrun by (rewrite length_take; lia).
  exists (Some it), r', h', d', t'. split_and!; try done. by erewrite bind_eq by exact Hrun.
Qed.

Lemma remove_body_spec d : ∀ fuel r h t k parent,
  removable r h d t k → (d + 1 ≤ fuel)%nat →
  removal (remove_body fuel (ptr t) parent k (mkBTree r h)) r h d t k.
Proof.
  induction d as [|d IH]; intros fuel r h [p its cs] k parent Hra Hf; pose proof Hra as [Hs Hnd Hso _ _ _].
  { pose proof Hs as (_ & _ & Hl & _)%shape_iff. simpl in Hl. subst cs. apply remove_body_leaf; [done..|lia]. }
  pose proof Hs as (_ & (n & Hn & Hh) & Hlen & _)%shape_iff. simpl in Hlen. cbn [ptr].
  assert (in_order its) as Hits by (eapply weave_items_sorted; [exact Hso|by rewrite length_map]).
  unfold remove_body. unfold removal. erewrite bind_eq; [|by apply load_runs].
  rewrite (pick_pos_spec n its (ptr <$> cs) k Hh) by (right; by rewrite length_fmap).
  cbn [lift]. rewrite bind_ret_l.
  pose proof (pick_in_spec 0 k its (bool_decide (ptr <$> cs = [])) Hits) as Hsp.
  destruct (pick_in _ _ _ _) as [j|j|].
  - destruct Hsp as (i & it & -> & Hi & Hk). simpl plus. eapply removal_separator; try done. lia.
  - destruct Hsp as (i & -> & Hi & _ & H1 & H2). simpl plus.
    destruct (split_items cs i) as (cs1 & c & cs2 & -> & Hl1); [lia|].
    rewrite (holds_child n its _ i (ptr c) Hh)
      by by rewrite list_lookup_fmap, lookup_app_r, Hl1, Nat.sub_diag by lia.
    cbn [lift]. rewrite bind_ret_l. destruct fuel as [|fuel]; [lia|]. rewrite <-Hl1.
    eapply (removal_child fuel r h d p its cs1 c cs2 k (take i its) (drop i its)); try done.
    + by rewrite take_drop.
    + rewrite length_take. lia.
    + apply IH; [|lia]. eapply removable_child; [exact Hra|]. rewrite length_take. lia.
  - destruct Hsp as [Hfalse _]. apply bool_decide_eq_true in Hfalse. by destruct cs.
Qed.

(** ** Whole trees *)

(** [represents], with the tree. *)
Record tree_of (s : btree_t) (d : nat) (t : tree) : Prop := {
  to_root : root s = ptr t;
  to_shape : shape (hp s) d t;
  to_nodup : NoDup (nodes t);
  to_order : in_order (flatten t);
  to_some : d = 0%nat ∨ titems t ≠ [];
}.

Lemma tree_of_represents s d t : tree_of s d t → represents s d (flatten t).
Proof. intros []. by apply rep_tree. Qed.

Lemma drops_sublist f l l' : drops f l l' → l' `sublist_of` l.
Proof.
  destruct f; simpl; [|by intros ->]. intros (pre & post & -> & ->). apply sublist_app; [done|]. by apply sublist_cons.
Qed.

Lemma sublist_keys (l1 l2 : list item) : l1 `sublist_of` l2 → (key <$> l1) `sublist_of` (key <$> l2).
Proof. induction 1; simpl; by constructor. Qed.

Lemma remove_spec fuel k s d t :
  tree_of s d t → roomy d t → Forall (λ it, key it ≠ k) (deep d t) → (d + 2 ≤ fuel)%nat →
  ∃ f s' d' t', remove fuel k s = Ret (value_of f) s' ∧ finds k (flatten t) f
    ∧ drops f (flatten t) (flatten t') ∧ tree_of s' d' t' ∧ roomy d' t' ∧ (d' ≤ d ≤ S d')%nat
    ∧ (f = None → s' = s).
Proof.
  intros [Hr Hs Hnd Hso Hne] Hro Hde Hf. destruct s as [r h]. simpl in *. destruct fuel as [|fuel]; [lia|].
  destruct (remove_body_spec d fuel r h t k 0) as (f & r' & h' & d' & t' & Hrun & Hfi & Hrm & Hnone);
    [split; auto|lia|].
  exists f, (mkBTree r' h'), d', t'.
  pose proof Hrm as [R1 R2 R3 R4 R5 R6 R7]. split_and!; try done.
  - unfold remove, bind at 1, get. cbn [root]. rewrite <-Hr in Hrun. rewrite remove_item_eq. by erewrite bind_eq by exact Hrun.
  - split; try done; simpl.
    + destruct R7 as [(-> & _ & -> & _)|(_ & -> & _)]; done.
    + eapply in_order_sublist; [by eapply drops_sublist|done].
    + destruct R7 as [(_ & -> & _ & _ & H)|(_ & _ & _ & H)]; [by apply H|by right].
  - destruct R7 as [(_ & -> & _)|(_ & _ & -> & _)]; lia.
  - destruct R7 as [(_ & -> & _)|(_ & _ & -> & _)]; lia.
  - intros E. by destruct (Hnone E) as (-> & -> & _).
Qed.

Lemma filter_keeps_all {A} (P : A → Prop) `{!∀ x, Decision (P x)} (l : list A) :
  Forall P l → filter P l = l.
Proof. induction 1 as [|x l Hx Hl IH]; [done|]. by rewrite filter_cons_True, IH. Qed.

Lemma drops_filter k f l l' :
  NoDup (key <$> l) → finds k l f → drops f l l' → l' = filter (λ it, key it ≠ k) l.
Proof.
  intros Hnd Hf. destruct f as [it|]; simpl in *.
  - destruct Hf as [_ <-]. intros (pre & post & -> & ->). rewrite fmap_app in Hnd. simpl in Hnd.
    apply NoDup_app in Hnd as (_ & Hd & Hp). apply NoDup_cons in Hp as [Hp _].
    rewrite filter_app, filter_cons_False by naive_solver. f_equal; symmetry; apply filter_keeps_all.
    + apply Forall_forall. intros x Hx E. apply (Hd (key x)); [by apply list_elem_of_fmap_2|]. rewrite E. set_solver.
    + apply Forall_forall. intros x Hx E. apply Hp. rewrite <-E. by apply list_elem_of_fmap_2.
  - intros ->. symmetry. apply filter_keeps_all. apply Forall_forall. by apply Hf.
Qed.

(** C21: Removal keeps the B-tree: on a tree of depth [d] whose inner nodes have a
    free slot, removing a key that is not a separator two or more levels above the
    leaves returns; the result is the value of a binding of the key, which is gone
    from the bindings, or 0 and the same tree when the key is not bound.  What is
    left is again a B-tree (ordered, balanced, every node but the root at least half
    full, inner nodes with a free slot), of the same depth or one less. *)
Theorem remove_keeps_btree fuel k s d t :
  tree_of s d t → roomy d t → Forall (λ it, key it ≠ k) (deep d t) → (d + 2 ≤ fuel)%nat →
  ∃ f s' d' t', remove fuel k s = Ret (value_of f) s' ∧ finds k (flatten t) f
    ∧ drops f (flatten t) (flatten t') ∧ tree_of s' d' t' ∧ roomy d' t' ∧ (d' ≤ d ≤ S d')%nat
    ∧ (f = None → s' = s).
Proof. apply remove_spec. Qed.

(** ** Sequences of removals *)

Definition remove_all (fuel : nat) (ks : list Z) : cmd btree_t unit :=
  for_each ks (λ k, do! remove fuel k in ret tt).

(** A tree of a root and leaves, with a free slot in the root, stands any sequence of
    removals: all of them return, and the bindings left are those whose keys were
    not named. *)
Theorem remove_all_shallow fuel ks s d t :
  tree_of s d t → roomy d t → (d ≤ 1)%nat → NoDup (key <$> flatten t) → (3 ≤ fuel)%nat →
  ∃ s' d' t', remove_all fuel ks s = Ret tt s' ∧ tree_of s' d' t' ∧ (d' ≤ 1)%nat
    ∧ flatten t' = filter (λ it, key it ∉ ks) (flatten t).
Proof.
  intros Ht Hro Hd Hnd Hf. revert s d t Ht Hro Hd Hnd. induction ks as [|k ks IH]; intros s d t Ht Hro Hd Hnd.
  { exists s, d, t. split_and!; try done. symmetry. apply filter_keeps_all, Forall_forall. intros x _. apply not_elem_of_nil. }
  destruct (remove_spec fuel k s d t Ht Hro) as (f & s1 & d1 & t1 & Hrun & Hfi & Hdr & Ht1 & Hro1 & Hd1 & _).
  { destruct d as [|[|d]]; simpl; [done|by destruct t|lia]. }
  { lia. }
  apply (drops_filter k) in Hdr as Hfl; [|done..].
  destruct (IH s1 d1 t1 Ht1 Hro1 ltac:(lia)) as (s' & d' & t' & Hall & Ht' & Hd' & Hfl').
  { eapply sublist_NoDup; [exact Hnd|]. by eapply sublist_keys, drops_sublist. }
  exists s', d', t'. split_and!; try done.
  - unfold remove_all in *. cbn [for_each]. rewrite bind_assoc. by erewrite bind_eq by exact Hrun.
  - rewrite Hfl', Hfl, list_filter_filter. apply list_filter_iff. intros x. set_solver.
Qed.

(** ** A concrete tree of three levels *)

Module DemoRemove.
Import Demo.

Definition grown : btree_t := built (numbers 1 33).
Definition leaf (p a n : Z) : tree := Node p (numbers a n) [].
Definition seps (l : list Z) : list item := (λ k, mkItem k (10 * k)) <$> l.
Definition grown_tree : tree :=
  Node 11 (seps [16])
    [Node 3 (seps [4; 8; 12]) [leaf 1 1 3; leaf 2 5 3; leaf 4 9 3; leaf 5 13 3];
     Node 10 (seps [20; 24; 28]) [leaf 6 17 3; leaf 7 21 3; leaf 8 25 3; leaf 9 29 5]].

Ltac inner := eapply shape_node; [discriminate|vm_compute; reflexivity|holds_by_computation|reflexivity| |];
  [|repeat constructor; simpl; lia].
Ltac outer := eapply shape_leaf; [discriminate|vm_compute; reflexivity|holds_by_computation].

Lemma grown_shape : shape (hp grown) 2 grown_tree.
Proof.
  inner. apply Forall_forall. intros c Hc.
  repeat (apply elem_of_cons in Hc as [->|Hc]; [inner; repeat (constructor; [outer|]); constructor|]).
  by apply elem_of_nil in Hc.
Qed.

Lemma grown_is : tree_of grown 2 grown_tree.
Proof.
  split; [vm_compute; reflexivity|apply grown_shape|apply (bool_decide_unpack _); vm_compute; exact I| |right; discriminate].
  change (flatten grown_tree) with (numbers 1 33). repeat constructor; discriminate.
Qed.

Lemma remove_keeps_btree_witness :
  ∃ f s' d' t', remove 4 1 grown = Ret (value_of f) s' ∧ finds 1 (numbers 1 33) f
    ∧ drops f (numbers 1 33) (flatten t') ∧ tree_of s' d' t' ∧ roomy d' t' ∧ (d' ≤ 2 ≤ S d')%nat
    ∧ (f = None → s' = grown).
Proof.
  apply (remove_keeps_btree 4 1 grown 2 grown_tree);
    [exact grown_is|simpl; repeat constructor; simpl; lia|simpl; repeat constructor; discriminate|lia].
Defined.

(** In that run two leaves merge, then two inner nodes, and the root goes. *)
Theorem removal_lowers_root :
  ∃ s, remove 4 1 grown = Ret 10 s ∧ root grown = 11 ∧ root s = 3 ∧ hp s !! 11 = None
    ∧ bindings s = Ret ((λ k, (k, 10 * k)) <$> seqZ 2 32, 0) s.
Proof. eexists. split_and!; vm_compute; reflexivity. Qed.

Lemma eight_is : tree_of eight 1 eight_tree.
Proof.
  split; [vm_compute; reflexivity|apply eight_shape|apply (bool_decide_unpack _); vm_compute; exact I| |right; discriminate].
  repeat constructor; discriminate.
Qed.

Lemma remove_all_shallow_witness :
  ∃ s' d' t', remove_all 3 [4; 1; 9; 8] eight = Ret tt s' ∧ tree_of s' d' t' ∧ (d' ≤ 1)%nat
    ∧ flatten t' = filter (λ it, key it ∉ [4; 1; 9; 8]) (numbers 1 8).
Proof.
  apply (remove_all_shallow 3 [4; 1; 9; 8] eight 1 eight_tree);
    [exact eight_is|simpl; split; [lia|repeat constructor]|lia
    |apply (bool_decide_unpack _); vm_compute; exact I|lia].
Defined.
End DemoRemove.
