(* ===== verification/CxlFs.v ===== *)
(** * The file interfaces of libcxlfs and libvramfs (libcxlfs/libcxlfs.cc,
      libvramfs/libvramfs.cc)

    Both libraries give a program open, lseek and mmap on files that live in an
    arena: the region the paging controller serves, or video memory.  The code is
    the same but for the function that gives a file its memory, which is a
    parameter here, with what the tables rely on as an interface.  libcxlfs's
    allocator, a bump pointer into the region of the controller, is proved to
    implement the interface. *)

From stdpp Require Import base list gmap strings sorting.
From Stdlib Require Import ZArith Lia.
From S2P Require Import Prelude BlkDev Controller.

(** ** State *)

Record fd_desc_t := mkDesc {
  fd_id : Z;
  region : Z;
  len : Z;
  va_alloc_off : Z;
  seek : Z;
}.

(** [fd_desc_t::end] and [fd_desc_t::end_off]. *)
Definition end_ (d : fd_desc_t) : Z := wrap64 (region d + va_alloc_off d + seek d).
Definition end_off (d : fd_desc_t) : Z := wrap64 (va_alloc_off d + seek d).

Record fs (M : Type) := mkFs {
  path_to_fd : gmap string Z;
  fd_to_path : gmap Z string;
  fd_desc : gmap Z fd_desc_t;
  errno : Z;
  arena : M;
}.
Arguments mkFs {M}.
Arguments path_to_fd {M}.
Arguments fd_to_path {M}.
Arguments fd_desc {M}.
Arguments errno {M}.
Arguments arena {M}.

Definition set_errno {M} (e : Z) (s : fs M) : fs M :=
  mkFs (path_to_fd s) (fd_to_path s) (fd_desc s) e (arena s).
Definition set_desc {M} (fd : Z) (d : fd_desc_t) (s : fs M) : fs M :=
  mkFs (path_to_fd s) (fd_to_path s) (<[fd := d]> (fd_desc s)) (errno s) (arena s).
Definition set_arena {M} (a : M) (s : fs M) : fs M :=
  mkFs (path_to_fd s) (fd_to_path s) (fd_desc s) (errno s) a.
Definition add_path {M} (path : string) (fd : Z) (s : fs M) : fs M :=
  mkFs (<[path := fd]> (path_to_fd s)) (<[fd := path]> (fd_to_path s)) (fd_desc s) (errno s) (arena s).

Definition EBADF : Z := 9.
Definition EINVAL : Z := 22.
Definition ENOSYS : Z := 38.
Definition ENOTSUP : Z := 95.
Definition SEEK_SET : Z := 0.
Definition MAP_PRIVATE : Z := 0x2.
Definition MAP_FIXED : Z := 0x10.
Definition MAP_ANONYMOUS : Z := 0x20.
Definition MAP_FIXED_NOREPLACE : Z := 0x100000.
Definition MAP_FAILED : Z := wrap64 (-1).

(** ** The tables *)

Section Tables.
Context {M : Type} (malloc : Z → cmd M Z).

(** The loop of [get_free_fd]; [None] when the fuel runs out. *)
Fixpoint next_free_fd (fuel : nat) (t : gmap Z string) (result : Z) : option Z :=
  match fuel with
  | O => None
  | S fuel =>
      match t !! result with
      | Some _ => next_free_fd fuel t (result + 1)
      | None => Some result
      end
  end.

(** A table of [n] descriptors takes at most [n + 1] turns. *)
Definition get_free_fd : cmd (fs M) Z := λ s,
  match next_free_fd (S (size (fd_to_path s))) (fd_to_path s) 1 with
  | Some fd => Ret fd s
  | None => Trap s
  end.

Definition fd_exists (fd : Z) (s : fs M) : bool := bool_decide (is_Some (fd_desc s !! fd)).

Definition create_fd (pathname_str : string) : cmd (fs M) Z :=
  let! fd := get_free_fd in
  do! modify (add_path pathname_str fd) in
  do! modify (set_desc fd (mkDesc fd 0 0 0 0)) in
  ret fd.

Definition on_arena {A} (c : cmd M A) : cmd (fs M) A := λ s,
  match c (arena s) with
  | Ret a m => Ret a (set_arena m s)
  | Exit code m => Exit code (set_arena m s)
  | Trap m => Trap (set_arena m s)
  end.

(** The descriptor of an fd that exists. *)
Definition desc_of (fd : Z) : cmd (fs M) fd_desc_t := λ s,
  match fd_desc s !! fd with Some d => Ret d s | None => Trap s end.

Definition lseek (fd offset whence : Z) : cmd (fs M) Z :=
  let! s := get in
  if negb (fd_exists fd s) then do! modify (set_errno EBADF) in ret (-1)
  else if negb (whence =? SEEK_SET) then do! modify (set_errno ENOSYS) in ret (-1)
  else
    let! d := desc_of fd in
    let new_off := offset in
    let d := mkDesc (fd_id d) (region d) (len d) (va_alloc_off d) new_off in
    do! modify (set_desc fd d) in
    do! nvsl_assert (len d =? 0) in
    if len d <? wrap64 new_off then
      let len := wrap64 new_off in
      let d := mkDesc (fd_id d) (region d) len (va_alloc_off d) (seek d) in
      do! modify (set_desc fd d) in
      let! region := on_arena (malloc len) in
      do! modify (set_desc fd (mkDesc (fd_id d) region len (va_alloc_off d) (seek d))) in
      ret new_off
    else ret new_off.

Definition open (pathname : string) : cmd (fs M) Z :=
  let! s := get in
  match path_to_fd s !! pathname with
  | Some fd => ret fd
  | None => create_fd pathname
  end.

Definition has_flag (flags f : Z) : bool := negb (Z.land flags f =? 0).

Definition mmap (length flags fd offset : Z) : cmd (fs M) Z :=
  let! s := get in
  if negb (fd_exists fd s) then do! modify (set_errno EBADF) in ret MAP_FAILED
  else if has_flag flags MAP_FIXED || has_flag flags MAP_FIXED_NOREPLACE then
    do! modify (set_errno ENOTSUP) in ret MAP_FAILED
  else if has_flag flags MAP_PRIVATE || has_flag flags MAP_ANONYMOUS then
    do! modify (set_errno ENOTSUP) in ret MAP_FAILED
  else
    let! d := desc_of fd in
    if len d <? wrap64 (length + offset) then do! modify (set_errno EINVAL) in ret MAP_FAILED
    else ret (wrap64 (region d + va_alloc_off d)).
End Tables.

(** ** libcxlfs: a bump pointer into the region of the controller *)

Module Cxl.

Definition GiB : Z := 2 ^ 30.
Definition MiB : Z := 2 ^ 20.
Definition MEM_SIZE : Z := 16 * GiB.
Definition CACHE_SIZE : Z := 128 * MiB.

Record cxl := mkCxl {
  the_ctrlr : option ctrlr; (* the global pointer *)
  bump_off : Z;
}.

Section Ops.
(** The controller's environment, and the state [new Controller()] leaves. *)
Context (o : os) (env : spdk) (fuel : nat) (new_ctrlr : ctrlr).

(** The result of [init] is not looked at. *)
Definition malloc (bytes : Z) : cmd cxl Z := λ s,
  let start (c : ctrlr) :=
    Ret (wrap64 (shm_start c + bump_off s)) (mkCxl (Some c) (wrap64 (bump_off s + bytes))) in
  match the_ctrlr s with
  | Some c => start c
  | None =>
      match Controller.init o (Z.shiftr CACHE_SIZE 12) (Z.shiftr MEM_SIZE 12) new_ctrlr with
      | Ret _ c => start c
      | Exit code c => Exit code (mkCxl (Some c) (bump_off s))
      | Trap c => Trap (mkCxl (Some c) (bump_off s))
      end
  end.

Definition flush_caches : cmd cxl unit := λ s,
  match the_ctrlr s with
  | Some c =>
      match flush_cache o env fuel c with
      | Ret _ c => Ret tt (mkCxl (Some c) (bump_off s))
      | Exit code c => Exit code (mkCxl (Some c) (bump_off s))
      | Trap c => Trap (mkCxl (Some c) (bump_off s))
      end
  | None => Ret tt s
  end.
End Ops.
End Cxl.

(** ** libvramfs: the same tables over video memory *)

Section Vram.
Context {M : Type} (vram_malloc : Z → cmd M Z).

Definition vram_get_free_fd : cmd (fs M) Z := get_free_fd.
Definition vram_fd_exists (fd : Z) (s : fs M) : bool := fd_exists fd s.
Definition vram_create_fd (pathname_str : string) : cmd (fs M) Z := create_fd pathname_str.
Definition vram_lseek (fd offset whence : Z) : cmd (fs M) Z := lseek vram_malloc fd offset whence.
Definition vram_open (pathname : string) : cmd (fs M) Z := open pathname.
Definition vram_mmap (length flags fd offset : Z) : cmd (fs M) Z := mmap length flags fd offset.
End Vram.

(** ** What the tables rely on *)

Definition apart (r1 r2 : Z * Z) : Prop :=
  r1.1 + r1.2 ≤ r2.1 ∨ r2.1 + r2.2 ≤ r1.1.

(** [owned a rs]: the arena [a] has given out the ranges [rs].  [room a n]: it has
    [n] bytes left. *)
Class Arena {M : Type} (malloc : Z → cmd M Z) (owned : M → list (Z * Z) → Prop)
    (room : M → Z → Prop) : Prop := {
  arena_perm a rs rs' : rs ≡ₚ rs' → owned a rs → owned a rs';
  arena_apart a r1 r2 rs : owned a (r1 :: r2 :: rs) → apart r1 r2;
  arena_in a r rs : owned a (r :: rs) → 0 ≤ r.1 ∧ r.1 + r.2 < 2 ^ 64;
  arena_malloc a rs n : owned a rs → room a n → 0 < n →
    ∃ p a', malloc n a = Ret p a' ∧ owned a' ((p, n) :: rs);
}.

(** ** Free descriptors *)

Lemma next_free_fd_none fuel t r :
  next_free_fd fuel t r = None → ∀ i : nat, (i < fuel)%nat → is_Some (t !! (r + Z.of_nat i)).
Proof.
  revert r. induction fuel as [|fuel IH]; simpl; intros r H i Hi; [lia|].
  destruct (t !! r) eqn:E; [|done]. destruct i as [|i].
  - rewrite Z.add_0_r. by eexists.
  - replace (r + Z.of_nat (S i)) with (r + 1 + Z.of_nat i) by lia. apply IH; [done|lia].
Qed.

Lemma next_free_fd_some fuel t r fd :
  next_free_fd fuel t r = Some fd → r ≤ fd ∧ t !! fd = None ∧ ∀ i, r ≤ i < fd → is_Some (t !! i).
Proof.
  revert r. induction fuel as [|fuel IH]; simpl; intros r H; [done|].
  destruct (t !! r) eqn:E.
  - destruct (IH _ H) as (H1 & H2 & H3). split_and!; [lia|done|]. intros i Hi.
    destruct (decide (i = r)) as [->|]; [by eexists|]. apply H3. lia.
  - injection H as <-. split_and!; [lia|done|lia].
Qed.

Lemma next_free_fd_total (t : gmap Z string) r : is_Some (next_free_fd (S (size t)) t r).
Proof.
  destruct (next_free_fd _ t r) eqn:E; [by eexists|]. exfalso.
  pose proof (next_free_fd_none _ _ _ E) as Hall.
  assert (list_to_set (C := gset Z) (seqZ r (Z.of_nat (S (size t)))) ⊆ dom t) as Hsub.
  { intros x Hx. apply elem_of_list_to_set, elem_of_seqZ in Hx. apply elem_of_dom.
    replace x with (r + Z.of_nat (Z.to_nat (x - r))) by lia. apply Hall. lia. }
  apply subseteq_size in Hsub. rewrite size_dom, size_list_to_set in Hsub by apply NoDup_seqZ.
  rewrite length_seqZ in Hsub. lia.
Qed.

(** The lowest descriptor that is not in use. *)
Lemma get_free_fd_spec {M} (s : fs M) :
  ∃ fd, get_free_fd s = Ret fd s ∧ 1 ≤ fd ∧ fd_to_path s !! fd = None
    ∧ ∀ i, 1 ≤ i < fd → is_Some (fd_to_path s !! i).
Proof.
  unfold get_free_fd. destruct (next_free_fd_total (fd_to_path s) 1) as [fd E]. rewrite E.
  exists fd. split; [done|]. by apply next_free_fd_some in E.
Qed.

(** ** Invariant *)

Section Inv.
Context {M : Type} {malloc : Z → cmd M Z} {owned : M → list (Z * Z) → Prop} {room : M → Z → Prop}.
Context `{!Arena malloc owned room}.
Implicit Types s : fs M.

Record tables_ok (s : fs M) : Prop := {
  to_inv path fd : path_to_fd s !! path = Some fd ↔ fd_to_path s !! fd = Some path;
  to_dom fd : is_Some (fd_desc s !! fd) ↔ is_Some (fd_to_path s !! fd);
  to_pos fd : is_Some (fd_to_path s !! fd) → 1 ≤ fd;
  to_desc fd d : fd_desc s !! fd = Some d → fd_id d = fd ∧ va_alloc_off d = 0 ∧ 0 ≤ len d;
}.

(** The ranges of the files that have a length. *)
Definition ranges (ds : gmap Z fd_desc_t) : list (Z * Z) :=
  (λ d, (region d, len d)) <$> filter (λ d, len d ≠ 0) (snd <$> map_to_list ds).

Record fs_ok (s : fs M) : Prop := {
  ok_tables : tables_ok s;
  ok_arena : owned (arena s) (ranges (fd_desc s));
}.

Lemma ranges_insert ds fd d :
  ranges (<[fd := d]> ds)
  ≡ₚ (if decide (len d ≠ 0) then [(region d, len d)] else []) ++ ranges (delete fd ds).
Proof.
  unfold ranges. rewrite <-insert_delete_eq. rewrite map_to_list_insert by apply lookup_delete_eq.
  rewrite fmap_cons, filter_cons. simpl. by destruct (decide (len d ≠ 0)).
Qed.

Lemma ranges_lookup ds fd d :
  ds !! fd = Some d →
  ranges ds ≡ₚ (if decide (len d ≠ 0) then [(region d, len d)] else []) ++ ranges (delete fd ds).
Proof. intros E. rewrite <-(insert_id ds fd d E) at 1. apply ranges_insert. Qed.

(** A descriptor without a length does not count. *)
Lemma ranges_empty ds fd d :
  (∀ d0, ds !! fd = Some d0 → len d0 = 0) → len d = 0 → ranges (<[fd := d]> ds) ≡ₚ ranges ds.
Proof.
  intros H0 Hd. rewrite ranges_insert, decide_False by lia. simpl.
  destruct (ds !! fd) as [d0|] eqn:E.
  - rewrite (ranges_lookup ds fd d0 E), decide_False; [done|]. rewrite (H0 d0); [tauto|done].
  - by rewrite delete_id.
Qed.

Lemma fd_exists_true fd s : fd_exists fd s = true ↔ ∃ d, fd_desc s !! fd = Some d.
Proof. unfold fd_exists. apply bool_decide_eq_true. Qed.

Lemma fd_exists_eq fd s :
  fd_exists fd s = match fd_desc s !! fd with Some _ => true | None => false end.
Proof.
  unfold fd_exists. destruct (fd_desc s !! fd); [by apply bool_decide_eq_true|].
  apply bool_decide_eq_false. by intros [].
Qed.

(** Changing a descriptor keeps the tables. *)
Lemma tables_ok_set fd d d0 s :
  tables_ok s → fd_desc s !! fd = Some d0 → fd_id d = fd → va_alloc_off d = 0 → 0 ≤ len d →
  tables_ok (set_desc fd d s).
Proof.
  intros [H1 H2 H3 H4] E Ei Ev El. split; simpl; try done.
  - intros fd'. destruct (decide (fd' = fd)) as [->|].
    + rewrite lookup_insert_eq, <-H2, E. split; intros _; by eexists.
    + by rewrite lookup_insert_ne by done.
  - intros fd' d'. destruct (decide (fd' = fd)) as [->|].
    + rewrite lookup_insert_eq. by intros [= <-].
    + rewrite lookup_insert_ne by done. apply H4.
Qed.

(** *** open *)

Lemma create_fd_ok path s :
  fs_ok s → path_to_fd s !! path = None →
  ∃ fd s', create_fd path s = Ret fd s' ∧ fs_ok s' ∧ path_to_fd s' !! path = Some fd
    ∧ fd_desc s' !! fd = Some (mkDesc fd 0 0 0 0) ∧ fd_desc s !! fd = None
    ∧ (∀ fd', fd' ≠ fd → fd_desc s' !! fd' = fd_desc s !! fd').
Proof.
  intros [[H1 H2 H3 H4] Ho] Hp. destruct (get_free_fd_spec s) as (fd & E & Hfd & Hfree & _).
  assert (fd_desc s !! fd = None) as Hd.
  { apply eq_None_not_Some. rewrite H2. rewrite Hfree. by intros []. }
  eexists fd, _. split; [unfold create_fd, bind; rewrite E; reflexivity|]. simpl.
  rewrite !lookup_insert_eq. split_and!; try done; [|intros; by rewrite lookup_insert_ne].
  split; [split; simpl|].
  - intros path' fd'. destruct (decide (path' = path)) as [->|Hpn], (decide (fd' = fd)) as [->|Hfn].
    + by rewrite !lookup_insert_eq.
    + rewrite lookup_insert_eq, lookup_insert_ne by done. rewrite <-H1, Hp. split; congruence.
    + rewrite lookup_insert_eq, lookup_insert_ne by done. rewrite H1, Hfree. split; congruence.
    + rewrite !lookup_insert_ne by done. apply H1.
  - intros fd'. destruct (decide (fd' = fd)) as [->|].
    + rewrite !lookup_insert_eq. split; intros _; by eexists.
    + rewrite !lookup_insert_ne by done. apply H2.
  - intros fd'. destruct (decide (fd' = fd)) as [->|]; [done|].
    rewrite lookup_insert_ne by done. apply H3.
  - intros fd' d'. destruct (decide (fd' = fd)) as [->|].
    + rewrite lookup_insert_eq. by intros [= <-].
    + rewrite lookup_insert_ne by done. apply H4.
  - simpl. apply (arena_perm _ (ranges (fd_desc s))); [|done]. symmetry.
    apply ranges_empty; [|done]. by rewrite Hd.
Qed.

Lemma open_ok path s :
  fs_ok s → ∃ fd s', open path s = Ret fd s' ∧ fs_ok s' ∧ path_to_fd s' !! path = Some fd
    ∧ is_Some (fd_desc s' !! fd) ∧ (path_to_fd s !! path = Some fd → s' = s).
Proof.
  intros Hok. unfold open, bind, get. destruct (path_to_fd s !! path) as [fd|] eqn:E.
  - exists fd, s. split_and!; try done. apply (to_dom _ (ok_tables _ Hok)).
    apply (to_inv _ (ok_tables _ Hok)) in E. by eexists.
  - destruct (create_fd_ok path s Hok E) as (fd & s' & Hrun & Hok' & Hp & Hd & _).
    exists fd, s'. by split_and!.
Qed.

(** *** lseek *)

(** The outcome of lseek on each branch, when the arena has room. *)
Lemma lseek_ok fd offset whence s :
  fs_ok s → room (arena s) (wrap64 offset) →
  match fd_desc s !! fd with
  | None => lseek malloc fd offset whence s = Ret (-1) (set_errno EBADF s)
  | Some d =>
      if negb (whence =? SEEK_SET) then lseek malloc fd offset whence s = Ret (-1) (set_errno ENOSYS s)
      else if negb (len d =? 0) then ∃ s', lseek malloc fd offset whence s = Trap s'
      else ∃ s' d', lseek malloc fd offset whence s = Ret offset s' ∧ fs_ok s'
             ∧ fd_desc s' !! fd = Some d' ∧ len d' = wrap64 offset ∧ seek d' = offset
  end.
Proof.
  intros Hok Hroom. unfold lseek, bind, get, modify, ret, nvsl_assert, desc_of, trap.
  destruct (fd_desc s !! fd) as [d|] eqn:E.
  2: { by rewrite (fd_exists_eq fd s), E. }
  rewrite (fd_exists_eq fd s), E. simpl.
  destruct (whence =? SEEK_SET); [|done]. simpl. rewrite E. destruct (len d =? 0) eqn:El; simpl; [|by eexists].
  apply Z.eqb_eq in El. pose proof (wrap_range 64 offset ltac:(lia)) as Hr.
  destruct (to_desc _ (ok_tables _ Hok) _ _ E) as (Ei & Ev & _).
  destruct (len d <? wrap64 offset) eqn:Ew.
  - destruct (arena_malloc (arena s) (ranges (fd_desc s)) (wrap64 offset) (ok_arena _ Hok) Hroom)
      as (p & a' & Hm & Hown); [lia|].
    unfold on_arena. cbn [arena set_desc]. rewrite Hm. fold (set_desc (M := M)).
    assert (∀ d1 d2 d3, set_desc fd d3 (set_arena a' (set_desc fd d2 (set_desc fd d1 s)))
      = set_desc fd d3 (set_arena a' s)) as Hs.
    { intros. unfold set_desc, set_arena. simpl. by rewrite !insert_insert_eq. }
    eexists _, _. split; [rewrite Hs; reflexivity|]. simpl.
    rewrite lookup_insert_eq. split_and!; try done. split; simpl.
    + apply (tables_ok_set fd _ d); simpl; try done; [|lia]. by destruct Hok as [[] _].
    + eapply arena_perm; [|exact Hown].
      rewrite ranges_insert. simpl. rewrite decide_True by lia.
      rewrite (ranges_lookup _ fd d E), decide_False by lia. done.
  - eexists _, _. split; [reflexivity|]. simpl. rewrite lookup_insert_eq.
    split_and!; [|reflexivity|simpl; lia|done]. split.
    + apply (tables_ok_set fd _ d); simpl; try done; [apply Hok|lia].
    + simpl. eapply arena_perm; [|apply (ok_arena _ Hok)]. symmetry.
      apply ranges_empty; simpl; [|done]. intros d0. rewrite E. by intros [= <-].
Qed.

(** *** mmap *)

(** mmap succeeds exactly on a file that is long enough, with neither of the
    refused flags, and then gives the start of the file; otherwise it sets the
    error. *)
Lemma mmap_ok length flags fd offset s :
  fs_ok s →
  ∃ r e, mmap length flags fd offset s = Ret r (if decide (e = 0) then s else set_errno e s)
    ∧ (e = 0 → ∃ d, fd_desc s !! fd = Some d ∧ wrap64 (length + offset) ≤ len d ∧ r = wrap64 (region d))
    ∧ (e ≠ 0 → r = MAP_FAILED).
Proof.
  intros Hok. unfold mmap, bind, get, modify, ret, desc_of.
  destruct (fd_exists fd s) eqn:E; simpl; [|by exists MAP_FAILED, EBADF].
  destruct (_ || _); [by exists MAP_FAILED, ENOTSUP|].
  destruct (_ || _); [by exists MAP_FAILED, ENOTSUP|].
  apply fd_exists_true in E as [d E]. rewrite E.
  destruct (len d <? wrap64 (length + offset)) eqn:El; [by exists MAP_FAILED, EINVAL|].
  eexists _, 0. split; [reflexivity|]. split; [|done]. intros _. exists d.
  destruct (to_desc _ (ok_tables _ Hok) _ _ E) as (_ & -> & _). rewrite Z.add_0_r. split_and!; [done|lia|done].
Qed.

(** ** Reachable states *)

Inductive step (s : fs M) : fs M → Prop :=
| step_open path fd s' : open path s = Ret fd s' → step s s'
| step_lseek fd offset whence r s' :
    room (arena s) (wrap64 offset) → lseek malloc fd offset whence s = Ret r s' → step s s'
| step_mmap length flags fd offset r s' : mmap length flags fd offset s = Ret r s' → step s s'.

Definition fs_init (a : M) : fs M := mkFs ∅ ∅ ∅ 0 a.
Definition reachable (a : M) (s : fs M) : Prop := rtc step (fs_init a) s.

Lemma fs_ok_errno e s : fs_ok s → fs_ok (set_errno e s).
Proof. intros [[] ?]. by split; [split|]. Qed.

Lemma step_fs_ok s s' : fs_ok s → step s s' → fs_ok s'.
Proof.
  intros Hok [path fd s1 Hrun|fd offset whence r s1 Hroom Hrun|length flags fd offset r s1 Hrun].
  - destruct (open_ok path s Hok) as (fd' & s2 & Hrun' & Hok' & _). congruence.
  - pose proof (lseek_ok fd offset whence s Hok Hroom) as H. destruct (fd_desc s !! fd) as [d|].
    + destruct (negb (whence =? SEEK_SET)).
      { rewrite H in Hrun. injection Hrun as _ <-. by apply fs_ok_errno. }
      destruct (negb (len d =? 0)).
      { destruct H as [s2 H]. congruence. }
      destruct H as (s2 & d' & H & Hok' & _). congruence.
    + rewrite H in Hrun. injection Hrun as _ <-. by apply fs_ok_errno.
  - destruct (mmap_ok length flags fd offset s Hok) as (r' & e & H & _). rewrite H in Hrun.
    injection Hrun as _ <-. destruct (decide (e = 0)); [done|]. by apply fs_ok_errno.
Qed.

Lemma init_fs_ok a : owned a [] → fs_ok (fs_init a).
Proof.
  intros Ha. split; [split; simpl|].
  - intros path fd. by rewrite !lookup_empty.
  - intros fd. rewrite !lookup_empty. split; intros []; done.
  - intros fd. rewrite lookup_empty. by intros [].
  - intros fd d. by rewrite lookup_empty.
  - unfold ranges. simpl. by rewrite map_to_list_empty.
Qed.

Lemma reachable_fs_ok a s : owned a [] → reachable a s → fs_ok s.
Proof.
  intros Ha. unfold reachable. intros Hr. apply init_fs_ok in Ha. revert Ha.
  induction Hr as [|x y z Hxy Hyz IH]; intros Ha; [done|]. apply IH. by eapply step_fs_ok.
Qed.

(** Two files with a length do not overlap. *)
Lemma files_apart s fd1 fd2 d1 d2 :
  fs_ok s → fd1 ≠ fd2 → fd_desc s !! fd1 = Some d1 → fd_desc s !! fd2 = Some d2 →
  len d1 ≠ 0 → len d2 ≠ 0 → apart (region d1, len d1) (region d2, len d2).
Proof.
  intros Hok Hne E1 E2 L1 L2. eapply (arena_apart (arena s)).
  eapply arena_perm; [|apply (ok_arena _ Hok)].
  rewrite (ranges_lookup _ fd1 d1 E1), decide_True by done. simpl.
  rewrite (ranges_lookup _ fd2 d2); [|by rewrite lookup_delete_ne].
  rewrite decide_True by done. simpl. reflexivity.
Qed.

Lemma file_in_range s fd d :
  fs_ok s → fd_desc s !! fd = Some d → len d ≠ 0 → 0 ≤ region d ∧ region d + len d < 2 ^ 64.
Proof.
  intros Hok E L. apply (arena_in (arena s) (region d, len d) (ranges (delete fd (fd_desc s)))).
  eapply arena_perm; [|apply (ok_arena _ Hok)]. rewrite (ranges_lookup _ fd d E), decide_True by done.
  reflexivity.
Qed.

(** A mapping that mmap returned lies in its file. *)
Lemma mmap_in_file length flags fd offset s p s' :
  fs_ok s → 0 < length → 0 ≤ offset → length + offset < 2 ^ 64 →
  mmap length flags fd offset s = Ret p s' → p ≠ MAP_FAILED →
  ∃ d, fd_desc s !! fd = Some d ∧ p = region d ∧ length ≤ len d ∧ len d ≠ 0.
Proof.
  intros Hok Hl Ho Hlo Hrun Hp. destruct (mmap_ok length flags fd offset s Hok) as (r & e & H & H0 & H1).
  rewrite H in Hrun. injection Hrun as <- _. destruct (decide (e = 0)) as [->|He]; [|by specialize (H1 He)].
  destruct (H0 eq_refl) as (d & E & Hd & ->). rewrite wrap_small in Hd by lia.
  destruct (file_in_range s fd d Hok E) as [Hr1 Hr2]; [lia|]. exists d.
  destruct (to_desc _ (ok_tables _ Hok) _ _ E) as (_ & _ & ?).
  split_and!; [done|apply wrap_small; lia|lia|lia].
Qed.

(** open gives each path a descriptor of its own: in every reachable state it
    returns, with a descriptor of at least 1 that exists afterwards; opening the
    same path again returns the same descriptor and changes nothing; and no other
    path has that descriptor. *)
Theorem open_names_files a s path :
  owned a [] → reachable a s →
  ∃ fd s', open path s = Ret fd s' ∧ 1 ≤ fd ∧ fd_exists fd s' = true
    ∧ open path s' = Ret fd s' ∧ ∀ path', path_to_fd s' !! path' = Some fd → path' = path.
Proof.
  intros Ha Hr. pose proof (reachable_fs_ok a s Ha Hr) as Hok.
  destruct (open_ok path s Hok) as (fd & s' & Hrun & Hok' & Hp & Hd & _). exists fd, s'.
  destruct (ok_tables _ Hok') as [H1 H2 H3 H4]. split_and!; try done.
  - apply H3. by apply H2.
  - by apply fd_exists_true.
  - unfold open, bind, get. by rewrite Hp.
  - intros path' Hp'. apply H1 in Hp, Hp'. congruence.
Qed.

End Inv.

(** ** The arena of libcxlfs *)

Module CxlArena.
Import Cxl.

#[export] Instance apart_sym : Symmetric apart.
Proof. intros r1 r2 [?|?]; [by right|by left]. Qed.

Lemma pairs_perm {A} (R : A → A → Prop) `{!Symmetric R} l l' :
  l ≡ₚ l' → List.ForallOrdPairs R l → List.ForallOrdPairs R l'.
Proof.
  induction 1 as [|x l l' Hp IH|x y l|l1 l2 l3 H1 IH1 H2 IH2]; intros H; [done|..|by auto].
  - inversion H as [|? ? Hx Hl]; subst. constructor; [by rewrite <-Hp|by apply IH].
  - inversion H as [|? ? Hy Hl]; subst. inversion Hl as [|? ? Hx Hl']; subst.
    apply Forall_cons in Hy as [Hyx Hy]. repeat constructor; try done.
Qed.

(** The ranges given out lie between the start of the region, [B], and the bump
    pointer. *)
Record owned_from (B : Z) (s : cxl) (rs : list (Z * Z)) : Prop := {
  of_ctrlr : match the_ctrlr s with Some c => shm_start c = B | None => rs = [] ∧ bump_off s = 0 end;
  of_base : 0 ≤ B ∧ B + MEM_SIZE < 2 ^ 64;
  of_bump : 0 ≤ bump_off s ≤ MEM_SIZE;
  of_in : Forall (λ r, B ≤ r.1 ∧ 0 ≤ r.2 ∧ r.1 + r.2 ≤ B + bump_off s) rs;
  of_apart : List.ForallOrdPairs apart rs;
}.

Definition owned (s : cxl) (rs : list (Z * Z)) : Prop := ∃ B, owned_from B s rs.
(** Nothing in the code tests this. *)
Definition room (s : cxl) (n : Z) : Prop := bump_off s + n ≤ MEM_SIZE.

Section Law.
Context (o : os) (new_ctrlr : ctrlr).
Context (Hnew : shm_start new_ctrlr = 0).
Context (Hmap : 0 ≤ mmap_result o 0 MEM_SIZE ∧ mmap_result o 0 MEM_SIZE + MEM_SIZE < 2 ^ 64).

Lemma init_returns :
  ∃ rc c, Controller.init o (Z.shiftr CACHE_SIZE 12) (Z.shiftr MEM_SIZE 12) new_ctrlr = Ret rc c
    ∧ shm_start c = mmap_result o 0 MEM_SIZE.
Proof.
  unfold Controller.init, bind, modify, get, ret. cbn [shm_start set_sizes set_faults set_mapped]. rewrite Hnew.
  change (Z.shiftr MEM_SIZE 12 * page_size) with MEM_SIZE. rewrite (proj2 (Z.eqb_neq _ (-1))) by lia.
  change (negb (0 =? 0) && _) with false. cbv iota.
  destruct (mprotect_rc o (-1) =? -1); [by eexists _, _|].
  destruct (move_rc o =? -1); [by eexists _, _|].
  destruct (monitor_thread_running _); [by eexists _, _|].
  destruct (pthread_rc o =? -1); by eexists _, _.
Qed.

(** The new range starts at the bump pointer. *)
Lemma bump_owned B s rs c n :
  owned_from B s rs → shm_start c = B → bump_off s + n ≤ MEM_SIZE → 0 < n →
  wrap64 (shm_start c + bump_off s) = B + bump_off s
  ∧ owned_from B (mkCxl (Some c) (wrap64 (bump_off s + n))) ((B + bump_off s, n) :: rs).
Proof.
  intros [H1 H2 H3 H4 H5] <- Hn Hp. rewrite !wrap_small by lia. split; [done|].
  split; simpl; try done; [lia|..].
  - constructor; [simpl; lia|]. eapply Forall_impl; [exact H4|]. simpl. lia.
  - constructor; [|done]. eapply Forall_impl; [exact H4|]. unfold apart. simpl. lia.
Qed.

#[export] Instance cxl_arena : Arena (malloc o new_ctrlr) owned room.
Proof.
  split.
  - intros s rs rs' Hp [B [H1 H2 H3 H4 H5]]. exists B. split; try done.
    + destruct (the_ctrlr s); [done|]. destruct H1 as [-> ?]. by apply Permutation_nil in Hp.
    + by rewrite <-Hp.
    + eapply pairs_perm; [exact _|exact Hp|done].
  - intros s r1 r2 rs [B H]. pose proof (of_apart _ _ _ H) as Hp.
    inversion Hp as [|? ? Hf]; subst. by inversion Hf.
  - intros s r rs [B [H1 H2 H3 H4 H5]]. inversion H4; subst. lia.
  - intros s rs n [B H] Hroom Hn. unfold malloc. pose proof H as [H1 H2 H3 H4 H5].
    destruct (the_ctrlr s) as [c|] eqn:Ec.
    + destruct (bump_owned B s rs c n H H1 Hroom Hn) as [E Ho]. rewrite E. eexists _, _.
      split; [reflexivity|by exists B].
    + destruct init_returns as (rc & c & E & Hs). rewrite E. destruct H1 as [-> Hb].
      assert (owned_from (shm_start c) s []) as H'.
      { split; try done; [by rewrite Ec|by rewrite Hs]. }
      destruct (bump_owned _ s [] c n H' eq_refl Hroom Hn) as [E' Ho]. rewrite E'.
      eexists _, _. split; [reflexivity|by exists (shm_start c)].
Qed.
End Law.
End CxlArena.

(** ** Two files *)

Module DemoFs.
Import Cxl CxlArena.

Definition node0 : os :=
  mkOs (λ _, []) (λ _, 0) (λ _, 0) (λ _, 0) (λ _ _, 0x7f0000000000) 0 0 [].
Definition ctrlr0 : ctrlr :=
  mkCtrlr 2 65536 0 0 [] [] 0 [] 0 100 [] false (λ _, []) (λ _, false)
    (mkDev 0 [] [] None [] (λ _, []) [] (λ _ _, 0) 0 []).
Definition arena0 : cxl := mkCxl None 0.

#[local] Instance demo_arena : Arena (malloc node0 ctrlr0) owned room.
Proof. apply cxl_arena; [reflexivity|vm_compute; split; [discriminate|reflexivity]]. Qed.

Lemma arena0_owned : owned arena0 [].
Proof.
  exists 0. split; simpl; try done; try constructor; vm_compute; try discriminate; reflexivity.
Qed.

Definition s0 : fs cxl := fs_init arena0.
Definition s1 : fs cxl := state_of (open "/a" s0).
Definition s2 : fs cxl := state_of (lseek (malloc node0 ctrlr0) 1 8192 0 s1).
Definition s3 : fs cxl := state_of (open "/b" s2).
Definition s4 : fs cxl := state_of (lseek (malloc node0 ctrlr0) 2 4096 0 s3).

Lemma s4_reachable : reachable (malloc := malloc node0 ctrlr0) (room := room) arena0 s4.
Proof.
  eapply rtc_l; [apply (step_open s0 "/a" 1); vm_compute; reflexivity|].
  eapply rtc_l; [apply (step_lseek s1 1 8192 0 8192); [vm_compute; discriminate|vm_compute; reflexivity]|].
  eapply rtc_l; [apply (step_open s2 "/b" 2); vm_compute; reflexivity|].
  eapply rtc_l; [apply (step_lseek s3 2 4096 0 4096); [vm_compute; discriminate|vm_compute; reflexivity]|].
  apply rtc_refl.
Qed.

Lemma open_names_files_witness :
  ∃ fd s', open "/c" s4 = Ret fd s' ∧ 1 ≤ fd ∧ fd_exists fd s' = true
    ∧ open "/c" s' = Ret fd s' ∧ ∀ path', path_to_fd s' !! path' = Some fd → path' = "/c"%string.
Proof. apply (open_names_files arena0 s4 "/c" arena0_owned s4_reachable). Defined.


(** Whatever the offset, mmap returns the start of the file. *)
Fact mmap_ignores_offset : mmap 4096 1 1 4096 s4 = mmap 4096 1 1 0 s4.
Proof. vm_compute. reflexivity. Qed.

(** The sum of length and offset can wrap around, and the test accepts it. *)
Fact mmap_accepts_wrapped_length : mmap (2 ^ 64 - 4096) 1 1 8192 s4 = Ret 0x7f0000000000 s4.
Proof. vm_compute. reflexivity. Qed.

(** A file may be longer than the region. *)
Fact lseek_past_region :
  ∃ s, lseek (malloc node0 ctrlr0) 3 (2 * MEM_SIZE) 0 (state_of (open "/c" s4)) = Ret (2 * MEM_SIZE) s.
Proof. eexists. vm_compute. reflexivity. Qed.
End DemoFs.
