(* ===== verification/Queues.v ===== *)
(** * The job queues of the helper threads (libstoreinst/bgflush.cc,
      libdsaemu/libdsaemu.cc)

    Two rings without a lock: the background flusher of the store library and the
    emulation of the DSA copy engine.  A producer fills a slot and moves an index;
    a thread polls the indices and serves a slot.  The turns of the threads are
    interleaved in any order, each turn as one step. *)

From stdpp Require Import base list relations.
From Stdlib Require Import ZArith Lia.
From S2P Require Import Prelude Memory PMem.

(** ** Background flush *)

Module Bgflush.

Definition BGF_JOB_QUEUE_MAX_LEN : Z := 128.

Record bgf_job_t := mkJob { addr : Z; bytes : Z }.

(** [calls] are the calls of [pmemops->flush], in order. *)
Record bgf := mkBgf {
  queue_head : Z;
  queue_tail : Z;
  job_queue : list bgf_job_t;
  calls : list bgf_job_t;
}.

(** An access outside the array traps. *)
Definition slot (i : Z) : cmd bgf bgf_job_t := λ s,
  match (if (0 <=? i) && (i <? BGF_JOB_QUEUE_MAX_LEN) then job_queue s !! Z.to_nat i else None) with
  | Some j => Ret j s
  | None => Trap s
  end.

Definition push (entry : bgf_job_t) : cmd bgf unit :=
  let! s := get in
  let! j := slot (queue_tail s) in
  modify (λ s, mkBgf (queue_head s) (wrap64 (queue_tail s + 1))
                 (<[Z.to_nat (queue_tail s) := mkJob (addr entry) (bytes entry)]> (job_queue s)) (calls s)).

(** One turn of the loop of [bgflush_thread]. *)
Definition thread_turn : cmd bgf unit :=
  let! s := get in
  when (negb (queue_head s =? queue_tail s))
    (let! entry := slot (queue_tail s) in
     do! modify (λ s, mkBgf (queue_head s) (queue_tail s) (job_queue s) (calls s ++ [entry])) in
     modify (λ s, mkBgf (wrap64 (queue_head s + 1)) (queue_tail s) (job_queue s) (calls s))).

(** [bgflush_thread] for a number of turns. *)
Fixpoint bgflush_thread (turns : nat) : cmd bgf unit :=
  match turns with
  | O => ret tt
  | S turns => do! thread_turn in bgflush_thread turns
  end.

Definition clear : cmd bgf unit := modify (λ s, mkBgf 0 0 (job_queue s) (calls s)).

(** The thread it creates runs in the steps below. *)
Definition launch : cmd bgf unit := clear.

(** The condition [drain] polls. *)
Definition drained (s : bgf) : bool := queue_head s =? queue_tail s.

(** [drain] returns when a poll finds the queue empty; the turns of the thread run
    between the polls. *)
Fixpoint drain (polls : nat) : cmd bgf unit :=
  match polls with
  | O => trap
  | S polls =>
      let! s := get in
      if drained s then ret tt else do! thread_turn in drain polls
  end.

(** The state of the statics at program start. *)
Definition zero_job : bgf_job_t := mkJob 0 0.
Definition bgf_init : bgf := mkBgf 0 0 (replicate 128 zero_job) [].

Inductive step (s : bgf) : bgf → Prop :=
| step_push j s' : push j s = Ret tt s' → step s s'
| step_turn s' : thread_turn s = Ret tt s' → step s s'.

Definition reachable (s : bgf) : Prop := rtc step (state_of (launch bgf_init)) s.

(** ** Invariant *)

(** The slots from the tail on were never written. *)
Record bgf_ok (s : bgf) : Prop := {
  bo_len : length (job_queue s) = 128%nat;
  bo_head : 0 ≤ queue_head s ≤ queue_tail s;
  bo_tail : queue_tail s ≤ 128;
  bo_zero i j : queue_tail s ≤ Z.of_nat i → job_queue s !! i = Some j → j = zero_job;
  bo_calls : Forall (λ c, c = zero_job) (calls s);
}.

Lemma slot_spec i s :
  length (job_queue s) = 128%nat → 0 ≤ i →
  slot i s = if i <? 128 then Ret (nth (Z.to_nat i) (job_queue s) zero_job) s else Trap s.
Proof.
  intros Hl Hi. unfold slot, BGF_JOB_QUEUE_MAX_LEN. rewrite (proj2 (Z.leb_le _ _)) by done. simpl.
  destruct (i <? 128) eqn:E; [|done].
  destruct (lookup_lt_is_Some_2 (job_queue s) (Z.to_nat i)) as [j Hj]; [lia|].
  rewrite Hj. f_equal. symmetry. by apply nth_lookup_Some.
Qed.

Lemma push_ok j s :
  bgf_ok s → queue_tail s < 128 →
  ∃ s', push j s = Ret tt s' ∧ bgf_ok s' ∧ queue_tail s' = queue_tail s + 1
    ∧ queue_head s' = queue_head s ∧ job_queue s' = <[Z.to_nat (queue_tail s) := j]> (job_queue s)
    ∧ calls s' = calls s.
Proof.
  intros [Hl Hh Ht Hz Hc] Hlt. unfold push, bind, get. rewrite slot_spec by (done || lia).
  rewrite (proj2 (Z.ltb_lt _ _)) by done. eexists. split; [reflexivity|]. simpl.
  rewrite wrap_small by lia. destruct j as [a n]. split_and!; try done.
  split; simpl; try done; [by rewrite length_insert|lia..|].
  intros i j Hi. rewrite list_lookup_insert_ne by lia.
  apply Hz. lia.
Qed.

Lemma push_full j s : bgf_ok s → queue_tail s = 128 → push j s = Trap s.
Proof. intros [Hl] Ht. unfold push, bind, get. by rewrite slot_spec, Ht by (done || lia). Qed.

Lemma turn_ok s :
  bgf_ok s → queue_tail s < 128 →
  ∃ s', thread_turn s = Ret tt s' ∧ bgf_ok s' ∧ queue_tail s' = queue_tail s
    ∧ job_queue s' = job_queue s
    ∧ (queue_head s < queue_tail s → queue_head s' = queue_head s + 1)
    ∧ (queue_head s = queue_tail s → s' = s).
Proof.
  intros [Hl Hh Ht Hz Hc] Hlt. unfold thread_turn, bind, get, when.
  destruct (queue_head s =? queue_tail s) eqn:E; simpl.
  - exists s. split_and!; try done. lia.
  - rewrite slot_spec by (done || lia). rewrite (proj2 (Z.ltb_lt _ _)) by done.
    eexists. split; [reflexivity|]. simpl. split_and!; try done; [|intros; apply wrap_small; lia|lia].
    split; simpl; try done; [rewrite wrap_small by lia; lia|].
    apply Forall_app. split; [done|]. apply Forall_singleton. apply (Hz (Z.to_nat (queue_tail s))); [lia|].
    destruct (nth_lookup_or_length (job_queue s) (Z.to_nat (queue_tail s)) zero_job); [done|lia].
Qed.

(** With a full queue the thread reads behind the array. *)
Lemma turn_full s : bgf_ok s → queue_tail s = 128 → queue_head s < 128 → thread_turn s = Trap s.
Proof.
  intros [Hl] Ht Hh. unfold thread_turn, bind, get, when. rewrite (proj2 (Z.eqb_neq _ _)) by lia.
  simpl. by rewrite slot_spec, Ht by (done || lia).
Qed.

Lemma step_ok s s' : bgf_ok s → step s s' → bgf_ok s'.
Proof.
  intros Hok Hst. destruct (decide (queue_tail s = 128)) as [Ht|Ht].
  - destruct Hst as [j s' Hrun|s' Hrun].
    + by rewrite push_full in Hrun.
    + destruct (decide (queue_head s = 128)) as [Hh|Hh].
      * unfold thread_turn, bind, get, when in Hrun. rewrite (proj2 (Z.eqb_eq _ _)) in Hrun by congruence.
        by injection Hrun as <-.
      * rewrite turn_full in Hrun; [done..|]. pose proof (bo_head _ Hok). lia.
  - assert (queue_tail s < 128) as Hlt by (pose proof (bo_tail _ Hok); lia).
    destruct Hst as [j s' Hrun|s' Hrun].
    + destruct (push_ok j s Hok Hlt) as (s2 & H & Hok' & _). congruence.
    + destruct (turn_ok s Hok Hlt) as (s2 & H & Hok' & _). congruence.
Qed.

Lemma launch_ok : bgf_ok (state_of (launch bgf_init)).
Proof.
  split; simpl; try done; try lia. intros i j _ Hj. by apply (lookup_replicate_1 128) in Hj as [-> _].
Qed.

Lemma reachable_ok s : reachable s → bgf_ok s.
Proof.
  unfold reachable. intros Hr. pose proof launch_ok as Hok. revert Hok.
  induction Hr as [|x y z Hxy Hyz IH]; intros Hok; [done|]. apply IH. by eapply step_ok.
Qed.

Lemma drain_returns polls s :
  bgf_ok s → queue_tail s < 128 → queue_tail s - queue_head s < Z.of_nat polls →
  ∃ s', drain polls s = Ret tt s' ∧ drained s' = true ∧ bgf_ok s'.
Proof.
  revert s. induction polls as [|polls IH]; intros s Hok Ht Hp.
  { pose proof (bo_head _ Hok). lia. }
  cbn [drain]. unfold bind, get. destruct (drained s) eqn:E; [by exists s|].
  destruct (turn_ok s Hok Ht) as (s1 & H & Hok1 & Et & _ & Hadv & _). rewrite H.
  unfold drained in E. apply Z.eqb_neq in E. pose proof (bo_head _ Hok).
  apply IH; [done|lia|]. rewrite Et, Hadv; lia.
Qed.

(** The background thread never flushes a job: it serves the slot at the tail,
    where the next job will go, and not the one at the head.  In every
    interleaving of pushes and turns of the thread, every flush it issues is the
    empty one of a slot that was never filled. *)
Theorem thread_flushes_no_pushed_job s :
  reachable s → Forall (λ c, c = mkJob 0 0) (calls s).
Proof. intros Hr. apply (bo_calls _ (reachable_ok s Hr)). Qed.


(** Two jobs, and a turn of the thread after each. *)
Definition two : bgf :=
  state_of ((do! push (mkJob 4096 64) in do! thread_turn in do! push (mkJob 8192 64) in thread_turn)
    (state_of (launch bgf_init))).

Lemma two_reachable : reachable two.
Proof.
  eapply rtc_l; [apply (step_push _ (mkJob 4096 64)); vm_compute; reflexivity|].
  eapply rtc_l; [apply step_turn; vm_compute; reflexivity|].
  eapply rtc_l; [apply (step_push _ (mkJob 8192 64)); vm_compute; reflexivity|].
  eapply rtc_l; [apply step_turn; vm_compute; reflexivity|]. apply rtc_refl.
Qed.

Lemma thread_flushes_no_pushed_job_witness : Forall (λ c, c = mkJob 0 0) (calls two).
Proof. apply (thread_flushes_no_pushed_job two two_reachable). Defined.


(** Nothing resets the indices: the push behind the last slot writes past the
    array. *)
Fact push_129_overruns :
  ∃ s, for_each (replicate 129 (mkJob 4096 64)) push (state_of (launch bgf_init)) = Trap s.
Proof. eexists. vm_compute. reflexivity. Qed.
End Bgflush.

(** ** DSA emulation *)

Module Dsa.

Definition QSIZE : Z := 1024.
Definition FLUSH : Z := 1.
Definition DRAIN : Z := 2.

Record jobdesc_t := mkDesc { src : Z; dst : Z; bytes : Z; flags : Z }.

Section Dsa.
Context {M : Type} `{PMemLaws M}.

(** [served] are the jobs the loop ran, in order. *)
Record dsa := mkDsa {
  queue_head : Z;
  queue_tail : Z;
  queue : list jobdesc_t;
  dmem : M;
  served : list jobdesc_t;
}.

Definition slot (i : Z) : cmd dsa jobdesc_t := λ s,
  match (if (0 <=? i) && (i <? QSIZE) then queue s !! Z.to_nat i else None) with
  | Some j => Ret j s
  | None => Trap s
  end.

(** What the loop does with a job. *)
Definition run_job (j : jobdesc_t) (m : M) : M :=
  let m := cpu_copy (dst j) (src j) (bytes j) m in
  let m := if Z.land (flags j) FLUSH =? 0 then m else flush (dst j) (bytes j) m in
  if Z.land (flags j) DRAIN =? 0 then m else drain m.

(** One turn of [dsa_logic_loop]. *)
Definition logic_turn : cmd dsa unit :=
  let! s := get in
  when (negb (queue_head s =? queue_tail s))
    (let! current_entry := slot (queue_tail s) in
     do! modify (λ s, mkDsa (queue_head s) (queue_tail s) (queue s) (run_job current_entry (dmem s))
                        (served s ++ [current_entry])) in
     modify (λ s, mkDsa (wrap64 (queue_head s + 1)) (queue_tail s) (queue s) (dmem s) (served s))).

Definition dsa_logic_loop (turns : nat) : cmd dsa unit := for_each (seq 0 turns) (λ _, logic_turn).

(** [libdsaemu_ctor], but for the thread. *)
Definition libdsaemu_ctor : cmd dsa unit := modify (λ s,
  mkDsa 0 0 (replicate 1024 (mkDesc 0 0 0 0)) (dmem s) (served s)).

Definition clear_queue : cmd dsa unit := modify (λ s,
  mkDsa 0 0 (queue s) (dmem s) (served s)).

(** A client's [dsa::queue[dsa::queue_head++] = job]. *)
Definition enqueue (job : jobdesc_t) : cmd dsa unit :=
  let! s := get in
  do! slot (queue_head s) in
  modify (λ s, mkDsa (wrap64 (queue_head s + 1)) (queue_tail s)
                 (<[Z.to_nat (queue_head s) := job]> (queue s)) (dmem s) (served s)).

Inductive step (s : dsa) : dsa → Prop :=
| step_enqueue j s' : enqueue j s = Ret tt s' → step s s'
| step_turn s' : logic_turn s = Ret tt s' → step s s'.

(** Once a first job [j] is in, the tail stays and the slot at the tail keeps it. *)
Record stuck (j : jobdesc_t) (n : nat) (s : dsa) : Prop := {
  st_head : 1 ≤ queue_head s ≤ 1 + Z.of_nat n;
  st_tail : queue_tail s = 0;
  st_slot : queue s !! 0%nat = Some j;
  st_served : Forall (λ c, c = j) (served s);
}.

Lemma stuck_step j n s s' :
  stuck j n s → Z.of_nat n + 2 < 2 ^ 64 → step s s' → stuck j (S n) s'.
Proof.
  intros [Hh Ht Hs Hv] Hn [k s1 Hrun|s1 Hrun].
  - unfold enqueue, bind, get, slot in Hrun.
    destruct (if (0 <=? _) && _ then _ else _); [|done]. injection Hrun as <-.
    split; simpl; try done; [rewrite wrap_small by lia; lia|].
    by rewrite list_lookup_insert_ne by lia.
  - unfold logic_turn, bind, get, when, slot in Hrun. rewrite Ht in Hrun.
    rewrite (proj2 (Z.eqb_neq _ _)) in Hrun by lia.
    change ((0 <=? 0) && (0 <? QSIZE)) with true in Hrun. cbv iota in Hrun.
    change (Z.to_nat 0) with 0%nat in Hrun. cbn [negb] in Hrun. rewrite Hs in Hrun.
    injection Hrun as <-. split; simpl; try done; [rewrite wrap_small by lia; lia|].
    apply Forall_app. by split; [|constructor].
Qed.

(** The engine moves the index of the producer and not its own: after the first
    job every turn runs that job again, whatever is queued behind it. *)
Theorem only_first_job_served j n s s' :
  stuck j 0 s → nsteps step n s s' → Z.of_nat n + 2 < 2 ^ 64 →
  Forall (λ c, c = j) (served s') ∧ queue_head s' ≠ queue_tail s'.
Proof.
  intros Hs Hn Hb. assert (stuck j n s') as [Hh Ht _ Hv]; [|split; [done|lia]].
  assert (∀ k, stuck j k s → Z.of_nat (k + n) + 2 < 2 ^ 64 → stuck j (k + n) s') as Hgen.
  { clear Hs Hb. induction Hn as [|n x y z Hxy Hyz IH]; intros k Hk Hb; [by rewrite Nat.add_0_r|].
    replace (k + S n)%nat with (S k + n)%nat by lia. apply IH; [|lia].
    eapply stuck_step; [done|lia|done]. }
  apply (Hgen 0%nat Hs). lia.
Qed.
End Dsa.
Arguments dsa : clear implicits.
End Dsa.
