(* ===== verification/Vector.v ===== *)
(** * The vector of the containers (include/container/vector.hh)

    A vector is three words and a block of the reservoir.  What the template does
    with an element depends on its type: [elem_ops] has the answers of the
    concepts [hasInit], [hasMoveInit], [canMemcpyPuddles] and of
    [std::is_trivial], with the functions behind them.  The theorems relate a
    vector to the list of its elements. *)

From stdpp Require Import base list gmap.
From Stdlib Require Import ZArith Lia.
From S2P Require Import Prelude.

(** ** State *)

Record vector := mkVec { _size : Z; content : Z; capacity : Z }.

(** The blocks of the reservoir that hold elements of type [T]. *)
Abbreviation blocks T := (gmap Z (list T)).

(** The element type: [init] makes a copy of an element in a new place, [move]
    also says what is left in the old one. *)
Record elem_ops (T : Type) := mkElem {
  is_trivial : bool;
  can_memcpy : bool;
  init_copy : option (T → cmd (blocks T) T);
  init_move : option (T → cmd (blocks T) (T * T));
}.
Arguments is_trivial {T}.
Arguments can_memcpy {T}.
Arguments init_copy {T}.
Arguments init_move {T}.

Section Vector.
Context {T : Type} (ops : elem_ops T).
(** The allocator: where the next block goes, and what is in it. *)
Context (fresh : blocks T → Z) (raw : blocks T → nat → list T).

Definition malloc (n : Z) : cmd (blocks T) Z := λ h,
  Ret (fresh h) (<[fresh h := raw h (Z.to_nat n)]> h).
Definition free (p : Z) : cmd (blocks T) unit := λ h,
  match h !! p with Some _ => Ret tt (delete p h) | None => Trap h end.

(** [p[i]], and a store to it; outside the block both trap. *)
Definition load (p i : Z) : cmd (blocks T) T := λ h,
  match (if 0 <=? i then match h !! p with Some l => l !! Z.to_nat i | None => None end else None) with
  | Some x => Ret x h
  | None => Trap h
  end.
Definition store (p i : Z) (x : T) : cmd (blocks T) unit := λ h,
  match h !! p with
  | Some l =>
      if (0 <=? i) && (i <? Z.of_nat (length l)) then Ret tt (<[p := <[Z.to_nat i := x]> l]> h) else Trap h
  | None => Trap h
  end.

(** [memcpy] of [n] elements; of none it does not look at the pointers. *)
Definition memcpy (d s n : Z) : cmd (blocks T) unit :=
  for_each (seqZ 0 n) (λ i, let! x := load s i in store d i x).

(** ** Methods *)

Definition vector_ctor : vector := mkVec 0 0 0.

Definition init : cmd (blocks T) vector :=
  let! p := malloc 2 in ret (mkVec 0 p 2).

(** One element of the loop of [resize]. *)
Definition relocate (d s i : Z) : cmd (blocks T) unit :=
  let! x := load s i in
  match init_move ops, init_copy ops with
  | Some mv, _ => let! xy := mv x in do! store d i xy.1 in store s i xy.2
  | None, Some cp => let! y := cp x in store d i y
  | None, None => store d i x
  end.

Definition resize (v : vector) : cmd (blocks T) vector :=
  let new_capacity := if capacity v =? 0 then 2 else wrap64 (capacity v * 2) in
  let! tmp_content := malloc new_capacity in
  do! (if is_trivial ops || can_memcpy ops then memcpy tmp_content (content v) (capacity v)
       else for_each (seqZ 0 (capacity v)) (relocate tmp_content (content v))) in
  do! when (negb (content v =? 0)) (free (content v)) in
  ret (mkVec (_size v) tmp_content new_capacity).

Definition grow (v : vector) : cmd (blocks T) vector :=
  if _size v =? capacity v then resize v else ret v.

Definition push_back (v : vector) (new_elem : T) : cmd (blocks T) vector :=
  let! v := grow v in
  let! x := (match init_copy ops with Some cp => cp new_elem | None => ret new_elem end) in
  do! store (content v) (_size v) x in
  ret (mkVec (wrap64 (_size v + 1)) (content v) (capacity v)).

(** The overload for a moved element: also what is left of it. *)
Definition push_back_move (v : vector) (new_elem : T) : cmd (blocks T) (vector * T) :=
  let! v := grow v in
  match init_move ops with
  | None => trap
  | Some mv =>
      let! xy := mv new_elem in
      do! store (content v) (_size v) xy.1 in
      ret (mkVec (wrap64 (_size v + 1)) (content v) (capacity v), xy.2)
  end.

Definition set_at (v : vector) (new_elem : T) (idx : Z) : cmd (blocks T) unit :=
  store (content v) idx new_elem.

(** From an array; only elements of a trivial type are copied. *)
Definition init_array (elems : list T) (num : Z) : cmd (blocks T) vector :=
  let! p := malloc (wrap64 (num * 2)) in
  do! when (is_trivial ops)
        (for_each (seqZ 0 num) (λ i,
           match elems !! Z.to_nat i with Some x => store p i x | None => trap end)) in
  ret (mkVec num p (wrap64 (num * 2))).

(** From another vector. *)
Definition init_vector (new_elems : vector) : cmd (blocks T) vector :=
  let! p := malloc (capacity new_elems) in
  do! (if is_trivial ops then memcpy p (content new_elems) (_size new_elems)
       else for_each (seqZ 0 (_size new_elems)) (λ i,
         let! x := load (content new_elems) i in
         let! y := (match init_copy ops with Some cp => cp x | None => ret x end) in
         store p i y)) in
  ret (mkVec (_size new_elems) p (capacity new_elems)).

(** From another vector that is given up: the new one and what is left of it. *)
Definition init_moved (new_elems : vector) : vector * vector :=
  (mkVec (_size new_elems) (content new_elems) (capacity new_elems), mkVec 0 0 0).

Definition vsize (v : vector) : Z := _size v.
Definition index (v : vector) (idx : Z) : cmd (blocks T) T := load (content v) idx.
Definition raw_data (v : vector) : Z := content v.

(** ** Vectors and lists *)

(** The allocator gives new blocks of the length asked for. *)
Record fresh_blocks : Prop := {
  fb_new h : h !! fresh h = None;
  fb_null h : fresh h ≠ 0;
  fb_raw h n : length (raw h n) = n;
}.
(** Elements that are copied by assignment or with memcpy. *)
Definition plain : Prop := init_copy ops = None ∧ init_move ops = None.
(** Elements that [resize] takes over unchanged. *)
Definition relocatable : Prop := (is_trivial ops || can_memcpy ops) = true ∨ plain.

(** The vector [v] holds the list [l]: in a block of its capacity, or without a
    block when it was never given one. *)
Inductive vec_holds (h : blocks T) (v : vector) (l : list T) : Prop :=
| vh_block b r :
    h !! content v = Some b → b = l ++ r → content v ≠ 0 →
    capacity v = Z.of_nat (length b) → _size v = Z.of_nat (length l) → capacity v < 2 ^ 63 →
    0 < capacity v → vec_holds h v l
| vh_null : content v = 0 → capacity v = 0 → _size v = 0 → l = [] → vec_holds h v l.

Context (Ha : fresh_blocks).

Lemma load_block (h : blocks T) p b (i : nat) x :
  h !! p = Some b → b !! i = Some x → load p (Z.of_nat i) h = Ret x h.
Proof.
  intros Hp Hx. unfold load. rewrite (proj2 (Z.leb_le _ _)) by lia. rewrite Hp. simpl.
  by rewrite Nat2Z.id, Hx.
Qed.

Lemma store_block (h : blocks T) p b (i : nat) x :
  h !! p = Some b → (i < length b)%nat → store p (Z.of_nat i) x h = Ret tt (<[p := <[i := x]> b]> h).
Proof.
  intros Hp Hi. unfold store. rewrite Hp, (proj2 (Z.leb_le _ _)), (proj2 (Z.ltb_lt _ _)) by lia.
  simpl. by rewrite Nat2Z.id.
Qed.

(** A loop whose turn [i] stores element [i] of [l] into the block at [p]. *)
Lemma fill_from (body : Z → cmd (blocks T) unit) p l (h : blocks T) b :
  (length l ≤ length b)%nat →
  (∀ (i : nat) x b', l !! i = Some x →
     body (Z.of_nat i) (<[p := b']> h) = store p (Z.of_nat i) x (<[p := b']> h)) →
  ∀ m k : nat, (k + m = length l)%nat →
  for_each (seqZ (Z.of_nat k) (Z.of_nat m)) body (<[p := take k l ++ drop k b]> h)
  = Ret tt (<[p := l ++ drop (length l) b]> h).
Proof.
  intros Hl Hbody. induction m as [|m IH]; intros k Hk.
  - rewrite seqZ_nil by lia. simpl. unfold ret. rewrite take_ge by lia.
    by replace k with (length l) by lia.
  - rewrite seqZ_cons by lia. cbn [for_each]. unfold bind.
    destruct (lookup_lt_is_Some_2 l k) as [x Hx]; [lia|].
    rewrite (Hbody k x) by done. rewrite (store_block _ p (take k l ++ drop k b)).
    + rewrite insert_insert_eq. replace (Z.succ (Z.of_nat k)) with (Z.of_nat (S k)) by lia.
      replace (Z.pred (Z.of_nat (S m))) with (Z.of_nat m) by lia.
      rewrite <-(IH (S k)) by lia. f_equal. f_equal.
      rewrite insert_app_r_alt by (rewrite length_take; lia).
      rewrite length_take, Nat.min_l, Nat.sub_diag by lia.
      rewrite (take_S_r l k x) by done. rewrite <-app_assoc. f_equal.
      destruct (lookup_lt_is_Some_2 b k) as [y Hy]; [lia|]. by rewrite (drop_S b y k).
    + apply lookup_insert_eq.
    + rewrite length_app, length_take, length_drop. lia.
Qed.

Lemma fill_block (body : Z → cmd (blocks T) unit) p l (h : blocks T) b :
  h !! p = Some b → (length l ≤ length b)%nat →
  (∀ (i : nat) x b', l !! i = Some x →
     body (Z.of_nat i) (<[p := b']> h) = store p (Z.of_nat i) x (<[p := b']> h)) →
  for_each (seqZ 0 (Z.of_nat (length l))) body h = Ret tt (<[p := l ++ drop (length l) b]> h).
Proof.
  intros Hp Hl Hbody. pose proof (fill_from body p l h b Hl Hbody (length l) 0 ltac:(lia)) as H.
  simpl in H. by rewrite insert_id in H.
Qed.

(** Copying the first [length l] elements of another block. *)
Lemma memcpy_block d s (h : blocks T) b bs l r :
  d ≠ s → h !! d = Some b → h !! s = Some bs → bs = l ++ r → (length l ≤ length b)%nat →
  memcpy d s (Z.of_nat (length l)) h = Ret tt (<[d := l ++ drop (length l) b]> h).
Proof.
  intros Hne Hd Hs -> Hl. unfold memcpy. apply fill_block; [done..|].
  intros i x b' Hx. unfold bind. rewrite (load_block _ s (l ++ r) i x); [done| |].
  - by rewrite lookup_insert_ne.
  - by rewrite lookup_app_l by by eapply lookup_lt_Some.
Qed.

Lemma relocate_plain d s i : plain → relocate d s i = (let! x := load s i in store d i x).
Proof. unfold relocate. by intros [-> ->]. Qed.

(** ** Growing *)

(** Both ways of [resize] to copy a whole block. *)
Lemma copy_out d s (h : blocks T) b bs :
  relocatable → d ≠ s → h !! d = Some b → h !! s = Some bs → (length bs ≤ length b)%nat →
  (if is_trivial ops || can_memcpy ops then memcpy d s (Z.of_nat (length bs))
   else for_each (seqZ 0 (Z.of_nat (length bs))) (relocate d s)) h
  = Ret tt (<[d := bs ++ drop (length bs) b]> h).
Proof.
  intros Hpl Hne Hd Hs Hl.
  pose proof (memcpy_block d s h b bs bs [] Hne Hd Hs (eq_sym (app_nil_r bs)) Hl) as Hm.
  destruct Hpl as [->|Hpl]; [done|].
  destruct (_ || _); [done|]. rewrite <-Hm. unfold memcpy. clear -Hpl.
  generalize h. induction (seqZ 0 (Z.of_nat (length bs))) as [|i is' IH]; intros h'; [done|].
  cbn [for_each]. unfold bind at 1 2. rewrite relocate_plain by done.
  destruct ((let! x := load s i in store d i x) h'); [|done..]. apply IH.
Qed.

Lemma resize_holds h v l :
  relocatable → vec_holds h v l → capacity v < 2 ^ 62 →
  ∃ v' h', resize v h = Ret v' h' ∧ vec_holds h' v' l
    ∧ capacity v' = (if capacity v =? 0 then 2 else 2 * capacity v)
    ∧ (∀ q, q ≠ content v → q ≠ content v' → h' !! q = h !! q) ∧ h !! content v' = None.
Proof.
  intros Hpl [b r Hb Er Hn Hcap Hsz Hlt Hpos|Hp0 Hc0 Hs0 ->] Hc; unfold resize.
  - rewrite (proj2 (Z.eqb_neq (capacity v) 0)) by lia. rewrite (wrap_small 64 (capacity v * 2)) by lia.
    unfold bind at 1, malloc. set (p := fresh h). set (rw := raw h _).
    assert (p ≠ content v) as Hne.
    { intros E. pose proof (fb_new Ha h) as Hf. fold p in Hf. by rewrite E, Hb in Hf. }
    assert (length rw = Z.to_nat (capacity v * 2)) as Hrw by apply (fb_raw Ha).
    pose proof (copy_out p (content v) (<[p := rw]> h) rw b Hpl Hne (lookup_insert_eq _ _ _)
      ltac:(by rewrite lookup_insert_ne) ltac:(lia)) as Hcopy.
    rewrite <-Hcap in Hcopy. unfold bind. rewrite Hcopy. unfold when.
    rewrite (proj2 (Z.eqb_neq (content v) 0)) by done. simpl. unfold free.
    rewrite !lookup_insert_ne, Hb by done. do 2 eexists. split; [reflexivity|]. simpl. split_and!.
    + apply (vh_block _ _ _ (b ++ drop (length b) rw) (r ++ drop (length b) rw)); simpl; try done; try lia.
      * rewrite lookup_delete_ne by done. apply lookup_insert_eq.
      * by rewrite Er, app_assoc.
      * apply (fb_null Ha).
      * rewrite length_app, length_drop. lia.
    + lia.
    + intros q H1 H2. by rewrite lookup_delete_ne, !lookup_insert_ne.
    + apply (fb_new Ha).
  - rewrite Hc0, Hp0, Hs0. unfold bind, malloc, when, ret. cbn [Z.eqb negb].
    assert (∀ d h, (if is_trivial ops || can_memcpy ops then memcpy d 0 0
      else for_each (seqZ 0 0) (relocate d 0)) h = Ret tt h) as -> by (by intros; destruct (_ || _)).
    do 2 eexists. split; [reflexivity|]. simpl. split_and!; [|done|..].
    + apply (vh_block _ _ _ (raw h 2) (raw h 2)); simpl; try done; try lia;
        [apply lookup_insert_eq|apply (fb_null Ha)|by rewrite (fb_raw Ha)].
    + intros q H1 H2. by rewrite lookup_insert_ne.
    + apply (fb_new Ha).
Qed.

Lemma grow_holds h v l :
  relocatable → vec_holds h v l → capacity v < 2 ^ 62 → capacity v ≤ 2 * Z.max 1 (Z.of_nat (length l)) →
  ∃ v' h', grow v h = Ret v' h' ∧ vec_holds h' v' l ∧ _size v' < capacity v'
    ∧ capacity v' ≤ 2 * Z.max 1 (Z.of_nat (length l))
    ∧ (∀ q b, h !! q = Some b → q ≠ content v → h' !! q = Some b ∧ q ≠ content v').
Proof.
  intros Hpl Hv Hc Hcl. unfold grow. destruct (_size v =? capacity v) eqn:E.
  - apply Z.eqb_eq in E.
    destruct (resize_holds h v l Hpl Hv Hc) as (v' & h' & Hrun & Hv' & Hcap & Hfr & Hnew).
    exists v', h'. assert (_size v' = Z.of_nat (length l)) as Es.
    { destruct Hv' as [|? ? ? ->]; [done|by simpl]. }
    assert (_size v = Z.of_nat (length l)) as Ev by (destruct Hv as [|? ? ? ->]; [done|by simpl]).
    split_and!; try done; [| |].
    + destruct (capacity v =? 0) eqn:Ez; lia.
    + destruct (capacity v =? 0) eqn:Ez; lia.
    + intros q b Hq Hne. assert (q ≠ content v') as Hne' by (intros ->; congruence).
      by rewrite Hfr.
  - apply Z.eqb_neq in E. exists v, h. split_and!; try done. destruct Hv as [b r Hb -> Hn Hcap Hsz|]; [|lia].
    rewrite length_app in Hcap. lia.
Qed.

(** A store behind the last element of a block with room. *)
Lemma append_holds h v l x :
  vec_holds h v l → _size v < capacity v →
  ∃ h', store (content v) (_size v) x h = Ret tt h'
    ∧ vec_holds h' (mkVec (wrap64 (_size v + 1)) (content v) (capacity v)) (l ++ [x])
    ∧ (∀ q b, h !! q = Some b → q ≠ content v → h' !! q = Some b).
Proof.
  intros [b r Hb Er Hn Hcap Hsz Hc1 Hpos|] Hlt; [|lia].
  assert (length r ≠ 0%nat) as Hr by (rewrite Er, length_app in Hcap; lia).
  destruct r as [|y r]; [done|]. rewrite Hsz.
  rewrite (store_block h _ b) by (done || (rewrite Er, length_app; simpl; lia)).
  eexists. split; [reflexivity|]. split.
  - apply (vh_block _ _ _ (<[length l := x]> b) r); simpl; try done.
    + apply lookup_insert_eq.
    + rewrite Er, insert_app_r_alt, Nat.sub_diag by lia. simpl. by rewrite <-app_assoc.
    + by rewrite length_insert.
    + rewrite length_app, wrap_small; simpl; lia.
  - intros q b' Hq Hne. by rewrite lookup_insert_ne.
Qed.

(** push_back appends, and leaves every other block alone. *)
Lemma push_back_holds h v l x :
  plain → vec_holds h v l → capacity v < 2 ^ 62 → capacity v ≤ 2 * Z.max 1 (Z.of_nat (length l)) →
  ∃ v' h', push_back v x h = Ret v' h' ∧ vec_holds h' v' (l ++ [x])
    ∧ capacity v' ≤ 2 * Z.max 1 (Z.of_nat (length (l ++ [x])))
    ∧ (∀ q b, h !! q = Some b → q ≠ content v → h' !! q = Some b ∧ q ≠ content v').
Proof.
  intros Hpl Hv Hc Hcl.
  destruct (grow_holds h v l (or_intror Hpl) Hv Hc Hcl) as (v1 & h1 & Hrun & Hv1 & Hlt & Hcap1 & Hfr).
  unfold push_back, bind. rewrite Hrun, (proj1 Hpl). unfold ret.
  destruct (append_holds h1 v1 l x Hv1 Hlt) as (h2 & Hst & Hv2 & Hfr2). rewrite Hst.
  do 2 eexists. split; [reflexivity|]. split_and!; [done|rewrite length_app; simpl; lia|].
  intros q b Hq Hne. destruct (Hfr q b Hq Hne) as [H1 H2]. split; [|done]. by apply Hfr2.
Qed.

(** The overload for moved elements, when moving one needs no memory. *)
Lemma push_back_move_holds h v l x y z mv :
  relocatable → init_move ops = Some mv → (∀ h, mv x h = Ret (y, z) h) →
  vec_holds h v l → capacity v < 2 ^ 62 → capacity v ≤ 2 * Z.max 1 (Z.of_nat (length l)) →
  ∃ v' h', push_back_move v x h = Ret (v', z) h' ∧ vec_holds h' v' (l ++ [y])
    ∧ capacity v' ≤ 2 * Z.max 1 (Z.of_nat (length (l ++ [y])))
    ∧ (∀ q b, h !! q = Some b → q ≠ content v → h' !! q = Some b ∧ q ≠ content v').
Proof.
  intros Hre Hmv Hrunm Hv Hc Hcl.
  destruct (grow_holds h v l Hre Hv Hc Hcl) as (v1 & h1 & Hrun & Hv1 & Hlt & Hcap1 & Hfr).
  unfold push_back_move, bind. rewrite Hrun, Hmv, Hrunm. simpl.
  destruct (append_holds h1 v1 l y Hv1 Hlt) as (h2 & Hst & Hv2 & Hfr2). rewrite Hst.
  do 2 eexists. split; [reflexivity|]. split_and!; [done|rewrite length_app; simpl; lia|].
  intros q b Hq Hne. destruct (Hfr q b Hq Hne) as [H1 H2]. split; [|done]. by apply Hfr2.
Qed.

Lemma set_at_holds h v l x (i : nat) :
  vec_holds h v l → (i < length l)%nat →
  ∃ h', set_at v x (Z.of_nat i) h = Ret tt h' ∧ vec_holds h' v (<[i := x]> l)
    ∧ (∀ q b, h !! q = Some b → q ≠ content v → h' !! q = Some b).
Proof.
  intros [b r Hb -> Hn Hcap Hsz Hc Hpos|? ? ? ->] Hi; [|simpl in Hi; lia]. unfold set_at.
  rewrite (store_block h _ (l ++ r)) by (done || (rewrite length_app; lia)). eexists. split; [reflexivity|].
  split; [|intros q b' Hq Hne; by rewrite lookup_insert_ne].
  apply (vh_block _ _ _ (<[i := x]> (l ++ r)) r); try done.
  - apply lookup_insert_eq.
  - by rewrite insert_app_l.
  - by rewrite length_insert.
  - by rewrite length_insert.
Qed.

Lemma index_holds h v l (i : nat) x :
  vec_holds h v l → l !! i = Some x → index v (Z.of_nat i) h = Ret x h.
Proof.
  intros [b r Hb -> Hn Hcap Hsz Hc Hpos|? ? ? ->] Hi; [|done]. apply (load_block _ _ (l ++ r)); [done|].
  by apply lookup_app_l_Some.
Qed.

Lemma size_holds h v l : vec_holds h v l → vsize v = Z.of_nat (length l).
Proof. by intros [|? ? ? ->]. Qed.

Lemma init_holds h :
  ∃ v h', init h = Ret v h' ∧ vec_holds h' v [] ∧ capacity v = 2
    ∧ (∀ q b, h !! q = Some b → h' !! q = Some b ∧ q ≠ content v).
Proof.
  do 2 eexists. split; [reflexivity|]. simpl. split_and!; [|done|].
  - apply (vh_block _ _ _ (raw h 2) (raw h 2)); simpl; try done; try lia;
      [apply lookup_insert_eq|apply (fb_null Ha)|by rewrite (fb_raw Ha)].
  - intros q b Hq. assert (q ≠ fresh h) by (intros ->; pose proof (fb_new Ha h); congruence).
    by rewrite lookup_insert_ne.
Qed.

(** A vector from an array of a trivial type. *)
Lemma init_array_holds h l :
  is_trivial ops = true → l ≠ [] → Z.of_nat (length l) < 2 ^ 62 →
  ∃ v h', init_array l (Z.of_nat (length l)) h = Ret v h' ∧ vec_holds h' v l ∧ content v = fresh h
    ∧ (∀ q b, h !! q = Some b → h' !! q = Some b ∧ q ≠ content v).
Proof.
  intros Ht Hl Hlt. unfold init_array. rewrite wrap_small by lia. rewrite Ht. unfold bind at 1, malloc.
  set (p := fresh h). set (rw := raw h _).
  assert (length rw = Z.to_nat (Z.of_nat (length l) * 2)) as Hrw by apply (fb_raw Ha).
  unfold bind, when. rewrite (fill_block _ p l _ rw); [|apply lookup_insert_eq|lia|].
  2: { intros i x b' Hx. by rewrite Nat2Z.id, Hx. }
  assert (length l ≠ 0%nat) by by destruct l.
  do 2 eexists. split; [reflexivity|]. simpl. split_and!; [|done|].
  - apply (vh_block _ _ _ (l ++ drop (length l) rw) (drop (length l) rw)); simpl; try done; try lia.
    + apply lookup_insert_eq.
    + apply (fb_null Ha).
    + rewrite length_app, length_drop. lia.
  - intros q b Hq. assert (q ≠ p) by (intros ->; pose proof (fb_new Ha h); unfold p in *; congruence).
    by rewrite !lookup_insert_ne.
Qed.

(** A copy holds the same elements in a block of its own; the original is
    unchanged. *)
Lemma init_vector_holds h v l :
  plain → vec_holds h v l → content v ≠ 0 →
  ∃ v' h', init_vector v h = Ret v' h' ∧ vec_holds h' v' l ∧ vec_holds h' v l ∧ content v' ≠ content v
    ∧ content v' = fresh h.
Proof.
  intros Hpl [b r Hb Er Hn Hcap Hsz Hc Hpos|? ? ? _] Hnull; [|done].
  unfold init_vector. unfold bind at 1, malloc. set (p := fresh h). set (rw := raw h _).
  assert (p ≠ content v) as Hne.
  { intros E. pose proof (fb_new Ha h) as Hf. fold p in Hf. by rewrite E, Hb in Hf. }
  assert (length rw = Z.to_nat (capacity v)) as Hrw by apply (fb_raw Ha).
  assert (length l ≤ length b)%nat as Hlb by (rewrite Er, length_app; lia).
  pose proof (memcpy_block p (content v) (<[p := rw]> h) rw b l r Hne (lookup_insert_eq _ _ _)
    ltac:(by rewrite lookup_insert_ne) Er ltac:(lia)) as Hm.
  assert ((if is_trivial ops then memcpy p (content v) (_size v)
       else for_each (seqZ 0 (_size v)) (λ i,
         let! x := load (content v) i in
         let! y := (match init_copy ops with Some cp => cp x | None => ret x end) in
         store p i y)) (<[p := rw]> h) = Ret tt (<[p := l ++ drop (length l) rw]> (<[p := rw]> h))) as Hcopy.
  { rewrite Hsz. destruct (is_trivial ops); [done|]. rewrite (proj1 Hpl). exact Hm. }
  unfold bind at 1. rewrite Hcopy. do 2 eexists. split; [reflexivity|]. simpl. split_and!; [..|done|done].
  - apply (vh_block _ _ _ (l ++ drop (length l) rw) (drop (length l) rw)); simpl; try done; try lia.
    + apply lookup_insert_eq.
    + apply (fb_null Ha).
    + rewrite length_app, length_drop. lia.
  - apply (vh_block _ _ _ b r); try done. by rewrite !lookup_insert_ne.
Qed.

(** ** A vector as a list *)

Inductive vop := Push (x : T) | SetAt (i : nat) (x : T).

Fixpoint run_vops (os : list vop) (v : vector) : cmd (blocks T) vector :=
  match os with
  | [] => ret v
  | Push x :: os => let! v := push_back v x in run_vops os v
  | SetAt i x :: os => do! set_at v x (Z.of_nat i) in run_vops os v
  end.

(** The same on lists; [None] when an index is out of range. *)
Fixpoint list_vops (os : list vop) (l : list T) : option (list T) :=
  match os with
  | [] => Some l
  | Push x :: os => list_vops os (l ++ [x])
  | SetAt i x :: os => if decide (i < length l)%nat then list_vops os (<[i := x]> l) else None
  end.

Lemma run_vops_holds os h v l l' :
  plain → vec_holds h v l → capacity v ≤ 2 * Z.max 1 (Z.of_nat (length l)) →
  Z.of_nat (length os + length l) < 2 ^ 60 → list_vops os l = Some l' →
  ∃ v' h', run_vops os v h = Ret v' h' ∧ vec_holds h' v' l'
    ∧ capacity v' ≤ 2 * Z.max 1 (Z.of_nat (length l')).
Proof.
  intros Hpl. revert h v l. induction os as [|[x|i x] os IH]; intros h v l Hv Hcl Hlen Hrun;
    cbn [list_vops run_vops length] in *.
  - injection Hrun as <-. by exists v, h.
  - destruct (push_back_holds h v l x Hpl Hv ltac:(lia) Hcl) as (v1 & h1 & E & Hv1 & Hc1 & _).
    unfold bind. rewrite E. apply (IH h1 v1 (l ++ [x])); try done. rewrite length_app. simpl. lia.
  - destruct (decide _) as [Hi|]; [|done]. destruct (set_at_holds h v l x i Hv Hi) as (h1 & E & Hv1 & _).
    unfold bind. rewrite E. apply (IH h1 v (<[i := x]> l)); rewrite ?length_insert; try done; lia.
Qed.
End Vector.

Arguments vop : clear implicits.
Arguments plain {T}.

(** ** Property *)

(** C33: A vector behaves as the list of its elements: after init, any sequence of
    push_back and set_at inside the range runs to its end; then size is the length
    of the list, the elements read back are those of the list, and the capacity is
    at most twice the size (or 2).  This covers the elements copied by assignment
    and with memcpy, on any allocator that gives new blocks. *)
Theorem vector_refines_list {T} (ops : elem_ops T) fresh raw (os : list (vop T)) l h :
  fresh_blocks fresh raw → plain ops → list_vops os [] = Some l → Z.of_nat (length os) < 2 ^ 60 →
  ∃ v h', (let! v := init fresh raw in run_vops ops fresh raw os v) h = Ret v h'
    ∧ vsize v = Z.of_nat (length l)
    ∧ (∀ i x, l !! i = Some x → index v (Z.of_nat i) h' = Ret x h')
    ∧ capacity v ≤ 2 * Z.max 1 (vsize v).
Proof.
  intros Ha Hpl Hl Hlen. destruct (init_holds fresh raw Ha h) as (v0 & h0 & E & Hv0 & Hc0 & _).
  destruct (run_vops_holds ops fresh raw Ha os h0 v0 [] l Hpl Hv0) as (v & h' & E' & Hv & Hc); try done.
  { simpl. lia. } { simpl. lia. }
  exists v, h'. rewrite (size_holds h' v l Hv). split_and!; try done.
  - unfold bind. by rewrite E.
  - intros i x Hi. by apply (index_holds h' v l).
Qed.

Module DemoVec.
Definition fresh (h : blocks Z) : Z := 1 + foldr Z.max 0 (fst <$> map_to_list h).
Definition raw (h : blocks Z) (n : nat) : list Z := replicate n 0.
Definition words : elem_ops Z := mkElem Z true false None None.

Lemma demo_blocks : fresh_blocks fresh raw.
Proof.
  split.
  - intros h. destruct (h !! fresh h) as [n|] eqn:E; [|done]. apply elem_of_map_to_list in E.
    apply (list_elem_of_fmap_2 fst) in E. apply foldr_max_ge in E. unfold fresh in E. simpl in E. lia.
  - intros h. unfold fresh. pose proof (foldr_max_nonneg (fst <$> map_to_list h)). lia.
  - intros. apply length_replicate.
Qed.

Definition demo_ops : list (vop Z) := [Push 5; Push 6; Push 7; SetAt 1 60; Push 8; Push 9].

Lemma vector_refines_list_witness :
  ∃ v h', (let! v := init fresh raw in run_vops words fresh raw demo_ops v) ∅ = Ret v h'
    ∧ vsize v = 5
    ∧ (∀ i x, [5; 60; 7; 8; 9] !! i = Some x → index v (Z.of_nat i) h' = Ret x h')
    ∧ capacity v ≤ 2 * Z.max 1 (vsize v).
Proof.
  apply (vector_refines_list words fresh raw demo_ops [5; 60; 7; 8; 9] ∅ demo_blocks);
    [by split|reflexivity|reflexivity].
Defined.
End DemoVec.
