(* ===== verification/ObjString.v ===== *)
(** * The string of the containers (include/container/string.hh)

    A string of at most 23 characters lives in the object; a longer one in a
    vector of characters.  The two are members of a union: the size word of the
    vector is the size and the flag of the short form, and the pointer and the
    capacity are the first bytes of its characters.  The object is kept as that
    word and the 24 bytes behind it, and both forms read and write them. *)

From stdpp Require Import base list gmap.
From Stdlib Require Import ZArith Lia.
From S2P Require Import Prelude Memory Vector.

(** ** The object *)

Definition SSO_SZ : Z := 24 - 1.

Record string := mkString { word0 : Z; tail : list Z }.

(** The members of the short form. *)
Definition sz (s : string) : Z := Z.land (word0 s) (Z.ones 63).
Definition is_sso_used (s : string) : bool := Z.testbit (word0 s) 63.
Definition put_sz (n : Z) (s : string) : string :=
  mkString (Z.lor (Z.land (word0 s) (Z.shiftl 1 63)) (Z.land n (Z.ones 63))) (tail s).
Definition put_is_sso_used (b : bool) (s : string) : string :=
  mkString (Z.lor (Z.land (word0 s) (Z.ones 63)) (if b then Z.shiftl 1 63 else 0)) (tail s).

(** The vector of the long form, at the same place. *)
Definition get_vector (s : string) : vector :=
  mkVec (word0 s) (le_combine (take 8 (tail s))) (le_combine (take 8 (drop 8 (tail s)))).
Definition put_vector (v : vector) (s : string) : string :=
  mkString (_size v) (le_split 8 (content v) ++ le_split 8 (capacity v) ++ drop 16 (tail s)).

Definition size (s : string) : Z := Z.land (sz s) (Z.lnot (Z.shiftl 1 63)).

(** The vector has elements of type [char]. *)
Definition chars : elem_ops Z := mkElem Z true false None None.

Section String.
Context (fresh : blocks Z → Z) (raw : blocks Z → nat → list Z).

(** [memcpy] of the characters and the terminator to the start of the bytes; more
    than 24 bytes do not fit. *)
Definition sso_init (str : list Z) (s : string) : cmd (blocks Z) string :=
  if Z.of_nat (length str) + 1 <=? 24 then
    ret (put_is_sso_used true (mkString (word0 s) (str ++ [0] ++ drop (length str + 1) (tail s))))
  else trap.

Definition sso_init_obj (str : string) : string := put_is_sso_used true str.

(** From a [std::string], on an object whose bytes are those of [s]. *)
Definition init_std (str : list Z) (s : string) : cmd (blocks Z) string :=
  let s := put_sz (Z.of_nat (length str)) s in
  if Z.of_nat (length str) <=? SSO_SZ then sso_init str s
  else
    let! v := init_array chars fresh raw (str ++ [0]) (Z.of_nat (length str) + 1) in
    ret (put_is_sso_used false (put_vector v s)).

(** From another string. *)
Definition init_obj (str s : string) : cmd (blocks Z) string :=
  let s := put_sz (size str) s in
  if size str <=? SSO_SZ then ret (sso_init_obj str)
  else
    let! v := init_vector chars fresh raw (get_vector str) in
    ret (put_is_sso_used false (put_vector v s)).

(** From another string that is given up: the new one and what is left of it. *)
Definition init_obj_move (str s : string) : string * string :=
  let s := put_sz (size str) s in
  if size str <=? SSO_SZ then (sso_init_obj str, str)
  else
    let '(v, old) := init_moved (get_vector str) in
    (put_is_sso_used false (put_vector v s), put_vector old str).

(** [char_traits::compare] of the characters with the [n] at a place. *)
Fixpoint compare_at (get : Z → cmd (blocks Z) Z) (str : list Z) (i : Z) : cmd (blocks Z) bool :=
  match str with
  | [] => ret true
  | c :: str =>
      let! x := get i in
      if x =? c then compare_at get str (i + 1) else ret false
  end.

Definition sso_char (s : string) (i : Z) : cmd (blocks Z) Z :=
  match tail s !! Z.to_nat i with Some x => ret x | None => trap end.

Definition string_eq (s : string) (str : list Z) : cmd (blocks Z) bool :=
  if is_sso_used s then
    if negb (Z.of_nat (length str) =? size s) then ret false
    else compare_at (sso_char s) str 0
  else
    if negb (Z.of_nat (length str) =? size s) then ret false
    else compare_at (load (raw_data (get_vector s))) str 0.

(** Where the characters are: in the object, or at an address. *)
Definition c_str (s : string) : option Z :=
  if is_sso_used s then None else Some (raw_data (get_vector s)).
End String.

(** ** Bits of the first word *)

Lemma sz_put n s : 0 ≤ n < 2 ^ 63 → sz (put_sz n s) = n.
Proof.
  intros Hn. unfold sz, put_sz. cbn [word0]. rewrite Z.land_lor_distr_l.
  replace (Z.land (Z.land (word0 s) (Z.shiftl 1 63)) (Z.ones 63)) with 0.
  - rewrite Z.lor_0_l, <-Z.land_assoc, Z.land_diag, Z.land_ones, Z.mod_small by lia. done.
  - rewrite <-Z.land_assoc. change (Z.land (Z.shiftl 1 63) (Z.ones 63)) with 0. by rewrite Z.land_0_r.
Qed.

Lemma sz_put_sso b s : sz (put_is_sso_used b s) = sz s.
Proof.
  unfold sz, put_is_sso_used. cbn [word0]. rewrite Z.land_lor_distr_l, <-Z.land_assoc, Z.land_diag.
  by destruct b; [change (Z.land (Z.shiftl 1 63) (Z.ones 63)) with 0|rewrite Z.land_0_l]; rewrite Z.lor_0_r.
Qed.

Lemma sso_put_sso b s : is_sso_used (put_is_sso_used b s) = b.
Proof.
  unfold is_sso_used, put_is_sso_used. cbn [word0]. rewrite Z.lor_spec, Z.land_spec.
  rewrite Z.ones_spec_high, andb_false_r by lia. by destruct b; [|rewrite Z.bits_0].
Qed.

Lemma put_sso_false s : 0 ≤ word0 s < 2 ^ 63 → put_is_sso_used false s = s.
Proof.
  intros Hw. unfold put_is_sso_used. rewrite Z.lor_0_r, Z.land_ones, Z.mod_small by lia. by destruct s.
Qed.

Lemma sz_small s : 0 ≤ word0 s < 2 ^ 63 → sz s = word0 s.
Proof. intros Hw. unfold sz. rewrite Z.land_ones, Z.mod_small by lia. done. Qed.

Lemma size_sz s : size s = sz s.
Proof.
  unfold size, sz. rewrite <-Z.land_assoc. f_equal.
Qed.

Lemma get_put_vector v s :
  0 ≤ content v < 2 ^ 64 → 0 ≤ capacity v < 2 ^ 64 → get_vector (put_vector v s) = v.
Proof.
  intros Hc Hk. unfold get_vector, put_vector. cbn [word0 tail].
  rewrite take_app_le by by rewrite length_le_split. rewrite take_ge by by rewrite length_le_split.
  rewrite drop_app_ge by by rewrite length_le_split. rewrite length_le_split.
  change (8 - 8)%nat with 0%nat. rewrite drop_0, take_app_le by by rewrite length_le_split.
  rewrite take_ge by by rewrite length_le_split. rewrite !le_combine_split, !wrap_small by (simpl; lia).
  by destruct v.
Qed.

(** ** What a string object holds *)

(** The characters that comparison and size see: a long string counts its
    terminator. *)
Definition seen (str : list Z) : list Z := if decide (length str ≤ 23)%nat then str else str ++ [0].

Inductive str_holds (h : blocks Z) (s : string) (str : list Z) : Prop :=
| sh_short r :
    (length str ≤ 23)%nat → is_sso_used s = true → sz s = Z.of_nat (length str) →
    tail s = str ++ [0] ++ r → length (tail s) = 24%nat → str_holds h s str
| sh_long :
    (24 ≤ length str)%nat → is_sso_used s = false → length (tail s) = 24%nat →
    0 ≤ content (get_vector s) < 2 ^ 64 → 0 ≤ word0 s < 2 ^ 63 →
    vec_holds h (get_vector s) (str ++ [0]) → str_holds h s str.

Lemma str_holds_size h s str : str_holds h s str → size s = Z.of_nat (length (seen str)).
Proof.
  rewrite size_sz. unfold seen. intros [r Hl Hs Hsz Ht Htl|Hl Hs Htl Hc Hw Hv].
  - by rewrite decide_True.
  - rewrite decide_False by lia. rewrite sz_small by done.
    by rewrite <-(size_holds h (get_vector s) (str ++ [0])).
Qed.

Lemma compare_at_spec get l t (k : Z) (h : blocks Z) :
  (∀ (j : nat) x, l !! j = Some x → get (k + Z.of_nat j) h = Ret x h) → length t = length l →
  compare_at get t k h = Ret (bool_decide (t = l)) h.
Proof.
  revert l k. induction t as [|c t IH]; intros [|x l] k Hget Hl; try done.
  simpl in Hl. injection Hl as Hl. cbn [compare_at]. unfold bind.
  pose proof (Hget 0%nat x eq_refl) as H0. rewrite Z.add_0_r in H0. rewrite H0.
  destruct (x =? c) eqn:E.
  - apply Z.eqb_eq in E as ->. rewrite (IH l (k + 1)); [|intros j y Hj|done].
    + f_equal. apply bool_decide_ext. split; congruence.
    + replace (k + 1 + Z.of_nat j) with (k + Z.of_nat (S j)) by lia. by apply Hget.
  - apply Z.eqb_neq in E. unfold ret. f_equal. symmetry. apply bool_decide_eq_false. congruence.
Qed.

(** Comparison with a [std::string]. *)
Lemma string_eq_holds h s str t :
  str_holds h s str → string_eq s t h = Ret (bool_decide (t = seen str)) h.
Proof.
  intros Hs. pose proof (str_holds_size h s str Hs) as Hsz. unfold string_eq. rewrite Hsz.
  assert (∀ c : cmd (blocks Z) bool, (length t = length (seen str) → c h = Ret (bool_decide (t = seen str)) h) →
    (if negb (Z.of_nat (length t) =? Z.of_nat (length (seen str))) then ret false else c) h
    = Ret (bool_decide (t = seen str)) h) as Hlen.
  { intros c Hc. destruct (Z.of_nat (length t) =? _) eqn:E; simpl; [apply Hc; lia|].
    unfold ret. f_equal. symmetry. apply bool_decide_eq_false. intros ->. lia. }
  unfold seen in *. destruct Hs as [r Hl Hso _ Ht Htl|Hl Hso Htl Hc Hw Hv]; rewrite Hso.
  - rewrite decide_True in * by done. apply Hlen. intros El. apply compare_at_spec; [|done].
    intros j x Hj. unfold sso_char. rewrite Z.add_0_l, Nat2Z.id, Ht.
    by rewrite (lookup_app_l_Some _ _ _ _ Hj).
  - rewrite decide_False in * by lia. apply Hlen. intros El. apply compare_at_spec; [|done].
    intros j x Hj. rewrite Z.add_0_l. by apply (index_holds h (get_vector s) (str ++ [0])).
Qed.

(** ** Initialisation *)

Section Init.
Context (fresh : blocks Z → Z) (raw : blocks Z → nat → list Z).
Context (Ha : fresh_blocks fresh raw).

(** A vector of characters put into an object. *)
Lemma put_vector_holds h v str s :
  vec_holds h v (str ++ [0]) → (24 ≤ length str)%nat → Z.of_nat (length str) < 2 ^ 60 →
  0 ≤ content v < 2 ^ 64 → length (tail s) = 24%nat →
  str_holds h (put_is_sso_used false (put_vector v s)) str.
Proof.
  intros Hv Hl Hlt Hc Ht. pose proof (size_holds h v _ Hv) as Hsz. unfold vsize in Hsz.
  rewrite length_app in Hsz. simpl in Hsz.
  assert (0 ≤ capacity v < 2 ^ 64) as Hk by (destruct Hv; lia).
  assert (put_is_sso_used false (put_vector v s) = put_vector v s) as E by (apply put_sso_false; simpl; lia).
  apply sh_long; [done|apply sso_put_sso|..]; rewrite E.
  - unfold put_vector. cbn [tail]. rewrite !length_app, !length_le_split, length_drop. lia.
  - by rewrite get_put_vector.
  - simpl. lia.
  - by rewrite get_put_vector.
Qed.

(** A short string needs no memory. *)
Lemma init_std_short h s str :
  length (tail s) = 24%nat → (length str ≤ 23)%nat →
  ∃ s', init_std fresh raw str s h = Ret s' h ∧ str_holds h s' str ∧ length (tail s') = 24%nat.
Proof.
  intros Ht Hl. unfold init_std, SSO_SZ, sso_init. rewrite !(proj2 (Z.leb_le _ _)) by lia.
  eexists. split; [reflexivity|].
  assert (length (str ++ [0] ++ drop (length str + 1) (tail s)) = 24%nat) as Ht'
    by (rewrite !length_app, length_drop; simpl; lia).
  split; [|done]. eapply sh_short; [done|apply sso_put_sso| |reflexivity|done].
  rewrite sz_put_sso. unfold sz. cbn [word0]. apply (sz_put _ s). lia.
Qed.

Lemma init_std_holds h s str :
  0 ≤ fresh h < 2 ^ 64 → length (tail s) = 24%nat → Z.of_nat (length str) < 2 ^ 60 →
  ∃ s' h', init_std fresh raw str s h = Ret s' h' ∧ str_holds h' s' str
    ∧ ∀ q b, h !! q = Some b → h' !! q = Some b.
Proof.
  intros Hfr Ht Hlt. destruct (decide (length str ≤ 23)%nat) as [Hl|Hl].
  { destruct (init_std_short h s str Ht Hl) as (s' & Hrun & Hs & _). by exists s', h. }
  unfold init_std, SSO_SZ. rewrite (proj2 (Z.leb_gt _ _)) by lia.
  destruct (init_array_holds chars fresh raw Ha h (str ++ [0])) as (v & h' & Hrun & Hv & Hc & Hfrm);
    [done|by destruct str|rewrite length_app; simpl; lia|].
  replace (Z.of_nat (length (str ++ [0]))) with (Z.of_nat (length str) + 1) in Hrun
    by (rewrite length_app; simpl; lia).
  unfold bind. rewrite Hrun. do 2 eexists. split; [reflexivity|]. split.
  - apply put_vector_holds; [done|lia|done|by rewrite Hc|done].
  - intros q b Hq. by apply Hfrm.
Qed.

Lemma init_obj_holds h str s bs :
  0 ≤ fresh h < 2 ^ 64 → str_holds h str bs → Z.of_nat (length bs) < 2 ^ 60 → length (tail s) = 24%nat →
  ∃ s' h', init_obj fresh raw str s h = Ret s' h' ∧ str_holds h' s' bs ∧ str_holds h' str bs.
Proof.
  intros Hfr Hs Hlt Ht. pose proof (str_holds_size h str bs Hs) as Hsz. unfold init_obj, SSO_SZ. rewrite Hsz.
  unfold seen. destruct Hs as [r Hl Hso Hz Htl Htt|Hl Hso Htl Hc Hw Hv].
  - rewrite decide_True, (proj2 (Z.leb_le _ _)) by lia. do 2 eexists. split; [reflexivity|].
    split; [|by eapply sh_short]. eapply sh_short; try done; [apply sso_put_sso|].
    unfold sso_init_obj. by rewrite sz_put_sso.
  - rewrite decide_False, (proj2 (Z.leb_gt _ _)) by (rewrite ?length_app; simpl; lia).
    assert (content (get_vector str) ≠ 0) as Hnull.
    { inversion Hv; [done|]. by destruct bs. }
    destruct (init_vector_holds chars fresh raw Ha h (get_vector str) (bs ++ [0])) as (v & h' & Hrun & Hv1 & Hv2 & _ & Ec);
      [by split|done|done|].
    unfold bind. rewrite Hrun. do 2 eexists. split; [reflexivity|]. split; [|by apply sh_long].
    apply put_vector_holds; try done. by rewrite Ec.
Qed.

(** Moving keeps the characters; what is left of a long string is empty. *)
Lemma init_move_holds h str s bs s' old :
  str_holds h str bs → Z.of_nat (length bs) < 2 ^ 60 → length (tail s) = 24%nat →
  init_obj_move str s = (s', old) → str_holds h s' bs.
Proof.
  intros Hs Hlt Ht. pose proof (str_holds_size h str bs Hs) as Hsz. unfold init_obj_move, SSO_SZ. rewrite Hsz.
  unfold seen. destruct Hs as [r Hl Hso Hz Htl Htt|Hl Hso Htl Hc Hw Hv].
  - rewrite decide_True, (proj2 (Z.leb_le _ _)) by lia. intros [= <- <-].
    eapply sh_short; try done; [apply sso_put_sso|]. unfold sso_init_obj. by rewrite sz_put_sso.
  - rewrite decide_False, (proj2 (Z.leb_gt _ _)) by (rewrite ?length_app; simpl; lia). intros [= <- <-].
    by apply put_vector_holds.
Qed.
End Init.

(** ** Property *)

(** Comparison of a string object with a [std::string]: an object made from
    [str] is equal to [str] and to nothing else when [str] has at most 23
    characters.  A longer one counts its terminator: its size is one too large,
    and it is equal to [str] with a null character appended, never to [str]. *)
Theorem string_equality fresh raw h s str t :
  fresh_blocks fresh raw → 0 ≤ fresh h < 2 ^ 64 →
  length (tail s) = 24%nat → Z.of_nat (length str) < 2 ^ 60 →
  ∃ s' h', init_std fresh raw str s h = Ret s' h'
    ∧ string_eq s' t h'
      = Ret (bool_decide (t = if decide (length str ≤ 23)%nat then str else str ++ [0])) h'
    ∧ size s' = Z.of_nat (length str) + if decide (length str ≤ 23)%nat then 0 else 1.
Proof.
  intros Ha Hfr Ht Hl. destruct (init_std_holds fresh raw Ha h s str Hfr Ht Hl) as (s' & h' & Hrun & Hs & _).
  exists s', h'. split_and!; [done|by apply string_eq_holds|].
  rewrite (str_holds_size h' s' str Hs). unfold seen.
  destruct (decide _); [lia|]. rewrite length_app. simpl. lia.
Qed.

Module DemoString.
Import DemoVec.

Definition blank : string := mkString 0 (replicate 24 0).

Definition short : list Z := [107; 101; 121].
Definition long : list Z := replicate 30 97.

Lemma string_equality_witness :
  ∃ s' h', init_std fresh raw long blank ∅ = Ret s' h'
    ∧ string_eq s' long h' = Ret false h' ∧ size s' = 31.
Proof.
  apply (string_equality fresh raw ∅ blank long long demo_blocks);
    [vm_compute; by split|reflexivity|reflexivity].
Defined.

(** The other branch. *)
Fact short_string_equal :
  (let! s := init_std fresh raw short blank in string_eq s short) ∅ = Ret true ∅.
Proof. vm_compute. reflexivity. Qed.
End DemoString.
