(* ===== verification/SimpleKv.v ===== *)
(** * The pair of the containers and the key-value store built on them
      (include/container/pair.hh, examples/simplekv_cxlbuf/simplekv_puddles.hh)

    The store hashes a key to a bucket, a vector of pairs of a string and an index,
    and keeps the values in one vector.  [pair] does with its members what their
    types ask for; [member_ops] has the answers.  The theorems say what get returns
    after puts of new keys, and what a put of a key that is there does. *)

From stdpp Require Import base list gmap.
From Stdlib Require Import ZArith Lia.
From S2P Require Import Prelude Memory Vector ObjString.

(** ** Pairs *)

(** A member type on a heap [H]: the concepts of the containers, and the functions
    behind them.  Each gets the old contents of the place it initialises; [m_move]
    also returns what is left of its argument. *)
Record member_ops (H T : Type) := mkMember {
  m_trivial : bool;
  m_memcpy : bool;
  m_init : option (T → T → cmd H T);
  m_move : option (T → T → cmd H (T * T));
}.
Arguments m_trivial {H T}.
Arguments m_memcpy {H T}.
Arguments m_init {H T}.
Arguments m_move {H T}.

Record pair (T U : Type) := mkPair { first : T; second : U }.
Arguments mkPair {T U}.
Arguments first {T U}.
Arguments second {T U}.

Section Pair.
Context {H T U : Type} (tops : member_ops H T) (uops : member_ops H U).

Definition init_member {X} (ops : member_ops H X) (this x : X) : cmd H X :=
  match m_init ops with Some f => f this x | None => ret x end.

Definition move_member {X} (ops : member_ops H X) (this x : X) : cmd H (X * X) :=
  match m_move ops with
  | Some f => f this x
  | None => let! y := init_member ops this x in ret (y, x)
  end.

Definition pair_ctor (this : pair T U) (new_first : T) (new_second : U) : cmd H (pair T U) :=
  let! f := init_member tops (first this) new_first in
  let! s := init_member uops (second this) new_second in
  ret (mkPair f s).

(** A member of the constructor for temporaries. *)
Definition forward_member {X} (ops : member_ops H X) (this x : X) : cmd H X :=
  if m_trivial ops || m_memcpy ops then ret x
  else let! yx := move_member ops this x in ret yx.1.

Definition pair_ctor_forward (this : pair T U) (new_first : T) (new_second : U) : cmd H (pair T U) :=
  let! f := forward_member tops (first this) new_first in
  let! s := forward_member uops (second this) new_second in
  ret (mkPair f s).

Definition pair_init (this : pair T U) (new_first : T) (new_second : U) : cmd H (pair T U) :=
  let! f := init_member tops (first this) new_first in
  let! s := init_member uops (second this) new_second in
  ret (mkPair f s).

Definition pair_init_copy (this new_pair : pair T U) : cmd H (pair T U) :=
  let! f := init_member tops (first this) (first new_pair) in
  let! s := init_member uops (second this) (second new_pair) in
  ret (mkPair f s).

(** The new pair and what is left of the old one. *)
Definition pair_init_move (this new_pair : pair T U) : cmd H (pair T U * pair T U) :=
  let! f := move_member tops (first this) (first new_pair) in
  let! s := move_member uops (second this) (second new_pair) in
  ret (mkPair f.1 s.1, mkPair f.2 s.2).
End Pair.

(** ** The store *)

Abbreviation elem := (pair string Z).

Section Kv.
Context (cfresh : blocks Z → Z) (craw : blocks Z → nat → list Z).
Context (bfresh : blocks elem → Z) (braw : blocks elem → nat → list elem).
Context (vfresh : blocks Z → Z) (vraw : blocks Z → nat → list Z).
(** [std::hash], the number of buckets, and an uninitialised element. *)
Context (hash : list Z → Z) (N : nat) (junk : elem).

Definition string_ops : member_ops (blocks Z) string :=
  mkMember _ _ false true (Some (λ this x, init_obj cfresh craw x this))
    (Some (λ this x, ret (init_obj_move x this))).
Definition word_ops : member_ops (blocks Z) Z := mkMember _ _ true false None None.

(** The elements of a bucket are moved without memory, and have
    [memcpyPuddles]. *)
Definition moved_elem (x : elem) : elem * elem :=
  let '(f, f') := init_obj_move (first x) (first junk) in
  (mkPair f (second x), mkPair f' (second x)).
Definition bucket_ops (cp : elem → cmd (blocks elem) elem) : elem_ops elem :=
  mkElem _ false true (Some cp) (Some (λ x, ret (moved_elem x))).

(** Values are words; so are the indices. *)
Definition value_ops : elem_ops Z := mkElem _ true false None None.

Record simple_kv := mkKv {
  chars_h : blocks Z;
  elems_h : blocks elem;
  values_h : blocks Z;
  buckets : list vector;
  values : vector;
  syncs : nat; (* calls of [res->sync()] *)
}.

Definition on_chars {A} (c : cmd (blocks Z) A) : cmd simple_kv A := λ s,
  let put h := mkKv h (elems_h s) (values_h s) (buckets s) (values s) (syncs s) in
  match c (chars_h s) with Ret a h => Ret a (put h) | Exit e h => Exit e (put h) | Trap h => Trap (put h) end.
Definition on_elems {A} (c : cmd (blocks elem) A) : cmd simple_kv A := λ s,
  let put h := mkKv (chars_h s) h (values_h s) (buckets s) (values s) (syncs s) in
  match c (elems_h s) with Ret a h => Ret a (put h) | Exit e h => Exit e (put h) | Trap h => Trap (put h) end.
Definition on_values {A} (c : cmd (blocks Z) A) : cmd simple_kv A := λ s,
  let put h := mkKv (chars_h s) (elems_h s) h (buckets s) (values s) (syncs s) in
  match c (values_h s) with Ret a h => Ret a (put h) | Exit e h => Exit e (put h) | Trap h => Trap (put h) end.
Definition set_bucket (i : nat) (v : vector) (s : simple_kv) : simple_kv :=
  mkKv (chars_h s) (elems_h s) (values_h s) (<[i := v]> (buckets s)) (values s) (syncs s).
Definition set_values (v : vector) (s : simple_kv) : simple_kv :=
  mkKv (chars_h s) (elems_h s) (values_h s) (buckets s) v (syncs s).
Definition sync : cmd simple_kv unit := modify (λ s,
  mkKv (chars_h s) (elems_h s) (values_h s) (buckets s) (values s) (S (syncs s))).

Definition kv_init : cmd simple_kv unit :=
  do! for_each (seq 0 N) (λ i,
    let! v := on_elems (init bfresh braw) in modify (set_bucket i v)) in
  let! v := on_values (init vfresh vraw) in
  modify (set_values v).

(** The bucket of a key. *)
Definition bucket_of (key : list Z) : nat := Z.to_nat (hash key mod Z.of_nat N).
Definition the_bucket (key : list Z) : cmd simple_kv vector := λ s,
  match buckets s !! bucket_of key with Some v => Ret v s | None => Trap s end.

(** The loop that both operations run over a bucket. *)
Fixpoint find_key (bucket : vector) (key : list Z) (ixs : list Z) : cmd simple_kv (option elem) :=
  match ixs with
  | [] => ret None
  | i :: ixs =>
      let! key_pair := on_elems (index bucket i) in
      let! eq := on_chars (string_eq (first key_pair) key) in
      if eq : bool then ret (Some key_pair) else find_key bucket key ixs
  end.

(** [None] is the exception [std::out_of_range]. *)
Definition kv_get (key : list Z) : cmd simple_kv (option Z) :=
  let! bucket := the_bucket key in
  let! r := find_key bucket key (seqZ 0 (vsize bucket)) in
  match r with
  | Some key_pair =>
      let! s := get in
      let! v := on_values (index (values s) (second key_pair)) in
      ret (Some v)
  | None => ret None
  end.

Definition kv_put (cp : elem → cmd (blocks elem) elem) (key : list Z) (val : Z) (persist : bool)
    : cmd simple_kv unit :=
  let! bucket := the_bucket key in
  let! r := find_key bucket key (seqZ 0 (vsize bucket)) in
  match r with
  | Some key_pair =>
      let! s := get in
      do! on_values (store (content (values s)) val (second key_pair)) in
      when persist sync
  | None =>
      let! s := get in
      let! vs := on_values (push_back value_ops vfresh vraw (values s) val) in
      do! modify (set_values vs) in
      let! k := on_chars (init_std cfresh craw key (first junk)) in
      let! tmp_pair := on_chars (pair_ctor_forward string_ops word_ops junk k (wrap64 (vsize vs - 1))) in
      let! b := on_elems (push_back_move (bucket_ops cp) bfresh braw bucket tmp_pair) in
      do! modify (set_bucket (bucket_of key) b.1) in
      when persist sync
  end.
End Kv.

(** Moving an element of a bucket is the move of a pair. *)
Lemma moved_elem_pair cfresh craw (junk x : elem) h :
  pair_init_move (string_ops cfresh craw) word_ops junk x h = Ret (moved_elem junk x) h.
Proof.
  unfold pair_init_move, moved_elem, move_member, init_member, bind, ret. simpl.
  by destruct (init_obj_move (first x) (first junk)).
Qed.

(** ** What the store holds *)

Section Holds.
Context (cfresh : blocks Z → Z) (craw : blocks Z → nat → list Z).
Context (bfresh : blocks elem → Z) (braw : blocks elem → nat → list elem).
Context (vfresh : blocks Z → Z) (vraw : blocks Z → nat → list Z).
Context (hash : list Z → Z) (N : nat) (junk : elem) (cp : elem → cmd (blocks elem) elem).
Context (Hb : fresh_blocks bfresh braw) (Hv : fresh_blocks vfresh vraw).
Context (HN : (0 < N)%nat) (Hjunk : length (tail (first junk)) = 24%nat).

Local Notation bucket_of := (bucket_of hash N).
Local Notation the_bucket := (the_bucket hash N).
Local Notation kv_get := (kv_get hash N).
Local Notation kv_put := (kv_put cfresh craw bfresh braw vfresh vraw hash N junk cp).
Local Notation kv_init := (kv_init bfresh braw vfresh vraw N).

(** The keys put so far, with the places of their values. *)
Definition numbered (kvs : list (list Z * Z)) : list (list Z * nat) := imap (λ n kv, (kv.1, n)) kvs.
Definition in_bucket (kvs : list (list Z * Z)) (i : nat) : list (list Z * nat) :=
  filter (λ kn, bucket_of kn.1 = i) (numbered kvs).

(** A pair of a bucket stands for a key and a place. *)
Definition stands (h : blocks Z) (e : elem) (kn : list Z * nat) : Prop :=
  str_holds h (first e) kn.1 ∧ second e = Z.of_nat kn.2.

Record bucket_ok (s : simple_kv) (kvs : list (list Z * Z)) (i : nat) (v : vector) : Prop := {
  bk_holds : ∃ es, vec_holds (elems_h s) v es ∧ Forall2 (stands (chars_h s)) es (in_bucket kvs i)
               ∧ capacity v ≤ 2 * Z.max 1 (Z.of_nat (length es));
  bk_block : is_Some (elems_h s !! content v);
}.

(** The store holds the puts [kvs], in order. *)
Record kv_ok (s : simple_kv) (kvs : list (list Z * Z)) : Prop := {
  ko_buckets : length (buckets s) = N;
  ko_bucket i v : buckets s !! i = Some v → bucket_ok s kvs i v;
  ko_apart i j v w : i ≠ j → buckets s !! i = Some v → buckets s !! j = Some w → content v ≠ content w;
  ko_values : vec_holds (values_h s) (values s) kvs.*2;
  ko_room : capacity (values s) ≤ 2 * Z.max 1 (Z.of_nat (length kvs));
  ko_short : Forall (λ kv, length kv.1 ≤ 23)%nat kvs;
}.

Lemma numbered_length kvs : length (numbered kvs) = length kvs.
Proof. apply length_imap. Qed.

Lemma numbered_snoc kvs k v : numbered (kvs ++ [(k, v)]) = numbered kvs ++ [(k, length kvs)].
Proof. unfold numbered. rewrite imap_app. simpl. by rewrite Nat.add_0_r. Qed.

Lemma in_bucket_snoc kvs k v i :
  in_bucket (kvs ++ [(k, v)]) i
  = in_bucket kvs i ++ if decide (bucket_of k = i) then [(k, length kvs)] else [].
Proof.
  unfold in_bucket. rewrite numbered_snoc, filter_app, filter_cons. simpl.
  by destruct (decide (bucket_of k = i)).
Qed.

Lemma bucket_of_lt key : (bucket_of key < N)%nat.
Proof.
  unfold SimpleKv.bucket_of. pose proof (Z.mod_pos_bound (hash key) (Z.of_nat N)). lia.
Qed.

Lemma numbered_elem kvs kn : kn ∈ numbered kvs → ∃ v, kvs !! kn.2 = Some (kn.1, v).
Proof.
  intros Hin. apply list_elem_of_lookup in Hin as [n Hn]. unfold numbered in Hn.
  rewrite list_lookup_imap in Hn. destruct (kvs !! n) as [[k v]|] eqn:E; [|done].
  simpl in Hn. injection Hn as <-. by exists v.
Qed.

Lemma in_bucket_elem kvs i kn : kn ∈ in_bucket kvs i → ∃ v, kvs !! kn.2 = Some (kn.1, v).
Proof. unfold in_bucket. rewrite list_elem_of_filter. intros [_ Hin]. by apply numbered_elem. Qed.

Lemma in_bucket_length kvs i : (length (in_bucket kvs i) ≤ length kvs)%nat.
Proof. unfold in_bucket. rewrite <-numbered_length. apply length_filter. Qed.

(** *** Searching a bucket *)

Lemma on_elems_same {A} (c : cmd (blocks elem) A) s a :
  c (elems_h s) = Ret a (elems_h s) → on_elems c s = Ret a s.
Proof. intros E. unfold on_elems. rewrite E. by destruct s. Qed.
Lemma on_chars_same {A} (c : cmd (blocks Z) A) s a :
  c (chars_h s) = Ret a (chars_h s) → on_chars c s = Ret a s.
Proof. intros E. unfold on_chars. rewrite E. by destruct s. Qed.
Lemma on_values_same {A} (c : cmd (blocks Z) A) s a :
  c (values_h s) = Ret a (values_h s) → on_values c s = Ret a s.
Proof. intros E. unfold on_values. rewrite E. by destruct s. Qed.

(** The first element of [es] whose key is [key]. *)
Fixpoint found (key : list Z) (es : list elem) (kns : list (list Z * nat)) : option elem :=
  match es, kns with
  | e :: es, kn :: kns => if decide (key = kn.1) then Some e else found key es kns
  | _, _ => None
  end.

Lemma find_key_from v key s es kns :
  vec_holds (elems_h s) v es → Forall2 (stands (chars_h s)) es kns →
  Forall (λ kn, length kn.1 ≤ 23)%nat kns →
  ∀ m j : nat, (j + m = length es)%nat →
  find_key v key (seqZ (Z.of_nat j) (Z.of_nat m)) s = Ret (found key (drop j es) (drop j kns)) s.
Proof.
  intros Hvec Hst Hsh. induction m as [|m IH]; intros j Hj.
  - rewrite seqZ_nil, (drop_ge es) by lia. done.
  - rewrite seqZ_cons by lia. cbn [find_key].
    destruct (lookup_lt_is_Some_2 es j) as [e He]; [lia|].
    destruct (Forall2_lookup_l _ _ _ _ _ Hst He) as (kn & Hkn & [Hs Hi]).
    unfold bind. rewrite (on_elems_same _ s e) by by apply (index_holds (elems_h s) v es).
    rewrite (on_chars_same _ s (bool_decide (key = kn.1))).
    2: { rewrite (string_eq_holds _ _ kn.1) by done. unfold seen. rewrite decide_True; [done|].
         by apply (Forall_lookup_1 _ _ _ _ Hsh Hkn). }
    rewrite (drop_S es e j), (drop_S kns kn j) by done. cbn [found].
    destruct (decide (key = kn.1)) as [E|E].
    + by rewrite bool_decide_true.
    + rewrite bool_decide_false by done.
      replace (Z.succ (Z.of_nat j)) with (Z.of_nat (S j)) by lia.
      replace (Z.pred (Z.of_nat (S m))) with (Z.of_nat m) by lia. apply IH. lia.
Qed.

Lemma find_key_spec v key s es kns :
  vec_holds (elems_h s) v es → Forall2 (stands (chars_h s)) es kns →
  Forall (λ kn, length kn.1 ≤ 23)%nat kns →
  find_key v key (seqZ 0 (vsize v)) s = Ret (found key es kns) s.
Proof.
  intros Hvec Hst Hsh. rewrite (size_holds _ _ _ Hvec).
  apply (find_key_from v key s es kns Hvec Hst Hsh (length es) 0). lia.
Qed.

Lemma found_spec key es kns h :
  Forall2 (stands h) es kns →
  match found key es kns with
  | Some e => ∃ n, (key, n) ∈ kns ∧ second e = Z.of_nat n
  | None => ∀ n, (key, n) ∉ kns
  end.
Proof.
  induction 1 as [|e [k n] es kns [Hs Hi] Hst IH]; simpl; [intros n; apply not_elem_of_nil|].
  simpl in Hi. destruct (decide (key = k)) as [->|Hne].
  - exists n. split; [set_solver|done].
  - destruct (found key es kns) as [e'|].
    + destruct IH as (n' & Hin & Hn'). exists n'. split; [set_solver|done].
    + intros n'. rewrite not_elem_of_cons. split; [congruence|apply IH].
Qed.

(** Where a key is found. *)
Lemma search_ok s kvs key :
  kv_ok s kvs →
  ∃ v es, buckets s !! bucket_of key = Some v ∧ vec_holds (elems_h s) v es
    ∧ capacity v ≤ 2 * Z.max 1 (Z.of_nat (length es))
    ∧ Forall2 (stands (chars_h s)) es (in_bucket kvs (bucket_of key))
    ∧ find_key v key (seqZ 0 (vsize v)) s = Ret (found key es (in_bucket kvs (bucket_of key))) s.
Proof.
  intros Hok. destruct (lookup_lt_is_Some_2 (buckets s) (bucket_of key)) as [v Ev].
  { rewrite (ko_buckets _ _ Hok). apply bucket_of_lt. }
  destruct (ko_bucket _ _ Hok _ _ Ev) as [(es & Hvec & Hst & Hcap) _]. exists v, es. split_and!; try done.
  apply find_key_spec; try done. apply Forall_forall. intros kn Hin.
  apply in_bucket_elem in Hin as [x Hx].
  by apply (Forall_lookup_1 _ _ _ _ (ko_short _ _ Hok) Hx).
Qed.

(** The value of a key: that of its only put. *)
Definition value_of (key : list Z) (kvs : list (list Z * Z)) : option Z :=
  snd <$> find (λ kv, bool_decide (kv.1 = key)) kvs.

Lemma value_of_lookup key kvs n v :
  NoDup kvs.*1 → kvs !! n = Some (key, v) → value_of key kvs = Some v.
Proof.
  unfold value_of. revert n. induction kvs as [|[k w] kvs IH]; intros n Hnd Hn; [done|].
  rewrite fmap_cons, NoDup_cons in Hnd. destruct Hnd as [Hk Hnd]. cbn [find fst]. destruct n as [|n]; simpl in Hn.
  - injection Hn as -> ->. by rewrite bool_decide_true.
  - rewrite bool_decide_false; [by apply (IH n)|]. intros ->. apply Hk.
    apply list_elem_of_fmap. exists (key, v). split; [done|]. by eapply list_elem_of_lookup_2.
Qed.

Lemma value_of_none key kvs : key ∉ kvs.*1 → value_of key kvs = None.
Proof.
  unfold value_of. induction kvs as [|[k w] kvs IH]; intros Hk; [done|].
  rewrite fmap_cons, not_elem_of_cons in Hk. cbn [find fst]. rewrite bool_decide_false by naive_solver.
  apply IH. tauto.
Qed.

Lemma key_in_bucket key kvs n v :
  kvs !! n = Some (key, v) → (key, n) ∈ in_bucket kvs (bucket_of key).
Proof.
  intros Hn. unfold in_bucket. rewrite list_elem_of_filter. split; [done|]. unfold numbered.
  apply (list_elem_of_lookup_2 _ n). by rewrite list_lookup_imap, Hn.
Qed.

(** A key that was not put is not found. *)
Lemma found_new key kvs es h :
  Forall2 (stands h) es (in_bucket kvs (bucket_of key)) → key ∉ kvs.*1 →
  found key es (in_bucket kvs (bucket_of key)) = None.
Proof.
  intros Hst Hnew. pose proof (found_spec key es _ h Hst) as Hf. destruct (found _ _ _); [|done].
  destruct Hf as (n & Hin & _). apply in_bucket_elem in Hin as [v Hv']. simpl in Hv'.
  destruct Hnew. apply list_elem_of_fmap. exists (key, v). split; [done|]. by eapply list_elem_of_lookup_2.
Qed.

Lemma get_ok s kvs key :
  kv_ok s kvs → NoDup kvs.*1 → kv_get key s = Ret (value_of key kvs) s.
Proof.
  intros Hok Hnd. destruct (search_ok s kvs key Hok) as (v & es & Ev & Hvec & _ & Hst & Hf).
  unfold SimpleKv.kv_get, SimpleKv.the_bucket, bind, get. rewrite Ev, Hf.
  pose proof (found_spec key es _ _ Hst) as Hsp. destruct (found key es _) as [e|].
  - destruct Hsp as (n & Hin & Hn). apply in_bucket_elem in Hin as [x Hx]. simpl in Hx.
    rewrite Hn, (on_values_same _ s x).
    + by rewrite (value_of_lookup key kvs n x).
    + apply (index_holds _ _ kvs.*2); [apply (ko_values _ _ Hok)|]. by rewrite list_lookup_fmap, Hx.
  - rewrite value_of_none; [done|]. intros Hin. apply list_elem_of_fmap in Hin as ([k x] & -> & Hin).
    apply list_elem_of_lookup in Hin as [n Hn]. by apply (Hsp n), (key_in_bucket _ _ _ x).
Qed.

(** The buckets after an element was appended to bucket [i]. *)
Lemma bucket_ok_put s s' kvs key val i v w es e :
  kv_ok s kvs → buckets s !! bucket_of key = Some v → bucket_of key = i →
  (∀ q b, elems_h s !! q = Some b → q ≠ content v → elems_h s' !! q = Some b ∧ q ≠ content w) →
  vec_holds (elems_h s') w (es ++ [e]) → Forall2 (stands (chars_h s)) es (in_bucket kvs i) →
  stands (chars_h s) e (key, length kvs) → chars_h s' = chars_h s →
  capacity w ≤ 2 * Z.max 1 (Z.of_nat (length (es ++ [e]))) → buckets s' = <[i := w]> (buckets s) →
  (∀ j u, buckets s' !! j = Some u → bucket_ok s' (kvs ++ [(key, val)]) j u)
  ∧ (∀ j k u u', j ≠ k → buckets s' !! j = Some u → buckets s' !! k = Some u' → content u ≠ content u').
Proof.
  intros Hok Ev Ei Hfr Hw Hst He Hch Hcap Hbs.
  assert (∀ j u, j ≠ i → buckets s !! j = Some u →
    is_Some (elems_h s !! content u) ∧ content u ≠ content v) as Hother.
  { intros j u Hj Hu. split; [apply (bk_block _ _ _ _ (ko_bucket _ _ Hok _ _ Hu))|].
    apply (ko_apart _ _ Hok j (bucket_of key)); [congruence|done..]. }
  rewrite Hbs. split.
  - intros j u. destruct (decide (j = i)) as [->|Hj].
    + intros Hu. rewrite list_lookup_insert_eq in Hu by (by apply lookup_lt_Some in Ev; congruence).
      injection Hu as <-. split; [|destruct Hw as [b r Hb' _|? ? ? Hnil]; [by eexists|by destruct es]].
      exists (es ++ [e]). split_and!; try done. rewrite in_bucket_snoc, decide_True, Hch by done.
      apply Forall2_app; [done|by constructor].
    + rewrite list_lookup_insert_ne by done. intros Hu.
      destruct (Hother j u Hj Hu) as [[b Hb'] Hne]. destruct (Hfr _ b Hb' Hne) as [Hb2 _].
      destruct (ko_bucket _ _ Hok _ _ Hu) as [(es' & Hvec & Hst' & Hc') _]. split; [|by eexists].
      exists es'. rewrite in_bucket_snoc, decide_False, app_nil_r, Hch by congruence. split_and!; try done.
      destruct Hvec as [b' r Hb3 Er Hn Hcp Hsz Hlt Hpos|? ? ? ?]; [|by apply vh_null].
      apply (vh_block _ _ _ b' r); try done. congruence.
  - intros j k u u' Hjk Hu Hu'.
    destruct (decide (j = i)) as [->|Hj], (decide (k = i)) as [->|Hk]; [done|..].
    + rewrite list_lookup_insert_eq in Hu by (by apply lookup_lt_Some in Ev; congruence).
      rewrite list_lookup_insert_ne in Hu' by done. injection Hu as <-.
      destruct (Hother k u' Hk Hu') as [[b Hb'] Hne]. destruct (Hfr _ b Hb' Hne) as [_ ?]. congruence.
    + rewrite list_lookup_insert_eq in Hu' by (by apply lookup_lt_Some in Ev; congruence).
      rewrite list_lookup_insert_ne in Hu by done. injection Hu' as <-.
      destruct (Hother j u Hj Hu) as [[b Hb'] Hne]. by destruct (Hfr _ b Hb' Hne).
    + rewrite list_lookup_insert_ne in Hu, Hu' by done. by apply (ko_apart _ _ Hok j k).
Qed.

(** The element that a put appends to the bucket. *)
Lemma moved_stands h k key n :
  str_holds h k key → (length key ≤ 23)%nat →
  stands h (moved_elem junk (mkPair k (Z.of_nat n))).1 (key, n).
Proof.
  intros Hk Hl. unfold moved_elem. cbn [first second].
  destruct (init_obj_move k (first junk)) as [f f'] eqn:E. split; [|done]. simpl.
  eapply (init_move_holds h k (first junk)); [done|lia|done|done].
Qed.

Lemma kv_ok_sync s kvs n :
  kv_ok s kvs → kv_ok (mkKv (chars_h s) (elems_h s) (values_h s) (buckets s) (values s) n) kvs.
Proof.
  intros [H1 H2 H3 H4 H5 H6]. split; try done. intros i v E. destruct (H2 i v E) as [? ?]. by split.
Qed.

(** A put of a new key. *)
Lemma put_new_ok s kvs key val persist :
  kv_ok s kvs → key ∉ kvs.*1 → (length key ≤ 23)%nat → Z.of_nat (length kvs) < 2 ^ 59 →
  ∃ s', kv_put key val persist s = Ret tt s' ∧ kv_ok s' (kvs ++ [(key, val)])
    ∧ syncs s' = (if persist then S (syncs s) else syncs s).
Proof.
  intros Hok Hnew Hkl Hlen.
  destruct (search_ok s kvs key Hok) as (v & es & Ev & Hvec & Hcap & Hst & Hf).
  rewrite (found_new key kvs es _ Hst Hnew) in Hf.
  assert (length es = length (in_bucket kvs (bucket_of key))) as Hes by by eapply Forall2_length.
  pose proof (in_bucket_length kvs (bucket_of key)) as Hbl.
  destruct (push_back_holds value_ops vfresh vraw Hv (values_h s) (values s) kvs.*2 val) as (vs & vh & Hpv & Hvs & Hvc & _);
    [by split|apply (ko_values _ _ Hok)|pose proof (ko_room _ _ Hok); lia
    |rewrite length_fmap; apply (ko_room _ _ Hok)|].
  destruct (init_std_short cfresh craw (chars_h s) (first junk) key Hjunk Hkl) as (k & Hki & Hk & _).
  assert (wrap64 (vsize vs - 1) = Z.of_nat (length kvs)) as Hw.
  { rewrite (size_holds _ _ _ Hvs), length_app, length_fmap. simpl. rewrite wrap_small; lia. }
  set (x := mkPair k (Z.of_nat (length kvs))).
  destruct (push_back_move_holds (bucket_ops junk cp) bfresh braw Hb (elems_h s) v es x
    (moved_elem junk x).1 (moved_elem junk x).2 (λ x, ret (moved_elem junk x))) as (w & eh & Hpb & Hwv & Hwc & Hwf);
    [by left|done|by intros; destruct (moved_elem junk x)|done|lia|done|].
  set (s1 := mkKv (chars_h s) eh vh (<[bucket_of key := w]> (buckets s)) vs (syncs s)).
  assert (kv_ok s1 (kvs ++ [(key, val)])) as Hok1.
  { destruct (bucket_ok_put s s1 kvs key val (bucket_of key) v w es (moved_elem junk x).1) as [Hbk Hap]; try done.
    { by apply moved_stands. }
    split; try done.
    - simpl. rewrite length_insert. apply Hok.
    - rewrite fmap_app. exact Hvs.
    - rewrite length_app in *. rewrite length_fmap in Hvc. exact Hvc.
    - apply Forall_app. split; [apply Hok|by constructor]. }
  assert (kv_put key val persist s = (when persist sync) s1) as Hrun.
  { unfold SimpleKv.kv_put, SimpleKv.the_bucket, bind, get, modify. rewrite Ev, Hf.
    unfold on_values. rewrite Hpv. cbn [chars_h elems_h values_h buckets values syncs set_values].
    unfold on_chars. cbn [chars_h set_values]. rewrite Hki.
    unfold pair_ctor_forward, forward_member, bind, ret. cbn [chars_h m_trivial m_memcpy string_ops word_ops orb].
    rewrite Hw.
    unfold on_elems. cbn [elems_h set_values]. fold x. rewrite Hpb. done. }
  rewrite Hrun. destruct persist; simpl.
  - eexists. split; [reflexivity|]. split; [by apply kv_ok_sync|done].
  - by exists s1.
Qed.

(** *** Initialisation *)

(** The first [i] buckets are empty vectors in blocks of their own. *)
Record init_upto (i : nat) (s : simple_kv) : Prop := {
  iu_len : length (buckets s) = N;
  iu_empty j v : (j < i)%nat → buckets s !! j = Some v →
    vec_holds (elems_h s) v [] ∧ capacity v = 2 ∧ is_Some (elems_h s !! content v);
  iu_apart j k v w : j ≠ k → (j < i)%nat → (k < i)%nat →
    buckets s !! j = Some v → buckets s !! k = Some w → content v ≠ content w;
}.

Lemma init_bucket_ok i s :
  init_upto i s → (i < N)%nat →
  ∃ s', (let! v := on_elems (init bfresh braw) in modify (set_bucket i v)) s = Ret tt s'
    ∧ init_upto (S i) s' ∧ values_h s' = values_h s.
Proof.
  intros [Hl He Hap] Hi. destruct (init_holds bfresh braw Hb (elems_h s)) as (v & h & E & Hvh & Hc & Hfr).
  unfold bind, on_elems. rewrite E. eexists. split; [reflexivity|]. split; [|done].
  assert (∀ j u, (j < i)%nat → buckets s !! j = Some u → vec_holds h u [] ∧ capacity u = 2
    ∧ is_Some (h !! content u) ∧ content u ≠ content v) as Hold.
  { intros j u Hj Hu. destruct (He j u Hj Hu) as (Hvec & Hcu & [b Hb']). destruct (Hfr _ b Hb') as [Hb2 Hne].
    split_and!; try done. destruct Hvec as [b' r Hb3 Er Hn Hcp Hsz Hlt Hpos|? ? ? ?]; [|by apply vh_null].
    apply (vh_block _ _ _ b' r); try done. congruence. }
  split; simpl.
  - by rewrite length_insert.
  - intros j u Hj. destruct (decide (j = i)) as [->|].
    + rewrite list_lookup_insert_eq by lia. intros [= <-]. split_and!; try done.
      destruct Hvh as [b r Hb' _|? Hc0 ? ?]; [by eexists|lia].
    + rewrite list_lookup_insert_ne by done. intros Hu. destruct (Hold j u ltac:(lia) Hu) as (? & ? & ? & _). done.
  - intros j k u u' Hjk Hj Hk Hu Hu'. destruct (decide (j = i)) as [->|], (decide (k = i)) as [->|]; [done|..].
    + rewrite list_lookup_insert_eq in Hu by lia. rewrite list_lookup_insert_ne in Hu' by done.
      injection Hu as <-. destruct (Hold k u' ltac:(lia) Hu') as (_ & _ & _ & ?). congruence.
    + rewrite list_lookup_insert_eq in Hu' by lia. rewrite list_lookup_insert_ne in Hu by done.
      injection Hu' as <-. by destruct (Hold j u ltac:(lia) Hu) as (_ & _ & _ & ?).
    + rewrite list_lookup_insert_ne in Hu, Hu' by done. apply (Hap j k); try done; lia.
Qed.

Lemma init_loop_ok m i s :
  init_upto i s → (i + m = N)%nat →
  ∃ s', for_each (seq i m) (λ i, let! v := on_elems (init bfresh braw) in modify (set_bucket i v)) s = Ret tt s'
    ∧ init_upto N s'.
Proof.
  revert i s. induction m as [|m IH]; intros i s Hs Hi; simpl.
  - exists s. split; [done|]. by replace N with i by lia.
  - destruct (init_bucket_ok i s Hs ltac:(lia)) as (s1 & E & Hs1 & _).
    destruct (IH (S i) s1 Hs1 ltac:(lia)) as (s' & E' & Hs').
    exists s'. split; [|done]. unfold bind at 1. by rewrite E.
Qed.

Lemma kv_init_ok s : length (buckets s) = N → ∃ s', kv_init s = Ret tt s' ∧ kv_ok s' [].
Proof.
  intros Hl. destruct (init_loop_ok N 0 s) as (s1 & E & [Hl1 He Hap]); [|done|].
  { split; [done|lia|lia]. }
  unfold SimpleKv.kv_init, bind at 1. rewrite E.
  destruct (init_holds vfresh vraw Hv (values_h s1)) as (v & h & Ev & Hvh & Hc & _).
  unfold bind, on_values. rewrite Ev. eexists. split; [reflexivity|].
  split; simpl; try done; [| |rewrite Hc; lia].
  - intros i u Hu. pose proof (lookup_lt_Some _ _ _ Hu) as Hlt. destruct (He i u ltac:(lia) Hu) as (? & Hcu & ?).
    split; [|done]. exists []. by split_and!; [|constructor|rewrite Hcu].
  - intros i j u w Hij Hu Hw. pose proof (lookup_lt_Some _ _ _ Hu). pose proof (lookup_lt_Some _ _ _ Hw).
    apply (Hap i j); try done; lia.
Qed.

(** Puts, one after the other. *)
Definition put_all (persist : bool) (kvs : list (list Z * Z)) : cmd simple_kv unit :=
  for_each kvs (λ kv, kv_put kv.1 kv.2 persist).

Lemma put_all_ok persist rest s kvs :
  kv_ok s kvs → NoDup (kvs ++ rest).*1 → Forall (λ kv, length kv.1 ≤ 23)%nat rest →
  Z.of_nat (length kvs + length rest) < 2 ^ 59 →
  ∃ s', put_all persist rest s = Ret tt s' ∧ kv_ok s' (kvs ++ rest)
    ∧ syncs s' = (syncs s + if persist then length rest else 0)%nat.
Proof.
  revert s kvs. induction rest as [|[k v] rest IH]; intros s kvs Hok Hnd Hsh Hlen.
  - exists s. rewrite app_nil_r. split_and!; try done. destruct persist; simpl; lia.
  - apply Forall_cons in Hsh as [Hk Hsh]. simpl in Hk, Hlen.
    assert (k ∉ kvs.*1) as Hnew.
    { rewrite fmap_app, fmap_cons in Hnd. apply NoDup_app in Hnd as (_ & Hd & _).
      intros Hin. apply (Hd k Hin). set_solver. }
    destruct (put_new_ok s kvs k v persist Hok Hnew Hk ltac:(lia)) as (s1 & E & Hok1 & Hy1).
    replace (kvs ++ (k, v) :: rest) with ((kvs ++ [(k, v)]) ++ rest) in * by by rewrite <-app_assoc.
    destruct (IH s1 (kvs ++ [(k, v)]) Hok1 Hnd Hsh) as (s' & E' & Hok' & Hy').
    { rewrite length_app. simpl. lia. }
    exists s'. split_and!; [|done|destruct persist; simpl; lia]. unfold put_all in *. cbn [for_each fst snd].
    unfold bind at 1. by rewrite E.
Qed.
End Holds.

(** ** Property *)

(** C34: A key-value store reads back what was put: after init, puts of distinct
    keys of at most 23 characters, synced or not, run to their end; then get returns the value of
    every key that was put, and throws for every other key.  This holds for any
    hash function and any number of buckets. *)
Theorem puts_then_get cfresh craw bfresh braw vfresh vraw hash N junk cp persist kvs s :
  fresh_blocks bfresh braw → fresh_blocks vfresh vraw → (0 < N)%nat → length (tail (first junk)) = 24%nat →
  length (buckets s) = N → NoDup kvs.*1 → Forall (λ kv, length kv.1 ≤ 23)%nat kvs →
  Z.of_nat (length kvs) < 2 ^ 59 →
  ∃ s', (do! kv_init bfresh braw vfresh vraw N in
         put_all cfresh craw bfresh braw vfresh vraw hash N junk cp persist kvs) s = Ret tt s'
    ∧ ∀ key, kv_get hash N key s' = Ret (value_of key kvs) s'.
Proof.
  intros Hb Hv HN Hj Hl Hnd Hsh Hlen.
  assert (∃ s0, kv_init bfresh braw vfresh vraw N s = Ret tt s0 ∧ kv_ok hash N s0 []) as (s0 & E0 & Hok0)
    by by eapply kv_init_ok.
  assert (∃ s', put_all cfresh craw bfresh braw vfresh vraw hash N junk cp persist kvs s0 = Ret tt s'
    ∧ kv_ok hash N s' ([] ++ kvs) ∧ syncs s' = (syncs s0 + if persist then length kvs else 0)%nat) as (s' & E & Hok & _)
    by by eapply put_all_ok.
  exists s'. split; [unfold bind; by rewrite E0|]. intros key. by eapply get_ok.
Qed.

Module DemoKv.
Import DemoVec DemoString.

Definition efresh (h : blocks elem) : Z := 1 + foldr Z.max 0 (fst <$> map_to_list h).
Definition junk : elem := mkPair blank 0.
Definition eraw (h : blocks elem) (n : nat) : list elem := replicate n junk.
Definition no_copy (x : elem) : cmd (blocks elem) elem := trap.

Lemma elem_blocks : fresh_blocks efresh eraw.
Proof.
  split.
  - intros h. destruct (h !! efresh h) as [n|] eqn:E; [|done]. apply elem_of_map_to_list in E.
    apply (list_elem_of_fmap_2 fst) in E. apply foldr_max_ge in E. unfold efresh in E. simpl in E. lia.
  - intros h. unfold efresh. pose proof (foldr_max_nonneg (fst <$> map_to_list h)). lia.
  - intros. apply length_replicate.
Qed.

(** A bad hash, two buckets. *)
Definition hash (k : list Z) : Z := foldr Z.add 0 k.
Definition start : simple_kv := mkKv ∅ ∅ ∅ [vector_ctor; vector_ctor] vector_ctor 0.
Definition demo_kvs : list (list Z * Z) := [([97], 7); ([98], 8); ([99], 9); ([100], 10)].

Lemma puts_then_get_witness :
  ∃ s', (do! kv_init efresh eraw fresh raw 2 in
         put_all fresh raw efresh eraw fresh raw hash 2 junk no_copy true demo_kvs) start = Ret tt s'
    ∧ ∀ key, kv_get hash 2 key s' = Ret (value_of key demo_kvs) s'.
Proof.
  apply (puts_then_get fresh raw efresh eraw fresh raw hash 2 junk no_copy true demo_kvs start
    elem_blocks demo_blocks); [lia|reflexivity|reflexivity
    |apply (bool_decide_unpack _); vm_compute; exact I|repeat constructor; simpl; lia|reflexivity].
Defined.

Definition put (key : list Z) (val : Z) : cmd simple_kv unit :=
  kv_put fresh raw efresh eraw fresh raw hash 2 junk no_copy key val true.
Definition result {S A} (o : outcome S A) : option A := match o with Ret a _ => Some a | _ => None end.

(** A put of a key that is there stores the index of its value at the place that
    the new value names: the old value stays, and another key's value is lost. *)
Theorem put_of_existing_key :
  result ((do! kv_init efresh eraw fresh raw 2 in
           do! put [97] 7 in do! put [98] 8 in do! put [97] 1 in
           let! a := kv_get hash 2 [97] in
           let! b := kv_get hash 2 [98] in ret (a, b)) start) = Some (Some 7, Some 0).
Proof. vm_compute. reflexivity. Qed.

(** A key of more than 23 characters is never found again. *)
Theorem long_key_is_lost :
  result ((do! kv_init efresh eraw fresh raw 2 in
           do! put long 7 in kv_get hash 2 long) start) = Some None.
Proof. vm_compute. reflexivity. Qed.
End DemoKv.
