(* ===== verification/Pass.v ===== *)
(** * The instrumentation pass (storeinst-pass/storeinst.cc)

    The pass goes over every function of a module that is not annotated and puts a
    call of checkMemory before every store, but for stores it knows to go to the
    stack.  The intermediate language is LLVM's, as far as the pass looks at it:
    stores, stack allocations and the two instructions the pass adds are
    constructors, every other instruction is opaque.  A value is the identity of
    its object.  Alias analysis, which is LLVM's, is a parameter, and so is the
    order in which a hash map is traversed. *)

From stdpp Require Import base list gmap strings.
From Stdlib Require Import ZArith Lia.
From S2P Require Import Prelude.

(** ** The language *)

Inductive ty := TVoid | TInt (w : Z) | TPtr (t : ty).

#[export] Instance ty_eq_dec : EqDecision ty.
Proof. solve_decision. Defined.

Definition i8ptr : ty := TPtr (TInt 8).

Abbreviation value := Z.

Inductive instr :=
| Alloca (r : value) (t : ty)
| Store (w : nat) (v p : value) (* [w] bytes of [v] at [p] *)
| BitCast (r p : value) (t : ty)
| CallCheck (p : value) (* call void @checkMemory(i8* p) *)
| Other (r : value) (op : nat) (args : list value).

Inductive terminator := TRet | TBr (l : nat) | TCond (v : value) (l1 l2 : nat).

Record block := mkBlock { b_instrs : list instr; b_term : terminator }.
(** A declaration has no blocks. *)
Record func := mkFn {
  f_name : string;
  f_params : list (value * ty);
  f_ret : ty;
  f_blocks : list block;
}.
(** An array of annotations: what is annotated, a function or something else,
    and the text. *)
Record global := mkGlobal { g_name : string; g_annots : list (option string * string) }.
Record module := mkModule { m_globals : list global; m_fns : list func }.

Inductive alias_result := NoAlias | MayAlias | PartialAlias | MustAlias.

#[export] Instance alias_result_eq_dec : EqDecision alias_result.
Proof. solve_decision. Defined.

(** ** The pass *)

(** The counters of the pass, and the identity of the next new value. *)
Record pass := mkPass {
  modCount : Z;
  skipCount : Z;
  aliasedLocationFound : Z;
  exactLocationMatchFound : Z;
  next_value : value;
}.

Definition count_mod (p : pass) : pass :=
  mkPass (modCount p + 1) (skipCount p) (aliasedLocationFound p) (exactLocationMatchFound p) (next_value p).
Definition count_skip (p : pass) : pass :=
  mkPass (modCount p) (skipCount p + 1) (aliasedLocationFound p) (exactLocationMatchFound p) (next_value p).
Definition count_aliased (p : pass) : pass :=
  mkPass (modCount p) (skipCount p) (aliasedLocationFound p + 1) (exactLocationMatchFound p) (next_value p).
Definition count_exact (p : pass) : pass :=
  mkPass (modCount p) (skipCount p) (aliasedLocationFound p) (exactLocationMatchFound p + 1) (next_value p).
Definition bump_value (p : pass) : pass :=
  mkPass (modCount p) (skipCount p) (aliasedLocationFound p) (exactLocationMatchFound p) (next_value p + 1).

Definition DontAutoLogStr : string := "CXLBUF_DONT_AUTO_LOG".

(** [checkMemory] is declared when the module does not have it. *)
Definition createRuntimeCheckFunc (p : pass) (m : module) : module * pass :=
  if existsb (λ f, String.eqb (f_name f) "checkMemory") (m_fns m) then (m, p)
  else (mkModule (m_globals m) (m_fns m ++ [mkFn "checkMemory" [(next_value p, i8ptr)] TVoid []]),
        bump_value p).

Section Pass.
Context (order : gmap value bool → list (value * bool)).
Context (alias : value → value → alias_result).

(** The loop over the stack values, in the order of the map. *)
Fixpoint stack_search (l : list (value * bool)) (instValue : value) (p : pass) : bool * pass :=
  match l with
  | [] => (false, p)
  | (possibleStackLoc, isLocOnStack) :: l =>
      if isLocOnStack : bool then
        if decide (possibleStackLoc = instValue) then (true, count_exact p)
        else if decide (alias possibleStackLoc instValue = MustAlias) then (true, count_aliased p)
        else stack_search l instValue p
      else stack_search l instValue p
  end.

Definition writesToStackLocation (ptr : value) (stackValues : gmap value bool) (p : pass) : bool * pass :=
  stack_search (order stackValues) ptr p.

(** One instruction: what stands in its place afterwards. *)
Definition analyse_instr (st : gmap value bool * pass) (i : instr) : list instr * (gmap value bool * pass) :=
  let '(stackValues, p) := st in
  match i with
  | Store w v ptr =>
      let '(on_stack, p) := writesToStackLocation ptr stackValues p in
      if on_stack : bool then ([Store w v ptr], (stackValues, count_skip p))
      else
        let cast := next_value p in
        ([BitCast cast ptr i8ptr; CallCheck cast; Store w v ptr], (stackValues, count_mod (bump_value p)))
  | Alloca r t => ([Alloca r t], (<[r := true]> stackValues, p))
  | i => ([i], (stackValues, p))
  end.

Fixpoint analyse_instrs (st : gmap value bool * pass) (l : list instr) : list instr * (gmap value bool * pass) :=
  match l with
  | [] => ([], st)
  | i :: l =>
      let '(a, st) := analyse_instr st i in
      let '(b, st) := analyse_instrs st l in
      (a ++ b, st)
  end.

Fixpoint analyse_blocks (st : gmap value bool * pass) (bs : list block) : list block * (gmap value bool * pass) :=
  match bs with
  | [] => ([], st)
  | b :: bs =>
      let '(is', st) := analyse_instrs st (b_instrs b) in
      let '(bs, st) := analyse_blocks st bs in
      (mkBlock is' (b_term b) :: bs, st)
  end.

Definition analyseFunc (p : pass) (f : func) : func * pass :=
  let '(bs, (_, p)) := analyse_blocks (∅, p) (f_blocks f) in
  (mkFn (f_name f) (f_params f) (f_ret f) bs, p).
End Pass.

(** The functions annotated with [DontAutoLogStr]; without a result when the text
    is on something else, whose name is then read through a null pointer. *)
Fixpoint annotated (l : list (option string * string)) : option (list string) :=
  match l with
  | [] => Some []
  | (F, annotation) :: l =>
      if String.eqb annotation DontAutoLogStr then
        match F with
        | Some f => cons f <$> annotated l
        | None => None
        end
      else annotated l
  end.

Definition getAnnotatedFunctions (m : module) : option (list string) :=
  annotated (List.concat (g_annots <$>
    List.filter (λ g, String.eqb (g_name g) "llvm.global.annotations") (m_globals m))).

Section Run.
Context (order : gmap value bool → list (value * bool)).
(** Each function has an alias analysis of its own. *)
Context (alias : string → value → value → alias_result).

Definition instruments (annotFuncs : list string) (f : func) : bool :=
  negb (bool_decide (length (f_blocks f) = 0%nat)) && bool_decide (f_name f ∉ annotFuncs).

Fixpoint run_functions (annotFuncs : list string) (p : pass) (fs : list func) : list func * pass :=
  match fs with
  | [] => ([], p)
  | f :: fs =>
      let '(f', p) :=
        if instruments annotFuncs f then analyseFunc order (alias (f_name f)) p f else (f, p) in
      let '(fs, p) := run_functions annotFuncs p fs in
      (f' :: fs, p)
  end.

Definition run (p : pass) (m : module) : option (module * pass) :=
  let '(m, p) := createRuntimeCheckFunc p m in
  match getAnnotatedFunctions m with
  | None => None
  | Some annotFuncs =>
      let '(fs, p) := run_functions annotFuncs p (m_fns m) in
      Some (mkModule (m_globals m) fs, p)
  end.
End Run.

(** ** What the pass is to do

    A store is left alone only when its pointer is, or must alias, a stack
    allocation of the function; every other store gets a cast of its pointer, with
    a new name, and a call of the hook.  Nothing else changes. *)
Section Spec.
Context (stack : value → Prop).

Inductive instrumented : value → list instr → value → list instr → Prop :=
| I_nil n : instrumented n [] n []
| I_keep n i l n' l' :
    (∀ w v p, i = Store w v p → stack p) → instrumented n l n' l' →
    instrumented n (i :: l) n' (i :: l')
| I_check n w v p l n' l' :
    instrumented (n + 1) l n' l' →
    instrumented n (Store w v p :: l) n' (BitCast n p i8ptr :: CallCheck n :: Store w v p :: l').

Inductive instrumented_blocks : value → list block → value → list block → Prop :=
| IB_nil n : instrumented_blocks n [] n []
| IB_cons n b bs n1 l n2 bs' :
    instrumented n (b_instrs b) n1 l → instrumented_blocks n1 bs n2 bs' →
    instrumented_blocks n (b :: bs) n2 (mkBlock l (b_term b) :: bs').

Lemma instrumented_app n l1 n1 l1' l2 n2 l2' :
  instrumented n l1 n1 l1' → instrumented n1 l2 n2 l2' → instrumented n (l1 ++ l2) n2 (l1' ++ l2').
Proof. induction 1; simpl; [done|..]; intros; constructor; auto. Qed.

Lemma instrumented_le n l n' l' : instrumented n l n' l' → n ≤ n'.
Proof. induction 1; lia. Qed.

Lemma instrumented_blocks_le n bs n' bs' : instrumented_blocks n bs n' bs' → n ≤ n'.
Proof. induction 1 as [|?????? ? Hi]; [lia|]. apply instrumented_le in Hi. lia. Qed.

Lemma instrumented_blocks_lookup n bs n' bs' k :
  instrumented_blocks n bs n' bs' →
  match bs !! k, bs' !! k with
  | Some b, Some b' => b_term b' = b_term b
      ∧ ∃ m m', n ≤ m ∧ m' ≤ n' ∧ instrumented m (b_instrs b) m' (b_instrs b')
  | None, None => True
  | _, _ => False
  end.
Proof.
  intros Hb. revert k. induction Hb as [|n b bs n1 l n2 bs' Hi Hb IH]; [done|].
  intros [|k]; simpl.
  - split; [done|]. exists n, n1. apply instrumented_blocks_le in Hb. done.
  - specialize (IH k). destruct (bs !! k), (bs' !! k); try done.
    destruct IH as (E & m & m' & ? & ? & ?). split; [done|]. exists m, m'.
    apply instrumented_le in Hi. split_and!; [lia|done..].
Qed.

Lemma instrumented_blocks_length n bs n' bs' :
  instrumented_blocks n bs n' bs' → length bs = length bs'.
Proof. induction 1; simpl; congruence. Qed.

(** Every store that is there afterwards is guarded or goes to the stack. *)
Lemma instrumented_guards n l n' l' :
  instrumented n l n' l' →
  ∀ k w v p, l' !! k = Some (Store w v p) →
    stack p ∨ ∃ j c, k = S (S j) ∧ n ≤ c < n' ∧ l' !! j = Some (BitCast c p i8ptr)
                       ∧ l' !! S j = Some (CallCheck c).
Proof.
  induction 1 as [n|n i l n' l' Hs Hi IH|n w v p l n' l' Hi IH]; [done|..]; intros k w0 v0 p0 Hk.
  - destruct k as [|k]; simpl in Hk.
    + left. injection Hk as ->. by eapply Hs.
    + destruct (IH _ _ _ _ Hk) as [?|(j & c & -> & ?)]; [by left|right]. by exists (S j), c.
  - destruct k as [|[|[|k]]]; simpl in Hk; [done..| |].
    + injection Hk as -> -> ->. right. exists 0%nat, n. apply instrumented_le in Hi. split_and!; [done|lia|lia|done|done].
    + destruct (IH _ _ _ _ Hk) as [?|(j & c & -> & ? & ? & ?)]; [by left|right].
      exists (S (S (S j))), c. split_and!; try done; lia.
Qed.
End Spec.

Lemma instrumented_weaken (stack stack' : value → Prop) n l n' l' :
  (∀ p, stack p → stack' p) → instrumented stack n l n' l' → instrumented stack' n l n' l'.
Proof. intros Hs. induction 1; constructor; eauto. Qed.

Lemma instrumented_blocks_weaken (stack stack' : value → Prop) n bs n' bs' :
  (∀ p, stack p → stack' p) →
  instrumented_blocks stack n bs n' bs' → instrumented_blocks stack' n bs n' bs'.
Proof. intros Hs. induction 1; econstructor; eauto using instrumented_weaken. Qed.

Definition instr_allocas (i : instr) : list value :=
  match i with Alloca r _ => [r] | _ => [] end.
Definition block_allocas (b : block) : list value := b_instrs b ≫= instr_allocas.
Definition allocas (f : func) : list value := f_blocks f ≫= block_allocas.

Definition on_stack (alias : value → value → alias_result) (rs : list value) (p : value) : Prop :=
  ∃ r, r ∈ rs ∧ (r = p ∨ alias r p = MustAlias).

Section Refines.
Context (order : gmap value bool → list (value * bool)) (alias : value → value → alias_result).
Hypothesis order_perm : ∀ m, order m ≡ₚ map_to_list m.

(** The answer does not depend on the order of the traversal. *)
Lemma stack_search_true l ptr p :
  (stack_search alias l ptr p).1 = true ↔ ∃ r, (r, true) ∈ l ∧ (r = ptr ∨ alias r ptr = MustAlias).
Proof.
  induction l as [|[r b] l IH]; simpl.
  { split; [done|]. intros (? & ?%elem_of_nil & _). done. }
  destruct b; [|rewrite IH; set_solver].
  destruct (decide (r = ptr)); simpl; [set_solver|].
  destruct (decide (alias r ptr = MustAlias)); simpl; [set_solver|]. rewrite IH. set_solver.
Qed.

Lemma stack_search_next l ptr p : next_value (stack_search alias l ptr p).2 = next_value p.
Proof. induction l as [|[r []] l IH]; simpl; [done| |done]. repeat case_decide; done. Qed.

Lemma stack_search_counts l ptr p :
  let p' := (stack_search alias l ptr p).2 in
  modCount p' = modCount p ∧ skipCount p' = skipCount p
  ∧ aliasedLocationFound p' + exactLocationMatchFound p'
    = aliasedLocationFound p + exactLocationMatchFound p
      + (if (stack_search alias l ptr p).1 then 1 else 0).
Proof.
  induction l as [|[r []] l IH]; simpl; [split_and!; lia| |done].
  repeat case_decide; simpl; try done; split_and!; lia.
Qed.

(** [stackValues] holds exactly the allocations seen so far. *)
Definition holds_allocas (sv : gmap value bool) (rs : list value) : Prop :=
  ∀ r, sv !! r = Some true ↔ r ∈ rs.

Lemma writesToStackLocation_spec ptr sv rs p :
  holds_allocas sv rs →
  (writesToStackLocation order alias ptr sv p).1 = true ↔ on_stack alias rs ptr.
Proof.
  intros Hsv. unfold writesToStackLocation. rewrite stack_search_true. unfold on_stack.
  apply exist_proper. intros r. rewrite order_perm, elem_of_map_to_list, (Hsv r). done.
Qed.

(** The counters: each store is counted once, and a skipped one was found on the
    stack in one of the two ways. *)
Definition tallied (p : pass) : Z * Z :=
  (modCount p + skipCount p, skipCount p - (aliasedLocationFound p + exactLocationMatchFound p)).

Definition is_store (i : instr) : bool := match i with Store _ _ _ => true | _ => false end.
Definition stores (l : list instr) : Z := Z.of_nat (length (List.filter is_store l)).

Lemma stores_app l k : stores (l ++ k) = stores l + stores k.
Proof. unfold stores. rewrite List.filter_app, length_app. lia. Qed.

Lemma analyse_instr_spec sv p i rs :
  holds_allocas sv rs →
  let '(l', (sv', p')) := analyse_instr order alias (sv, p) i in
  instrumented (on_stack alias rs) (next_value p) [i] (next_value p') l'
  ∧ holds_allocas sv' (rs ++ instr_allocas i)
  ∧ tallied p' = (modCount p + skipCount p + stores [i], (tallied p).2)
  ∧ modCount p' - modCount p = next_value p' - next_value p.
Proof.
  intros Hsv. destruct i as [r t|w v ptr|r q t|q|r o args]; simpl.
  2:{ pose proof (writesToStackLocation_spec ptr sv rs p Hsv) as Hw.
      pose proof (stack_search_next (order sv) ptr p) as Hn.
      pose proof (stack_search_counts (order sv) ptr p) as Hc.
      unfold writesToStackLocation in *.
      destruct (stack_search alias (order sv) ptr p) as [[] p1]; simpl in *;
        destruct Hc as (Hc1 & Hc2 & Hc3); rewrite app_nil_r.
      - split_and!; [rewrite Hn; apply I_keep; [intros ? ? ? [= -> -> ->]; by apply Hw|constructor]
                    |done|unfold tallied; simpl; f_equal; unfold stores; simpl; lia|lia].
      - split_and!; [rewrite Hn; apply I_check; constructor
                    |done|unfold tallied; simpl; f_equal; unfold stores; simpl; lia|lia]. }
  1:{ split_and!; [apply I_keep; [done|constructor]| |unfold tallied, stores; simpl; f_equal; lia|lia].
      intros r'. destruct (decide (r' = r)) as [->|Hr].
      - rewrite lookup_insert_eq. set_solver.
      - rewrite lookup_insert_ne by done. rewrite (Hsv r'). set_solver. }
  all: rewrite app_nil_r; split_and!;
    [apply I_keep; [done|constructor]|done|unfold tallied, stores; simpl; f_equal; lia|lia].
Qed.

Lemma on_stack_mono rs rs' p : on_stack alias rs p → on_stack alias (rs ++ rs') p.
Proof. intros (r & ? & ?). exists r. set_solver. Qed.

Lemma on_stack_mono_r rs rs' p : on_stack alias rs' p → on_stack alias (rs ++ rs') p.
Proof. intros (r & ? & ?). exists r. set_solver. Qed.

Lemma analyse_instrs_spec l : ∀ sv p rs,
  holds_allocas sv rs →
  let '(l', (sv', p')) := analyse_instrs order alias (sv, p) l in
  instrumented (on_stack alias (rs ++ (l ≫= instr_allocas))) (next_value p) l (next_value p') l'
  ∧ holds_allocas sv' (rs ++ (l ≫= instr_allocas))
  ∧ tallied p' = ((tallied p).1 + stores l, (tallied p).2)
  ∧ modCount p' - modCount p = next_value p' - next_value p.
Proof.
  induction l as [|i l IH]; intros sv p rs Hsv; cbn [analyse_instrs mbind list_bind].
  { rewrite app_nil_r. split_and!; [constructor|done|unfold tallied, stores; simpl; f_equal; lia|lia]. }
  pose proof (analyse_instr_spec sv p i rs Hsv) as Hi.
  destruct (analyse_instr order alias (sv, p) i) as [a [sv1 p1]].
  destruct Hi as (Hi & Hsv1 & Ht1 & Hm1). specialize (IH sv1 p1 _ Hsv1).
  destruct (analyse_instrs order alias (sv1, p1) l) as [k [sv2 p2]].
  destruct IH as (Hl & Hsv2 & Ht2 & Hm2). rewrite <-(assoc_L (++)) in Hl, Hsv2. split_and!; [|done| |lia].
  - change (i :: l) with ([i] ++ l). eapply instrumented_app; [|exact Hl].
    eapply instrumented_weaken; [|exact Hi]. intros q. apply on_stack_mono.
  - rewrite Ht2, Ht1. simpl. change (i :: l) with ([i] ++ l). rewrite stores_app. f_equal; lia.
Qed.

Lemma analyse_blocks_spec bs : ∀ sv p rs,
  holds_allocas sv rs →
  let '(bs', (sv', p')) := analyse_blocks order alias (sv, p) bs in
  instrumented_blocks (on_stack alias (rs ++ (bs ≫= block_allocas))) (next_value p) bs (next_value p') bs'
  ∧ tallied p' = ((tallied p).1 + stores (bs ≫= b_instrs), (tallied p).2)
  ∧ modCount p' - modCount p = next_value p' - next_value p.
Proof.
  induction bs as [|b bs IH]; intros sv p rs Hsv; cbn [analyse_blocks mbind list_bind].
  { rewrite app_nil_r. split_and!; [constructor|unfold tallied, stores; simpl; f_equal; lia|lia]. }
  pose proof (analyse_instrs_spec (b_instrs b) sv p rs Hsv) as Hi.
  destruct (analyse_instrs order alias (sv, p) (b_instrs b)) as [a [sv1 p1]].
  destruct Hi as (Hi & Hsv1 & Ht1 & Hm1). specialize (IH sv1 p1 _ Hsv1).
  destruct (analyse_blocks order alias (sv1, p1) bs) as [k [sv2 p2]].
  destruct IH as (Hl & Ht2 & Hm2). rewrite <-(assoc_L (++)) in Hl. split_and!; [| |lia].
  - econstructor; [|exact Hl]. eapply instrumented_weaken; [|exact Hi].
    intros q. change (b_instrs b ≫= instr_allocas) with (block_allocas b).
    rewrite (assoc_L (++)). apply on_stack_mono.
  - rewrite Ht2, Ht1, stores_app. simpl. f_equal; lia.
Qed.

(** [analyseFunc] does what the specification asks. *)
Lemma analyseFunc_spec p f :
  let '(f', p') := analyseFunc order alias p f in
  f_name f' = f_name f ∧ f_params f' = f_params f ∧ f_ret f' = f_ret f
  ∧ instrumented_blocks (on_stack alias (allocas f)) (next_value p) (f_blocks f) (next_value p') (f_blocks f')
  ∧ tallied p' = ((tallied p).1 + stores (f_blocks f ≫= b_instrs), (tallied p).2)
  ∧ modCount p' - modCount p = next_value p' - next_value p.
Proof.
  unfold analyseFunc.
  pose proof (analyse_blocks_spec (f_blocks f) ∅ p []) as Hb.
  destruct (analyse_blocks order alias (∅, p) (f_blocks f)) as [bs' [sv' p']].
  destruct Hb as (Hb & Ht & Hm); [intros r; rewrite lookup_empty; set_solver|done].
Qed.
End Refines.

(** ** Values and names *)

Definition instr_defs (i : instr) : list value :=
  match i with Alloca r _ | BitCast r _ _ | Other r _ _ => [r] | Store _ _ _ | CallCheck _ => [] end.
Definition instr_uses (i : instr) : list value :=
  match i with
  | Alloca _ _ => []
  | Store _ v p => [v; p]
  | BitCast _ p _ | CallCheck p => [p]
  | Other _ _ args => args
  end.
Definition term_uses (t : terminator) : list value := match t with TCond v _ _ => [v] | _ => [] end.

Definition block_defs (b : block) : list value := b_instrs b ≫= instr_defs.
Definition func_defs (f : func) : list value := (f_params f).*1 ++ (f_blocks f ≫= block_defs).

(** All values of a function are older than [n]. *)
Definition block_below (n : value) (b : block) : Prop :=
  (∀ i, i ∈ b_instrs b → ∀ v, v ∈ instr_defs i ++ instr_uses i → v < n)
  ∧ ∀ v, v ∈ term_uses (b_term b) → v < n.
Definition below (n : value) (f : func) : Prop :=
  (∀ v, v ∈ (f_params f).*1 → v < n) ∧ ∀ b, b ∈ f_blocks f → block_below n b.

Lemma below_Forall n f :
  below n f ↔ Forall (λ v, v < n) (f_params f).*1
    ∧ Forall (λ b, Forall (λ i, Forall (λ v, v < n) (instr_defs i ++ instr_uses i)) (b_instrs b)
                 ∧ Forall (λ v, v < n) (term_uses (b_term b))) (f_blocks f).
Proof.
  unfold below, block_below. setoid_rewrite Forall_forall. setoid_rewrite Forall_forall.
  setoid_rewrite Forall_forall. done.
Qed.

#[export] Instance below_dec n f : Decision (below n f).
Proof.
  refine (match decide _ with
          | left h => left (proj2 (below_Forall n f) h)
          | right h => right (λ b, h (proj1 (below_Forall n f) b))
          end).
Defined.

Lemma block_below_le n n' b : n ≤ n' → block_below n b → block_below n' b.
Proof. intros Hn [H1 H2]. split; intros; [eapply Z.lt_le_trans; [by eapply H1|done]|]. pose proof (H2 v H). lia. Qed.

Lemma below_le n n' f : n ≤ n' → below n f → below n' f.
Proof.
  intros Hn [H1 H2]. split; intros x Hx; [pose proof (H1 x Hx); lia|].
  by eapply block_below_le, H2.
Qed.

Lemma below_defs n bs v : (∀ b, b ∈ bs → block_below n b) → v ∈ (bs ≫= block_defs) → v < n.
Proof.
  intros Hb. rewrite list_elem_of_bind. intros (b & Hv & Hin).
  unfold block_defs in Hv. rewrite list_elem_of_bind in Hv. destruct Hv as (i & Hv & Hi).
  destruct (Hb b Hin) as [H1 _]. apply (H1 i Hi). set_solver.
Qed.

(** Take the new instructions out. *)
Definition is_new (n : value) (i : instr) : bool :=
  match i with BitCast r _ _ => n <=? r | CallCheck p => n <=? p | _ => false end.
Definition erase (n : value) (l : list instr) : list instr := List.filter (λ i, negb (is_new n i)) l.
Definition erase_block (n : value) (b : block) : block := mkBlock (erase n (b_instrs b)) (b_term b).

Section Names.
Context (stack : value → Prop).

Lemma instrumented_erase n0 n l n' l' :
  instrumented stack n l n' l' → n0 ≤ n →
  (∀ i, i ∈ l → ∀ v, v ∈ instr_defs i ++ instr_uses i → v < n0) → erase n0 l' = l.
Proof.
  intros Hi Hn. induction Hi as [n|n i l n' l' Hs Hi IH|n w v p l n' l' Hi IH]; intros Hb; [done|..].
  - simpl. assert (is_new n0 i = false) as ->.
    { pose proof (Hb i ltac:(set_solver)) as Hv.
      destruct i; simpl in *; try done; apply Z.leb_gt, Hv; set_solver. }
    simpl. f_equal. apply IH; [done|]. set_solver.
  - simpl. rewrite (proj2 (Z.leb_le _ _) Hn). simpl. f_equal. apply IH; [lia|set_solver].
Qed.

Lemma instrumented_blocks_erase n0 n bs n' bs' :
  instrumented_blocks stack n bs n' bs' → n0 ≤ n → (∀ b, b ∈ bs → block_below n0 b) →
  erase_block n0 <$> bs' = bs.
Proof.
  intros Hi Hn. induction Hi as [n|n b bs n1 l n2 bs' Hi Hbs IH]; intros Hb; [done|].
  simpl. apply instrumented_le in Hi as Hle. f_equal; [|apply IH; [lia|set_solver]].
  unfold erase_block. simpl. rewrite (instrumented_erase n0 n (b_instrs b) n1 l); [by destruct b|done|done|].
  apply (Hb b). set_solver.
Qed.

Lemma instrumented_defs n l n' l' :
  instrumented stack n l n' l' →
  (l' ≫= instr_defs) ≡ₚ (l ≫= instr_defs) ++ seqZ n (n' - n).
Proof.
  induction 1 as [n|n i l n' l' Hs Hi IH|n w v p l n' l' Hi IH]; simpl.
  - by rewrite Z.sub_diag.
  - by rewrite IH, (assoc_L (++)).
  - apply instrumented_le in Hi. rewrite IH. rewrite (seqZ_cons n) by lia.
    replace (Z.pred (n' - n)) with (n' - (n + 1)) by lia. rewrite <-Z.add_1_r.
    by rewrite Permutation_middle.
Qed.

Lemma instrumented_blocks_defs n bs n' bs' :
  instrumented_blocks stack n bs n' bs' →
  (bs' ≫= block_defs) ≡ₚ (bs ≫= block_defs) ++ seqZ n (n' - n).
Proof.
  induction 1 as [n|n b bs n1 l n2 bs' Hi Hbs IH]; simpl.
  - by rewrite Z.sub_diag.
  - apply instrumented_le in Hi as H1. apply instrumented_blocks_le in Hbs as H2.
    unfold block_defs at 1. simpl. rewrite (instrumented_defs _ _ _ _ Hi), IH.
    replace (n2 - n) with ((n1 - n) + (n2 - n1)) by lia. rewrite seqZ_app by lia.
    replace (n + (n1 - n)) with n1 by lia. fold (block_defs b).
    rewrite <-!(assoc_L (++)). apply Permutation_app_head.
    rewrite !(assoc_L (++)). apply Permutation_app_tail, Permutation_app_comm.
Qed.
End Names.

(** ** Well-formed functions

    Values have one type and one definition, and a value is used only where it is
    available: defined before in its block, or available on entry to it ([av]),
    which the predecessors have to provide.  The types of the opaque instructions
    are a parameter. *)
Section Typing.
Context (op_type : nat → list ty → option ty).

Definition is_ptr (t : ty) : bool := match t with TPtr _ => true | _ => false end.
Definition uses_ok (D : gset value) (vs : list value) : bool := forallb (λ v, bool_decide (v ∈ D)) vs.

Definition type_instr (Γ : value → ty) (i : instr) : bool :=
  match i with
  | Alloca r t => bool_decide (Γ r = TPtr t)
  | Store w v p => bool_decide (Γ p = TPtr (Γ v))
  | BitCast r p t => is_ptr (Γ p) && is_ptr t && bool_decide (Γ r = t)
  | CallCheck p => bool_decide (Γ p = i8ptr)
  | Other r op args => bool_decide (op_type op (map Γ args) = Some (Γ r))
  end.

Fixpoint type_instrs (Γ : value → ty) (D : gset value) (l : list instr) : option (gset value) :=
  match l with
  | [] => Some D
  | i :: l =>
      if type_instr Γ i && uses_ok D (instr_uses i)
      then type_instrs Γ (list_to_set (instr_defs i) ∪ D) l else None
  end.

Definition edges_ok (av : nat → gset value) (nblocks : nat) (D : gset value) (t : terminator) : Prop :=
  match t with
  | TRet => True
  | TBr l => (l < nblocks)%nat ∧ av l ⊆ D
  | TCond v l1 l2 => v ∈ D ∧ (l1 < nblocks)%nat ∧ av l1 ⊆ D ∧ (l2 < nblocks)%nat ∧ av l2 ⊆ D
  end.

Record wf_func (f : func) (Γ : value → ty) (av : nat → gset value) : Prop := {
  wf_defs : NoDup (func_defs f);
  wf_params v t : (v, t) ∈ f_params f → Γ v = t;
  wf_entry : av 0%nat ⊆ list_to_set (f_params f).*1;
  wf_blocks k b : f_blocks f !! k = Some b →
    ∃ D, type_instrs Γ (av k) (b_instrs b) = Some D ∧ edges_ok av (length (f_blocks f)) D (b_term b);
}.

Lemma edges_ok_mono av n D D' t : D ⊆ D' → edges_ok av n D t → edges_ok av n D' t.
Proof. intros HD. destruct t; simpl; [done|set_solver..]. Qed.

(** The types once the casts are there. *)
Definition with_casts (n : value) (Γ : value → ty) : value → ty :=
  λ v, if v <? n then Γ v else i8ptr.

Lemma with_casts_old n Γ v : v < n → with_casts n Γ v = Γ v.
Proof. intros Hv. unfold with_casts. by rewrite (proj2 (Z.ltb_lt _ _) Hv). Qed.

Lemma with_casts_new n Γ v : n ≤ v → with_casts n Γ v = i8ptr.
Proof. intros Hv. unfold with_casts. by rewrite (proj2 (Z.ltb_ge _ _) Hv). Qed.

Lemma type_instr_with_casts n Γ i :
  (∀ v, v ∈ instr_defs i ++ instr_uses i → v < n) →
  type_instr (with_casts n Γ) i = type_instr Γ i.
Proof.
  intros Hv.
  assert (∀ v, v ∈ instr_defs i ++ instr_uses i → with_casts n Γ v = Γ v) as HE.
  { intros v Hin. apply with_casts_old, Hv, Hin. }
  destruct i as [r t|w v p|r p t|p|r o args]; simpl in *;
    rewrite ?(HE r), ?(HE v), ?(HE p) by set_solver; try done.
  do 2 f_equal. apply bool_decide_ext. f_equiv. f_equal. apply map_ext_in. intros v Hv'.
  apply HE. right. by apply list_elem_of_In.
Qed.

Lemma uses_ok_mono D D' vs : D ⊆ D' → uses_ok D vs = true → uses_ok D' vs = true.
Proof.
  intros HD. unfold uses_ok. rewrite !forallb_forall. intros Hv v Hin.
  specialize (Hv v Hin). rewrite bool_decide_eq_true in *. set_solver.
Qed.

Lemma instrumented_typed stack Γ n0 n l n' l' :
  instrumented stack n l n' l' → n0 ≤ n →
  (∀ i, i ∈ l → ∀ v, v ∈ instr_defs i ++ instr_uses i → v < n0) →
  ∀ D D1 D', D ⊆ D' → type_instrs Γ D l = Some D1 →
  ∃ D1', type_instrs (with_casts n0 Γ) D' l' = Some D1' ∧ D1 ⊆ D1'.
Proof.
  intros Hi Hn. induction Hi as [n|n i l n' l' Hs Hi IH|n w v p l n' l' Hi IH]; intros Hb D D1 D' HD Ht.
  - simpl in *. injection Ht as <-. eauto.
  - simpl in *. destruct (type_instr Γ i) eqn:Ei; [|done].
    destruct (uses_ok D (instr_uses i)) eqn:Eu; [|done]. simpl in Ht.
    rewrite type_instr_with_casts, Ei, (uses_ok_mono D D') by (done || set_solver). simpl.
    eapply (IH Hn); [set_solver| |exact Ht]. set_solver.
  - cbn [type_instrs] in *. destruct (type_instr Γ (Store w v p)) eqn:Ei; [|done].
    destruct (uses_ok D (instr_uses (Store w v p))) eqn:Eu; [|done]. simpl andb in Ht.
    pose proof (Hb (Store w v p) ltac:(set_solver)) as Hvp.
    assert (v < n0 ∧ p < n0) as [Hv Hp] by (split; apply Hvp; set_solver).
    rewrite (type_instr_with_casts n0 Γ (Store w v p)) by done. rewrite Ei.
    simpl in Ei, Eu |- *. rewrite bool_decide_eq_true in Ei.
    rewrite (with_casts_old n0 Γ p), (with_casts_new n0 Γ n), Ei by done. simpl.
    rewrite !andb_true_iff, !bool_decide_eq_true in Eu.
    rewrite !bool_decide_eq_true_2 by (done || set_solver). simpl.
    eapply IH; [lia|set_solver| |exact Ht]. set_solver.
Qed.
End Typing.

(** ** The pass on a module *)

(** [f] is marked to be left alone. *)
Definition marked (m : module) (f : func) : Prop :=
  ∃ g, g ∈ m_globals m ∧ g_name g = "llvm.global.annotations"%string
     ∧ (Some (f_name f), DontAutoLogStr) ∈ g_annots g.

Lemma annotated_elem l fs f : annotated l = Some fs → f ∈ fs ↔ (Some f, DontAutoLogStr) ∈ l.
Proof.
  revert fs. induction l as [|[F a] l IH]; intros fs E; simpl in E.
  { injection E as <-. set_solver. }
  destruct (String.eqb_spec a DontAutoLogStr) as [->|Ha].
  - destruct F as [f0|]; [|done]. apply fmap_Some in E as (fs0 & E0 & ->).
    rewrite !elem_of_cons, (IH fs0 E0). naive_solver.
  - rewrite elem_of_cons, (IH fs E). naive_solver.
Qed.

Lemma getAnnotatedFunctions_marked m fs f :
  getAnnotatedFunctions m = Some fs → f_name f ∈ fs ↔ marked m f.
Proof.
  intros E. rewrite (annotated_elem _ _ _ E). unfold marked.
  rewrite list_elem_of_In, in_concat. split.
  - intros (x & Hx & Hin). apply list_elem_of_In, list_elem_of_fmap in Hx as (g & -> & Hg).
    apply list_elem_of_In, filter_In in Hg as [Hg Hn]. exists g.
    rewrite !list_elem_of_In. split_and!; [done|by apply String.eqb_eq|done].
  - intros (g & Hg & Hn & Hin). exists (g_annots g). rewrite <-!list_elem_of_In. split; [|done].
    apply list_elem_of_fmap. exists g. split; [done|]. rewrite list_elem_of_In. apply filter_In.
    rewrite <-list_elem_of_In. split; [done|by apply String.eqb_eq].
Qed.

Section Module.
Context (order : gmap value bool → list (value * bool)).
Context (alias : string → value → value → alias_result).
Hypothesis order_perm : ∀ m, order m ≡ₚ map_to_list m.

(** What one function becomes. *)
Record processed (annotFuncs : list string) (n0 : value) (f f' : func) : Prop := {
  pr_name : f_name f' = f_name f;
  pr_params : f_params f' = f_params f;
  pr_ret : f_ret f' = f_ret f;
  pr_skip : instruments annotFuncs f = false → f' = f;
  pr_do : instruments annotFuncs f = true →
    ∃ n n', n0 ≤ n
      ∧ instrumented_blocks (on_stack (alias (f_name f)) (allocas f)) n (f_blocks f) n' (f_blocks f');
}.

Lemma processed_le annotFuncs n n' f f' :
  n ≤ n' → processed annotFuncs n' f f' → processed annotFuncs n f f'.
Proof. intros Hn [H1 H2 H3 H4 H5]. split; try done. intros Hi. destruct (H5 Hi) as (k & k' & ? & ?). exists k, k'. split; [lia|done]. Qed.

Lemma run_functions_spec annotFuncs fs : ∀ p,
  let '(fs', p') := run_functions order alias annotFuncs p fs in
  Forall2 (processed annotFuncs (next_value p)) fs fs'
  ∧ modCount p' - modCount p = next_value p' - next_value p ∧ next_value p ≤ next_value p'
  ∧ tallied p' = ((tallied p).1
      + stores (List.filter (instruments annotFuncs) fs ≫= λ f, f_blocks f ≫= b_instrs), (tallied p).2).
Proof.
  induction fs as [|f fs IH]; intros p; cbn [run_functions List.filter].
  { split_and!; [done|lia|lia|]. unfold tallied, stores. simpl. f_equal. lia. }
  destruct (instruments annotFuncs f) eqn:Ei.
  - pose proof (analyseFunc_spec order (alias (f_name f)) order_perm p f) as Hf.
    destruct (analyseFunc order (alias (f_name f)) p f) as [f' p1].
    destruct Hf as (Hn & Hps & Hr & Hb & Ht & Hm). specialize (IH p1).
    destruct (run_functions order alias annotFuncs p1 fs) as [fs' p2].
    destruct IH as (HF & Hm2 & Hle & Ht2). apply instrumented_blocks_le in Hb as Hle1.
    split_and!; [|lia|lia|].
    + constructor; [|eapply Forall2_impl; [exact HF|]; intros; eapply processed_le; done].
      split; try done; [by rewrite Ei|]. intros _. by exists (next_value p), (next_value p1).
    + cbn [mbind list_bind]. rewrite Ht2, Ht, stores_app. simpl. f_equal. lia.
  - specialize (IH p). destruct (run_functions order alias annotFuncs p fs) as [fs' p2].
    destruct IH as (HF & Hm2 & Hle & Ht2). split_and!; [|done..].
    constructor; [|done]. split; try done. by rewrite Ei.
Qed.

Lemma run_spec p m m' p' :
  run order alias p m = Some (m', p') →
  ∃ annotFuncs, getAnnotatedFunctions m = Some annotFuncs
    ∧ m_globals m' = m_globals m
    ∧ Forall2 (processed annotFuncs (next_value p)) (m_fns (createRuntimeCheckFunc p m).1) (m_fns m').
Proof.
  unfold run. intros E.
  assert (m_globals (createRuntimeCheckFunc p m).1 = m_globals m
    ∧ next_value p ≤ next_value (createRuntimeCheckFunc p m).2) as [Hg Hle].
  { unfold createRuntimeCheckFunc. destruct (existsb _ _); simpl; split; done || lia. }
  destruct (createRuntimeCheckFunc p m) as [m1 p1]. simpl in *.
  assert (getAnnotatedFunctions m1 = getAnnotatedFunctions m) as Ha
    by (unfold getAnnotatedFunctions; by rewrite Hg).
  rewrite Ha in E. destruct (getAnnotatedFunctions m) as [annot|]; [|done].
  pose proof (run_functions_spec annot (m_fns m1) p1) as Hr.
  destruct (run_functions order alias annot p1 (m_fns m1)) as [fs' p2]. injection E as <- <-.
  exists annot. split_and!; [done|done|]. destruct Hr as [HF _].
  eapply Forall2_impl; [exact HF|]. intros. by eapply processed_le.
Qed.

(** The functions the module had keep their places. *)
Lemma createRuntimeCheckFunc_lookup p m k f :
  m_fns m !! k = Some f → m_fns (createRuntimeCheckFunc p m).1 !! k = Some f.
Proof.
  intros Hk. unfold createRuntimeCheckFunc. destruct (existsb _ _); simpl; [done|].
  by apply lookup_app_l_Some.
Qed.

Lemma run_lookup p m m' p' k f :
  run order alias p m = Some (m', p') → m_fns m !! k = Some f →
  ∃ annotFuncs f', getAnnotatedFunctions m = Some annotFuncs ∧ m_fns m' !! k = Some f'
    ∧ processed annotFuncs (next_value p) f f'.
Proof.
  intros Hr Hk. destruct (run_spec _ _ _ _ Hr) as (annot & Ha & _ & HF).
  apply (createRuntimeCheckFunc_lookup p) in Hk.
  destruct (Forall2_lookup_l _ _ _ _ _ HF Hk) as (f' & Hf' & Hp). by exists annot, f'.
Qed.

Lemma instruments_spec m annotFuncs f :
  getAnnotatedFunctions m = Some annotFuncs →
  instruments annotFuncs f = true ↔ f_blocks f ≠ [] ∧ ¬ marked m f.
Proof.
  intros Ha. unfold instruments. rewrite andb_true_iff, negb_true_iff, bool_decide_eq_false, bool_decide_eq_true.
  rewrite (getAnnotatedFunctions_marked _ _ _ Ha). destruct (f_blocks f); simpl; naive_solver lia.
Qed.
End Module.

(** ** Theorems *)

Section Theorems.
Context (order : gmap value bool → list (value * bool)).
Context (alias : string → value → value → alias_result).
Context (p : pass) (m m' : module) (p' : pass).
Hypothesis order_perm : ∀ sv, order sv ≡ₚ map_to_list sv.
(** [next_value p] is a name the module does not use. *)
Hypothesis names_below : ∀ f, f ∈ m_fns m → below (next_value p) f.
Hypothesis ran : run order alias p m = Some (m', p').

(** C16: The pass leaves marked functions and declarations as they are.  In
    every other function it only adds instructions: without the casts and hook
    calls it added, the function is the one it was, and every store that is
    then in the function comes right after a cast of its own pointer and a call
    of the hook on that cast, unless its pointer is, or must alias, a stack
    allocation of the function. *)
Theorem run_guards_every_store k f :
  m_fns m !! k = Some f →
  ∃ f', m_fns m' !! k = Some f' ∧ f_name f' = f_name f
    ∧ (f_blocks f = [] ∨ marked m f → f' = f)
    ∧ (f_blocks f ≠ [] → ¬ marked m f →
         erase_block (next_value p) <$> f_blocks f' = f_blocks f
         ∧ ∀ b i w v ptr, b ∈ f_blocks f' → b_instrs b !! i = Some (Store w v ptr) →
             on_stack (alias (f_name f)) (allocas f) ptr
             ∨ ∃ j c, i = S (S j) ∧ next_value p ≤ c ∧ b_instrs b !! j = Some (BitCast c ptr i8ptr)
                      ∧ b_instrs b !! S j = Some (CallCheck c)).
Proof using order_perm names_below ran.
  intros Hk. destruct (run_lookup order alias order_perm p m m' p' k f ran Hk) as (annot & f' & Ha & Hk' & Hp).
  pose proof (instruments_spec m annot f Ha) as Hi.
  exists f'. split_and!; [done|apply Hp| |].
  - intros Hor. apply (pr_skip _ _ _ _ _ Hp). apply not_true_is_false. rewrite Hi. naive_solver.
  - intros H1 H2. destruct (pr_do _ _ _ _ _ Hp) as (n & n' & Hn & Hb); [by apply Hi|].
    pose proof (names_below f) as [_ Hbl]; [by eapply list_elem_of_lookup_2|].
    split; [by eapply instrumented_blocks_erase|].
    intros b i w v ptr [kb Hkb]%list_elem_of_lookup Hst.
    pose proof (instrumented_blocks_lookup _ _ _ _ _ kb Hb) as Hl. rewrite Hkb in Hl.
    destruct (f_blocks f !! kb) as [b0|]; [|done]. destruct Hl as (_ & q & q' & Hq & _ & Hins).
    destruct (instrumented_guards _ _ _ _ _ Hins i w v ptr Hst) as [?|(j & c & -> & ? & ? & ?)]; [by left|].
    right. exists j, c. split_and!; [done|lia|done..].
Qed.

(** C17: The pass keeps functions well formed: values keep one definition and
    the types they had, the new casts are i8 pointers as the hook wants them,
    and everything is used only where it is available. *)
Theorem run_keeps_functions_typed op_type k f Γ av :
  m_fns m !! k = Some f → wf_func op_type f Γ av →
  ∃ f', m_fns m' !! k = Some f' ∧ ∃ Γ', wf_func op_type f' Γ' av ∧ ∀ v, v < next_value p → Γ' v = Γ v.
Proof using order_perm names_below ran.
  intros Hk Hwf. destruct (run_lookup order alias order_perm p m m' p' k f ran Hk) as (annot & f' & _ & Hk' & Hp).
  exists f'. split; [done|].
  destruct (instruments annot f) eqn:Ei.
  2:{ rewrite (pr_skip _ _ _ _ _ Hp Ei). by exists Γ. }
  destruct (pr_do _ _ _ _ _ Hp Ei) as (n & n' & Hn & Hb).
  pose proof (names_below f) as [Hps Hbl]; [by eapply list_elem_of_lookup_2|].
  exists (with_casts (next_value p) Γ). split; [|intros v; apply with_casts_old].
  destruct Hwf as [Hd Hpar Hen Hbs]. split; rewrite ?(pr_params _ _ _ _ _ Hp).
  - unfold func_defs. rewrite (pr_params _ _ _ _ _ Hp), (instrumented_blocks_defs _ _ _ _ _ Hb), (assoc_L (++)).
    apply NoDup_app. split_and!; [done| |apply NoDup_seqZ]. intros x Hx Hs%elem_of_seqZ.
    assert (x < next_value p) as Hlt; [|lia].
    apply elem_of_app in Hx as [Hx|Hx]; [by apply Hps|]. by eapply below_defs.
  - intros v t Hv. rewrite with_casts_old; [by apply Hpar|]. apply Hps, list_elem_of_fmap. by exists (v, t).
  - done.
  - intros kb b' Hkb'. pose proof (instrumented_blocks_lookup _ _ _ _ _ kb Hb) as Hl. rewrite Hkb' in Hl.
    destruct (f_blocks f !! kb) as [b|] eqn:Hkb; [|done]. destruct Hl as (Et & q & q' & Hq & _ & Hins).
    destruct (Hbs kb b Hkb) as (D & HD & Hed).
    destruct (instrumented_typed op_type _ Γ (next_value p) _ _ _ _ Hins) with (D := av kb) (D1 := D) (D' := av kb)
      as (D' & HD' & Hsub); [lia|by apply Hbl; eapply list_elem_of_lookup_2|done|done|].
    exists D'. split; [done|]. rewrite Et, <-(instrumented_blocks_length _ _ _ _ _ Hb).
    by eapply edges_ok_mono.
Qed.
End Theorems.

(** ** A module *)

Module DemoPass.
Definition i64 : ty := TInt 64.

(** [update(p, v)]: a local variable, a second name for it, and two stores to
    the heap. *)
Definition update : func := mkFn "update" [(1, TPtr i64); (2, i64)] TVoid
  [mkBlock [Alloca 3 i64; Store 8 2 3; BitCast 4 3 (TPtr i64); Store 8 2 4; Store 8 2 1; Other 5 0 [2]]
     (TCond 5 1 2);
   mkBlock [Store 8 2 1] TRet;
   mkBlock [] TRet].
Definition raw : func := mkFn "raw" [(6, TPtr i64); (7, i64)] TVoid [mkBlock [Store 8 7 6] TRet].
Definition extern : func := mkFn "malloc" [(8, i64)] i8ptr [].

Definition annots : global := mkGlobal "llvm.global.annotations"
  [(Some "update", "hot"); (Some "raw", DontAutoLogStr)]%string.
Definition m0 : module := mkModule [annots] [update; raw; extern].
Definition p0 : pass := mkPass 0 0 0 0 10.

Definition alias (f : string) (a b : value) : alias_result :=
  if bool_decide (a = 3 ∧ b = 4) then MustAlias else MayAlias.

Definition update' : func := mkFn "update" [(1, TPtr i64); (2, i64)] TVoid
  [mkBlock [Alloca 3 i64; Store 8 2 3; BitCast 4 3 (TPtr i64); Store 8 2 4;
            BitCast 11 1 i8ptr; CallCheck 11; Store 8 2 1; Other 5 0 [2]]
     (TCond 5 1 2);
   mkBlock [BitCast 12 1 i8ptr; CallCheck 12; Store 8 2 1] TRet;
   mkBlock [] TRet].
Definition m1 : module :=
  mkModule [annots] [update'; raw; extern; mkFn "checkMemory" [(10, i8ptr)] TVoid []].

Example run_m0 : run map_to_list alias p0 m0 = Some (m1, mkPass 2 2 1 1 13).
Proof. vm_compute. reflexivity. Qed.

(** An annotation with the text on something that is not a function. *)
Example annotated_variable :
  run map_to_list alias p0 (mkModule [mkGlobal "llvm.global.annotations" [(None, DontAutoLogStr)]] [])
  = None.
Proof. vm_compute. reflexivity. Qed.

Definition op_type (op : nat) (ts : list ty) : option ty := Some (TInt 1).
Definition types (v : value) : ty :=
  if bool_decide (v ∈ [1; 3; 4; 6]) then TPtr i64 else if bool_decide (v = 5) then TInt 1 else i64.
Definition avail (k : nat) : gset value := match k with 2%nat => ∅ | _ => {[1; 2]} end.

Lemma update_typed : wf_func op_type update types avail.
Proof.
  split.
  - vm_compute. apply (bool_decide_unpack _). vm_compute. exact I.
  - intros v t Hv. assert ((v = 1 ∧ t = TPtr i64) ∨ (v = 2 ∧ t = i64)) as [[-> ->]|[-> ->]] by set_solver;
      vm_compute; reflexivity.
  - apply (bool_decide_unpack _). vm_compute. exact I.
  - intros [|[|[|k]]] b [= <-].
    + exists {[5; 4; 3; 1; 2]}. split; [|apply (bool_decide_unpack _); vm_compute; exact I].
      vm_compute. reflexivity.
    + exists {[1; 2]}. split; [vm_compute; reflexivity|exact I].
    + exists ∅. split; [vm_compute; reflexivity|exact I].
Qed.

Lemma m0_below f : f ∈ m_fns m0 → below (next_value p0) f.
Proof.
  intros Hf. assert (f = update ∨ f = raw ∨ f = extern) as [-> | [-> | ->]] by set_solver;
    apply (bool_decide_unpack _); vm_compute; exact I.
Qed.

Lemma run_guards_every_store_witness : ∃ f', m_fns m1 !! 0%nat = Some f' ∧ f_name f' = f_name update.
Proof.
  destruct (run_guards_every_store map_to_list alias p0 m0 m1 (mkPass 2 2 1 1 13)
    (λ sv, Permutation_refl _) m0_below run_m0 0 update eq_refl) as (f' & H1 & H2 & _).
  exists f'. split; [exact H1|exact H2].
Defined.

Lemma run_keeps_functions_typed_witness : ∃ f' Γ', m_fns m1 !! 0%nat = Some f' ∧ wf_func op_type f' Γ' avail.
Proof.
  destruct (run_keeps_functions_typed map_to_list alias p0 m0 m1 (mkPass 2 2 1 1 13)
    (λ sv, Permutation_refl _) m0_below run_m0 op_type 0 update types avail eq_refl update_typed)
    as (f' & H1 & Γ' & H2 & _).
  exists f', Γ'. split; [exact H1|exact H2].
Defined.
End DemoPass.
