(* ===== verification/PassSem.v ===== *)
(** * What instrumented functions do

    A semantics for the functions of [Pass], on the state of the library: a store
    writes memory, a call of the hook runs [checkMemory], an opaque instruction
    does what a parameter says.  The pass is correct when a function after the
    pass does what the original would do if every store of it ran behind the
    hook ([OpStore] of [Wrappers]), the assumption under which [Tracking] shows
    snapshots and replay correct. *)

From stdpp Require Import base list gmap strings.
From Stdlib Require Import ZArith Lia.
From S2P Require Import Prelude Memory PMem Log Snapshot Wrappers Tracking Scenario Pass.

(** Equal elements at different places of a concatenation contradict [NoDup]. *)
Section Bind.
Context {A : Type} (g : A → list value).

Lemma NoDup_bind_elem l x : NoDup (l ≫= g) → x ∈ l → NoDup (g x).
Proof.
  induction l as [|y l IH]; simpl; [by intros _ ?%elem_of_nil|].
  intros (H1 & _ & H2)%NoDup_app [->|Hx]%elem_of_cons; [done|by apply IH].
Qed.

Lemma NoDup_bind_inj l x y r :
  NoDup (l ≫= g) → x ∈ l → y ∈ l → r ∈ g x → r ∈ g y → x = y.
Proof.
  induction l as [|z l IH]; simpl; [by intros _ ?%elem_of_nil|].
  intros (_ & Hd & H2)%NoDup_app Hx Hy Hrx Hry.
  assert (∀ u, u ∈ l → r ∈ g u → r ∉ g z) as Hno.
  { intros u Hu Hru Hrz. apply (Hd r Hrz). rewrite list_elem_of_bind. by exists u. }
  apply elem_of_cons in Hx as [->|Hx], Hy as [->|Hy]; try done.
  - by destruct (Hno y).
  - by destruct (Hno x).
  - by apply IH.
Qed.
End Bind.

Section PassSem.
Context {M : Type} `{PMemOps M}.
Context (file_size : string → Z) (real_msync : Z → Z → Z → Z) (cfg : config).
(** The thread, the addresses of the stack allocations, the opaque instructions. *)
Context (thr : nat) (frame : value → Z) (sem : nat → list Z → cmd (sys M) Z).
Implicit Types (s : sys M) (l : list instr).

Abbreviation regs := (gmap value Z).
Abbreviation state := (regs * sys M)%type.

(** One instruction; a value without a definition is a trap.  With [hooked],
    every store runs behind the hook. *)
Definition exec_instr (hooked : bool) (i : instr) (R : regs) : cmd (sys M) regs :=
  match i with
  | Alloca r _ => ret (<[r := frame r]> R)
  | Store w v p =>
      match R !! v, R !! p with
      | Some x, Some a =>
          if hooked then
            let! _ := exec file_size real_msync cfg (OpStore thr a (le_split w x)) in ret R
          else
            do! on_pm (modify (store a (le_split w x))) in ret R
      | _, _ => trap
      end
  | BitCast r p _ => match R !! p with Some a => ret (<[r := a]> R) | None => trap end
  | CallCheck p =>
      match R !! p with
      | Some a => do! checkMemory cfg thr a in ret R
      | None => trap
      end
  | Other r op args =>
      match mapM (λ v, R !! v) args with
      | Some xs => let! x := sem op xs in ret (<[r := x]> R)
      | None => trap
      end
  end.

Fixpoint exec_instrs (hooked : bool) (l : list instr) (R : regs) : cmd (sys M) regs :=
  match l with
  | [] => ret R
  | i :: l => let! R := exec_instr hooked i R in exec_instrs hooked l R
  end.

Lemma exec_instrs_app hooked l k : ∀ R s,
  exec_instrs hooked (l ++ k) R s = bind (exec_instrs hooked l R) (exec_instrs hooked k) s.
Proof.
  induction l as [|i l IH]; intros R s; cbn [exec_instrs app]; [by rewrite bind_ret_l|].
  rewrite bind_assoc. unfold bind. destruct (exec_instr hooked i R s); [|done..]. apply IH.
Qed.

(** Where a terminator goes: [None] is a return, a condition without a value
    is a trap. *)
Definition target (t : terminator) (R : regs) : option (option nat) :=
  match t with
  | TRet => Some None
  | TBr k => Some (Some k)
  | TCond v k1 k2 => (λ x, Some (if Z.eqb x 0 then k2 else k1)) <$> R !! v
  end.

(** [fuel] blocks; no result when they are not enough. *)
Fixpoint exec_from (hooked : bool) (fuel : nat) (bs : list block) (k : nat) (R : regs) (s : sys M) :
    option (outcome (sys M) unit) :=
  match fuel with
  | O => None
  | S fuel =>
      match bs !! k with
      | None => Some (Trap s)
      | Some b =>
          match exec_instrs hooked (b_instrs b) R s with
          | Ret R s =>
              match target (b_term b) R with
              | None => Some (Trap s)
              | Some None => Some (Ret tt s)
              | Some (Some k) => exec_from hooked fuel bs k R s
              end
          | Exit code s => Some (Exit code s)
          | Trap s => Some (Trap s)
          end
      end
  end.

Definition call (hooked : bool) (fuel : nat) (f : func) (args : list Z) (s : sys M) :
    option (outcome (sys M) unit) :=
  exec_from hooked fuel (f_blocks f) 0 (list_to_map (zip (f_params f).*1 args)) s.

Lemma exec_instrs_step hooked i l R R1 s s1 o :
  exec_instr hooked i R s = Ret R1 s1 → exec_instrs hooked l R1 s1 = o → exec_instrs hooked (i :: l) R s = o.
Proof. intros E1 E2. cbn [exec_instrs]. unfold bind. by rewrite E1. Qed.

Lemma exec_from_step hooked fuel bs k b o R R1 s s1 k1 :
  bs !! k = Some b → exec_instrs hooked (b_instrs b) R s = Ret R1 s1 → target (b_term b) R1 = Some (Some k1) →
  exec_from hooked fuel bs k1 R1 s1 = o → exec_from hooked (S fuel) bs k R s = o.
Proof. intros Hb E Ht <-. cbn [exec_from]. by rewrite Hb, E, Ht. Qed.

(** ** The configurations a call goes through when every store is hooked *)

Section Reached.
Context (f : func) (args : list Z) (s0 : sys M).

Inductive reached : list instr → terminator → regs → sys M → Prop :=
| R_entry b :
    f_blocks f !! 0%nat = Some b →
    reached (b_instrs b) (b_term b) (list_to_map (zip (f_params f).*1 args)) s0
| R_instr i l t R s R' s' :
    reached (i :: l) t R s → exec_instr true i R s = Ret R' s' → reached l t R' s'
| R_jump t R s k b :
    reached [] t R s → target t R = Some (Some k) → f_blocks f !! k = Some b →
    reached (b_instrs b) (b_term b) R s.

(** Instructions that are reached are in the function. *)
Lemma reached_in l t R s :
  reached l t R s → ∃ b, b ∈ f_blocks f ∧ b_term b = t ∧ ∃ l0, b_instrs b = l0 ++ l.
Proof.
  induction 1 as [b Hb|i l t R s R' s' Hr (b & Hb & Ht & l0 & E) _|t R s k b Hr _ _ Hb].
  - exists b. split_and!; [by eapply list_elem_of_lookup_2|done|by exists []].
  - exists b. split_and!; [done..|]. exists (l0 ++ [i]). by rewrite <-(assoc_L (++)).
  - exists b. split_and!; [by eapply list_elem_of_lookup_2|done|by exists []].
Qed.

Lemma reached_instr_in i l t R s :
  reached (i :: l) t R s → ∃ b, b ∈ f_blocks f ∧ i ∈ b_instrs b.
Proof.
  intros (b & Hb & _ & l0 & E)%reached_in. exists b. split; [done|]. rewrite E. set_solver.
Qed.

(** The registers an instruction writes. *)
Lemma exec_instr_regs hooked i R s R' s' :
  exec_instr hooked i R s = Ret R' s' →
  ∃ Rd, dom Rd = list_to_set (instr_defs i) ∧ R' = Rd ∪ R
    ∧ ∀ r t, i = Alloca r t → Rd !! r = Some (frame r).
Proof.
  assert (∀ (r : value) (a : Z), R' = <[r := a]> R → ∃ Rd, dom Rd = (list_to_set [r] : gset value)
    ∧ R' = Rd ∪ R ∧ Rd = {[r := a]}) as Hput.
  { intros r a ->. exists {[r := a]}. split_and!; [set_solver|by rewrite insert_union_singleton_l|done]. }
  destruct i as [r t|w v p|r p t|p|r op xs]; simpl; intros E.
  - injection E as <- <-. destruct (Hput r (frame r) eq_refl) as (Rd & HD & HE & HR). exists Rd.
    split_and!; [done..|]. intros r0 t0 [= <- <-]. subst Rd. apply lookup_singleton_eq.
  - exists ∅. split_and!; [set_solver| |done]. rewrite (left_id_L ∅ (∪)).
    destruct (R !! v), (R !! p); try done.
    destruct hooked; apply bind_Ret in E as (? & ? & _ & [= <- _]); done.
  - destruct (R !! p) as [a|]; [|done]. injection E as <- <-.
    destruct (Hput r a eq_refl) as (Rd & HD & HE & HR). by exists Rd.
  - exists ∅. split_and!; [set_solver| |done]. rewrite (left_id_L ∅ (∪)).
    destruct (R !! p); [|done]. by apply bind_Ret in E as (? & ? & _ & [= <- _]).
  - destruct (mapM _ _) as [ys|]; [|done]. apply bind_Ret in E as (x & s1 & _ & [= <- _]). destruct (Hput r x eq_refl) as (Rd & HD & HE & HR). by exists Rd.
Qed.

(** A stack allocation is the only instruction that defines its value. *)
Lemma alloca_unique r b i :
  NoDup (func_defs f) → r ∈ allocas f → b ∈ f_blocks f → i ∈ b_instrs b → r ∈ instr_defs i →
  ∃ t, i = Alloca r t.
Proof.
  intros [_ [_ Hnd]]%NoDup_app Hr Hb Hi Hd.
  unfold allocas in Hr. rewrite list_elem_of_bind in Hr. destruct Hr as (b1 & Hr & Hb1).
  unfold block_allocas in Hr. rewrite list_elem_of_bind in Hr. destruct Hr as (i1 & Hr & Hi1).
  destruct i1 as [r1 t1| | | |]; simpl in Hr; try (by apply elem_of_nil in Hr).
  apply list_elem_of_singleton in Hr as ->.
  assert (b = b1) as ->.
  { eapply (NoDup_bind_inj block_defs); [exact Hnd|done|done| |].
    - unfold block_defs. rewrite list_elem_of_bind. by exists i.
    - unfold block_defs. rewrite list_elem_of_bind. exists (Alloca r1 t1). split; [simpl; set_solver|done]. }
  exists t1. eapply (NoDup_bind_inj instr_defs (b_instrs b1)); [|done|done|exact Hd|simpl; set_solver].
  by eapply (NoDup_bind_elem block_defs).
Qed.

Lemma reached_alloca l t R s r a :
  NoDup (func_defs f) → reached l t R s → r ∈ allocas f → R !! r = Some a → a = frame r.
Proof.
  intros Hnd Hre Hr. revert a.
  induction Hre as [b Hb|i l t R s R' s' Hre IH E|t R s k b Hre IH _ Hb]; intros a Ha; [|..|by apply IH].
  - exfalso. apply elem_of_list_to_map_2, elem_of_zip_l in Ha.
    apply (NoDup_app (f_params f).*1) in Hnd as (_ & Hdis & _). apply (Hdis r Ha).
    unfold allocas in Hr. rewrite list_elem_of_bind in *. destruct Hr as (b1 & Hr & Hb1). exists b1. split; [|done].
    unfold block_allocas, block_defs in *. rewrite list_elem_of_bind in *. destruct Hr as (i1 & Hr & Hi1).
    exists i1. split; [|done]. destruct i1; simpl in *; set_solver.
  - destruct (exec_instr_regs _ _ _ _ _ _ E) as (Rd & HD & -> & Hal).
    apply lookup_union_Some_raw in Ha as [Ha|[_ Ha]]; [|by apply IH].
    destruct (reached_instr_in _ _ _ _ _ Hre) as (b & Hb & Hi).
    assert (r ∈ instr_defs i) as Hd.
    { apply (elem_of_list_to_set (C := gset value)). rewrite <-HD. by eapply elem_of_dom_2. }
    destruct (alloca_unique r b i Hnd Hr Hb Hi Hd) as [t0 ->]. rewrite (Hal r t0 eq_refl) in Ha. congruence.
Qed.

(** Type soundness: what is reached is well typed, and every value it may use has
    been computed. *)
Lemma reached_typed op_type Γ av l t R s :
  wf_func op_type f Γ av → length args = length (f_params f) → reached l t R s →
  ∃ D D1, type_instrs op_type Γ D l = Some D1 ∧ edges_ok av (length (f_blocks f)) D1 t ∧ D ⊆ dom R.
Proof.
  intros [_ _ Hen Hbs] Hlen.
  induction 1 as [b Hb|i l t R s R' s' _ (D & D1 & Ht & He & HD) E|t R s k b _ (D & D1 & Ht & He & HD) Htg Hb].
  - destruct (Hbs _ _ Hb) as (D & HD & He). exists (av 0%nat), D. split_and!; [done..|].
    rewrite dom_list_to_map_L, fst_zip by (rewrite length_fmap; lia). done.
  - simpl in Ht. destruct (type_instr op_type Γ i && uses_ok D (instr_uses i)); [|done].
    eexists _, D1. split_and!; [exact Ht|done|].
    destruct (exec_instr_regs _ _ _ _ _ _ E) as (Rd & HdR & -> & _). rewrite dom_union_L, HdR. set_solver.
  - simpl in Ht. injection Ht as <-. destruct (Hbs _ _ Hb) as (D' & HD' & He'). exists (av k), D'.
    split_and!; [done..|]. destruct t as [|k1|v k1 k2]; simpl in Htg, He; [done|..].
    + injection Htg as <-. set_solver.
    + apply fmap_Some in Htg as (x & _ & [= ->]). destruct (x =? 0); set_solver.
Qed.

Lemma reached_uses op_type Γ av i l t R s v :
  wf_func op_type f Γ av → length args = length (f_params f) → reached (i :: l) t R s →
  v ∈ instr_uses i → is_Some (R !! v).
Proof.
  intros Hwf Hlen Hre Hv.
  destruct (reached_typed op_type Γ av _ _ _ _ Hwf Hlen Hre) as (D & D1 & Ht & _ & HD).
  simpl in Ht. destruct (type_instr op_type Γ i && uses_ok D (instr_uses i)) eqn:E; [|done].
  apply andb_true_iff in E as [_ E]. unfold uses_ok in E. rewrite forallb_forall in E.
  apply list_elem_of_In in Hv. specialize (E v Hv). rewrite bool_decide_eq_true in E.
  apply elem_of_dom. set_solver.
Qed.
End Reached.

(** Outcomes that agree, with a relation on what they return. *)
Definition same_outcome {A B} (Q : A → B → sys M → Prop) (o : outcome (sys M) A) (o' : outcome (sys M) B) : Prop :=
  match o, o' with
  | Ret a s, Ret b s' => s = s' ∧ Q a b s
  | Exit c s, Exit c' s' => c = c' ∧ s = s'
  | Trap s, Trap s' => s = s'
  | _, _ => False
  end.

Lemma same_outcome_bind {A B A' B'} (Q : A → B → sys M → Prop) (Q' : A' → B' → sys M → Prop) c c' k k' s :
  same_outcome Q (c s) (c' s) →
  (∀ a b s1, c s = Ret a s1 → Q a b s1 → same_outcome Q' (k a s1) (k' b s1)) →
  same_outcome Q' (bind c k s) (bind c' k' s).
Proof.
  unfold bind. destruct (c s) as [a s1| |] eqn:E, (c' s) as [b s1'| |]; simpl; try done.
  intros [<- HQ] Hk. by apply Hk.
Qed.

Lemma same_outcome_refl {A} (o : outcome (sys M) A) : same_outcome (λ a b _, a = b) o o.
Proof. by destruct o. Qed.

(** The hook does nothing for an address outside the tracked range. *)
Definition untracked s (a : Z) : Prop := a < start_addr (s_g s) ∨ end_addr (s_g s) ≤ a.

Lemma hook_outside a s :
  CXLBUF_TESTING_GOODIES cfg = false → untracked s a → checkMemory cfg thr a s = Ret tt s.
Proof.
  intros Hg Ha. unfold checkMemory, untracked in *. rewrite Hg. destruct (NO_CHECK_MEMORY cfg); [done|].
  unfold bind, get, when. destruct (startTracking (s_g s)); [|done].
  destruct ((start_addr (s_g s) <=? a) && (a <? end_addr (s_g s))) eqn:E; [|done].
  apply andb_true_iff in E as [?%Z.leb_le ?%Z.ltb_lt]. lia.
Qed.

(** ** The simulation *)

(** What is relied on for a call: the alias analysis is sound (values that must
    alias are one address whenever the store runs), the stack is not tracked, and
    the names below [n0] are the function's. *)
Record call_ok (alias : value → value → alias_result) (n0 : value) (f : func) (args : list Z) s0 : Prop := {
  co_typed : ∃ op_type Γ av, wf_func op_type f Γ av;
  co_args : length args = length (f_params f);
  co_names : below n0 f;
  co_alias w v p l t R s r a :
    reached f args s0 (Store w v p :: l) t R s → r ∈ allocas f → alias r p = MustAlias →
    R !! p = Some a → a = frame r;
  co_stack l t R s r : reached f args s0 l t R s → r ∈ allocas f → untracked s (frame r);
}.

Section Simulation.
Context (alias : value → value → alias_result) (n0 : value) (f : func) (args : list Z) (s0 : sys M).
Hypothesis Hco : call_ok alias n0 f args s0.
Hypothesis Hgoodies : CXLBUF_TESTING_GOODIES cfg = false.
Abbreviation reached := (reached f args s0).

Definition agree (R R' : regs) : Prop := ∀ v, v < n0 → R' !! v = R !! v.

Lemma agree_insert R R' r a : agree R R' → agree (<[r := a]> R) (<[r := a]> R').
Proof. intros HR v Hv. destruct (decide (v = r)) as [->|]; [by simplify_map_eq|]. simplify_map_eq. by apply HR. Qed.

Lemma agree_cast R R' r a : n0 ≤ r → agree R R' → agree R (<[r := a]> R').
Proof. intros Hr HR v Hv. rewrite lookup_insert_ne by lia. by apply HR. Qed.

Lemma agree_mapM R R' vs : agree R R' → (∀ v, v ∈ vs → v < n0) → mapM (λ v, R' !! v) vs = mapM (λ v, R !! v) vs.
Proof.
  intros HR. induction vs as [|v vs IH]; intros Hv; [done|]. simpl.
  rewrite (HR v) by (apply Hv; set_solver). rewrite IH by set_solver. done.
Qed.

Lemma reached_names i l t R s v :
  reached (i :: l) t R s → v ∈ instr_defs i ++ instr_uses i → v < n0.
Proof using Hco.
  intros (b & Hb & Hi)%reached_instr_in Hv. destruct (co_names _ _ _ _ _ Hco) as [_ Hbl].
  destruct (Hbl b Hb) as [H1 _]. by eapply H1.
Qed.

(** A store the pass leaves alone writes to the stack. *)
Lemma skipped_store_untracked w v p l t R s a :
  reached (Store w v p :: l) t R s → on_stack alias (allocas f) p → R !! p = Some a → untracked s a.
Proof using Hco.
  intros Hre (r & Hr & Hp) Ha. assert (a = frame r) as ->.
  { destruct Hp as [->|Hp]; [|by eapply (co_alias _ _ _ _ _ Hco)].
    destruct (co_typed _ _ _ _ _ Hco) as (? & ? & ? & Hwf).
    by eapply reached_alloca; [apply Hwf|..]. }
  by eapply (co_stack _ _ _ _ _ Hco).
Qed.

Lemma sim_kept i l t R R' s :
  reached (i :: l) t R s → (∀ w v p, i = Store w v p → on_stack alias (allocas f) p) → agree R R' →
  same_outcome (λ R1 R1' _, agree R1 R1') (exec_instr true i R s) (exec_instr false i R' s).
Proof using Hco Hgoodies.
  intros Hre Hst HR. pose proof (λ v, reached_names i l t R s v Hre) as Hn.
  destruct i as [r ty|w v p|r p ty|p|r op xs]; simpl in *.
  - split; [done|by apply agree_insert].
  - rewrite (HR v), (HR p) by (apply Hn; set_solver).
    destruct (R !! v) as [x|] eqn:Ev; [|done]. destruct (R !! p) as [a|] eqn:Ep; [|done].
    pose proof (skipped_store_untracked w v p l t R s a Hre (Hst _ _ _ eq_refl) Ep) as Hu.
    unfold bind. rewrite (hook_outside a s Hgoodies Hu). done.
  - rewrite (HR p) by (apply Hn; set_solver). destruct (R !! p); [|done]. split; [done|by apply agree_insert].
  - rewrite (HR p) by (apply Hn; set_solver). destruct (R !! p); [|done].
    eapply same_outcome_bind; [apply same_outcome_refl|]. by intros ? ? s1 _ ->.
  - rewrite (agree_mapM R R') by (done || intros; apply Hn; set_solver).
    destruct (mapM _ xs) as [ys|]; [|done].
    eapply same_outcome_bind; [apply same_outcome_refl|]. intros ? ? s1 _ ->. split; [done|by apply agree_insert].
Qed.

(** A store the pass guards. *)
Lemma sim_guarded n w v p l t R R' s :
  reached (Store w v p :: l) t R s → n0 ≤ n → agree R R' →
  same_outcome (λ R1 R1' _, agree R1 R1') (exec_instr true (Store w v p) R s)
    (exec_instrs false [BitCast n p i8ptr; CallCheck n; Store w v p] R' s).
Proof using Hco Hgoodies.
  intros Hre Hn0 HR. pose proof (λ v0, reached_names _ l t R s v0 Hre) as Hn. simpl in Hn.
  destruct (co_typed _ _ _ _ _ Hco) as (op_type & Γ & av & Hwf).
  assert (∀ v0, v0 ∈ [v; p] → is_Some (R !! v0)) as Hdef.
  { intros v0. exact (reached_uses _ _ _ _ _ _ _ _ _ _ _ v0 Hwf (co_args _ _ _ _ _ Hco) Hre). }
  destruct (Hdef v) as [x Ex]; [set_solver|]. destruct (Hdef p) as [a Ea]; [set_solver|].
  assert (v < n0 ∧ p < n0) as [Hv Hp] by (split; apply Hn; set_solver).
  cbn [exec_instrs exec_instr]. rewrite Ex, Ea, (HR p Hp), Ea. rewrite bind_ret_l.
  rewrite lookup_insert_eq. unfold exec. rewrite !bind_assoc.
  eapply same_outcome_bind; [apply same_outcome_refl|]. intros [] [] s1 _ _. rewrite bind_ret_l.
  rewrite !lookup_insert_ne by lia. rewrite (HR v Hv), (HR p Hp), Ex, Ea.
  unfold bind, ret. simpl. split; [done|]. by apply agree_cast.
Qed.

(** A block, and a call. *)
Lemma sim_instrs n l n' l' :
  instrumented (on_stack alias (allocas f)) n l n' l' → n0 ≤ n →
  ∀ t R R' s, reached l t R s → agree R R' →
  same_outcome (λ R1 R1' s1, agree R1 R1' ∧ reached [] t R1 s1)
    (exec_instrs true l R s) (exec_instrs false l' R' s).
Proof using Hco Hgoodies.
  induction 1 as [n|n i l n' l' Hs Hi IH|n w v p l n' l' Hi IH]; intros Hn t R R' s Hre HR.
  - done.
  - cbn [exec_instrs]. eapply same_outcome_bind; [by eapply sim_kept|].
    intros R1 R1' s1 E HR1. apply IH; [done| |done]. by eapply R_instr.
  - change (BitCast n p i8ptr :: CallCheck n :: Store w v p :: l')
      with ([BitCast n p i8ptr; CallCheck n; Store w v p] ++ l').
    rewrite exec_instrs_app. cbn [exec_instrs]. eapply same_outcome_bind; [by eapply sim_guarded|].
    intros R1 R1' s1 E HR1. apply IH; [lia| |done]. by eapply R_instr.
Qed.

Lemma sim_from n n' bs' :
  instrumented_blocks (on_stack alias (allocas f)) n (f_blocks f) n' bs' → n0 ≤ n →
  ∀ fuel k R R' s, agree R R' →
  (∀ b, f_blocks f !! k = Some b → reached (b_instrs b) (b_term b) R s) →
  exec_from false fuel bs' k R' s = exec_from true fuel (f_blocks f) k R s.
Proof using Hco Hgoodies.
  intros Hb Hn. induction fuel as [|fuel IH]; intros k R R' s HR Hre; [done|]. cbn [exec_from].
  pose proof (instrumented_blocks_lookup _ _ _ _ _ k Hb) as Hl.
  destruct (f_blocks f !! k) as [b|] eqn:Ek, (bs' !! k) as [b'|]; try done.
  destruct Hl as (Et & q & q' & Hq & _ & Hins). rewrite Et.
  pose proof (sim_instrs q (b_instrs b) q' (b_instrs b') Hins ltac:(lia) (b_term b) R R' s (Hre b eq_refl) HR) as Hs.
  destruct (exec_instrs true (b_instrs b) R s) as [R1 s1|c s1|s1],
    (exec_instrs false (b_instrs b') R' s) as [R1' s1'|c' s1'|s1']; simpl in Hs; try done.
  2:{ by destruct Hs as [-> ->]. }
  2:{ by rewrite Hs. }
  destruct Hs as [<- [HR1 Hre1]].
  assert (target (b_term b) R1' = target (b_term b) R1) as ->.
  { destruct (co_names _ _ _ _ _ Hco) as [_ Hbl].
    destruct (Hbl b) as [_ Htm]; [by eapply list_elem_of_lookup_2|].
    destruct (b_term b); simpl; try done. rewrite HR1; [done|]. apply Htm. simpl. set_solver. }
  destruct (target (b_term b) R1) as [[k1|]|] eqn:Etg; [|done|done].
  apply IH; [done|]. intros b1 Hb1. by eapply R_jump.
Qed.
End Simulation.

(** A function after the pass against the function before it. *)
Lemma call_processed order alias p m m' p' k f args s0 :
  (∀ sv, order sv ≡ₚ map_to_list sv) →
  Pass.run order alias p m = Some (m', p') → m_fns m !! k = Some f →
  f_blocks f ≠ [] → ¬ marked m f →
  call_ok (alias (f_name f)) (next_value p) f args s0 → CXLBUF_TESTING_GOODIES cfg = false →
  ∃ f', m_fns m' !! k = Some f' ∧ ∀ fuel, call false fuel f' args s0 = call true fuel f args s0.
Proof.
  intros Hord Hrun Hk Hne Hnm Hco Hg.
  destruct (run_lookup order alias Hord p m m' p' k f Hrun Hk) as (annot & f' & Ha & Hk' & Hp).
  exists f'. split; [done|]. intros fuel. unfold call. rewrite (pr_params _ _ _ _ _ Hp).
  destruct (pr_do _ _ _ _ _ Hp) as (n & n' & Hn & Hb); [by apply (instruments_spec m)|].
  eapply sim_from; [done|done|exact Hb|done|done|]. intros b Hb0. by apply R_entry.
Qed.

(** A call that returns ends where its last block does. *)
Lemma exec_from_reached f args s0 fuel : ∀ k R s s',
  (∀ b, f_blocks f !! k = Some b → reached f args s0 (b_instrs b) (b_term b) R s) →
  exec_from true fuel (f_blocks f) k R s = Some (Ret tt s') → ∃ t R', reached f args s0 [] t R' s'.
Proof.
  assert (∀ l t R s R' s', reached f args s0 l t R s → exec_instrs true l R s = Ret R' s' →
    reached f args s0 [] t R' s') as Hl.
  { induction l as [|i l IH]; intros t R s R' s' Hre E; [by injection E as <- <-|].
    apply bind_Ret in E as (R1 & s1 & E1 & E). eapply IH; [|exact E]. by eapply R_instr. }
  induction fuel as [|fuel IH]; intros k R s s' Hre E; [done|]. cbn [exec_from] in E.
  destruct (f_blocks f !! k) as [b|] eqn:Ek; [|done].
  destruct (exec_instrs true (b_instrs b) R s) as [R1 s1| |] eqn:E1; try done.
  pose proof (Hl _ _ _ _ _ _ (Hre b eq_refl) E1) as Hre1.
  destruct (target (b_term b) R1) as [[k1|]|] eqn:Etg; [|by simplify_eq; eauto|done].
  eapply IH; [|exact E]. intros b1 Hb1. by eapply R_jump.
Qed.
End PassSem.

(** ** Theorems *)

Section Theorems.
Context {M : Type} `{PMemLaws M}.
Context (file_size : string → Z) (real_msync : Z → Z → Z → Z) (cfg : config).
Context (thr : nat) (frame : value → Z) (sem : nat → list Z → cmd (sys M) Z).
Context (order : gmap value bool → list (value * bool)).
Context (alias : string → value → value → alias_result).
Hypothesis order_perm : ∀ sv, order sv ≡ₚ map_to_list sv.
Hypothesis Hgoodies : CXLBUF_TESTING_GOODIES cfg = false.

Abbreviation call := (call file_size real_msync cfg thr frame sem).
Abbreviation call_ok := (call_ok file_size real_msync cfg thr frame sem).
Abbreviation reached := (reached file_size real_msync cfg thr frame sem).

(** C8: The pass is correct: for every number of blocks run, a function that
    the pass has instrumented ends as the original would if every one of its
    stores ran behind the hook, in the same state of memory, logs and counters,
    or does not end where that would not, although stores known to go to the
    stack have no hook.  The function is well formed, alias analysis is sound
    and the stack is not tracked. *)
Theorem instrumented_call_is_hooked p m m' p' k f args s0 :
  Pass.run order alias p m = Some (m', p') → m_fns m !! k = Some f →
  f_blocks f ≠ [] → ¬ marked m f → call_ok (alias (f_name f)) (next_value p) f args s0 →
  ∃ f', m_fns m' !! k = Some f' ∧ ∀ fuel, call false fuel f' args s0 = call true fuel f args s0.
Proof using order_perm Hgoodies. intros. by eapply call_processed. Qed.

(** Functions whose effects are those of a well-behaved program: their own stores
    are, and so is what their opaque instructions do. *)
Record well_behaved (g : globals) (len : Z) (f : func) (args : list Z) (s0 : sys M) : Prop := {
  wb_sem op xs s x s' : sem op xs s = Ret x s' → ∃ os, Tracking.run file_size real_msync cfg g len s os s';
  wb_hooks b v : b ∈ f_blocks f → CallCheck v ∉ b_instrs b;
  wb_stores w v p l t R s x a :
    reached f args s0 (Store w v p :: l) t R s → R !! v = Some x → R !! p = Some a →
    op_ok g len s (OpStore thr a (le_split w x));
}.

Lemma reached_run g len f args s0 l t R s :
  well_behaved g len f args s0 → reached f args s0 l t R s →
  ∃ os, Tracking.run file_size real_msync cfg g len s0 os s.
Proof.
  intros [Hsem Hhk Hst]. induction 1 as [b Hb|i l t R s R' s' Hre [os Hos] E|t R s k b Hre IH _ Hb].
  - exists []. constructor.
  - assert (∃ os', Tracking.run file_size real_msync cfg g len s os' s') as [os' Hos'].
    2:{ exists (os ++ os'). by eapply run_trans. }
    destruct i as [r t0|w v p|r p t0|p|r op xs]; simpl in E.
    + injection E as <- <-. exists []. constructor.
    + destruct (R !! v) as [x|] eqn:Ev; [|done]. destruct (R !! p) as [a|] eqn:Ea; [|done].
      apply bind_Ret in E as (y & s1 & E & [= <- <-]).
      exists [OpStore thr a (le_split w x)].
      eapply Tracking.run_cons; [by eapply Hst|done|exact E|constructor].
    + destruct (R !! p); [|done]. injection E as <- <-. exists []. constructor.
    + destruct (reached_instr_in _ _ _ _ _ _ _ _ _ _ _ _ _ _ Hre) as (b & Hb & Hi). by destruct (Hhk b p Hb).
    + destruct (mapM _ xs) as [ys|]; [|done]. apply bind_Ret in E as (y & s1 & E & [= <- <-]). by eapply Hsem.
  - done.
Qed.

(** C9: From the compiler to the medium.  Run a function as the pass left it,
    from a fresh state of the library, then msync: the call behaves as a
    well-behaved program, so msync returns 0, and every byte of the backing
    file is then the byte the function left in the page cache, and durable. *)
Theorem instrumented_call_then_msync g len p m m' p' k f f' args s0 fuel s addr bytes flags :
  setup cfg g len → fresh g len s0 →
  Pass.run order alias p m = Some (m', p') → m_fns m !! k = Some f → m_fns m' !! k = Some f' →
  f_blocks f ≠ [] → ¬ marked m f →
  call_ok (alias (f_name f)) (next_value p) f args s0 → well_behaved g len f args s0 →
  call false fuel f' args s0 = Some (Ret tt s) →
  op_ok g len s (OpMsync addr bytes flags) →
  ∃ s', msync file_size real_msync cfg addr bytes flags s = Ret 0 s'
    ∧ ∀ i, 0 ≤ i < len →
        view (s_pm s') (backing_file_start g + i) = view (s_pm s) (start_addr g + i)
        ∧ durable (s_pm s') (backing_file_start g + i).
Proof using Type*.
  intros Hsu Hfr Hrun Hk Hk' Hne Hnm Hco Hwb Hcall Hok.
  destruct (call_processed file_size real_msync cfg thr frame sem order alias p m m' p' k f args s0
    order_perm Hrun Hk Hne Hnm Hco Hgoodies) as (f1 & Hk1 & Hcalls).
  assert (f1 = f') as -> by congruence. rewrite Hcalls in Hcall.
  destruct (exec_from_reached file_size real_msync cfg thr frame sem f args s0 fuel 0
    (list_to_map (zip (f_params f).*1 args)) s0 s) as (t & R' & Hre); [intros b Hb; by apply R_entry|done|].
  destruct (reached_run g len f args s0 _ _ _ _ Hwb Hre) as [os Hos].
  destruct (msync_mirrors_spec file_size real_msync cfg g len s0 os s addr bytes flags Hsu Hfr Hos Hok)
    as (s' & E & Hm & _). by exists s'.
Qed.
End Theorems.

(** ** A call

    [update] of [DemoPass] on the state of [Demo]: the pointer is in the tracked
    region, the local variable is not. *)
Module DemoSem.
Import Px86 Demo DemoRun DemoPass.

Definition local : Z := 0x40000000000.
Definition frame (r : value) : Z := local.
Definition sem (op : nat) (xs : list Z) : cmd (sys machine) Z := ret 0.
Definition args : list Z := [start + 64; 5].

Definition to_local : op := OpStore 0 local (le_split 8 5).
Definition to_heap : op := OpStore 0 (start + 64) (le_split 8 5).
Definition sA : sys machine := state_of (exec1 to_local s0).
Definition sB : sys machine := state_of (exec1 to_local sA).
Definition sC : sys machine := state_of (exec1 to_heap sB).

Lemma runs_A : exec1 to_local s0 = Ret 0 sA.
Proof. refine (returned_eq (exec1 to_local s0) 0 _). vm_compute. reflexivity. Qed.
Lemma runs_B : exec1 to_local sA = Ret 0 sB.
Proof. refine (returned_eq (exec1 to_local sA) 0 _). vm_compute. reflexivity. Qed.
Lemma runs_C : exec1 to_heap sB = Ret 0 sC.
Proof. refine (returned_eq (exec1 to_heap sB) 0 _). vm_compute. reflexivity. Qed.

Definition body : list instr :=
  [Alloca 3 i64; Store 8 2 3; BitCast 4 3 (TPtr i64); Store 8 2 4; Store 8 2 1; Other 5 0 [2]].
Definition R0 : gmap value Z := list_to_map [(1, start + 64); (2, 5)].
Definition R1 : gmap value Z := <[3 := local]> R0.
Definition R2 : gmap value Z := <[4 := local]> R1.
Definition R3 : gmap value Z := <[5 := 0]> R2.

(** The configurations of the call. *)
Inductive conf : list instr → terminator → gmap value Z → sys machine → Prop :=
| C0 : conf body (TCond 5 1 2) R0 s0
| C1 : conf (drop 1 body) (TCond 5 1 2) R1 s0
| C2 : conf (drop 2 body) (TCond 5 1 2) R1 sA
| C3 : conf (drop 3 body) (TCond 5 1 2) R2 sA
| C4 : conf (drop 4 body) (TCond 5 1 2) R2 sB
| C5 : conf (drop 5 body) (TCond 5 1 2) R2 sC
| C6 : conf [] (TCond 5 1 2) R3 sC
| C7 : conf [] TRet R3 sC.


Lemma hooked_store R p a s s' :
  R !! 2 = Some 5 → R !! p = Some a → exec1 (OpStore 0 a (le_split 8 5)) s = Ret 0 s' →
  exec_instr no_file ok_msync cfg 0 frame sem true (Store 8 2 p) R s = Ret R s'.
Proof. intros H2 Hp E. unfold exec_instr. rewrite H2, Hp. unfold bind at 1. by rewrite E. Qed.

Abbreviation reached1 := (reached no_file ok_msync cfg 0 frame sem update args s0).

Lemma Ret_inj {S A} (a a' : A) (s s' : S) : Ret a s = Ret a' s' → a = a' ∧ s = s'.
Proof. by intros [= -> ->]. Qed.

Lemma reached_conf l t R s : reached1 l t R s → conf l t R s.
Proof.
  induction 1 as [b Hb|i l t R s R' s' _ IH E|t R s k b _ IH Htg Hb].
  - injection Hb as <-. exact C0.
  - remember (i :: l) as il eqn:Hil. destruct IH; try discriminate Hil; injection Hil as Hi Hl; subst i l.
    + destruct (Ret_inj _ _ _ _ E) as [<- <-]. exact C1.
    + rewrite (hooked_store R1 3 local s0 sA eq_refl eq_refl runs_A) in E. destruct (Ret_inj _ _ _ _ E) as [<- <-]. exact C2.
    + destruct (Ret_inj _ _ _ _ E) as [<- <-]. exact C3.
    + rewrite (hooked_store R2 4 local sA sB eq_refl eq_refl runs_B) in E. destruct (Ret_inj _ _ _ _ E) as [<- <-]. exact C4.
    + rewrite (hooked_store R2 1 (start + 64) sB sC eq_refl eq_refl runs_C) in E. destruct (Ret_inj _ _ _ _ E) as [<- <-]. exact C5.
    + destruct (Ret_inj _ _ _ _ E) as [<- <-]. exact C6.
  - remember [] as il eqn:Hil. destruct IH; try discriminate Hil.
    + injection Htg as <-. injection Hb as <-. exact C7.
    + discriminate Htg.
Qed.

Lemma conf_g l t R s : conf l t R s → s_g s = g.
Proof. destruct 1; vm_compute; reflexivity. Qed.

Lemma demo_call_ok :
  call_ok no_file ok_msync cfg 0 frame sem (alias "update") (next_value p0) update args s0.
Proof.
  split.
  - exists op_type, types, avail. exact update_typed.
  - reflexivity.
  - apply m0_below. left.
  - intros w v p l t R s r a Hre _ Hal Ha. apply reached_conf in Hre.
    unfold alias in Hal. destruct (bool_decide (r = 3 ∧ p = 4)) eqn:E; [|discriminate Hal].
    apply bool_decide_eq_true in E as [-> ->].
    remember (Store w v 4 :: l) as il eqn:Hil. destruct Hre; try discriminate Hil.
    injection Ha as <-. reflexivity.
  - intros l t R s r Hre _. right. rewrite (conf_g l t R s (reached_conf _ _ _ _ Hre)).
    apply Z.leb_le. vm_compute. reflexivity.
Qed.

Lemma local_elsewhere s : length (logs_of s) = 1%nat → log_area <$> (logs_of s !! 0%nat) = Some area →
  op_ok g len s to_local.
Proof.
  intros Hl H0. right. unfold elsewhere, rng_disj. rewrite blen_le_split. split; [split_and!|].
  - lia.
  - right. apply Z.leb_le. vm_compute. reflexivity.
  - right. apply Z.leb_le. vm_compute. reflexivity.
  - intros l [[|i] Hi]%list_elem_of_lookup; [|apply lookup_lt_Some in Hi; lia].
    rewrite Hi in H0. injection H0 as ->. right. apply Z.leb_le. vm_compute. reflexivity.
  - right. apply Z.leb_le. vm_compute. reflexivity.
Qed.

Lemma demo_well_behaved : well_behaved no_file ok_msync cfg 0 frame sem g len update args s0.
Proof.
  split.
  - intros op xs s x s' E. destruct (Ret_inj _ _ _ _ E) as [_ <-]. exists []. apply run_nil.
  - intros b v Hb Hin.
    assert (b_instrs b = body ∨ b_instrs b = [Store 8 2 1] ∨ b_instrs b = []) as Hor by set_solver.
    destruct Hor as [E|[E|E]]; rewrite E in Hin; unfold body in Hin; set_solver.
  - intros w v p l t R s x a Hre Hv Hp. apply reached_conf in Hre.
    remember (Store w v p :: l) as il eqn:Hil. destruct Hre; try discriminate Hil;
      injection Hil as <- <- <- <-; injection Hv as <-; injection Hp as <-.
    + apply local_elsewhere; vm_compute; reflexivity.
    + apply local_elsewhere; vm_compute; reflexivity.
    + left. split; [|reflexivity]. apply (may_track_demo sB (fst boot) 0 (start + 64) 8);
        [vm_compute; reflexivity|lia|lia|unfold len; lia|vm_compute; reflexivity].
Qed.

Lemma update_defined : f_blocks update ≠ [].
Proof. discriminate. Qed.

Lemma update_not_marked : ¬ marked m0 update.
Proof.
  intros (gl & Hg & _ & Ha). assert (gl = annots) as -> by set_solver.
  apply list_elem_of_In in Ha as [E|[E|[]]]; discriminate E.
Qed.

(** The call ends: four blocks are enough. *)
Abbreviation step := (exec_instrs_step no_file ok_msync cfg 0 frame sem true).

Lemma body_runs : exec_instrs no_file ok_msync cfg 0 frame sem true body R0 s0 = Ret R3 sC.
Proof.
  refine (step (Alloca 3 i64) _ R0 R1 s0 s0 _ eq_refl _).
  refine (step (Store 8 2 3) _ R1 R1 s0 sA _ (hooked_store R1 3 local s0 sA eq_refl eq_refl runs_A) _).
  refine (step (BitCast 4 3 (TPtr i64)) _ R1 R2 sA sA _ eq_refl _).
  refine (step (Store 8 2 4) _ R2 R2 sA sB _ (hooked_store R2 4 local sA sB eq_refl eq_refl runs_B) _).
  refine (step (Store 8 2 1) _ R2 R2 sB sC _ (hooked_store R2 1 (start + 64) sB sC eq_refl eq_refl runs_C) _).
  exact (step (Other 5 0 [2]) [] R2 R3 sC sC _ eq_refl eq_refl).
Qed.

Lemma update_returns : call no_file ok_msync cfg 0 frame sem true 4 update args s0 = Some (Ret tt sC).
Proof.
  refine (exec_from_step no_file ok_msync cfg 0 frame sem true 3 (f_blocks update) 0
    (mkBlock body (TCond 5 1 2)) _ R0 R3 s0 sC 2 eq_refl body_runs eq_refl _).
  reflexivity.
Qed.

Lemma instrumented_call_is_hooked_witness :
  ∃ f', m_fns m1 !! 0%nat = Some f'
    ∧ call no_file ok_msync cfg 0 frame sem false 4 f' args s0 = Some (Ret tt sC).
Proof.
  destruct (instrumented_call_is_hooked no_file ok_msync cfg 0 frame sem map_to_list alias
    (λ sv, Permutation_refl _) eq_refl p0 m0 m1 (mkPass 2 2 1 1 13) 0 update args s0 run_m0 eq_refl
    update_defined update_not_marked demo_call_ok) as (f' & H1 & H2).
  exists f'. split; [exact H1|]. rewrite (H2 4%nat). exact update_returns.
Defined.

Lemma update'_returns : call no_file ok_msync cfg 0 frame sem false 4 update' args s0 = Some (Ret tt sC).
Proof.
  destruct (call_processed no_file ok_msync cfg 0 frame sem map_to_list alias p0 m0 m1 (mkPass 2 2 1 1 13)
    0 update args s0 (λ sv, Permutation_refl _) run_m0 eq_refl update_defined
    update_not_marked demo_call_ok eq_refl) as (f' & H1 & H2).
  injection H1 as <-. rewrite (H2 4%nat). exact update_returns.
Qed.

Lemma instrumented_call_then_msync_witness :
  ∃ s', msync no_file ok_msync cfg start len MS_SYNC sC = Ret 0 s'
    ∧ durable (s_pm s') (back + 64).
Proof.
  destruct (instrumented_call_then_msync no_file ok_msync cfg 0 frame sem map_to_list alias
    (λ sv, Permutation_refl _) eq_refl g len p0 m0 m1 (mkPass 2 2 1 1 13) 0 update update' args s0 4 sC
    start len MS_SYNC demo_setup demo_fresh run_m0 eq_refl eq_refl
    update_defined update_not_marked demo_call_ok demo_well_behaved update'_returns)
    as (s' & E & Hm).
  - split; [done|split; [done|vm_compute; reflexivity]].
  - exists s'. split; [exact E|]. apply (Hm 64). unfold len. lia.
Defined.
End DemoSem.
