(* ===== verification/Managed.v ===== *)
(** * Managed mapped files

    The examples and the PMDK emulation take their memory from a managed mapped
    file of boost ([bip::basic_managed_mapped_file]), which is not part of the
    repository.  Its code is compiled with the program, so its stores run behind
    the hook.  Here it is a record of functions of memory: what an operation
    returns and which stores it makes. *)

From stdpp Require Import base list strings.
From Stdlib Require Import ZArith Lia.
From S2P Require Import Prelude Memory PMem Log Snapshot Wrappers.

(** The stores an allocator makes, in order. *)
Abbreviation writes := (list (Z * list Z)).

(** [bip::basic_managed_mapped_file]: [allocate] may throw. *)
Record mmf := mkMmf {
  get_address : Z;
  get_size : Z;
  allocate : Z → mem → option (Z * writes);
  deallocate : Z → mem → writes;
}.

Section Managed.
Context {M : Type} `{PMemOps M}.
Context (file_size : string → Z) (real_msync : Z → Z → Z → Z) (cfg : config).
Context (thr : nat) (res : mmf).

Definition perform (ws : writes) : cmd (sys M) unit :=
  for_each ws (λ w, do! exec file_size real_msync cfg (OpStore thr w.1 w.2) in ret tt).

(** An exception that nobody catches ends the program. *)
Definition throw {A} : cmd (sys M) A := trap.

Definition res_allocate (n : Z) : cmd (sys M) Z := λ s,
  match allocate res n (view (s_pm s)) with
  | Some (a, ws) => (do! perform ws in ret a) s
  | None => throw s
  end.
Definition res_deallocate (p : Z) : cmd (sys M) unit := λ s,
  perform (deallocate res p (view (s_pm s))) s.
Definition sync_all : cmd (sys M) unit :=
  do! msync file_size real_msync cfg (get_address res) (get_size res) MS_SYNC in ret tt.
End Managed.
