(* ===== verification/LinkedList.v ===== *)
(** * The linked list of the examples
      (examples/linkedlist_tx/linkedlist_tx.cc, examples/linkedlist_tx_cxlfs,
       examples/list.hh)

    A queue of 64-bit words in a mapped file, with an msync after every change.
    The program is written against the library: its stores run behind the hook,
    its loads read memory, and msync is the library's.  The managed file of boost
    that it allocates nodes from is that of [Managed]. *)

From stdpp Require Import base list sets gmap strings.
From Stdlib Require Import ZArith Lia Ascii.
From S2P Require Import Prelude Memory PMem Log Snapshot Text Wrappers Tracking Scenario Managed.

(** [node_t] is next, data; [linkedlist_t] is head, tail. *)
Definition off_next : Z := 0.
Definition off_data : Z := 8.
Definition off_head : Z := 0.
Definition off_tail : Z := 8.
Definition sizeof_node : Z := 16.

(** What the commands print. *)
Inductive printed :=
| ONothing
| OHelp
| OUnknown
| OCount (n : Z)
| OSum (n : Z)
| ONodes (values : list Z) (pointers : list (Z * Z)).

(** ** Reading the list *)

Section Read.
Context (m : mem) (ll_obj : Z).

Definition head : Z := load64 m (ll_obj + off_head).
Definition next (n : Z) : Z := load64 m (n + off_next).
Definition data (n : Z) : Z := load64 m (n + off_data).

(** The loops follow [next] to the null pointer; no result when they are still
    going after [fuel] nodes. *)
Fixpoint count_loop (fuel : nat) (cur_node count : Z) : option Z :=
  if cur_node =? 0 then Some count
  else match fuel with
       | O => None
       | S fuel => count_loop fuel (next cur_node) (wrap64 (count + 1))
       end.

Definition count_nodes (fuel : nat) : option printed := OCount <$> count_loop fuel head 0.

Fixpoint values_loop (fuel : nat) (cur_node : Z) : option (list Z) :=
  if cur_node =? 0 then Some []
  else match fuel with
       | O => None
       | S fuel => cons (data cur_node) <$> values_loop fuel (next cur_node)
       end.

Fixpoint pointers_loop (fuel : nat) (cur_node : Z) : option (list (Z * Z)) :=
  if cur_node =? 0 then Some []
  else match fuel with
       | O => None
       | S fuel => cons (cur_node, data cur_node) <$> pointers_loop fuel (next cur_node)
       end.

Definition print_nodes (fuel : nat) : option printed :=
  match values_loop fuel head, pointers_loop fuel head with
  | Some vs, Some ps => Some (ONodes vs ps)
  | _, _ => None
  end.

Fixpoint sum_loop (fuel : nat) (cur_node result : Z) : option Z :=
  if cur_node =? 0 then Some result
  else match fuel with
       | O => None
       | S fuel => sum_loop fuel (next cur_node) (wrap64 (result + data cur_node))
       end.

Fixpoint sum_passes (passes : nat) (fuel : nat) (result : Z) : option Z :=
  match passes with
  | O => Some result
  | S passes =>
      match sum_loop fuel head result with
      | Some result => sum_passes passes fuel result
      | None => None
      end
  end.

Definition sum_nodes (fuel : nat) : option Z := sum_passes 100 fuel 0.
End Read.

(** ** Changing the list *)

Section Ops.
Context {M : Type} `{PMemOps M}.
Context (file_size : string → Z) (real_msync : Z → Z → Z → Z) (cfg : config).
Context (thr : nat) (res : mmf).

(** Field access through a pointer: a null pointer is a trap. *)
Definition rd (p off : Z) : cmd (sys M) Z := λ s,
  if p =? 0 then Trap s else Ret (load64 (view (s_pm s)) (p + off)) s.
Definition wr (p off v : Z) : cmd (sys M) unit :=
  if p =? 0 then trap
  else do! exec file_size real_msync cfg (OpStore thr (p + off) (le_split 8 v)) in ret tt.

Abbreviation res_allocate := (res_allocate file_size real_msync cfg thr res).
Abbreviation res_deallocate := (res_deallocate file_size real_msync cfg thr res).
Abbreviation sync_all := (sync_all file_size real_msync cfg res).

Definition append_node (ll_obj val : Z) (exit_mid_tx : bool) : cmd (sys M) unit :=
  let! head := rd ll_obj off_head in
  do! (if head =? 0 then
         let! head := res_allocate sizeof_node in
         do! wr head off_data 0 in
         do! wr head off_next 0 in
         do! when (head =? 0) throw in
         do! wr ll_obj off_head head in
         wr ll_obj off_tail head
       else
         let! newTail := res_allocate sizeof_node in
         do! when (newTail =? 0) throw in
         do! wr newTail off_next 0 in
         let! tail := rd ll_obj off_tail in
         do! wr tail off_next newTail in
         wr ll_obj off_tail newTail) in
  let! tail := rd ll_obj off_tail in
  do! wr tail off_data val in
  do! when exit_mid_tx (exit_with 0) in
  sync_all.

(** [pop_head] up to its msync. *)
Definition unlink_head (ll_obj : Z) : cmd (sys M) unit :=
  let! head := rd ll_obj off_head in
  when (negb (head =? 0))
    (let! tail := rd ll_obj off_tail in
     let! oldNode :=
       (if head =? tail then
          do! wr ll_obj off_head 0 in
          do! wr ll_obj off_tail 0 in
          ret head
        else
          let! newHead := rd head off_next in
          do! wr ll_obj off_head newHead in
          ret head) in
     res_deallocate oldNode).

Definition pop_head (ll_obj : Z) : cmd (sys M) unit :=
  do! unlink_head ll_obj in
  sync_all.

Definition append_head (ll_obj val : Z) : cmd (sys M) unit :=
  let! newHead := res_allocate sizeof_node in
  do! wr newHead off_data val in
  let! head := rd ll_obj off_head in
  do! wr newHead off_next head in
  do! wr ll_obj off_head newHead in
  do! when (newHead =? 0) throw in
  let! tail := rd ll_obj off_tail in
  when (tail =? 0) (wr ll_obj off_tail newHead).

(** [for (i = 0; i < cnt; ++i)]. *)
Definition bulk_append_nodes (ll_obj cnt : Z) : cmd (sys M) unit :=
  for_each (seqZ 0 cnt) (λ i, append_node ll_obj i false).
Definition bulk_delete_nodes (ll_obj cnt : Z) : cmd (sys M) unit :=
  for_each (seqZ 0 cnt) (λ _, pop_head ll_obj).
(** [rands i] is the [i]-th random number; [thresh] is computed in floating
    point. *)
Definition bulk_append_delete_nodes (ll_obj cnt thresh : Z) (rands : Z → Z) : cmd (sys M) unit :=
  for_each (seqZ 0 cnt) (λ i,
    if thresh <? rands i then append_node ll_obj i false else pop_head ll_obj).

(** ** The command loop *)

Context (split : string → string → list string).

Definition reads (c : mem → option printed) : cmd (sys M) (option printed) := λ s,
  Ret (c (view (s_pm s))) s.
Definition quiet_cmd (c : cmd (sys M) unit) : cmd (sys M) (option printed) := do! c in ret (Some ONothing).
Definition help : cmd (sys M) (option printed) := ret (Some OHelp).

Definition strlen (buf : string) : Z := Z.of_nat (String.length buf).
Definition tail_of (buf : string) : string :=
  match buf with EmptyString => EmptyString | String _ r => r end.

(** A command with a number: too short a line prints the help, and a number
    that does not parse throws. *)
Definition with_number (buf : string) (k : Z → cmd (sys M) unit) : cmd (sys M) (option printed) :=
  if strlen buf <? 4 then help
  else match stoull 10 (tail_of buf) with
       | Some n => quiet_cmd (k n)
       | None => throw
       end.

Definition run_line (fuel : nat) (root : Z) (buf : string) : cmd (sys M) (option printed) :=
  match buf with
  | EmptyString => ret (Some ONothing)
  | String c _ =>
      if Ascii.eqb c "010" then ret (Some ONothing)
      else if Ascii.eqb c "i" then with_number buf (λ n, append_node root n false)
      else if Ascii.eqb c "c" then reads (λ m, count_nodes m root fuel)
      else if Ascii.eqb c "s" then reads (λ m, OSum <$> sum_nodes m root fuel)
      else if Ascii.eqb c "g" then
        (if bool_decide (length (split (String.substring 0 (String.length buf - 1) buf) " ") = 3%nat)
         then trap else help)
      else if Ascii.eqb c "p" then reads (λ m, print_nodes m root fuel)
      else if Ascii.eqb c "f" then with_number buf (λ n, append_node root n true)
      else if Ascii.eqb c "A" then with_number buf (bulk_append_nodes root)
      else if Ascii.eqb c "r" then quiet_cmd (pop_head root)
      else if Ascii.eqb c "R" then with_number buf (bulk_delete_nodes root)
      else if Ascii.eqb c "h" then help
      else ret (Some OUnknown)
  end.

(** Lines until the input ends; an answer is missing when a loop was not done
    after [fuel] nodes. *)
Fixpoint run_lines (fuel : nat) (root : Z) (bufs : list string) : cmd (sys M) (list (option printed)) :=
  match bufs with
  | [] => ret []
  | buf :: bufs =>
      let! o := run_line fuel root buf in
      let! os := run_lines fuel root bufs in
      ret (o :: os)
  end.
End Ops.

(** ** Lists in memory *)

(** The nodes of [ns], address and value, lead from [p] to [q]. *)
Fixpoint seg (m : mem) (p : Z) (ns : list (Z * Z)) (q : Z) : Prop :=
  match ns with
  | [] => p = q
  | (a, d) :: ns => p = a ∧ a ≠ 0 ∧ data m a = d ∧ seg m (next m a) ns q
  end.

Definition last_node (ns : list (Z * Z)) : Z := default 0 (fst <$> last ns).

Record list_at (m : mem) (root : Z) (ns : list (Z * Z)) : Prop := {
  la_head : seg m (load64 m (root + off_head)) ns 0;
  la_tail : load64 m (root + off_tail) = last_node ns;
}.

Lemma seg_app m ns1 : ∀ p ns2 q, seg m p (ns1 ++ ns2) q ↔ ∃ r, seg m p ns1 r ∧ seg m r ns2 q.
Proof.
  induction ns1 as [|[a d] ns1 IH]; intros p ns2 q; simpl.
  - split; [intros Hs; by exists p|by intros (r & -> & Hs)].
  - rewrite IH. naive_solver.
Qed.

(** The same nodes in another memory. *)
Lemma seg_ext m m' ns : ∀ p q,
  (∀ a, a ∈ ns.*1 → ∀ x, a ≤ x < a + sizeof_node → m' x = m x) → seg m p ns q → seg m' p ns q.
Proof.
  induction ns as [|[a d] ns IH]; intros p q Hm; simpl; [done|]. intros (-> & Ha & Hd & Hs).
  assert (next m' a = next m a ∧ data m' a = data m a) as [-> ->].
  { unfold next, data, off_next, off_data. split; apply loadN_ext; intros x Hx;
      apply (Hm a); simpl; try (left; done); unfold sizeof_node; lia. }
  split_and!; try done. apply IH; [|done]. intros b Hb. apply Hm. by right.
Qed.

Section Loops.
Context (m : mem).

Lemma wrap64_add_l x y : wrap64 (wrap64 x + y) = wrap64 (x + y).
Proof. unfold wrap. by rewrite Zplus_mod_idemp_l. Qed.

(** Each loop ends when the fuel is at least the number of nodes. *)
Lemma count_loop_seg ns e : ∀ p c, seg m p ns 0 →
  count_loop m (length ns + e) p (wrap64 c) = Some (wrap64 (c + Z.of_nat (length ns))).
Proof.
  induction ns as [|[a d] ns IH]; intros p c; simpl.
  - intros ->. rewrite Z.add_0_r. by destruct e.
  - intros (-> & Ha & _ & Hs). rewrite (proj2 (Z.eqb_neq a 0) Ha), wrap64_add_l, (IH _ _ Hs).
    do 2 f_equal. lia.
Qed.

Lemma values_loop_seg ns e : ∀ p, seg m p ns 0 → values_loop m (length ns + e) p = Some ns.*2.
Proof.
  induction ns as [|[a d] ns IH]; intros p; simpl; [intros ->; by destruct e|].
  intros (-> & Ha & Hd & Hs). by rewrite (proj2 (Z.eqb_neq a 0) Ha), (IH _ Hs), Hd.
Qed.

Lemma pointers_loop_seg ns e : ∀ p, seg m p ns 0 → pointers_loop m (length ns + e) p = Some ns.
Proof.
  induction ns as [|[a d] ns IH]; intros p; simpl; [intros ->; by destruct e|].
  intros (-> & Ha & Hd & Hs). by rewrite (proj2 (Z.eqb_neq a 0) Ha), (IH _ Hs), Hd.
Qed.

Definition sum_of (l : list Z) : Z := foldr Z.add 0 l.

Lemma sum_loop_seg ns e : ∀ p r, seg m p ns 0 →
  sum_loop m (length ns + e) p (wrap64 r) = Some (wrap64 (r + sum_of ns.*2)).
Proof.
  induction ns as [|[a d] ns IH]; intros p r; cbn [seg sum_loop length Nat.add].
  - intros ->. cbn. rewrite Z.add_0_r. by destruct e.
  - intros (-> & Ha & Hd & Hs). rewrite (proj2 (Z.eqb_neq a 0) Ha), Hd, wrap64_add_l, (IH _ _ Hs).
    do 2 f_equal. change (sum_of ((a, d) :: ns).*2) with (d + sum_of ns.*2). lia.
Qed.

Lemma sum_passes_seg root ns e n : ∀ r, seg m (head m root) ns 0 →
  sum_passes m root n (length ns + e) (wrap64 r) = Some (wrap64 (r + Z.of_nat n * sum_of ns.*2)).
Proof.
  induction n as [|n IH]; intros r Hs; cbn [sum_passes].
  - by rewrite Z.mul_0_l, Z.add_0_r.
  - rewrite (sum_loop_seg _ _ _ _ Hs), (IH _ Hs). do 2 f_equal. lia.
Qed.

Lemma reads_spec root ns fuel :
  list_at m root ns → (length ns ≤ fuel)%nat →
  count_nodes m root fuel = Some (OCount (wrap64 (Z.of_nat (length ns))))
  ∧ print_nodes m root fuel = Some (ONodes ns.*2 ns)
  ∧ sum_nodes m root fuel = Some (wrap64 (100 * sum_of ns.*2)).
Proof.
  intros [Hs _] Hf. replace fuel with (length ns + (fuel - length ns))%nat by lia.
  change (load64 m (root + off_head)) with (head m root) in Hs. split_and!.
  - unfold count_nodes. pose proof (count_loop_seg ns (fuel - length ns) _ 0 Hs) as E.
    change (wrap64 0) with 0 in E. by rewrite E.
  - unfold print_nodes. by rewrite values_loop_seg, pointers_loop_seg.
  - unfold sum_nodes. pose proof (sum_passes_seg root ns (fuel - length ns) 100 0 Hs) as E.
    change (wrap64 0) with 0 in E. by rewrite E.
Qed.
End Loops.

(** ** What the managed file promises *)

Section Heap.
Context (g : globals) (len root : Z).
Abbreviation S0 := (start_addr g).

(** Bytes of the program: the root object and the live nodes. *)
Definition owned (live : gset Z) (x : Z) : Prop :=
  root ≤ x < root + 16 ∨ ∃ a, a ∈ live ∧ a ≤ x < a + sizeof_node.

Definition apply_writes (ws : writes) (m : mem) : mem := foldl (λ m w, write_bytes m w.1 w.2) m ws.

(** Stores that stay in the mapping and off the program's bytes. *)
Definition writes_ok (k : nat) (live : gset Z) (ws : writes) : Prop :=
  (length ws ≤ k)%nat
  ∧ ∀ w, w ∈ ws → blen w.2 ≤ 8 ∧ S0 ≤ w.1 ∧ w.1 + 8 ≤ S0 + len
      ∧ ∀ x, w.1 ≤ x < w.1 + blen w.2 → ¬ owned live x.

(** [heap m live]: memory [m] holds the managed file, with the nodes [live]
    allocated.  It does not depend on the program's bytes; [allocate] gives a
    node of its own, and neither operation touches what is live.  An operation
    makes at most [k] stores. *)
Record heap_laws (k : nat) (res : mmf) (heap : mem → gset Z → Prop) : Prop := {
  hl_base : 0 ≤ get_address res ≤ S0 ∧ S0 + len ≤ get_address res + get_size res < 2 ^ 64;
  hl_root : S0 ≤ root ∧ root + 16 ≤ S0 + len;
  hl_ext m m' live :
    heap m live → (∀ x, in_cache g len x → ¬ owned live x → m' x = m x) → heap m' live;
  hl_in m live a :
    heap m live → a ∈ live → S0 ≤ a ∧ a + sizeof_node ≤ S0 + len ∧ rng_disj a sizeof_node root 16;
  hl_apart m live a b :
    heap m live → a ∈ live → b ∈ live → a ≠ b → rng_disj a sizeof_node b sizeof_node;
  hl_alloc m live a ws :
    heap m live → allocate res sizeof_node m = Some (a, ws) →
    a ∉ live ∧ writes_ok k live ws ∧ heap (apply_writes ws m) ({[a]} ∪ live);
  hl_free m live a :
    heap m live → a ∈ live →
    writes_ok k (live ∖ {[a]}) (deallocate res a m)
    ∧ heap (apply_writes (deallocate res a m) m) (live ∖ {[a]});
}.

Lemma apply_writes_owned k live ws m x :
  writes_ok k live ws → owned live x → apply_writes ws m x = m x.
Proof.
  intros [_ Hw] Hx. revert m. induction ws as [|w ws IH]; intros m; [done|]. simpl.
  rewrite IH by (intros; apply Hw; by right). unfold write_bytes.
  destruct (in_rng w.1 (blen w.2) x) eqn:E; [|done]. apply in_rng_spec in E.
  destruct (Hw w) as (_ & _ & _ & Hno); [left|]. by destruct (Hno x).
Qed.

Lemma apply_writes_ext ws m m' x : m' x = m x → apply_writes ws m' x = apply_writes ws m x.
Proof.
  revert m m'. induction ws as [|w ws IH]; intros m m' Hm; [done|]. simpl. apply IH.
  unfold write_bytes. by rewrite Hm.
Qed.
End Heap.

(** ** Running a command on the library *)

Section Work.
Context {M : Type} `{PMemLaws M}.
Context (file_size : string → Z) (real_msync : Z → Z → Z → Z) (cfg : config).
Context (g : globals) (len : Z) (thr : nat) (res : mmf).
Hypothesis Hsu : setup cfg g len.
Implicit Types (s : sys M) (m : mem).
Abbreviation S0 := (start_addr g).
Abbreviation P := (backing_file_start g).

(** The log has room for [n] more stores. *)
Definition room_for (us : list undo) (n : Z) : Prop :=
  sizeof_layout + total us + n * (sizeof_entry + 8) ≤ BUF_SIZE.

(** In the middle of a command that began in [s0]: the page cache holds [m], the
    backing file is as it was, and there is room for [n] stores. *)
Record working s0 s m (n : Z) : Prop := {
  wk_track : ∃ uss us, tracking g len s uss ∧ uss !! thr = Some us ∧ room_for us n;
  wk_view x : in_cache g len x → view (s_pm s) x = m x;
  wk_back x : in_back g len x → view (s_pm s) x = view (s_pm s0) x;
  wk_areas : map log_area (logs_of s) = map log_area (logs_of s0);
  wk_inst : s_storeInstEnabled s = true;
}.

(** Between commands: nothing is logged. *)
Record idle s : Prop := {
  id_fresh : fresh g len s;
  id_inst : s_storeInstEnabled s = true;
  id_thr : (thr < length (logs_of s))%nat;
}.

Lemma idle_working s n :
  idle s → sizeof_layout + n * (sizeof_entry + 8) ≤ BUF_SIZE → working s s (view (s_pm s)) n.
Proof.
  intros [Hf Hi Ht] Hn. split; try done. exists (map (λ _, []) (logs_of s)), [].
  split_and!; [by apply fresh_tracking| |].
  - destruct (lookup_lt_is_Some_2 _ _ Ht) as [l Hl].
    change (map (λ _ : Log, @nil undo)) with (fmap (M := list) (λ _ : Log, @nil undo)).
    by rewrite list_lookup_fmap, Hl.
  - unfold room_for. change (total []) with 0. lia.
Qed.

Lemma working_weaken s0 s m n n' : n' ≤ n → working s0 s m n → working s0 s m n'.
Proof.
  intros Hn [(uss & us & Ht & Hu & Hr) Hv Hb Ha Hi]. split; try done.
  exists uss, us. split_and!; try done. unfold room_for, sizeof_entry in *. lia.
Qed.

Lemma outside_areas s uss x :
  tracking g len s uss → in_cache g len x ∨ in_back g len x → ∀ l, l ∈ logs_of s → ¬ in_area l x.
Proof.
  intros Htr Hx l Hl. pose proof (tr_areas _ _ _ _ Htr) as Ha.
  pose proof (aa_cache _ _ _ Ha l Hl). pose proof (aa_back _ _ _ Ha l Hl).
  unfold in_cache, in_back, in_area, rng_disj in *. lia.
Qed.

Lemma work_store s0 s m n a bs :
  working s0 s m (n + 1) → 0 ≤ n → blen bs ≤ 8 → S0 ≤ a → a + 8 ≤ S0 + len →
  ∃ s', exec file_size real_msync cfg (OpStore thr a bs) s = Ret 0 s'
    ∧ working s0 s' (write_bytes m a bs) n.
Proof.
  intros [(uss & us & Ht & Hu & Hr) Hv Hb Ha Hi] Hn Hbs H1 H2.
  destruct (exec_store_tracked file_size real_msync cfg g len s uss thr us a bs)
    as (s' & uss' & us' & E & Ht' & Hu' & Htot & Hi' & Ha' & Hv'); try done.
  { unfold loggable, room_for, sizeof_layout, sizeof_entry in *. lia. }
  exists s'. split; [done|]. pose proof (blen_nonneg bs). split.
  - exists uss', us'. split_and!; try done. unfold room_for, sizeof_entry in *. lia.
  - intros x Hx. rewrite Hv' by (eapply outside_areas; eauto). unfold write_bytes. by rewrite (Hv x Hx).
  - intros x Hx. rewrite Hv' by (eapply outside_areas; eauto). unfold write_bytes.
    rewrite (proj2 (in_rng_false _ _ _)); [by apply Hb|].
    pose proof (rg_disj _ _ _ (su_rg _ _ _ Hsu)). unfold in_back, rng_disj in *. lia.
  - congruence.
  - done.
Qed.

Lemma cache_load s0 s m n a :
  working s0 s m n → S0 ≤ a → a + 8 ≤ S0 + len → load64 (view (s_pm s)) a = load64 m a.
Proof. intros Hw H1 H2. apply loadN_ext. intros x Hx. apply Hw. unfold in_cache. lia. Qed.

Lemma work_rd s0 s m n p off :
  working s0 s m n → p ≠ 0 → S0 ≤ p + off → p + off + 8 ≤ S0 + len →
  rd p off s = Ret (load64 m (p + off)) s.
Proof.
  intros Hw Hp H1 H2. unfold rd. rewrite (proj2 (Z.eqb_neq p 0) Hp). by rewrite (cache_load s0 s m n).
Qed.

Lemma work_wr s0 s m n p off v :
  working s0 s m (n + 1) → 0 ≤ n → p ≠ 0 → S0 ≤ p + off → p + off + 8 ≤ S0 + len →
  ∃ s', wr file_size real_msync cfg thr p off v s = Ret tt s' ∧ working s0 s' (store64 m (p + off) v) n.
Proof.
  intros Hw Hn Hp H1 H2. unfold wr. rewrite (proj2 (Z.eqb_neq p 0) Hp).
  destruct (work_store s0 s m n (p + off) (le_split 8 v)) as (s' & E & Hw'); try done.
  exists s'. split; [|done]. unfold bind. by rewrite E.
Qed.

Lemma work_perform root k live s0 ws : ∀ s m n,
  working s0 s m (n + Z.of_nat (length ws)) → 0 ≤ n →
  writes_ok g len root k live ws →
  ∃ s', perform file_size real_msync cfg thr ws s = Ret tt s' ∧ working s0 s' (apply_writes ws m) n.
Proof.
  induction ws as [|w ws IH]; intros s m n Hw Hn [Hk Hok].
  - exists s. split; [done|]. by eapply working_weaken; [|exact Hw]; simpl; lia.
  - destruct (Hok w) as (H1 & H2 & H3 & _); [left|].
    destruct (work_store s0 s m (n + Z.of_nat (length ws)) w.1 w.2) as (s1 & E1 & Hw1); try done; try lia.
    { eapply working_weaken; [|exact Hw]. simpl length. lia. }
    destruct (IH s1 (write_bytes m w.1 w.2) n) as (s2 & E2 & Hw2); try done.
    { split; [simpl in Hk; lia|]. intros w' Hw'. apply Hok. by right. }
    exists s2. split; [|done]. unfold perform in *. cbn [for_each]. unfold bind at 1 2. by rewrite E1.
Qed.

(** msync makes the page cache the durable contents of the file. *)
Lemma work_sync s0 s m n :
  working s0 s m n → idle s0 → 0 ≤ get_address res ≤ S0 → S0 + len ≤ get_address res + get_size res < 2 ^ 64 →
  ∃ s', sync_all file_size real_msync cfg res s = Ret tt s' ∧ idle s'
    ∧ ∀ x, in_cache g len x → view (s_pm s') x = m x.
Proof.
  intros [(uss & us & Ht & Hu & Hr) Hv Hb Ha Hi] [_ _ Hthr] H1 H2.
  destruct (tracking_msync file_size real_msync cfg g len s uss (get_address res) (get_size res) MS_SYNC)
    as (s' & E & _ & Hvis & Hf & Ha' & Hi'); try done.
  exists s'. split_and!.
  - unfold sync_all, bind. by rewrite E.
  - split; try done. rewrite <-(length_map log_area), Ha', Ha, length_map. done.
  - intros x Hx. rewrite Hvis; [by apply Hv|]. split; [|intros l Hl; by eapply outside_areas; eauto].
    pose proof (rg_disj _ _ _ (su_rg _ _ _ Hsu)). unfold in_back, in_cache, rng_disj in *. lia.
Qed.

(** What the file holds, at the addresses of the mapping. *)
Definition file_image s : mem := λ x, view (s_pm s) (P + (x - S0)).

Lemma idle_image s x : idle s → in_cache g len x → file_image s x = view (s_pm s) x ∧ durable (s_pm s) (P + (x - S0)).
Proof.
  intros [[_ _ _ _ Hm] _ _] Hx. unfold in_cache in Hx. unfold file_image.
  destruct (Hm (x - S0)) as [-> Hd]; [lia|]. split; [|done]. f_equal. lia.
Qed.

(** In the middle of a command the file holds what it held before. *)
Lemma working_image s0 s m n x :
  working s0 s m n → in_cache g len x → file_image s x = file_image s0 x ∧ durable (s_pm s) (P + (x - S0)).
Proof.
  intros [(uss & us & Ht & _) _ Hb _ _] Hx. unfold file_image.
  assert (in_back g len (P + (x - S0))) as Hx' by (unfold in_cache, in_back in *; lia).
  split; [by apply Hb|by apply (tr_durable _ _ _ _ Ht)].
Qed.
End Work.

(** ** The operations against a queue *)

Section Queue.
Context {M : Type} `{PMemLaws M}.
Context (file_size : string → Z) (real_msync : Z → Z → Z → Z) (cfg : config).
Context (g : globals) (len : Z) (thr : nat) (res : mmf) (root : Z) (k : nat).
Context (heap : mem → gset Z → Prop).
Hypothesis Hsu : setup cfg g len.
Hypothesis Hhl : heap_laws g len root k res heap.
(** The log holds the stores of one command. *)
Hypothesis Hk : sizeof_layout + (Z.of_nat k + 6) * (sizeof_entry + 8) ≤ BUF_SIZE.
Implicit Types (s : sys M) (m : mem) (ns : list (Z * Z)).
Abbreviation S0 := (start_addr g).
Abbreviation P := (backing_file_start g).
Abbreviation working := (working g len thr).
Abbreviation idle := (idle g len thr).

(** Memory that holds a heap and, in it, the list [ns]. *)
Record held m ns (live : gset Z) : Prop := {
  he_heap : heap m live;
  he_list : list_at m root ns;
  he_live a : a ∈ ns.*1 → a ∈ live;
  he_nodup : NoDup ns.*1;
}.

Lemma region_pos : 0 < S0 ∧ S0 + len < 2 ^ 63.
Proof. destruct (su_rg _ _ _ Hsu). lia. Qed.

Lemma root_pos : root ≠ 0 ∧ S0 ≤ root ∧ root + 16 ≤ S0 + len.
Proof. pose proof region_pos. pose proof (hl_root _ _ _ _ _ _ Hhl). lia. Qed.

Lemma live_pos m live a :
  heap m live → a ∈ live → a ≠ 0 ∧ 0 ≤ a < 2 ^ 64 ∧ S0 ≤ a ∧ a + 16 ≤ S0 + len ∧ (a + 16 ≤ root ∨ root + 16 ≤ a).
Proof.
  intros Hh Ha. pose proof region_pos. destruct (hl_in _ _ _ _ _ _ Hhl m live a Hh Ha) as (? & ? & Hd).
  unfold rng_disj, sizeof_node in *. lia.
Qed.

Lemma live_apart m live a b :
  heap m live → a ∈ live → b ∈ live → a ≠ b → a + 16 ≤ b ∨ b + 16 ≤ a.
Proof.
  intros Hh Ha Hb Hne. pose proof (hl_apart _ _ _ _ _ _ Hhl m live a b Hh Ha Hb Hne) as Hd.
  pose proof (live_pos m live a Hh Ha). pose proof (live_pos m live b Hh Hb).
  unfold rng_disj, sizeof_node in *. lia.
Qed.

(** Stores of the allocator do not disturb the list. *)
Lemma list_at_ext m m' ns live :
  list_at m root ns → (∀ a, a ∈ ns.*1 → a ∈ live) → (∀ x, owned root live x → m' x = m x) →
  list_at m' root ns.
Proof.
  intros [Hs Ht] Hl Hm. unfold off_head, off_tail in *.
  assert (∀ off, off = 0 ∨ off = 8 → load64 m' (root + off) = load64 m (root + off)) as Hr.
  { intros off Ho. apply loadN_ext. intros x Hx. apply Hm. left. lia. }
  split; unfold off_head, off_tail; rewrite Hr by auto; [|done].
  eapply seg_ext; [|exact Hs]. intros a Ha x Hx. apply Hm. right. exists a. auto.
Qed.

Lemma alloc_held m m' ns live a ws :
  held m ns live → allocate res sizeof_node m = Some (a, ws) →
  (∀ x, in_cache g len x → m' x = apply_writes ws m x) →
  held m' ns ({[a]} ∪ live) ∧ a ∉ live ∧ writes_ok g len root k live ws.
Proof.
  intros Hh Ea Hm'. pose proof Hh as [Hheap Hlist Hl Hnd].
  destruct (hl_alloc _ _ _ _ _ _ Hhl m live a ws Hheap Ea) as (Hna & Hok & Hheap').
  split_and!; try done. split; try done.
  - eapply (hl_ext _ _ _ _ _ _ Hhl); [exact Hheap'|]. intros x Hx _. by apply Hm'.
  - eapply list_at_ext; [exact Hlist|exact Hl|]. intros x Hx. rewrite Hm'.
    + by eapply apply_writes_owned.
    + destruct Hx as [Hx|(b & Hb & Hx)]; unfold in_cache.
      * pose proof root_pos. lia.
      * pose proof (live_pos m live b Hheap Hb). unfold sizeof_node in Hx. lia.
  - intros b Hb. set_solver.
Qed.

(** Words the program writes leave the heap alone. *)
Lemma heap_store m live a v :
  heap m live → (∀ x, a ≤ x < a + 8 → owned root live x) → heap (store64 m a v) live.
Proof.
  intros Hh Ha. eapply (hl_ext _ _ _ _ _ _ Hhl); [exact Hh|]. intros x _ Hno.
  apply store64_outside. intros Hx. by apply Hno, Ha.
Qed.

Lemma owned_root live off : off = 0 ∨ off = 8 → ∀ x, root + off ≤ x < root + off + 8 → owned root live x.
Proof. intros Ho x Hx. left. lia. Qed.

Lemma owned_node live a off :
  a ∈ live → off = 0 ∨ off = 8 → ∀ x, a + off ≤ x < a + off + 8 → owned root live x.
Proof. intros Ha Ho x Hx. right. exists a. unfold sizeof_node. split; [done|lia]. Qed.

(** The list after the stores of [append_node], first for the empty list. *)
Definition first_node m a v : mem :=
  store64 (store64 (store64 (store64 (store64 m (a + 8) 0) (a + 0) 0) (root + 0) a) (root + 8) a) (a + 8) v.

Ltac other := rewrite load64_store64_other by lia.
Ltac same := rewrite load64_store64 by lia.

Lemma held_first m a v live :
  held m [] live → a ∈ live → 0 ≤ v < 2 ^ 64 → held (first_node m a v) [(a, v)] live.
Proof.
  intros [Hh _ _ _] Ha Hv. pose proof (live_pos m live a Hh Ha) as (Ha0 & Hb & H1 & H2 & Hd).
  unfold first_node. split.
  - repeat (apply heap_store; [|by (apply owned_root || apply owned_node); auto]). done.
  - split; unfold off_head, off_tail.
    + do 2 other. same. simpl. unfold data, next, off_data, off_next. split_and!; [done|done|by same|].
      do 3 other. by same.
    + other. by same.
  - intros b. set_solver.
  - apply NoDup_singleton.
Qed.

(** ... then for a list with the last node [t]. *)
Definition next_node m t a v : mem :=
  store64 (store64 (store64 (store64 m (a + 0) 0) (t + 0) a) (root + 8) a) (a + 8) v.

Lemma last_node_snoc ns a v : last_node (ns ++ [(a, v)]) = a.
Proof. unfold last_node. by rewrite last_snoc. Qed.

Lemma next_node_other m t a v b live :
  heap m live → t ∈ live → a ∈ live → b ∈ live → b ≠ t → b ≠ a →
  ∀ x, b ≤ x < b + sizeof_node → next_node m t a v x = m x.
Proof.
  intros Hh Ht Ha Hb Hbt Hba x Hx. unfold sizeof_node in Hx.
  pose proof (live_pos m live b Hh Hb). pose proof (live_apart m live b t Hh Hb Ht Hbt).
  pose proof (live_apart m live b a Hh Hb Ha Hba).
  unfold next_node. by rewrite !store64_outside by lia.
Qed.

Lemma held_next m ns t d a v live :
  held m (ns ++ [(t, d)]) live → a ∈ live → a ∉ (ns ++ [(t, d)]).*1 → 0 ≤ v < 2 ^ 64 →
  held (next_node m t a v) ((ns ++ [(t, d)]) ++ [(a, v)]) live.
Proof.
  intros [Hh [Hs Htl] Hl Hnd] Ha Hna Hv.
  rewrite fmap_app in Hna, Hl, Hnd. simpl in Hna, Hl, Hnd.
  assert (t ∈ live) as Ht by (apply Hl; set_solver). assert (t ≠ a) as Hta by set_solver.
  pose proof (live_pos m live a Hh Ha) as (Ha0 & Hb & H1 & H2 & Hd).
  pose proof (live_pos m live t Hh Ht) as (Ht0 & Htb & Ht1 & Ht2 & Htd).
  pose proof (live_apart m live t a Hh Ht Ha Hta) as Hd'.
  apply seg_app in Hs as (r & Hs1 & -> & _ & Hdt & _).
  split.
  - unfold next_node. repeat (apply heap_store; [|by (apply owned_root || apply owned_node); auto]). done.
  - split; unfold off_head, off_tail in *; [|rewrite last_node_snoc; unfold next_node; other; by same].
    rewrite <-(assoc_L (++)). apply seg_app. exists t. split.
    + replace (load64 (next_node m t a v) (root + 0)) with (load64 m (root + 0)) by (unfold next_node; by do 4 other).
      eapply seg_ext; [|exact Hs1]. intros b Hb' x Hx. apply (next_node_other m t a v b live); try done.
      * apply Hl. set_solver.
      * intros ->. apply NoDup_app in Hnd as (_ & Hx2 & _). apply (Hx2 t Hb'). set_solver.
      * set_solver.
    + simpl. unfold data, next, off_data, off_next in *. unfold next_node. split_and!; try done.
      * by do 4 other.
      * do 2 other. by same.
      * by same.
      * do 3 other. by same.
  - intros b. rewrite !fmap_app. simpl. set_solver.
  - rewrite !fmap_app. simpl. apply NoDup_app. split_and!; [done|set_solver|apply NoDup_singleton].
Qed.

(** The list after the stores of [pop_head]. *)
Lemma held_pop_last m t d live :
  held m [(t, d)] live → held (store64 (store64 m (root + 0) 0) (root + 8) 0) [] live.
Proof.
  intros [Hh _ _ _]. pose proof root_pos. split.
  - repeat (apply heap_store; [|by apply owned_root; auto]). done.
  - split; unfold off_head, off_tail; [other|]; by same.
  - intros b. set_solver.
  - constructor.
Qed.

Lemma held_pop m a d ns live :
  held m ((a, d) :: ns) live → ns ≠ [] → held (store64 m (root + 0) (next m a)) ns live.
Proof.
  intros [Hh [Hs Htl] Hl Hnd] Hne. pose proof root_pos. destruct Hs as (_ & Ha0 & _ & Hs).
  assert (0 ≤ next m a < 2 ^ 64) as Hnx.
  { destruct ns as [|[b e] ns]; [done|]. destruct Hs as (-> & _ & _).
    destruct (live_pos m live b Hh) as (_ & ? & _); [apply Hl; simpl; set_solver|done]. }
  simpl in Hl, Hnd. split.
  - apply heap_store; [done|]. apply owned_root. auto.
  - split; unfold off_head, off_tail in *; [same|other].
    + eapply seg_ext; [|exact Hs]. intros b Hb x Hx. unfold sizeof_node in Hx.
      destruct (live_pos m live b Hh) as (_ & _ & _ & _ & Hd); [apply Hl; set_solver|].
      apply store64_outside. lia.
    + rewrite Htl. unfold last_node. by destruct ns.
  - intros b Hb. apply Hl. set_solver.
  - by apply NoDup_cons in Hnd as [_ ?].
Qed.

(** Between commands the process holds the list [ns]. *)
Record holds s ns : Prop := {
  ho_idle : idle s;
  ho_held : ∃ live, held (view (s_pm s)) ns live;
}.

(** The file, as a restart would find it, holds the values [vs]. *)
Definition file_holds s (vs : list Z) : Prop :=
  ∃ ns, ns.*2 = vs ∧ list_at (file_image g s) root ns
    ∧ ∀ x, in_cache g len x → durable (s_pm s) (P + (x - S0)).

Abbreviation append_node := (append_node file_size real_msync cfg thr res).
Abbreviation unlink_head := (unlink_head file_size real_msync cfg thr res).
Abbreviation pop_head := (pop_head file_size real_msync cfg thr res).
Abbreviation sync_all := (sync_all file_size real_msync cfg res).

Lemma work_alloc_room n s ns a ws :
  holds s ns → 0 ≤ n → sizeof_layout + (Z.of_nat k + n) * (sizeof_entry + 8) ≤ BUF_SIZE →
  allocate res sizeof_node (view (s_pm s)) = Some (a, ws) →
  ∃ s1 m1 live, res_allocate file_size real_msync cfg thr res sizeof_node s = Ret a s1
    ∧ working s s1 m1 n ∧ held m1 ns live ∧ a ∈ live ∧ a ∉ ns.*1.
Proof.
  intros [Hid [live Hheld]] Hn Hroom Ea.
  destruct (alloc_held (view (s_pm s)) (apply_writes ws (view (s_pm s))) ns live a ws Hheld Ea)
    as (Hheld1 & Hna & Hok); [done|].
  destruct (work_perform file_size real_msync cfg g len thr Hsu root k live s ws s (view (s_pm s)) n)
    as (s1 & E1 & Hw1); [|lia|done|].
  { eapply working_weaken; [|apply idle_working; [exact Hid|exact Hroom]]. destruct Hok. lia. }
  exists s1, (apply_writes ws (view (s_pm s))), ({[a]} ∪ live). split_and!; try done.
  - unfold res_allocate. rewrite Ea. unfold bind. by rewrite E1.
  - set_solver.
  - intros Hin. by apply Hna, (he_live _ _ _ Hheld).
Qed.

Lemma work_alloc s ns a ws :
  holds s ns → allocate res sizeof_node (view (s_pm s)) = Some (a, ws) →
  ∃ s1 m1 live, res_allocate file_size real_msync cfg thr res sizeof_node s = Ret a s1
    ∧ working s s1 m1 6 ∧ held m1 ns live ∧ a ∈ live ∧ a ∉ ns.*1.
Proof. intros Hho. by apply work_alloc_room. Qed.

(** One more word written, one more field read. *)
Ltac wrote s' E Hw n p off v Hprev :=
  destruct (work_wr file_size real_msync cfg g len thr Hsu _ _ _ n p off v Hprev) as (s' & E & Hw); [lia..|].
Ltac read_field Hw p off :=
  rewrite (bind_eq _ _ _ _ _ (work_rd g len thr _ _ _ _ p off Hw ltac:(lia) ltac:(lia) ltac:(lia))).

(** Up to its msync, [append_node] has made the list with the new node. *)
Definition appends s ns v : Prop :=
  ∃ s1 m1 live a, working s s1 m1 0 ∧ held m1 (ns ++ [(a, v)]) live
    ∧ ∀ b, append_node root v b s = bind (when b (exit_with 0)) (λ _, sync_all) s1.

Lemma append_first_run s v a ws :
  holds s [] → 0 ≤ v < 2 ^ 64 → allocate res sizeof_node (view (s_pm s)) = Some (a, ws) → appends s [] v.
Proof.
  intros Hho Hv Ea. pose proof root_pos as (Hr0 & Hr1 & Hr2).
  destruct (work_alloc s [] a ws Hho Ea) as (s1 & m1 & live & E1 & Hw1 & Hheld & Ha & Hna).
  pose proof (live_pos m1 live a (he_heap _ _ _ Hheld) Ha) as (Ha0 & Hab & Ha1 & Ha2 & Had).
  destruct Hho as [Hid [live0 Hheld0]]. pose proof (idle_working g len thr s _ Hid Hk) as Hw0.
  pose proof (la_head _ _ _ (he_list _ _ _ Hheld0)) as Hhd. unfold off_head in Hhd. simpl in Hhd.
  wrote s2 E2 Hw2 5 a 8 0 Hw1. wrote s3 E3 Hw3 4 a 0 0 Hw2. wrote s4 E4 Hw4 3 root 0 a Hw3.
  wrote s5 E5 Hw5 2 root 8 a Hw4. wrote s6 E6 Hw6 1 a 8 v Hw5.
  exists s6, (first_node m1 a v), live, a. split_and!.
  - eapply working_weaken; [|exact Hw6]. lia.
  - by apply held_first.
  - intros b. unfold LinkedList.append_node, off_head, off_tail, off_data, off_next.
    read_field Hw0 root 0. rewrite Hhd. change (0 =? 0) with true. cbv iota.
    unfold bind at 1 2. rewrite E1. unfold bind at 1. rewrite E2. unfold bind at 1. rewrite E3.
    rewrite (proj2 (Z.eqb_neq a 0) Ha0). unfold bind at 1, when at 1, ret at 1.
    unfold bind at 1. rewrite E4, E5. read_field Hw5 root 8.
    rewrite load64_store64 by lia. unfold bind at 1. by rewrite E6.
Qed.

Lemma append_next_run s ns t d v a ws :
  holds s (ns ++ [(t, d)]) → 0 ≤ v < 2 ^ 64 → allocate res sizeof_node (view (s_pm s)) = Some (a, ws) →
  appends s (ns ++ [(t, d)]) v.
Proof.
  intros Hho Hv Ea. pose proof root_pos as (Hr0 & Hr1 & Hr2).
  destruct (work_alloc s _ a ws Hho Ea) as (s1 & m1 & live & E1 & Hw1 & Hheld & Ha & Hna).
  pose proof (live_pos m1 live a (he_heap _ _ _ Hheld) Ha) as (Ha0 & Hab & Ha1 & Ha2 & Had).
  assert (t ∈ live) as Ht by (apply (he_live _ _ _ Hheld); rewrite fmap_app; set_solver).
  pose proof (live_pos m1 live t (he_heap _ _ _ Hheld) Ht) as (Ht0 & Htb & Ht1 & Ht2 & Htd).
  destruct Hho as [Hid [live0 Hheld0]]. pose proof (idle_working g len thr s _ Hid Hk) as Hw0.
  assert (load64 (view (s_pm s)) (root + 0) ≠ 0) as Hh0.
  { pose proof (la_head _ _ _ (he_list _ _ _ Hheld0)) as Hhd.
    destruct (ns ++ [(t, d)]) as [|[a1 d1] nsr] eqn:En; [by destruct ns|].
    destruct Hhd as (Ehd & ? & _). unfold off_head in Ehd. by rewrite Ehd. }
  pose proof (la_tail _ _ _ (he_list _ _ _ Hheld)) as Htl. rewrite last_node_snoc in Htl. unfold off_tail in Htl.
  wrote s2 E2 Hw2 5 a 0 0 Hw1. wrote s3 E3 Hw3 4 t 0 a Hw2. wrote s4 E4 Hw4 3 root 8 a Hw3.
  wrote s5 E5 Hw5 2 a 8 v Hw4.
  exists s5, (next_node m1 t a v), live, a. split_and!.
  - eapply working_weaken; [|exact Hw5]. lia.
  - by apply held_next.
  - intros b. unfold LinkedList.append_node, off_head, off_tail, off_data, off_next.
    read_field Hw0 root 0. rewrite (proj2 (Z.eqb_neq _ 0) Hh0).
    unfold bind at 1 2. rewrite E1, (proj2 (Z.eqb_neq a 0) Ha0). unfold bind at 1, when at 1, ret at 1.
    unfold bind at 1. rewrite E2. read_field Hw2 root 8.
    rewrite load64_store64_other, Htl by lia. unfold bind at 1. rewrite E3, E4. read_field Hw4 root 8.
    rewrite load64_store64 by lia. unfold bind at 1. by rewrite E5.
Qed.

Lemma append_node_run s ns v a ws :
  holds s ns → 0 ≤ v < 2 ^ 64 → allocate res sizeof_node (view (s_pm s)) = Some (a, ws) → appends s ns v.
Proof.
  destruct (decide (ns = [])) as [->|Hne]; [by apply append_first_run|].
  destruct (exists_last Hne) as (ns0 & [t d] & ->). by apply append_next_run.
Qed.

(** Without room in the file, the allocation throws. *)
Lemma append_node_full s ns v b :
  holds s ns → allocate res sizeof_node (view (s_pm s)) = None → append_node root v b s = Trap s.
Proof.
  intros [Hid _] Ea. pose proof root_pos as (Hr0 & Hr1 & Hr2).
  pose proof (idle_working g len thr s _ Hid Hk) as Hw0.
  unfold LinkedList.append_node, off_head. read_field Hw0 root 0. unfold bind at 1.
  destruct (_ =? 0); unfold bind at 1; unfold res_allocate; by rewrite Ea.
Qed.

Lemma held_settles s' m1 ns live :
  idle s' → held m1 ns live → (∀ x, in_cache g len x → view (s_pm s') x = m1 x) → holds s' ns.
Proof.
  intros Hid' Hheld Hv. split; [done|]. exists live. pose proof Hheld as [Hh Hl Hlv Hnd]. split; try done.
  - eapply (hl_ext _ _ _ _ _ _ Hhl); [exact Hh|]. intros x Hx _. by apply Hv.
  - eapply list_at_ext; [apply Hheld|apply Hheld|]. intros x Hx. apply Hv. unfold in_cache.
    destruct Hx as [Hx|(b & Hb & Hx)]; [pose proof root_pos; lia|].
    pose proof (live_pos m1 live b Hh Hb). unfold sizeof_node in Hx. lia.
Qed.

(** msync ends a command. *)
Lemma sync_holds s s1 m1 n ns live :
  idle s → working s s1 m1 n → held m1 ns live → ∃ s', sync_all s1 = Ret tt s' ∧ holds s' ns.
Proof.
  intros Hid Hw Hheld. destruct (hl_base _ _ _ _ _ _ Hhl) as [Hb1 Hb2].
  destruct (work_sync file_size real_msync cfg g len thr res Hsu s s1 m1 n) as (s' & E & Hid' & Hv); try done.
  exists s'. split; [done|]. by eapply held_settles.
Qed.

(** The file holds the list between commands, and keeps it during one. *)
Lemma list_image s ns m live :
  held m ns live → (∀ x, in_cache g len x → file_image g s x = m x) → list_at (file_image g s) root ns.
Proof.
  intros Hheld Hx. eapply list_at_ext; [apply Hheld|apply Hheld|]. intros x Ho. apply Hx. unfold in_cache.
  destruct Ho as [Ho|(b & Hb & Ho)]; [pose proof root_pos; lia|].
  pose proof (live_pos m live b (he_heap _ _ _ Hheld) Hb). unfold sizeof_node in Ho. lia.
Qed.

Lemma holds_file s ns : holds s ns → file_holds s ns.*2.
Proof.
  intros [Hid [live Hheld]]. exists ns. split; [done|]. split.
  - eapply list_image; [exact Hheld|]. intros x Hx. by apply (idle_image g len thr).
  - intros x Hx. by apply (idle_image g len thr).
Qed.

Lemma working_file s s1 m1 n ns : holds s ns → working s s1 m1 n → file_holds s1 ns.*2.
Proof.
  intros [Hid [live Hheld]] Hw. exists ns. split; [done|]. split.
  - eapply list_image; [exact Hheld|]. intros x Hx.
    destruct (working_image g len thr s s1 m1 n x Hw Hx) as [-> _]. by apply (idle_image g len thr).
  - intros x Hx. by apply (working_image g len thr s s1 m1 n x Hw Hx).
Qed.

(** ** Commands *)

Lemma append_node_spec s ns v :
  holds s ns → 0 ≤ v < 2 ^ 64 →
  (∃ s' a, append_node root v false s = Ret tt s' ∧ holds s' (ns ++ [(a, v)]))
  ∨ append_node root v false s = Trap s.
Proof.
  intros Hho Hv. destruct (allocate res sizeof_node (view (s_pm s))) as [[a ws]|] eqn:Ea.
  2:{ right. by eapply append_node_full. }
  left. destruct (append_node_run s ns v a ws Hho Hv Ea) as (s1 & m1 & live & b & Hw & Hheld & E).
  destruct (sync_holds s s1 m1 0 _ live (ho_idle _ _ Hho) Hw Hheld) as (s' & E' & Hho').
  exists s', b. split; [|done]. rewrite E. exact E'.
Qed.

Lemma append_node_exit s ns v :
  holds s ns → 0 ≤ v < 2 ^ 64 →
  (∃ s', append_node root v true s = Exit 0 s' ∧ file_holds s' ns.*2)
  ∨ append_node root v true s = Trap s.
Proof.
  intros Hho Hv. destruct (allocate res sizeof_node (view (s_pm s))) as [[a ws]|] eqn:Ea.
  2:{ right. by eapply append_node_full. }
  left. destruct (append_node_run s ns v a ws Hho Hv Ea) as (s1 & m1 & live & b & Hw & Hheld & E).
  exists s1. split; [by rewrite E|]. by eapply working_file.
Qed.

Lemma work_free s s1 m1 n ns live a :
  working s s1 m1 (n + Z.of_nat k) → 0 ≤ n → held m1 ns live → a ∈ live → a ∉ ns.*1 →
  ∃ s2 m2, res_deallocate file_size real_msync cfg thr res a s1 = Ret tt s2
    ∧ working s s2 m2 n ∧ held m2 ns (live ∖ {[a]}).
Proof.
  intros Hw Hn [Hh Hl Hlv Hnd] Ha Hna.
  assert (heap (view (s_pm s1)) live) as Hh1.
  { eapply (hl_ext _ _ _ _ _ _ Hhl); [exact Hh|]. intros x Hx _. by apply (wk_view _ _ _ _ _ _ _ Hw). }
  destruct (hl_free _ _ _ _ _ _ Hhl _ _ a Hh1 Ha) as [Hok Hh2].
  set (ws := deallocate res a (view (s_pm s1))) in *.
  destruct (work_perform file_size real_msync cfg g len thr Hsu root k (live ∖ {[a]}) s ws s1 m1 n)
    as (s2 & E & Hw2); [|done|done|].
  { eapply working_weaken; [|exact Hw]. destruct Hok. lia. }
  exists s2, (apply_writes ws m1). split_and!; try done. split; try done.
  - eapply (hl_ext _ _ _ _ _ _ Hhl); [exact Hh2|]. intros x Hx _.
    apply apply_writes_ext. symmetry. by apply (wk_view _ _ _ _ _ _ _ Hw).
  - apply (list_at_ext m1 _ ns (live ∖ {[a]})); [done| |].
    + intros b Hb. apply elem_of_difference. split; [by apply Hlv|]. set_solver.
    + intros x Hx. by eapply apply_writes_owned.
  - intros b Hb. apply elem_of_difference. split; [by apply Hlv|]. set_solver.
Qed.

(** [unlink_head] on every list, in a command that began in [s0]. *)
Definition unlinks s0 s ns : Prop :=
  ∃ s' m' live', unlink_head root s = Ret tt s' ∧ working s0 s' m' 1 ∧ held m' ns live'.

Lemma unlink_empty s0 s m live :
  working s0 s m (Z.of_nat k + 6) → held m [] live → unlinks s0 s [].
Proof.
  intros Hw0 Hheld. pose proof root_pos as (Hr0 & Hr1 & Hr2).
  pose proof (la_head _ _ _ (he_list _ _ _ Hheld)) as Hhd. unfold off_head in Hhd. simpl in Hhd.
  exists s, m, live. split_and!; [|eapply working_weaken; [|exact Hw0]; lia|done].
  unfold LinkedList.unlink_head, off_head. read_field Hw0 root 0. by rewrite Hhd.
Qed.

Lemma unlink_last s0 s m live a d :
  working s0 s m (Z.of_nat k + 6) → held m [(a, d)] live → unlinks s0 s [].
Proof.
  intros Hw0 Hheld. pose proof root_pos as (Hr0 & Hr1 & Hr2).
  destruct (he_list _ _ _ Hheld) as [(Hhd & Ha0 & _) Htl]. unfold off_head, off_tail in *.
  change (last_node [(a, d)]) with a in Htl.
  replace (Z.of_nat k + 6) with (Z.of_nat k + 5 + 1) in Hw0 by lia.
  wrote s1 E1 Hw1 (Z.of_nat k + 5) root 0 0 Hw0.
  apply (working_weaken _ _ _ _ _ _ _ (1 + Z.of_nat k + 1)) in Hw1; [|lia].
  wrote s2 E2 Hw2 (1 + Z.of_nat k) root 8 0 Hw1.
  destruct (work_free s0 s2 _ 1 [] live a Hw2) as (s' & m' & E & Hw & Hheld');
    [lia|by eapply held_pop_last|apply Hheld; simpl; set_solver|set_solver|].
  exists s', m', (live ∖ {[a]}). split_and!; [|done|done]. unfold LinkedList.unlink_head, off_head, off_tail.
  read_field Hw0 root 0. rewrite Hhd, (proj2 (Z.eqb_neq a 0) Ha0). cbn [negb when].
  read_field Hw0 root 8. rewrite Htl, Z.eqb_refl, !bind_assoc.
  rewrite (bind_eq _ _ _ _ _ E1), bind_assoc, (bind_eq _ _ _ _ _ E2). exact E.
Qed.

Lemma unlink_more s0 s m live a d ns :
  working s0 s m (Z.of_nat k + 6) → held m ((a, d) :: ns) live → ns ≠ [] → unlinks s0 s ns.
Proof.
  intros Hw0 Hheld Hne. pose proof root_pos as (Hr0 & Hr1 & Hr2).
  pose proof Hheld as [Hh [(Hhd & Ha0 & _) Htl] Hlv Hnd]. unfold off_head, off_tail in *.
  assert (a ∈ live) as Ha by (apply Hlv; simpl; set_solver).
  pose proof (live_pos _ live a Hh Ha) as (_ & Hab & Ha1 & Ha2 & Had).
  assert (a ∉ ns.*1) as Hna by (simpl in Hnd; by apply NoDup_cons in Hnd as [? _]).
  assert (a ≠ last_node ((a, d) :: ns)) as Hlast.
  { destruct (exists_last Hne) as (ns0 & [t e] & ->). change ((a, d) :: ns0 ++ [(t, e)]) with (((a, d) :: ns0) ++ [(t, e)]).
    rewrite last_node_snoc. rewrite fmap_app in Hna. set_solver. }
  apply (working_weaken _ _ _ _ _ _ _ (1 + Z.of_nat k + 1)) in Hw0; [|lia].
  wrote s1 E1 Hw1 (1 + Z.of_nat k) root 0 (next m a) Hw0.
  destruct (work_free s0 s1 _ 1 ns live a Hw1) as (s' & m' & E & Hw & Hheld'); [lia|by eapply held_pop|done|done|].
  exists s', m', (live ∖ {[a]}). split_and!; [|done|done]. unfold LinkedList.unlink_head, off_head, off_tail, off_next.
  read_field Hw0 root 0. rewrite Hhd, (proj2 (Z.eqb_neq a 0) Ha0). cbn [negb when].
  read_field Hw0 root 8. rewrite Htl, (proj2 (Z.eqb_neq _ _) Hlast), !bind_assoc.
  read_field Hw0 a 0. rewrite bind_assoc, (bind_eq _ _ _ _ _ E1). exact E.
Qed.

Lemma unlink_head_spec s0 s m ns live :
  working s0 s m (Z.of_nat k + 6) → held m ns live → unlinks s0 s (tail ns).
Proof.
  intros Hw Hheld. destruct ns as [|[a d] ns]; [by eapply unlink_empty|].
  destruct (decide (ns = [])) as [->|Hne]; [by eapply unlink_last|by eapply unlink_more].
Qed.

Lemma pop_head_spec s ns : holds s ns → ∃ s', pop_head root s = Ret tt s' ∧ holds s' (tail ns).
Proof.
  intros [Hid [live Hheld]].
  destruct (unlink_head_spec s s (view (s_pm s)) ns live) as (s1 & m1 & live1 & E1 & Hw1 & Hheld1);
    [by apply idle_working|done|].
  destruct (sync_holds s s1 m1 1 _ live1 Hid Hw1 Hheld1) as (s' & E & Hho).
  exists s'. split; [|done]. unfold LinkedList.pop_head. by rewrite (bind_eq _ _ _ _ _ E1).
Qed.

(** [append_head] has no msync: the list has the node, the file does not yet. *)
Definition first_of m a v : mem :=
  let m := store64 (store64 m (a + 8) v) (a + 0) (load64 m (root + 0)) in
  let m := store64 m (root + 0) a in
  if load64 m (root + 8) =? 0 then store64 m (root + 8) a else m.

Lemma first_of_tail m a v live :
  heap m live → a ∈ live →
  load64 (store64 (store64 (store64 m (a + 8) v) (a + 0) (load64 m (root + 0))) (root + 0) a) (root + 8)
  = load64 m (root + 8).
Proof.
  intros Hh Ha. pose proof (live_pos m live a Hh Ha) as (_ & _ & _ & _ & Hd).
  by do 3 other.
Qed.

Lemma last_node_null m ns live :
  heap m live → (∀ a, a ∈ ns.*1 → a ∈ live) → last_node ns = 0 ↔ ns = [].
Proof.
  intros Hh Hl. split; [|by intros ->]. intros Hz. destruct (decide (ns = [])) as [|Hne]; [done|exfalso].
  destruct (exists_last Hne) as (ns0 & [t e] & ->). rewrite last_node_snoc in Hz. subst t.
  destruct (live_pos m live 0 Hh) as [? _]; [apply Hl; rewrite fmap_app; set_solver|done].
Qed.

Lemma held_first_of m ns a v live :
  held m ns live → a ∈ live → a ∉ ns.*1 → 0 ≤ v < 2 ^ 64 → held (first_of m a v) ((a, v) :: ns) live.
Proof.
  intros [Hh [Hs Htl] Hl Hnd] Ha Hna Hv.
  pose proof (live_pos m live a Hh Ha) as (Ha0 & Hab & Ha1 & Ha2 & Had).
  unfold off_head, off_tail in *. unfold first_of. cbv zeta. rewrite (first_of_tail m a v live Hh Ha), Htl.
  assert (∀ b, b ∈ ns.*1 → (b + 16 ≤ root ∨ root + 16 ≤ b) ∧ (b + 16 ≤ a ∨ a + 16 ≤ b)) as Hother.
  { intros b Hb. split; [by apply (live_pos m live b Hh (Hl b Hb))|].
    apply (live_apart m live b a Hh (Hl b Hb) Ha). set_solver. }
  assert (0 ≤ load64 m (root + 0) < 2 ^ 64) as Hhd.
  { destruct ns as [|[b e] ns]; simpl in Hs; [rewrite Hs; lia|]. destruct Hs as (-> & _).
    apply (live_pos m live b Hh). apply Hl. simpl. set_solver. }
  set (m3 := store64 (store64 (store64 m (a + 8) v) (a + 0) (load64 m (root + 0))) (root + 0) a).
  pose proof (last_node_null m ns live Hh Hl) as Hlast.
  assert (∀ m', (∀ x, root + 8 ≤ x < root + 16 ∨ m' x = m3 x) → seg m' (load64 m' (root + 0)) ((a, v) :: ns) 0) as Hseg.
  { intros m' Hm'.
    assert (∀ b off, (b + off + 8 ≤ root + 8 ∨ root + 16 ≤ b + off) → load64 m' (b + off) = load64 m3 (b + off)) as Hld.
    { intros b off Hb. apply loadN_ext. intros x Hx. destruct (Hm' x); [lia|done]. }
    simpl. unfold data, next, off_data, off_next. rewrite !Hld by lia. unfold m3. split_and!.
    - by same.
    - done.
    - do 2 other. by same.
    - other. same. eapply seg_ext; [|exact Hs]. intros b Hb x Hx. unfold sizeof_node in Hx.
      destruct (Hother b Hb). destruct (Hm' x) as [?|Ex]; [lia|]. rewrite Ex. unfold m3. by rewrite !store64_outside by lia. }
  assert (heap m3 live) as Hh3.
  { unfold m3. repeat (apply heap_store; [|by (apply owned_root || apply owned_node); auto]). done. }
  destruct (last_node ns =? 0) eqn:Ez.
  - apply Z.eqb_eq, Hlast in Ez. subst ns. split.
    + apply heap_store; [done|]. apply owned_root. auto.
    + split; [apply Hseg|unfold off_tail; by same]. intros x.
      destruct (decide (root + 8 ≤ x < root + 16)); [by left|right]. apply store64_outside. lia.
    + intros b. set_solver.
    + apply NoDup_singleton.
  - apply Z.eqb_neq in Ez. split; [done| | |].
    + split; [apply Hseg; intros x; by right|]. unfold off_tail, m3.
      rewrite (first_of_tail m a v live Hh Ha), Htl. unfold last_node. destruct ns; [done|]. done.
    + intros b. set_solver.
    + simpl. by constructor.
Qed.

Lemma append_head_spec e s ns v :
  holds s ns → 0 ≤ v < 2 ^ 64 → 0 ≤ e →
  sizeof_layout + (Z.of_nat k + (e + 6)) * (sizeof_entry + 8) ≤ BUF_SIZE →
  (∃ s' m' live a, append_head file_size real_msync cfg thr res root v s = Ret tt s'
     ∧ working s s' m' e ∧ held m' ((a, v) :: ns) live ∧ file_holds s' ns.*2)
  ∨ append_head file_size real_msync cfg thr res root v s = Trap s.
Proof.
  intros Hho Hv He Hroom. destruct (allocate res sizeof_node (view (s_pm s))) as [[a ws]|] eqn:Ea.
  2:{ right. unfold append_head, bind at 1, res_allocate. by rewrite Ea. }
  left. pose proof root_pos as (Hr0 & Hr1 & Hr2).
  destruct (work_alloc_room (e + 6) s ns a ws Hho ltac:(lia) Hroom Ea) as (s1 & m1 & live & E1 & Hw1 & Hheld & Ha & Hna).
  pose proof (he_heap _ _ _ Hheld) as Hh.
  pose proof (live_pos m1 live a Hh Ha) as (Ha0 & Hab & Ha1 & Ha2 & Had).
  replace (e + 6) with (e + 2 + 1 + 1 + 1 + 1) in Hw1 by lia.
  wrote s2 E2 Hw2 (e + 2 + 1 + 1 + 1) a 8 v Hw1. wrote s3 E3 Hw3 (e + 2 + 1 + 1) a 0 (load64 m1 (root + 0)) Hw2.
  wrote s4 E4 Hw4 (e + 2 + 1) root 0 a Hw3. wrote s5 E5 Hw5 (e + 2) root 8 a Hw4.
  pose proof (held_first_of m1 ns a v live Hheld Ha Hna Hv) as Hheld'.
  assert (append_head file_size real_msync cfg thr res root v s
    = if load64 m1 (root + 8) =? 0 then Ret tt s5 else Ret tt s4) as E.
  { unfold append_head, off_head, off_tail, off_data, off_next.
    rewrite (bind_eq _ _ _ _ _ E1), (bind_eq _ _ _ _ _ E2). read_field Hw2 root 0.
    rewrite load64_store64_other by lia.
    rewrite (bind_eq _ _ _ _ _ E3), (bind_eq _ _ _ _ _ E4), (proj2 (Z.eqb_neq a 0) Ha0).
    cbn [when]. rewrite bind_ret_l. read_field Hw4 root 8. rewrite (first_of_tail m1 a v live Hh Ha).
    destruct (load64 m1 (root + 8) =? 0); [exact E5|done]. }
  rewrite E. unfold first_of in Hheld'. cbv zeta in Hheld'. rewrite (first_of_tail m1 a v live Hh Ha) in Hheld'.
  destruct (load64 m1 (root + 8) =? 0).
  - eexists s5, _, live, a. split_and!; [done| |exact Hheld'|by eapply working_file].
    eapply working_weaken; [|exact Hw5]. lia.
  - eexists s4, _, live, a. split_and!; [done| |exact Hheld'|by eapply working_file].
    eapply working_weaken; [|exact Hw4]. lia.
Qed.

(** ** Sequences of commands *)

Inductive qop := Push (v : Z) | Pop.

Definition q_step (vs : list Z) (o : qop) : list Z :=
  match o with Push v => vs ++ [v] | Pop => tail vs end.
Definition q_run (os : list qop) (vs : list Z) : list Z := foldl q_step vs os.

Lemma q_run_app os1 os2 vs : q_run (os1 ++ os2) vs = q_run os2 (q_run os1 vs).
Proof. apply foldl_app. Qed.

(** How a piece of the program that performs [os] ends: with the list they give,
    or, when it stops before, with a file that has a prefix of them done. *)
Definition ended {A} (os : list qop) (vs : list Z) (o : outcome (sys M) A) : Prop :=
  match o with
  | Ret _ s' => ∃ ns', holds s' ns' ∧ ns'.*2 = q_run os vs
  | Exit _ s' | Trap s' => ∃ done, done `prefix_of` os ∧ file_holds s' (q_run done vs)
  end.

Lemma ended_bind {A B} os1 os2 vs (c : cmd (sys M) A) (f : A → cmd (sys M) B) s :
  ended os1 vs (c s) →
  (∀ a s1 ns1, holds s1 ns1 → ns1.*2 = q_run os1 vs → ended os2 (q_run os1 vs) (f a s1)) →
  ended (os1 ++ os2) vs (bind c f s).
Proof.
  intros Hc Hf. unfold bind. destruct (c s) as [a s1|code s1|s1]; simpl in Hc.
  2-3: destruct Hc as (d & Hd & Hfile); exists d; split; [by apply prefix_app_r|done].
  destruct Hc as (ns1 & Hho & Hvs). specialize (Hf a s1 ns1 Hho Hvs).
  destruct (f a s1) as [b s2|code s2|s2]; simpl in *.
  - destruct Hf as (ns2 & ? & E). exists ns2. by rewrite q_run_app.
  - destruct Hf as (d & Hd & ?). exists (os1 ++ d). rewrite q_run_app. split; [by apply prefix_app|done].
  - destruct Hf as (d & Hd & ?). exists (os1 ++ d). rewrite q_run_app. split; [by apply prefix_app|done].
Qed.

Lemma ended_ret {A} (a : A) s ns : holds s ns → ended [] ns.*2 (Ret a s).
Proof. intros Hho. by exists ns. Qed.

Lemma ended_stop {A} s ns os : holds s ns → ended (A := A) os ns.*2 (Trap s).
Proof. intros Hho. exists []. split; [apply prefix_nil|]. by apply holds_file. Qed.

Definition qop_cmd (o : qop) : cmd (sys M) unit :=
  match o with Push v => append_node root v false | Pop => pop_head root end.
Definition qop_ok (o : qop) : Prop := match o with Push v => 0 ≤ v < 2 ^ 64 | Pop => True end.

Lemma ended_qop s ns o : holds s ns → qop_ok o → ended [o] ns.*2 (qop_cmd o s).
Proof.
  intros Hho Ho. destruct o as [v|]; simpl in *.
  - destruct (append_node_spec s ns v Hho Ho) as [(s' & a & -> & Hho')| ->]; [|by apply ended_stop].
    exists (ns ++ [(a, v)]). split; [done|]. by rewrite fmap_app.
  - destruct (pop_head_spec s ns Hho) as (s' & -> & Hho'). exists (tail ns). split; [done|].
    by destruct ns.
Qed.

Lemma ended_qops os : ∀ s ns, holds s ns → Forall qop_ok os → ended os ns.*2 (for_each os qop_cmd s).
Proof.
  induction os as [|o os IH]; intros s ns Hho Hok; [by apply ended_ret|].
  apply Forall_cons in Hok as [Ho Hok]. cbn [for_each]. change (o :: os) with ([o] ++ os).
  apply ended_bind; [by apply ended_qop|]. intros [] s1 ns1 Hho1 <-. by apply IH.
Qed.

(** ** The command line *)

(** The changes a line asks for. *)
Definition number_of (buf : string) : option Z :=
  if strlen buf <? 4 then None else stoull 10 (tail_of buf).

Definition line_ops (buf : string) : list qop :=
  match buf with
  | EmptyString => []
  | String c _ =>
      if Ascii.eqb c "i" then match number_of buf with Some n => [Push n] | None => [] end
      else if Ascii.eqb c "A" then match number_of buf with Some n => Push <$> seqZ 0 n | None => [] end
      else if Ascii.eqb c "r" then [Pop]
      else if Ascii.eqb c "R" then match number_of buf with Some n => (λ _, Pop) <$> seqZ 0 n | None => [] end
      else []
  end.

Lemma stoull_range b str n : stoull b str = Some n → 0 ≤ n < 2 ^ 64.
Proof.
  unfold stoull. destruct (scan_number _ _) as [[neg v]|]; [|done].
  destruct (v <? 2 ^ 64); [|done]. intros [= <-]. apply Z.mod_pos_bound. lia.
Qed.

(** A command that takes a number. *)
Lemma ended_with_number s ns buf c (ops : Z → list qop) :
  holds s ns → (∀ n, 0 ≤ n < 2 ^ 64 → ended (ops n) ns.*2 (c n s)) →
  ended (match number_of buf with Some n => ops n | None => [] end) ns.*2 (with_number buf c s).
Proof.
  intros Hho Hc. unfold with_number, number_of. destruct (strlen buf <? 4); [by apply ended_ret|].
  destruct (stoull 10 (tail_of buf)) as [n|] eqn:En; [|by apply ended_stop].
  unfold quiet_cmd. rewrite <-(app_nil_r (ops n)).
  apply ended_bind; [by eapply Hc, stoull_range|]. intros [] s1 ns1 Hho1 <-. by apply ended_ret.
Qed.

Context (split : string → string → list string).
Abbreviation run_line := (run_line file_size real_msync cfg thr res split).
Abbreviation run_lines := (run_lines file_size real_msync cfg thr res split).

Lemma ended_line fuel s ns buf : holds s ns → ended (line_ops buf) ns.*2 (run_line fuel root buf s).
Proof.
  intros Hho. pose proof (ended_ret (A := option printed)) as Hret.
  destruct buf as [|c buf]; [by apply Hret|]. unfold LinkedList.run_line, line_ops.
  destruct (Ascii.eqb_spec c "010") as [->|_]; [by apply Hret|].
  destruct (Ascii.eqb c "i").
  { apply (ended_with_number s ns _ _ (λ n, [Push n])); [done|]. intros n Hn. by apply (ended_qop s ns (Push n)). }
  destruct (Ascii.eqb_spec c "c") as [->|_]; [by apply Hret|].
  destruct (Ascii.eqb_spec c "s") as [->|_]; [by apply Hret|].
  destruct (Ascii.eqb_spec c "g") as [->|_].
  { case_bool_decide; [by apply ended_stop|by apply Hret]. }
  destruct (Ascii.eqb_spec c "p") as [->|_]; [by apply Hret|].
  destruct (Ascii.eqb_spec c "f") as [->|_].
  { pose proof (ended_with_number s ns (String "f" buf) (λ n, append_node root n true) (λ _, []) Hho) as Hf.
    destruct (number_of (String "f" buf)); apply Hf; intros n Hn.
    all: destruct (append_node_exit s ns n Hho Hn) as [(s' & -> & Hfile)| ->]; [|by apply ended_stop].
    all: exists []; split; [apply prefix_nil|done]. }
  destruct (Ascii.eqb c "A").
  { apply (ended_with_number s ns _ _ (λ n, Push <$> seqZ 0 n)); [done|]. intros n Hn. unfold bulk_append_nodes.
    rewrite <-(for_each_fmap Push qop_cmd). apply ended_qops; [done|].
    apply Forall_fmap, Forall_seqZ. simpl. lia. }
  destruct (Ascii.eqb c "r").
  { unfold quiet_cmd. change [Pop] with ([Pop] ++ []).
    apply ended_bind; [by apply (ended_qop s ns Pop)|]. intros [] s1 ns1 Hho1 <-. by apply Hret. }
  destruct (Ascii.eqb c "R").
  { apply (ended_with_number s ns _ _ (λ n, (λ _, Pop) <$> seqZ 0 n)); [done|]. intros n Hn. unfold bulk_delete_nodes.
    rewrite <-(for_each_fmap (λ _, Pop) qop_cmd). apply ended_qops; [done|]. by apply Forall_fmap, Forall_true. }
  destruct (Ascii.eqb c "h"); by apply Hret.
Qed.

Lemma ended_lines fuel bufs : ∀ s ns,
  holds s ns → ended (bufs ≫= line_ops) ns.*2 (run_lines fuel root bufs s).
Proof.
  induction bufs as [|buf bufs IH]; intros s ns Hho; [by apply ended_ret|].
  cbn [LinkedList.run_lines mbind list_bind].
  apply ended_bind; [by apply ended_line|]. intros o s1 ns1 Hho1 <-.
  rewrite <-(app_nil_r (list_bind _ _ _ _)). apply ended_bind; [by apply IH|].
  intros os s2 ns2 Hho2 <-. by apply ended_ret.
Qed.

(** ** Theorems *)

(** Every session of the list program leaves a file that a restart can
    use.  Run any lines of input on a process that holds a list.  If the
    session runs to its end, the file holds, durably, exactly the list that the
    pushes and pops of all the lines give.  If the process stops before that (the
    mid-transaction exit, a full file, a number that does not parse, the
    unimplemented command), the file holds, durably, the list after some of the
    pushes and pops, in order, each done entirely or not at all. *)
Theorem list_session_atomic fuel bufs s ns :
  holds s ns →
  match run_lines fuel root bufs s with
  | Ret _ s' => file_holds s' (q_run (bufs ≫= line_ops) ns.*2)
  | Exit _ s' | Trap s' => ∃ done, done `prefix_of` (bufs ≫= line_ops) ∧ file_holds s' (q_run done ns.*2)
  end.
Proof.
  intros Hho. pose proof (ended_lines fuel bufs s ns Hho) as He.
  destruct (run_lines fuel root bufs s) as [a s'|code s'|s']; [|exact He|exact He].
  destruct He as (ns' & Hho' & <-). by apply holds_file.
Qed.

(** C15: An append returns with the value at the end of the list, in memory and
    on the medium, unless the file is full, and the exit in the middle of an
    append leaves the file with the old list; a pop always returns and takes the
    first value, if there is one. *)
Theorem list_operations_refine_queue s ns v :
  holds s ns → 0 ≤ v < 2 ^ 64 →
  ((∃ s' a, append_node root v false s = Ret tt s' ∧ holds s' (ns ++ [(a, v)]) ∧ file_holds s' (ns.*2 ++ [v]))
   ∨ (allocate res sizeof_node (view (s_pm s)) = None ∧ append_node root v false s = Trap s))
  ∧ (∀ s' code, append_node root v true s = Exit code s' → code = 0 ∧ file_holds s' ns.*2)
  ∧ ∃ s', pop_head root s = Ret tt s' ∧ holds s' (tail ns) ∧ file_holds s' (tail ns.*2).
Proof.
  intros Hho Hv. split_and!.
  - destruct (allocate res sizeof_node (view (s_pm s))) as [[a ws]|] eqn:Ea.
    + left. destruct (append_node_run s ns v a ws Hho Hv Ea) as (s1 & m1 & live & b & Hw & Hheld & E).
      destruct (sync_holds s s1 m1 0 _ live (ho_idle _ _ Hho) Hw Hheld) as (s' & E' & Hho').
      exists s', b. split_and!; [by rewrite E|done|]. apply holds_file in Hho' as Hf. by rewrite fmap_app in Hf.
    + right. split; [done|]. by eapply append_node_full.
  - intros s' code E. destruct (append_node_exit s ns v Hho Hv) as [(s1 & E1 & Hf)|E1]; [|congruence].
    rewrite E1 in E. by injection E as <- <-.
  - destruct (pop_head_spec s ns Hho) as (s' & E & Hho'). exists s'. split_and!; [done|done|].
    apply holds_file in Hho' as Hf. by destruct ns.
Qed.

(** The commands that read the list end, given as much fuel as there are
    nodes, and answer with its length, its values with their addresses, and a
    hundred times its sum, all modulo 2^64. *)
Theorem list_reads_answer fuel s ns :
  holds s ns → (length ns ≤ fuel)%nat →
  run_line fuel root "c" s = Ret (Some (OCount (wrap64 (Z.of_nat (length ns))))) s
  ∧ run_line fuel root "p" s = Ret (Some (ONodes ns.*2 ns)) s
  ∧ run_line fuel root "s" s = Ret (Some (OSum (wrap64 (100 * sum_of ns.*2)))) s.
Proof.
  intros [_ [live Hheld]] Hf.
  destruct (reads_spec (view (s_pm s)) root ns fuel (he_list _ _ _ Hheld) Hf) as (Ec & Ep & Es).
  unfold LinkedList.run_line, reads. simpl. rewrite Ec, Ep, Es. done.
Qed.
End Queue.

(** ** A file with a simple allocator

    Nodes are handed out in order from a counter in the file and never reused; it
    instantiates what the theorems ask of the managed file, on the process of
    [Demo]. *)
Module DemoList.
Import Px86 Demo.

Definition root : Z := start + 64.
Definition counter_at : Z := start + 128.
Definition first : Z := start + 256.
Definition top (m : mem) : Z := first + load64 m counter_at.

Definition bump (m : mem) : option (Z * writes) :=
  if top m + 16 <=? start + len
  then Some (top m, [(counter_at, le_split 8 (load64 m counter_at + 16))]) else None.
Definition res : mmf := mkMmf start len (λ _, bump) (λ _ _, []).

(** Live nodes lie below the counter. *)
Definition heap (m : mem) (live : gset Z) : Prop :=
  0 ≤ load64 m counter_at ≤ len - 256
  ∧ (∀ a, a ∈ live → first ≤ a ∧ a + 16 ≤ top m)
  ∧ ∀ a b, a ∈ live → b ∈ live → a ≠ b → a + 16 ≤ b ∨ b + 16 ≤ a.

Lemma counter_free live m x :
  heap m live → counter_at ≤ x < counter_at + 8 → ¬ owned root live x.
Proof.
  intros (_ & Hb & _) Hx [Ho|(a & Ha & Ho)].
  - unfold counter_at, root in *. lia.
  - pose proof (Hb a Ha). unfold first, counter_at, sizeof_node in *. lia.
Qed.

Lemma demo_laws : heap_laws g len root 1 res heap.
Proof.
  split.
  - split; [done|]. split; apply Z.leb_le || apply Z.ltb_lt; vm_compute; reflexivity.
  - unfold root, g, len. simpl. lia.
  - intros m m' live Hh Hm. pose proof Hh as (H1 & H2 & H3).
    assert (load64 m' counter_at = load64 m counter_at) as E.
    { apply loadN_ext. intros x Hx. apply Hm; [unfold in_cache, counter_at, g, len in *; simpl; lia|].
      by eapply counter_free. }
    unfold heap, top. rewrite E. done.
  - intros m live a (H1 & H2 & _) Ha. pose proof (H2 a Ha). unfold top, first, root, sizeof_node, rng_disj, g, len in *.
    simpl. lia.
  - intros m live a b (_ & _ & H3) Ha Hb Hne. pose proof (H3 a b Ha Hb Hne). unfold rng_disj, sizeof_node. lia.
  - intros m live a ws Hh E. pose proof Hh as (H1 & H2 & H3). change (bump m = Some (a, ws)) in E. unfold bump in E.
    destruct (top m + 16 <=? start + len) eqn:Et; [|done]. apply Z.leb_le in Et. apply (inj Some), pair_eq in E as [<- <-].
    assert (top m ∉ live) as Hna by (intros Hin; specialize (H2 _ Hin); lia).
    assert (load64 (apply_writes [(counter_at, le_split 8 (load64 m counter_at + 16))] m) counter_at
      = load64 m counter_at + 16) as E'.
    { change (load64 (store64 m counter_at (load64 m counter_at + 16)) counter_at = load64 m counter_at + 16).
      apply load64_store64. unfold len in H1. lia. }
    split_and!; [done|split; [simpl; lia|]|].
    + intros w ->%list_elem_of_singleton. cbn [fst snd]. rewrite blen_le_split.
      split_and!; [lia|unfold counter_at, g; simpl; lia|unfold counter_at, g, len; simpl; lia|].
      intros x Hx. by eapply counter_free.
    + split_and!; rewrite ?E'; [unfold top, first in Et; lia|unfold top, first, len in *; lia| |].
      * intros b [->%elem_of_singleton|Hb]%elem_of_union; unfold top; rewrite E'.
        -- unfold top in *. lia.
        -- specialize (H2 b Hb). unfold top in H2. lia.
      * intros b c [->%elem_of_singleton|Hb]%elem_of_union [->%elem_of_singleton|Hc]%elem_of_union Hne; [done|..].
        -- specialize (H2 c Hc). lia.
        -- specialize (H2 b Hb). lia.
        -- by apply H3.
  - intros m live a (H1 & H2 & H3) Ha. split.
    + split; [simpl; lia|]. intros w Hw. by apply elem_of_nil in Hw.
    + split; [done|]. split; [intros b Hb; apply H2; set_solver|intros b c Hb Hc; apply H3; set_solver].
Qed.

(** The process of [Demo], once a store has been logged. *)
Definition s1 : sys machine := put_storeInst true s0.

Lemma demo_holds : holds g len 0 root heap s1 [].
Proof.
  assert (∀ a, start ≤ a → a + 8 ≤ start + len → load64 (view (s_pm s1)) a = 0) as Hz.
  { intros a H1 H2. unfold loadN. replace (read_bytes (view (s_pm s1)) a 8) with (replicate 8 0); [done|].
    symmetry. rewrite (read_bytes_ext _ (λ _, 0)); [done|]. intros x Hx.
    apply (boot_view x). unfold len, start, area in *. lia. }
  split.
  - pose proof demo_fresh as [Hg Hf Ha Hl Hm]. split; [by split|done|]. vm_compute. lia.
  - exists ∅. split.
    + unfold heap, top. rewrite Hz by (unfold counter_at, len; lia). unfold len. split_and!; [lia|lia|set_solver..].
    + split; rewrite Hz by (unfold root, len, off_head, off_tail; lia); done.
    + intros a Ha. by apply elem_of_nil in Ha.
    + constructor.
Qed.

Lemma demo_room : sizeof_layout + (Z.of_nat 1 + 6) * (sizeof_entry + 8) ≤ BUF_SIZE.
Proof. apply Z.leb_le. vm_compute. reflexivity. Qed.

Definition line (str : string) : string := str +:+ String "010" "".
Definition session : list string := [line "i 7"; line "p"; line "r"].

Lemma list_session_atomic_witness :
  match run_lines no_file ok_msync cfg 0 res (λ _ _, []) 5 root session s1 with
  | Ret _ s' => file_holds g len root s' []
  | Exit _ s' | Trap s' => ∃ done, done `prefix_of` [Push 7; Pop] ∧ file_holds g len root s' (q_run done [])
  end.
Proof.
  exact (list_session_atomic no_file ok_msync cfg g len 0 res root 1 heap demo_setup demo_laws demo_room
    (λ _ _, []) 5 session s1 [] demo_holds).
Defined.

Lemma list_operations_refine_queue_witness :
  ∃ s', pop_head no_file ok_msync cfg 0 res root s1 = Ret tt s' ∧ file_holds g len root s' [].
Proof.
  destruct (list_operations_refine_queue no_file ok_msync cfg g len 0 res root 1 heap demo_setup demo_laws
    demo_room s1 [] 7 demo_holds) as (_ & _ & s' & E & _ & Hf); [lia|].
  exists s'. split; [exact E|exact Hf].
Defined.

Lemma list_reads_answer_witness :
  run_line no_file ok_msync cfg 0 res (λ _ _, []) 5 root "c" s1 = Ret (Some (OCount 0)) s1.
Proof.
  destruct (list_reads_answer no_file ok_msync cfg g len 0 res root heap (λ _ _, []) 5 s1 [] demo_holds)
    as (E & _); [simpl; lia|exact E].
Defined.
End DemoList.
