(* ===== verification/ListMain.v ===== *)
(** * The program of the linked list (main of examples/linkedlist_tx/linkedlist_tx.cc)

    main opens the managed file, finds its root object or makes one, switches
    tracking on, pushes and pops a value, which gives the first snapshot something to
    copy, and then reads commands.  Until the pop, the flags firstSnapshot and
    storeInstEnabled are as the process starts with them; [LinkedList] starts behind
    that point, and this file leads to it. *)

From stdpp Require Import base list gmap strings.
From Stdlib Require Import ZArith Lia.
From S2P Require Import Prelude Memory PMem Log Snapshot Wrappers Tracking Scenario FirstSnapshot Managed LinkedList.

(** ** The program *)

(** The managed file, with its objects by name: [find] returns 0 for none. *)
Record named_mmf := mkNamed {
  the_mmf : mmf;
  find : mem → Z;                          (* of "root" *)
  construct : mem → option (Z * writes);   (* may throw *)
}.

Section Main.
Context {M : Type} `{PMemOps M}.
Context (file_size : string → Z) (real_msync : Z → Z → Z → Z) (cfg : config) (thr : nat).
(** Opening the file, which maps it. *)
Context (open_or_create : string → cmd (sys M) named_mmf).
Context (split : string → string → list string).

Definition list_args (argv : list string) : cmd (sys M) string :=
  match argv with
  | [_; puddle_path] => ret puddle_path
  | _ => exit_with 1
  end.

Definition find_or_make_root (res : named_mmf) : cmd (sys M) Z := λ s,
  let root_ptr := find res (view (s_pm s)) in
  if root_ptr =? 0 then
    match construct res (view (s_pm s)) with
    | None => throw s
    | Some (root_ptr, ws) =>
        (do! perform file_size real_msync cfg thr ws in
         do! when (root_ptr =? 0) throw in
         do! (let! _ := memset cfg thr root_ptr 0 16 in ret tt) in
         ret root_ptr) s
    end
  else Ret root_ptr s.

(** [startTracking = true]. *)
Definition start_tracking (s : sys M) : sys M :=
  let g := s_g s in
  mkSys (mkGlobals true (cxlModeEnabled g) (nopMsync g) (crashOnCommit g) (start_addr g) (end_addr g)
           (backing_file_start g) (ctrlr_present g))
    (s_pm s) (s_tls_logs s) (s_storeInstEnabled s) (s_firstSnapshot s) (s_mapped_addr s) (s_mmap_start s) (s_tally s).

Definition warm_up (res : mmf) (root_ptr : Z) : cmd (sys M) unit :=
  do! append_head file_size real_msync cfg thr res root_ptr 1 in
  do! pop_head file_size real_msync cfg thr res root_ptr in
  do! msync file_size real_msync cfg root_ptr 4096 MS_SYNC in
  ret tt.

(** [bufs]: the lines that fgets reads. *)
Definition list_main (fuel : nat) (argv bufs : list string) : cmd (sys M) (list (option printed)) :=
  let! puddle_path := list_args argv in
  let! res := open_or_create puddle_path in
  let! root_ptr := find_or_make_root res in
  do! modify start_tracking in
  do! warm_up (the_mmf res) root_ptr in
  run_lines file_size real_msync cfg thr (the_mmf res) split fuel root_ptr bufs.
End Main.

(** ** Commands that do not look at the two flags *)

Create HintDb blind.

Definition map_state {S A} (f : S → S) (o : outcome S A) : outcome S A :=
  match o with Ret a s => Ret a (f s) | Exit e s => Exit e (f s) | Trap s => Trap (f s) end.

Section Blind.
Context {M : Type} `{PMemOps M}.
Context (file_size : string → Z) (real_msync : Z → Z → Z → Z) (cfg : config) (thr : nat) (res : mmf).
Implicit Types s : sys M.

(** The state with both flags as after a first snapshot. *)
Definition ready s : sys M := put_storeInst true (first_snapshot_done s).

Record same_first s s' : Prop := {
  sf_first : s_firstSnapshot s' = s_firstSnapshot s;
  sf_mapped : s_mapped_addr s' = s_mapped_addr s;
  sf_g : s_g s' = s_g s;
  sf_inst : s_storeInstEnabled s = true → s_storeInstEnabled s' = true;
}.

Definition blind {A} (c : cmd (sys M) A) : Prop := ∀ s,
  c (ready s) = map_state ready (c s) ∧ same_first s (state_of (c s)).

Lemma blind_ret {A} (a : A) : blind (ret a).
Proof. intros s. split; [done|by split]. Qed.

Lemma blind_trap {A} : blind (A := A) trap.
Proof. intros s. split; [done|by split]. Qed.

Lemma blind_bind {A B} (c : cmd (sys M) A) (f : A → cmd (sys M) B) :
  blind c → (∀ a, blind (f a)) → blind (bind c f).
Proof.
  intros Hc Hf s. destruct (Hc s) as [E [H1 H2 H3 H4]]. unfold bind. rewrite E.
  destruct (c s) as [a s1|e s1|s1]; simpl in *; [|by split..].
  destruct (Hf a s1) as [E' [H5 H6 H7 H8]]. split; [done|]. split; [congruence..|auto].
Qed.

(** A command that reads other parts of the state only. *)
Lemma blind_get {A} (f : sys M → cmd (sys M) A) :
  (∀ s, f (ready s) = f s) → (∀ s, blind (f s)) → blind (bind get f).
Proof. intros Hr Hf s. unfold bind, get. rewrite Hr. apply Hf. Qed.

Lemma blind_modify f : (∀ s, f (ready s) = ready (f s) ∧ same_first s (f s)) → blind (modify f).
Proof. intros Hf s. unfold modify. destruct (Hf s) as [-> ?]. done. Qed.

Lemma blind_when b (c : cmd (sys M) unit) : blind c → blind (when b c).
Proof. intros Hc. destruct b; [done|apply blind_ret]. Qed.

Lemma blind_for_each {A} (l : list A) (f : A → cmd (sys M) unit) : (∀ a, blind (f a)) → blind (for_each l f).
Proof.
  intros Hf. induction l as [|a l IH]; [apply blind_ret|]. cbn [for_each]. by apply blind_bind.
Qed.

Lemma log_range_enabled b a n (c : thread_ctx M) :
  log_range cfg b a n (enable_storeInst c) = map_state enable_storeInst (log_range cfg b a n c)
  ∧ (storeInstEnabled c = true → storeInstEnabled (state_of (log_range cfg b a n c)) = true).
Proof.
  destruct c as [l i st m]. unfold log_range. simpl. destruct (log_area l =? 0); [by split|].
  destruct (NO_PERSIST_OPS cfg); [by split|]. destruct b; [|by split].
  unfold bind, modify, when, nvsl_assert, log_persist, note_volatile, set_this, add_stat, enable_storeInst. simpl.
  destruct (NDEBUG cfg), (n <? 2 ^ 22); simpl; try (by split);
    destruct (RELEASE cfg), (LOG_FORMAT_VOLATILE cfg); simpl;
    try (destruct (_ && _); simpl); try (by split);
    match goal with |- context [flush_lines ?l ?m] => destruct (flush_lines l m) end; by split.
Qed.

Lemma blind_log a n : blind (local_log_range cfg thr a n).
Proof.
  intros s. unfold local_log_range, with_log.
  change (logs_of (ready s)) with (logs_of s). destruct (logs_of s !! thr) as [l|]; [|by split].
  set (c0 := mkCtx l (s_storeInstEnabled s) (t_stats (s_tally s)) (s_pm s)).
  destruct (log_range_enabled (cxlModeEnabled (s_g s)) a n c0) as [E Hi].
  change (mkCtx l (s_storeInstEnabled (ready s)) (t_stats (s_tally (ready s))) (s_pm (ready s)))
    with (enable_storeInst c0).
  change (cxlModeEnabled (s_g (ready s))) with (cxlModeEnabled (s_g s)). rewrite E.
  destruct (log_range cfg (cxlModeEnabled (s_g s)) a n c0) as [u c|e c|c]; simpl in *; (split; [done|by split]).
Qed.

Lemma blind_store a bs : blind (exec file_size real_msync cfg (OpStore thr a bs)).
Proof.
  unfold exec, checkMemory. apply blind_bind.
  - destruct (NO_CHECK_MEMORY cfg); [apply blind_ret|]. apply blind_get; [done|]. intros s.
    apply blind_when. case_match; [apply blind_log|]. apply blind_when, blind_modify. intros s1. split; [done|by split].
  - intros _. apply blind_bind; [|intros; apply blind_ret]. intros s. split; [done|by split].
Qed.

Lemma blind_wr p off v : blind (wr file_size real_msync cfg thr p off v).
Proof.
  unfold wr. case_match; [apply blind_trap|]. apply blind_bind; [apply blind_store|intros; apply blind_ret].
Qed.

Lemma blind_rd p off : blind (rd p off).
Proof. intros s. unfold rd. case_match; split; try done; by split. Qed.

Lemma blind_perform ws : blind (perform file_size real_msync cfg thr ws).
Proof. apply blind_for_each. intros w. apply blind_bind; [apply blind_store|intros; apply blind_ret]. Qed.

Lemma blind_allocate n : blind (res_allocate file_size real_msync cfg thr res n).
Proof.
  intros s. unfold res_allocate. change (view (s_pm (ready s))) with (view (s_pm s)).
  destruct (allocate res n (view (s_pm s))) as [[a ws]|]; [|by apply blind_trap].
  apply (blind_bind _ (λ _, ret a)); [apply blind_perform|intros; apply blind_ret].
Qed.

Lemma blind_deallocate p : blind (res_deallocate file_size real_msync cfg thr res p).
Proof.
  intros s. unfold res_deallocate. change (view (s_pm (ready s))) with (view (s_pm s)). apply blind_perform.
Qed.
End Blind.

#[export] Hint Resolve blind_ret blind_trap blind_bind blind_when blind_wr blind_rd blind_allocate blind_deallocate : blind.

Ltac go_blind :=
  repeat first [ apply blind_bind; [|intros ?] | apply blind_when | case_match | solve [auto with blind] ].

(** ** The first commands of a process *)

Section Start.
Context {M : Type} `{PMemLaws M}.
Context (file_size : string → Z) (real_msync : Z → Z → Z → Z) (cfg : config).
Context (g : globals) (len : Z) (thr : nat) (res : mmf) (root : Z) (k : nat).
Context (heap : mem → gset Z → Prop).
Hypothesis Hsu : setup cfg g len.
Hypothesis Hhl : heap_laws g len root k res heap.
(** The log holds the stores of two commands. *)
Hypothesis Hk : sizeof_layout + (2 * Z.of_nat k + 12) * (sizeof_entry + 8) ≤ BUF_SIZE.
Implicit Types (s : sys M) (m : mem) (ns : list (Z * Z)).
Abbreviation S0 := (start_addr g).
Abbreviation append_head := (append_head file_size real_msync cfg thr res root).
Abbreviation unlink_head := (unlink_head file_size real_msync cfg thr res root).
Abbreviation holds := (holds g len thr root heap).
Abbreviation working := (working g len thr).
Abbreviation held := (held root heap).
Abbreviation file_holds := (file_holds g len root).

Lemma one_command : sizeof_layout + (Z.of_nat k + 6) * (sizeof_entry + 8) ≤ BUF_SIZE.
Proof. unfold sizeof_entry in *. lia. Qed.

(** The tail of [append_head] behind its first store. *)
Lemma blind_append_head v : blind (append_head v).
Proof. unfold LinkedList.append_head. go_blind. Qed.

Lemma blind_unlink : blind unlink_head.
Proof. unfold LinkedList.unlink_head. go_blind. Qed.

(** A logged store sets storeInstEnabled. *)
Lemma log_range_sets a n (c c' : thread_ctx M) :
  NO_PERSIST_OPS cfg = false → log_range cfg true a n c = Ret tt c' → storeInstEnabled c' = true.
Proof.
  intros Hp E.
  assert (log_range cfg true a n c = log_range cfg true a n (enable_storeInst c)
    ∨ log_range cfg true a n c = Trap c) as [E'|E'].
  { unfold log_range. simpl. destruct (log_area (this c) =? 0); [by right|left]. by rewrite Hp. }
  - rewrite E' in E. destruct (log_range_enabled cfg true a n (enable_storeInst c)) as [_ Hi].
    rewrite E in Hi. by apply Hi.
  - congruence.
Qed.

Lemma wr_sets p off v s s' :
  s_g s = g → S0 ≤ p + off → p + off < S0 + len →
  wr file_size real_msync cfg thr p off v s = Ret tt s' → s_storeInstEnabled s' = true.
Proof.
  intros Hg H1 H2. pose proof Hsu as [_ Hend _ Ht Hmode _ _ Hp Hnc _].
  unfold wr. destruct (p =? 0); [done|]. unfold exec, checkMemory, bind, get, when. rewrite Hnc, Hg, Ht, Hend.
  rewrite (proj2 (Z.leb_le _ _)), (proj2 (Z.ltb_lt _ _)) by lia. cbn [andb].
  unfold local_log_range, with_log. rewrite Hg, Hmode. destruct (logs_of s !! thr) as [l|]; [|done].
  destruct (log_range cfg true (p + off) 8 _) as [[] c|e c|c] eqn:E; [|done|done].
  intros [= <-]. simpl. by eapply log_range_sets.
Qed.

Lemma append_head_sets v s s1 ns :
  holds (ready s) ns → s_g s = g → append_head v s = Ret tt s1 → s_storeInstEnabled s1 = true.
Proof.
  intros [_ [live Hheld]] Hg. unfold LinkedList.append_head, bind at 1, res_allocate.
  destruct (allocate res sizeof_node (view (s_pm s))) as [[a ws]|] eqn:Ea; [|done].
  destruct (hl_alloc _ _ _ _ _ _ Hhl _ live a ws (he_heap _ _ _ _ _ Hheld) Ea) as (_ & _ & Hh).
  destruct (hl_in _ _ _ _ _ _ Hhl _ _ a Hh) as (Ha1 & Ha2 & _); [set_solver|].
  destruct (blind_perform file_size real_msync cfg thr ws s) as [_ Hsa].
  unfold bind at 1. destruct (perform file_size real_msync cfg thr ws s) as [[] sa|e sa|sa]; [|done|done].
  simpl in Hsa. unfold ret. unfold bind at 1.
  destruct (wr file_size real_msync cfg thr a off_data v sa) as [[] sb|e sb|sb] eqn:Eb; [|done|done].
  assert (s_storeInstEnabled sb = true) as Hb.
  { apply (wr_sets a off_data v sa sb); [by rewrite (sf_g _ _ Hsa)| | |exact Eb]; unfold off_data, sizeof_node in *; lia. }
  match goal with |- ?rest sb = _ → _ => assert (blind rest) as Hrest by go_blind end.
  destruct (Hrest sb) as [_ Hs1]. intros E. rewrite E in Hs1. by apply (sf_inst _ _ Hs1).
Qed.

(** The first msync ends the first command. *)
Lemma first_sync_holds s0 s m n ns live :
  idle g len thr s0 → working s0 (ready s) m n → held m ns live →
  s_storeInstEnabled s = true → s_firstSnapshot s = true → maps_region file_size g len s S0 →
  get_address res = S0 →
  ∃ s', sync_all file_size real_msync cfg res s = Ret tt s' ∧ holds s' ns.
Proof.
  intros Hid Hw Hheld Hi Hf Hmap Hbase. destruct (hl_base _ _ _ _ _ _ Hhl) as [Hb1 Hb2].
  assert (ready s = first_snapshot_done s) as Er by (unfold ready; destruct s; simpl in *; by subst).
  pose proof Hw as [(uss & us & Ht & Hu & _) Hv _ Hareas _]. rewrite Er in Ht. pose proof (id_thr _ _ _ _ Hid) as Hthr.
  assert (length (logs_of s) = length (logs_of s0)) as Hlen.
  { rewrite <-(length_map log_area (logs_of s)), <-(length_map log_area (logs_of s0)). by rewrite <-Hareas. }
  destruct (first_msync_tracking file_size real_msync cfg g len (get_size res) MS_SYNC s uss)
    as (s' & E & Hfr & Hvis & Hi' & Hla); try done; try lia.
  { destruct (logs_of s); [simpl in Hlen; lia|done]. }
  exists s'. split; [unfold sync_all, bind; by rewrite Hbase, E|].
  eapply held_settles; [done|done| |exact Hheld|].
  - split; [done|done|]. rewrite <-(length_map log_area), Hla, length_map. lia.
  - intros x Hx. rewrite Hvis; [by apply (Hv x)|]. split; [|intros l Hl].
    + pose proof (rg_disj _ _ _ (su_rg _ _ _ Hsu)). unfold in_back, in_cache, rng_disj in *. lia.
    + pose proof (aa_cache _ _ _ (tr_areas _ _ _ _ Ht) l Hl). unfold in_area, in_cache, rng_disj in *. lia.
Qed.

(** A process that has its file mapped and its root object, before its first
    snapshot; tracking is on. *)
Record starting s ns : Prop := {
  sg_holds : holds (ready s) ns;
  sg_g : s_g s = g;
  sg_first : s_firstSnapshot s = true;
  sg_map : maps_region file_size g len s S0;
}.

Lemma file_holds_pm s s' vs : s_pm s' = s_pm s → file_holds s vs → file_holds s' vs.
Proof. unfold LinkedList.file_holds, file_image. by intros ->. Qed.

Lemma warm_up_spec s ns :
  starting s ns → get_address res = S0 →
  match warm_up file_size real_msync cfg thr res root s with
  | Ret _ s' => holds s' ns
  | Exit _ s' | Trap s' => file_holds s' ns.*2
  end.
Proof.
  intros [Hho Hg Hf Hmap] Hbase. pose proof one_command as Hk1.
  destruct (blind_append_head 1 s) as [Eb Hs1]. unfold warm_up, bind at 1.
  destruct (append_head_spec file_size real_msync cfg g len thr res root k heap Hsu Hhl Hk1 (Z.of_nat k + 6) (ready s) ns 1)
    as [(s1' & m1 & live1 & a & E1 & Hw1 & Hh1 & _)|E1]; [done|lia|lia| | |].
  { replace (Z.of_nat k + (Z.of_nat k + 6 + 6)) with (2 * Z.of_nat k + 12) by lia. exact Hk. }
  - rewrite Eb in E1. destruct (append_head 1 s) as [[] s1|e s1|s1] eqn:Ea; [|done|done].
    injection E1 as <-. pose proof (append_head_sets 1 s s1 ns Hho Hg Ea) as Hi1. simpl in Hs1.
    destruct (unlink_head_spec file_size real_msync cfg g len thr res root k heap Hsu Hhl Hk1 (ready s) (ready s1) m1 _ live1 Hw1 Hh1)
      as (s2' & m2 & live2 & E2 & Hw2 & Hh2).
    destruct (blind_unlink s1) as [Eb2 Hs2]. rewrite Eb2 in E2.
    destruct (unlink_head s1) as [[] s2|e s2|s2] eqn:Eu; [|done|done]. injection E2 as <-. simpl in Hs2.
    destruct (first_sync_holds (ready s) s2 m2 1 ns live2) as (s3 & E3 & Hho3); try done.
    { apply Hho. } { by apply (sf_inst _ _ Hs2). } { by rewrite (sf_first _ _ Hs2), (sf_first _ _ Hs1). }
    { destruct Hmap as [? (fd & md & Hfd & Hrest)]. split; [done|]. exists fd, md.
      by rewrite (sf_mapped _ _ Hs2), (sf_mapped _ _ Hs1). }
    unfold pop_head, bind. rewrite Eu, E3. destruct Hho3 as [[Hfr Hi3 Hthr] [live3 Hh3]].
    destruct (fresh_msync file_size real_msync cfg g len root 4096 MS_SYNC s3 Hsu Hfr Hi3)
      as (s4 & E4 & Hfr4 & Hv4 & Hi4 & Hla4). rewrite E4.
    eapply held_settles; [done|done| |exact Hh3|exact Hv4].
    split; [done|done|]. by rewrite <-(length_map log_area), Hla4, length_map.
  - rewrite Eb in E1. destruct (append_head 1 s) as [[] s1|e s1|s1]; [done|done|].
    apply (file_holds_pm (ready s)); [exact (f_equal (λ o, s_pm (state_of o)) E1)|].
    by eapply holds_file.
Qed.

Context (open_or_create : string → cmd (sys M) named_mmf) (split : string → string → list string).
Abbreviation list_main := (list_main file_size real_msync cfg thr open_or_create split).

End Start.

(** ** Runs on the demonstration process *)

Module DemoMain.
Import Px86 Demo DemoList DemoFirst.

(** The process before main switches tracking on, with the file mapped. *)
Definition g_off : globals := mkGlobals false true false false start (start + len) back false.
Definition opened : sys machine :=
  mkSys g_off (s_pm s0) (s_tls_logs s0) false true [(3, region_md)] 0 (s_tally s0).

Lemma opened_starting : starting no_file g len 0 root heap (start_tracking opened) [].
Proof.
  destruct demo_holds as [[[H1 H2 H3 H4 H5] Hi Ht] Hheld]. split.
  - split; [split; [split|..]|]; done.
  - reflexivity.
  - reflexivity.
  - split; [reflexivity|]. exists 3, region_md. split_and!; reflexivity.
Qed.

Lemma two_commands : sizeof_layout + (2 * Z.of_nat 1 + 12) * (sizeof_entry + 8) ≤ BUF_SIZE.
Proof. apply Z.leb_le. vm_compute. reflexivity. Qed.

(** A file whose root object was made by an earlier run. *)
Definition old_file : named_mmf := mkNamed res (λ _, root) (λ _, None).
Definition open_old (path : string) : cmd (sys machine) named_mmf := λ _, Ret old_file opened.


Lemma list_main_returns :
  returned (list_main no_file ok_msync cfg 0 open_old (λ _ _, []) 5 ["list"; "/mnt/pmem0/l"] [line "i 7"; line "c"] opened)
    [Some ONothing; Some (OCount 1)].
Proof. vm_compute. reflexivity. Qed.

(** A new file: the name of the root object is a word of the file, and is stored
    before tracking is on. *)
Definition name_at : Z := start + 192.
Definition new_file : named_mmf :=
  mkNamed res (λ m, load64 m name_at) (λ _, Some (root, [(name_at, le_split 8 root)])).
Definition open_new (path : string) : cmd (sys machine) named_mmf := λ _, Ret new_file opened.

Definition session_new : sys machine :=
  state_of (list_main no_file ok_msync cfg 0 open_new (λ _ _, []) 5 ["list"; "/mnt/pmem0/l"] [line "i 7"] opened).

(** After a session that returned, a power failure may leave a file without its root
    object: the first snapshot copied its name and did not flush it. *)
Theorem new_root_may_be_lost :
  load64 (file_image g session_new) name_at = root
  ∧ ∀ x, back + 192 ≤ x < back + 200 → survives (s_pm session_new) x 0.
Proof.
  split; [vm_compute; reflexivity|]. intros x Hx. right.
  assert (forallb (λ x, bool_decide (0 ∈ px_cand (s_pm session_new) x)) (seqZ (back + 192) 8) = true) as Hall
    by (vm_compute; reflexivity).
  rewrite forallb_forall in Hall. apply (bool_decide_eq_true_1 _), Hall, list_elem_of_In, elem_of_seqZ. lia.
Qed.

(** Too few arguments. *)
Theorem no_path_exits :
  list_main no_file ok_msync cfg 0 open_new (λ _ _, []) 5 ["list"] [] opened = Exit 1 opened.
Proof. reflexivity. Qed.
End DemoMain.
