(* ===== verification/PmdkEmul.v ===== *)
(** * The PMDK emulation
      (libpmdkemul/libpmdkemul.cc, libpmdkemul/ator.cc,
       include/libpmdkemul/libpmemobj.h)

    Programs written for libpmemobj run on the library through this layer:
    transactions are counted, and the end of the outermost one takes a snapshot
    of the pool.  The managed files behind the pools are boost's and parameters;
    a managed file is named by its pointer, 0 is the null pointer. *)

From stdpp Require Import base list strings.
From Stdlib Require Import ZArith Lia.
From S2P Require Import Prelude Memory PMem Log Snapshot Wrappers Tracking Scenario Managed.

Record PMEMoid := mkOid { pool_uuid_lo : Z; off : Z }.
Definition OID_NULL : PMEMoid := mkOid 0 0.
Record PMEMobjpool := mkPool { pool_root : Z; pool_addr : Z }.
(** [tx_tls_obj] of the thread. *)
Record tx_tls := mkTls { level : Z; mmf_obj : Z }.

(** A managed file with the object named "root". *)
Record rooted := mkRooted {
  rt_file : mmf;
  find_root : mem → Z;
  construct_root : mem → option (Z * writes);
}.

Section Emul.
Context {M : Type} `{PMemOps M}.
Context (file_size : string → Z) (real_msync : Z → Z → Z → Z) (cfg : config).
Context (thr : nat).
(** The managed files, their constructor, and [stat]. *)
Context (mmf_of : Z → rooted) (new_mmf : string → Z → cmd (sys M) Z) (stat : string → option Z).

Record emu := mkEmu { e_tls : tx_tls; e_sys : sys M }.

Definition on_sys {A} (c : cmd (sys M) A) : cmd emu A := λ e,
  match c (e_sys e) with
  | Ret a s => Ret a (mkEmu (e_tls e) s)
  | Exit code s => Exit code (mkEmu (e_tls e) s)
  | Trap s => Trap (mkEmu (e_tls e) s)
  end.
Definition set_tls (t : tx_tls) (e : emu) : emu := mkEmu t (e_sys e).

(** ** ator.cc *)

Definition mmf_create (path : string) (bytes : Z) : cmd emu Z := on_sys (new_mmf path bytes).

Definition mmf_alloc (h bytes : Z) : cmd emu Z :=
  do! nvsl_assert (negb (h =? 0)) in
  on_sys (res_allocate file_size real_msync cfg thr (rt_file (mmf_of h)) bytes).

(** The deallocation is commented out. *)
Definition mmf_free (h ptr : Z) : cmd emu unit := nvsl_assert (negb (h =? 0)).

Definition mmf_get_root (h bytes : Z) : cmd emu Z :=
  do! nvsl_assert (negb (h =? 0)) in
  on_sys (λ s, Ret (find_root (mmf_of h) (view (s_pm s))) s).

Definition mmf_alloc_root (h bytes : Z) : cmd emu Z :=
  do! nvsl_assert (negb (h =? 0)) in
  on_sys (λ s, match construct_root (mmf_of h) (view (s_pm s)) with
               | Some (a, ws) => (do! perform file_size real_msync cfg thr ws in ret a) s
               | None => Trap s
               end).

Definition mmf_get_or_alloc_root (h bytes : Z) : cmd emu Z :=
  do! nvsl_assert (negb (h =? 0)) in
  let! r := mmf_get_root h bytes in
  do! when (r =? 0) (let! _ := mmf_alloc_root h bytes in ret tt) in
  mmf_get_root h bytes.

Definition mmf_snapshot (h : Z) : cmd emu unit :=
  do! nvsl_assert (negb (h =? 0)) in
  let f := rt_file (mmf_of h) in
  do! on_sys (snapshot file_size real_msync cfg (get_address f) (get_size f) MS_SYNC) in ret tt.

(** ** libpmdkemul.cc *)

Definition pmemobj_create (path : string) (poolsize : Z) : cmd emu PMEMobjpool :=
  let! a := mmf_create path poolsize in ret (mkPool 0 a).

Definition pmemobj_open (path : string) : cmd emu (option PMEMobjpool) :=
  match stat path with
  | None => ret None
  | Some size => let! a := mmf_create path size in ret (Some (mkPool 0 a))
  end.

Definition pmemobj_root (pop : PMEMobjpool) (size : Z) : PMEMoid := mkOid 1 (pool_root pop).
Definition pmemobj_direct (oid : PMEMoid) : Z := off oid.

Definition pmemobj_tx_alloc (size type_num : Z) : cmd emu PMEMoid :=
  let! e := get in
  let! a := mmf_alloc (mmf_obj (e_tls e)) size in
  ret (mkOid 1 a).

Definition pmemobj_tx_zalloc (size type_num : Z) : cmd emu PMEMoid :=
  let! oid := pmemobj_tx_alloc size type_num in
  do! on_sys (exec file_size real_msync cfg (OpMemset thr (off oid) 0 size)) in
  ret oid.

Definition pmemobj_tx_free (oid : PMEMoid) : cmd emu Z :=
  let! e := get in
  do! mmf_free (mmf_obj (e_tls e)) (off oid) in
  ret 0.

(** The calls that are not emulated end the program. *)
Definition lpo_assert {A} (cond : bool) (c : cmd emu A) : cmd emu A := if cond then c else exit_with 1.
Definition pmemobj_close (pop : PMEMobjpool) : cmd emu unit := lpo_assert false (ret tt).
Definition pmemobj_check (path layout : string) : cmd emu Z := lpo_assert false (ret 0).
Definition pmemobj_set_user_data (pop : PMEMobjpool) (data : Z) : cmd emu unit := lpo_assert false (ret tt).
Definition pmemobj_get_user_data (pop : PMEMobjpool) : cmd emu Z := lpo_assert false (ret 0).
Definition pmemobj_tx_xalloc (size type_num flags : Z) : cmd emu PMEMoid := lpo_assert false (ret OID_NULL).
Definition pmemobj_tx_realloc (oid : PMEMoid) (size type_num : Z) : cmd emu PMEMoid := lpo_assert false (ret OID_NULL).
Definition pmemobj_tx_zrealloc (oid : PMEMoid) (size type_num : Z) : cmd emu PMEMoid := lpo_assert false (ret OID_NULL).
Definition pmemobj_tx_strdup (str : string) (type_num : Z) : cmd emu PMEMoid := lpo_assert false (ret OID_NULL).
Definition pmemobj_tx_wcsdup (str : list Z) (type_num : Z) : cmd emu PMEMoid := lpo_assert false (ret OID_NULL).
Definition pmemobj_tx_xfree (oid : PMEMoid) (flags : Z) : cmd emu Z := lpo_assert false (ret 0).

(** ** The macros of libpmemobj.h *)

Definition TX_BEGIN (pool : PMEMobjpool) : cmd emu unit := modify (λ e,
  set_tls (mkTls (wrap64 (level (e_tls e) + 1)) (pool_addr pool)) e).

Definition TX_END : cmd emu unit :=
  do! modify (λ e, set_tls (mkTls (wrap64 (level (e_tls e) - 1)) (mmf_obj (e_tls e))) e) in
  let! e := get in
  when (level (e_tls e) =? 0)
    (do! mmf_snapshot (mmf_obj (e_tls e)) in
     modify (λ e, set_tls (mkTls (level (e_tls e)) 0) e)).

(** [TX_BEGIN(pool) { body } TX_END]; what follows [TX_ONABORT] is dead. *)
Definition tx (pool : PMEMobjpool) (body : cmd emu unit) : cmd emu unit :=
  do! TX_BEGIN pool in do! body in TX_END.

Definition TX_FREE (oid : PMEMoid) : cmd emu Z := pmemobj_tx_free oid.
Definition TOID_EQUALS (a b : PMEMoid) : bool := (off a =? off b) && (pool_uuid_lo a =? pool_uuid_lo b).
Definition TOID_IS_NULL (a : PMEMoid) : bool := off a =? 0.
Definition POBJ_ROOT (pool : PMEMobjpool) (size : Z) : cmd emu PMEMoid :=
  let! a := mmf_get_or_alloc_root (pool_addr pool) size in ret (mkOid 1 a).
End Emul.
Arguments emu M : clear implicits.

(** ** Transactions *)

Section Tx.
Context {M : Type} `{PMemLaws M}.
Context (file_size : string → Z) (real_msync : Z → Z → Z → Z) (cfg : config).
Context (g : globals) (len : Z) (thr : nat) (mmf_of : Z → rooted).
Hypothesis Hsu : setup cfg g len.
Implicit Types (e : emu M).
Abbreviation S0 := (start_addr g).
Abbreviation P := (backing_file_start g).
Abbreviation run := (run file_size real_msync cfg g len).
Abbreviation tx := (tx file_size real_msync cfg mmf_of).
Abbreviation TX_END := (TX_END file_size real_msync cfg mmf_of).

(** A piece of a transaction: however it ends, it was a well-behaved program
    without msync, and if it returns, it leaves the transaction it is in open. *)
Definition contained {A} e (c : cmd (emu M) A) : Prop :=
  match c e with
  | Ret _ e' => e_tls e' = e_tls e ∧ ∃ os, no_msync os ∧ run (e_sys e) os (e_sys e')
  | Exit _ e' | Trap e' => ∃ os, no_msync os ∧ run (e_sys e) os (e_sys e')
  end.

Lemma contained_ret {A} e (a : A) : contained e (ret a).
Proof. split; [done|]. exists []. split; constructor. Qed.

Lemma contained_bind {A B} e (c : cmd (emu M) A) (k : A → cmd (emu M) B) :
  contained e c → (∀ a e', c e = Ret a e' → contained e' (k a)) → contained e (bind c k).
Proof.
  unfold contained, bind. destruct (c e) as [a e1|code e1|e1]; [|done|done].
  intros [Ht (os & Hos & Hr)] Hk. specialize (Hk a e1 eq_refl).
  destruct (k a e1) as [b e2|code e2|e2].
  1: destruct Hk as [Ht2 (os2 & Hos2 & Hr2)]; split; [congruence|].
  2-3: destruct Hk as (os2 & Hos2 & Hr2).
  all: exists (os ++ os2); split; [by apply Forall_app|by eapply run_trans].
Qed.

(** An operation of the program. *)
Lemma contained_op e o uss :
  tracking g len (e_sys e) uss → op_ok g len (e_sys e) o → reads_ok g len (e_sys e) o →
  no_msync [o] → contained e (on_sys (exec file_size real_msync cfg o)).
Proof.
  intros Htr Hok Hrd Hno.
  destruct (exec_good file_size real_msync cfg g len (e_sys e) uss o Hsu Htr Hok) as (r & s' & _ & E & _).
  unfold contained, on_sys. rewrite E. split; [done|]. exists [o]. split; [done|].
  eapply Tracking.run_cons; [done|done|exact E|constructor].
Qed.

(** The stores of an allocation, when there is room for them. *)
Fixpoint stores_ok (s : sys M) (ws : writes) : Prop :=
  match ws with
  | [] => True
  | w :: ws => op_ok g len s (OpStore thr w.1 w.2)
      ∧ ∀ s', exec file_size real_msync cfg (OpStore thr w.1 w.2) s = Ret 0 s' → stores_ok s' ws
  end.

Lemma perform_run ws : ∀ s uss,
  tracking g len s uss → stores_ok s ws →
  ∃ s' os, perform file_size real_msync cfg thr ws s = Ret tt s' ∧ no_msync os ∧ run s os s'.
Proof.
  induction ws as [|w ws IH]; intros s uss Htr Hok; [exists s, []; split_and!; constructor|].
  destruct Hok as [Ho Hws].
  destruct (exec_store file_size real_msync cfg g len s uss thr w.1 w.2 Hsu Htr Ho) as (r & s1 & uss1 & E & Htr1 & _).
  assert (r = 0) as ->.
  { simpl in E. repeat (apply bind_Ret in E as (? & ? & _ & E)). by injection E as <-. }
  destruct (IH s1 uss1 Htr1 (Hws s1 E)) as (s2 & os & E2 & Hno & Hr).
  exists s2, (OpStore thr w.1 w.2 :: os). split_and!.
  - unfold perform in *. cbn [for_each]. unfold bind at 1 2. by rewrite E.
  - by constructor.
  - by eapply Tracking.run_cons; [| |exact E|].
Qed.

Lemma contained_alloc e uss size t :
  tracking g len (e_sys e) uss →
  (∀ a ws, allocate (rt_file (mmf_of (mmf_obj (e_tls e)))) size (view (s_pm (e_sys e))) = Some (a, ws) →
     stores_ok (e_sys e) ws) →
  contained e (pmemobj_tx_alloc file_size real_msync cfg thr mmf_of size t).
Proof.
  intros Htr Hws. unfold contained, pmemobj_tx_alloc, mmf_alloc, nvsl_assert, bind, get.
  assert (∃ os, no_msync os ∧ run (e_sys e) os (e_sys e)) as Hnil by (exists []; split; constructor).
  destruct (negb _); [|exact Hnil]. unfold ret, on_sys, res_allocate.
  destruct (allocate _ _ _) as [[a ws]|] eqn:E; [|exact Hnil].
  destruct (perform_run ws (e_sys e) uss Htr (Hws a ws eq_refl)) as (s' & os & E' & Hno & Hr).
  unfold bind. rewrite E'. split; [done|]. by exists os.
Qed.

(** The state with the transaction open. *)
Definition opened (pool : PMEMobjpool) e : emu M :=
  set_tls (mkTls (wrap64 (level (e_tls e) + 1)) (pool_addr pool)) e.

Lemma tx_opened pool body e : tx pool body e = bind body (λ _, TX_END) (opened pool e).
Proof. reflexivity. Qed.

(** A transaction in a transaction on the same pool is part of it. *)
Lemma contained_nested pool body e :
  1 ≤ level (e_tls e) < 2 ^ 64 - 1 → mmf_obj (e_tls e) = pool_addr pool →
  contained (opened pool e) body → contained e (tx pool body).
Proof.
  intros Hl Hp Hb. unfold contained in *. rewrite tx_opened. unfold bind at 1.
  destruct (body (opened pool e)) as [[] e1|code e1|e1]; [|done|done].
  destruct Hb as [Ht Hr]. unfold PmdkEmul.TX_END, bind, modify, get, when.
  rewrite Ht. cbn [opened set_tls e_tls level mmf_obj].
  rewrite (wrap_small 64 (level (e_tls e) + 1)) by lia.
  replace (level (e_tls e) + 1 - 1) with (level (e_tls e)) by lia. rewrite wrap_small by lia.
  rewrite (proj2 (Z.eqb_neq _ 0)) by lia. simpl. split; [|done].
  destruct e as [[l h] s]. simpl in *. by subst.
Qed.

(** ** The outermost transaction *)

(** A thread outside any transaction, with everything committed. *)
Record outside e : Prop := {
  os_fresh : fresh g len (e_sys e);
  os_inst : s_storeInstEnabled (e_sys e) = true;
  os_level : level (e_tls e) = 0;
}.

(** The pool's file holds the region. *)
Definition pool_covers (pool : PMEMobjpool) : Prop :=
  pool_addr pool ≠ 0
  ∧ let f := rt_file (mmf_of (pool_addr pool)) in
    0 ≤ get_address f ≤ S0 ∧ S0 + len ≤ get_address f + get_size f < 2 ^ 64.

Definition file_is e (m : mem) : Prop :=
  ∀ i, 0 ≤ i < len → view (s_pm (e_sys e)) (P + i) = m (S0 + i) ∧ durable (s_pm (e_sys e)) (P + i).

Lemma fresh_file e : fresh g len (e_sys e) → file_is e (view (s_pm (e_sys e))).
Proof. intros Hf i Hi. by apply (fr_mirror _ _ _ Hf). Qed.

(** Inside the transaction the file keeps what it had. *)
Lemma run_file e e' os :
  fresh g len (e_sys e) → run (e_sys e) os (e_sys e') → no_msync os → file_is e' (view (s_pm (e_sys e))).
Proof.
  intros Hf Hr Hno i Hi.
  destruct (run_keeps_file file_size real_msync cfg g len _ _ _ Hsu Hr Hno _ (fresh_tracking g len _ Hf))
    as ([uss Htr] & Hb & _).
  assert (in_back g len (P + i)) as Hx by (unfold in_back; lia). split.
  - rewrite Hb by done. by apply (fresh_file e).
  - by apply (tr_durable _ _ _ _ Htr).
Qed.

End Tx.

(** ** A pool, and behaviours at the edges *)

Module DemoTx.
Import Px86 Demo DemoRun.

Definition no_alloc : Z → mem → option (Z * writes) := λ _ _, None.
Definition file_at (a n : Z) : rooted := mkRooted (mkMmf a n no_alloc (λ _ _, [])) (λ _, 0) (λ _, None).
(** File 1 is the region; files 2 and 3 are its two pages. *)
Definition files (h : Z) : rooted :=
  if h =? 1 then file_at start len else if h =? 2 then file_at start 4096 else file_at (start + 4096) 4096.
Definition pool (h : Z) : PMEMobjpool := mkPool 0 h.

Definition e0 : emu machine := mkEmu (mkTls 0 0) (put_storeInst true s0).
Definition do_op (o : op) : cmd (emu machine) unit := do! on_sys (exec1 o) in ret tt.
Abbreviation tx1 := (tx no_file ok_msync cfg files).

Definition body : cmd (emu machine) unit := do! do_op op1 in tx1 (pool 1) (ret tt).

Lemma e0_outside : outside g len e0.
Proof. split; [|reflexivity|reflexivity]. pose proof demo_fresh as [Hg Hf Ha Hl Hm]. by split. Qed.

Lemma op1_ok_e0 : op_ok g len (e_sys e0) op1.
Proof.
  left. split; [|done]. apply (may_track_demo (e_sys e0) (fst boot) 0 (start + 64) 8);
    [exact log_at_s0|lia|lia|unfold len; lia|vm_compute; reflexivity].
Qed.

Lemma body_contained : contained no_file ok_msync cfg g len (opened (pool 1) e0) body.
Proof.
  assert (contained no_file ok_msync cfg g len (opened (pool 1) e0) (do_op op1)) as Hop.
  { apply contained_bind; [|intros; apply contained_ret].
    eapply (contained_op no_file ok_msync cfg g len demo_setup);
      [exact (fresh_tracking g len _ (os_fresh _ _ _ e0_outside))|exact op1_ok_e0|exact I|by constructor]. }
  apply contained_bind; [exact Hop|]. intros [] e' E. unfold contained in Hop. rewrite E in Hop.
  destruct Hop as [Ht _].
  apply contained_nested; [rewrite Ht; apply (bool_decide_unpack _); vm_compute; exact I|by rewrite Ht|].
  apply contained_ret.
Qed.

Lemma pool_1_covers : pool_covers g len files (pool 1).
Proof. split; [discriminate|]. split; [split; discriminate|split; [discriminate|reflexivity]]. Qed.


(** A transaction on a second pool inside one on the first: the outermost
    [TX_END] takes the snapshot of the second pool only, and the log forgets
    the stores to the first. *)
Definition two_pools : cmd (emu machine) unit :=
  tx1 (pool 2) (do! do_op (OpStore 0 (start + 64) [1]) in
                tx1 (pool 3) (do_op (OpStore 0 (start + 4096) [2]))).

Definition shows (o : outcome (emu machine) unit) : option (list Z * list log_entry_lean_t) :=
  match o with
  | Ret _ e => let m := view (s_pm (e_sys e)) in
      Some ([m (start + 64); m (back + 64); m (start + 4096); m (back + 4096)], logs_of (e_sys e) ≫= entries)
  | _ => None
  end.

Theorem inner_pool_is_committed : shows (two_pools e0) = Some ([1; 0; 2; 2], []).
Proof. vm_compute. reflexivity. Qed.

(** An allocation outside a transaction fails an assertion: the pool is known only
    inside one. *)
Theorem alloc_outside_transaction e size t :
  mmf_obj (e_tls e) = 0 → pmemobj_tx_alloc no_file ok_msync cfg 0 files size t e = Trap e.
Proof. intros E. unfold pmemobj_tx_alloc, mmf_alloc, bind, get. by rewrite E. Qed.

(** [pmemobj_root] of every pool the emulation makes is the null object. *)
Theorem root_is_null new_mmf stat path poolsize (e e' : emu machine) pop :
  pmemobj_create new_mmf path poolsize e = Ret pop e' ∨ pmemobj_open new_mmf stat path e = Ret (Some pop) e' →
  TOID_IS_NULL (pmemobj_root pop poolsize) = true.
Proof.
  intros [E|E]; unfold pmemobj_create, pmemobj_open in E.
  - by apply bind_Ret in E as (a & e1 & _ & [= <- _]).
  - destruct (stat path); [|done]. by apply bind_Ret in E as (a & e1 & _ & [= <- _]).
Qed.
End DemoTx.
