(* ===== verification/MapDriver.v ===== *)
(** * The map program
      (examples/map/map.cc, examples/map/map_btree.cc, examples/map/map.hh)

    A command-line program over a map with exchangeable back ends.  The record
    [MapOps] of functions is the interface of a back end, the class [MapLaws] is
    what the program relies on, and the B-tree is the back end the program has.
    msync makes what is in memory the contents of the file, as the theorems on
    the library show; here [sync_file] copies the map. *)

From stdpp Require Import base list gmap sorting strings.
From Stdlib Require Import ZArith Lia Ascii.
From S2P Require Import Prelude Text BTree BTreeSpec BTreeUse.

(** [MapOps]: [foreach] passes an argument through the callback. *)
Record MapOps (T : Type) := mkOps {
  map_insert : Z → Z → cmd T unit;
  map_remove : Z → cmd T unit;
  map_get : Z → cmd T Z;
  map_foreach : ∀ A : Type, (Z → Z → A → A * Z) → A → cmd T A;
  map_lookup : Z → cmd T bool;
}.
Arguments map_insert {T} _ _ _ _.
Arguments map_remove {T} _ _ _.
Arguments map_get {T} _ _ _.
Arguments map_foreach {T} _ {A} _ _ _.
Arguments map_lookup {T} _ _ _.

(** The B-tree back end; the allocator and the bound on recursion are those of
    [BTree]. *)
Definition map_btree (fresh : heap → Z) (raw : heap → btree_node_t) (fuel : nat) : MapOps btree_t :=
  mkOps btree_t
    (λ k v, do! insert fresh raw fuel k v in ret tt)
    (λ k, do! remove fuel k in ret tt)
    (btree_get fuel)
    (λ A cb a, let! r := foreach cb fuel a in ret r.1)
    (λ k, let! r := btree_map_lookup fuel k in ret (negb (r =? 0))).

(** ** Arguments *)

Inductive map_backend_t := BTREE | MAX.

Record args_t := mkArgs {
  puddle_path : string;
  map_backend : map_backend_t;
  bulk : bool;
  bulk_op : string;
  bulk_cnt : Z;
}.

(** Without a result the program prints how to use it and exits with 1; a count
    that does not parse is reported and stays 0. *)
Definition parse_args (args_v : list string) : option args_t :=
  let size := length args_v in
  let arg (i : nat) : string := default "" (args_v !! i) in
  if (negb (bool_decide (size = 3%nat)) && negb (bool_decide (size = 6%nat)))
     || (bool_decide (size = 6%nat) && negb (String.eqb (arg 3%nat) "bulk"))
  then None
  else if String.eqb (arg 2%nat) "btree" then
    Some (if bool_decide (size = 6%nat)
          then mkArgs (arg 1%nat) BTREE true (arg 4%nat) (default 0 (stoull 10 (arg 5%nat)))
          else mkArgs (arg 1%nat) BTREE false "" 0)
  else None.

(** [split]: the pieces between separators; [cur] is the piece being read, in
    reverse. *)
Fixpoint split_from (sep : ascii) (cur cs : list ascii) : list (list ascii) :=
  match cs with
  | [] => [rev cur]
  | c :: cs => if Ascii.eqb c sep then rev cur :: split_from sep [] cs else split_from sep (c :: cur) cs
  end.
Definition split (text : list ascii) (sep : ascii) : list (list ascii) := split_from sep [] text.

(** ** The program *)

Section Driver.
Context {T : Type} (ops : MapOps T).

(** The map in memory and in the file. *)
Record driver := mkDriver { in_memory : T; in_file : T }.

Definition on_map {A} (c : cmd T A) : cmd driver A := λ d,
  match c (in_memory d) with
  | Ret a t => Ret a (mkDriver t (in_file d))
  | Exit code t => Exit code (mkDriver t (in_file d))
  | Trap t => Trap (mkDriver t (in_file d))
  end.
Definition sync_file : cmd driver unit := modify (λ d, mkDriver (in_memory d) (in_memory d)).

Definition UINT64_MAX : Z := 2 ^ 64 - 1.

(** What a command prints. *)
Inductive answer := Nothing | Keys (ks : list Z) | Help | Unknown | NotImplemented.

Definition print_key (k v : Z) (ks : list Z) : list Z * Z := (ks ++ [k], 0).

(** [rands i] is the [i]-th result of rand(). *)
Definition perform_bulk_ops (args : args_t) (rands : Z → Z) : cmd driver answer :=
  let idx := seqZ 0 (bulk_cnt args) in
  let add (i : Z) := on_map (map_insert ops (rands i) 0) in
  match bulk_op args with
  | String "i" _ =>
      do! for_each idx (λ i, do! add i in sync_file) in ret Nothing
  | String "r" _ =>
      do! for_each idx (λ i, do! add i in sync_file) in
      do! for_each idx (λ i, do! on_map (map_remove ops (rands i)) in sync_file) in ret Nothing
  | String "c" _ =>
      do! for_each idx (λ i, do! add i in when (negb (i mod 100 =? 0)) sync_file) in
      do! for_each idx (λ i, let! _ := on_map (map_lookup ops (rands i)) in ret tt) in ret Nothing
  | _ => ret NotImplemented
  end.

Definition strlen (buf : string) : Z := Z.of_nat (String.length buf).
Definition number (buf : string) : option Z :=
  match buf with EmptyString => None | String _ r => stoull 10 r end.

(** An exception nobody catches ends the program. *)
Definition run_line (buf : string) : cmd driver answer :=
  match buf with
  | EmptyString => ret Nothing
  | String c _ =>
      if Ascii.eqb c "010" then ret Nothing
      else if Ascii.eqb c "i" then
        if strlen buf <? 3 then ret Help
        else match number buf with
             | None => trap
             | Some k => do! on_map (map_insert ops k 0) in do! sync_file in ret Nothing
             end
      else if Ascii.eqb c "p" then
        let! ks := on_map (map_foreach ops print_key []) in ret (Keys ks)
      else if Ascii.eqb c "r" then
        if strlen buf <? 4 then ret Help
        else match number buf with
             | None => trap
             | Some k => do! on_map (map_remove ops k) in do! sync_file in ret Nothing
             end
      else if Ascii.eqb c "h" then ret Help
      else ret Unknown
  end.

Fixpoint run_lines (bufs : list string) : cmd driver (list answer) :=
  match bufs with
  | [] => ret []
  | buf :: bufs =>
      let! a := run_line buf in
      let! l := run_lines bufs in
      ret (a :: l)
  end.

(** [main] from where the map is set up. *)
Definition main_loop (args : args_t) (rands : Z → Z) (bufs : list string) : cmd driver (list answer) :=
  do! on_map (map_insert ops UINT64_MAX 0) in
  do! sync_file in
  if bulk args then let! a := perform_bulk_ops args rands in ret [a] else run_lines bufs.
End Driver.
Arguments driver T : clear implicits.

(** ** Splitting a text *)

Fixpoint join (sep : ascii) (ts : list (list ascii)) : list ascii :=
  match ts with
  | [] => []
  | [t] => t
  | t :: ts => t ++ sep :: join sep ts
  end.

Lemma join_cons sep t ts : ts ≠ [] → join sep (t :: ts) = t ++ sep :: join sep ts.
Proof. by destruct ts. Qed.

Lemma split_from_ne sep cur cs : split_from sep cur cs ≠ [].
Proof. revert cur. induction cs as [|c cs IH]; intros cur; simpl; [done|]. by destruct (Ascii.eqb c sep). Qed.

Lemma join_split_from sep cs : ∀ cur, join sep (split_from sep cur cs) = rev cur ++ cs.
Proof.
  induction cs as [|c cs IH]; intros cur; simpl; [by rewrite app_nil_r|].
  destruct (Ascii.eqb_spec c sep) as [->|Hc].
  - rewrite join_cons by apply split_from_ne. by rewrite IH.
  - rewrite IH. simpl. by rewrite <-(assoc_L (++)).
Qed.

Lemma not_in_rev (x : ascii) l : x ∉ l → x ∉ rev l.
Proof. by rewrite !list_elem_of_In, <-in_rev. Qed.

Lemma split_from_free sep cs : ∀ cur t, sep ∉ cur → t ∈ split_from sep cur cs → sep ∉ t.
Proof.
  induction cs as [|c cs IH]; intros cur t Hcur; simpl.
  - intros ->%list_elem_of_singleton. by apply not_in_rev.
  - destruct (Ascii.eqb_spec c sep) as [->|Hc].
    + intros [->|Ht]%elem_of_cons; [by apply not_in_rev|]. eapply IH; [|exact Ht]. set_solver.
    + apply IH. set_solver.
Qed.

(** split cuts a text at the separators: joined again, the pieces give the text,
    and no piece has a separator. *)
Theorem split_join text sep : join sep (split text sep) = text ∧ ∀ t, t ∈ split text sep → sep ∉ t.
Proof.
  split; [apply (join_split_from sep text [])|]. intros t. apply split_from_free. set_solver.
Qed.

(** ** What the program relies on *)

(** [holds t ks]: the map has the keys [ks], in any order. *)
Class MapLaws {T} (ops : MapOps T) (cap : nat) (holds : T → list Z → Prop) : Prop := {
  ml_perm t ks ks' : ks ≡ₚ ks' → holds t ks → holds t ks';
  ml_insert t ks k v : holds t ks → k ≠ 0 → (length ks < cap)%nat →
    ∃ t', map_insert ops k v t = Ret tt t' ∧ holds t' (k :: ks);
  ml_foreach t ks : holds t ks →
    ∃ out, map_foreach ops print_key [] t = Ret out t ∧ StronglySorted Z.le out ∧ out ≡ₚ ks;
  ml_lookup t ks k : holds t ks → map_lookup ops k t = Ret (bool_decide (k ∈ ks)) t;
}.

(** The B-tree keeps the promise, for as many keys as the bound on its recursion
    allows. *)
Definition btree_holds (fuel : nat) (t : btree_t) (ks : list Z) : Prop :=
  ∃ d bs, represents t d bs ∧ key <$> bs ≡ₚ ks ∧ (d ≤ length ks)%nat ∧ (length ks + 2 ≤ fuel)%nat.

Lemma print_keys bs ks : foldl (visit print_key) ks bs = ks ++ (key <$> bs).
Proof.
  revert ks. induction bs as [|b bs IH]; intros ks; simpl; [by rewrite app_nil_r|].
  rewrite IH. unfold visit, print_key. simpl. by rewrite <-(assoc_L (++)).
Qed.

Lemma in_order_keys bs : in_order bs → StronglySorted Z.le (key <$> bs).
Proof.
  induction 1 as [|b bs Hs IH Hall]; simpl; constructor; [done|]. by apply Forall_fmap.
Qed.

#[export] Instance btree_laws fresh raw fuel :
  zeroing_allocator fresh raw → MapLaws (map_btree fresh raw fuel) (fuel - 2) (btree_holds fuel).
Proof.
  intros Ha. split.
  - intros t ks ks' Hp (d & bs & Hr & Hk & Hd & Hf). exists d, bs. pose proof (Permutation_length Hp).
    split_and!; [done|by trans ks|lia|lia].
  - intros t ks k v (d & bs & Hr & Hk & Hd & Hf) Hk0 Hlt.
    destruct (insert_spec fresh raw fuel k v t d bs Ha Hr Hk0 ltac:(lia)) as (t' & d' & bs' & E & Hr' & Hp & Hd').
    exists t'. split; [simpl; unfold bind; by rewrite E|]. exists d', bs'. simpl. split_and!; [done| |lia|lia].
    trans (key <$> (mkItem k v :: bs)); [by apply fmap_Permutation|]. simpl. by constructor.
  - intros t ks (d & bs & Hr & Hk & Hd & Hf).
    destruct (foreach_in_order print_key fuel [] t d bs) as [E Hs]; [done|done|lia|].
    exists (key <$> bs). split_and!; [|by apply in_order_keys|done].
    simpl. unfold bind. rewrite E. simpl. by rewrite print_keys.
  - intros t ks k (d & bs & Hr & Hk & Hd & Hf).
    destruct (get_spec fuel k t d bs Hr ltac:(lia)) as (f & Hfi & _ & E).
    simpl. unfold bind. rewrite E. unfold ret. f_equal. symmetry. destruct f as [it|]; simpl in *.
    + apply bool_decide_eq_true_2. rewrite <-Hk. destruct Hfi as [Hin <-]. by apply list_elem_of_fmap_2.
    + apply bool_decide_eq_false_2. rewrite <-Hk. intros (it & -> & Hin)%list_elem_of_fmap. by apply (Hfi it).
Qed.

(** ** Sessions *)

Section Session.
Context {T : Type} (ops : MapOps T) (cap : nat) (holds : T → list Z → Prop) `{!MapLaws ops cap holds}.
Implicit Types (d : driver T) (ks : list Z).

Definition starts (buf : string) (c : ascii) : bool :=
  match buf with EmptyString => false | String c' _ => Ascii.eqb c' c end.

(** The key a line inserts. *)
Definition keys_of (buf : string) : list Z :=
  if starts buf "i" && negb (strlen buf <? 3)
  then match number buf with Some k => [k] | None => [] end else [].

(** Lines without a removal, and without the key 0. *)
Definition adds_only (buf : string) : Prop :=
  starts buf "r" = false ∧ ∀ k, k ∈ keys_of buf → k ≠ 0.

(** The answer to a line when the keys are [ks]: printing lists them in order. *)
Definition answers ks (buf : string) (a : answer) : Prop :=
  if starts buf "p" then ∃ out, a = Keys out ∧ StronglySorted Z.le out ∧ out ≡ₚ ks
  else ∀ out, a ≠ Keys out.

Fixpoint session ks (bufs : list string) (l : list answer) : Prop :=
  match bufs, l with
  | [], [] => True
  | buf :: bufs, a :: l => answers ks buf a ∧ session (keys_of buf ++ ks) bufs l
  | _, _ => False
  end.

(** Between commands memory and file hold the same keys. *)
Definition settled d ks : Prop := in_file d = in_memory d ∧ holds (in_memory d) ks.

Lemma insert_settles d ks k :
  settled d ks → k ≠ 0 → (length ks < cap)%nat →
  ∃ d', (do! on_map (map_insert ops k 0) in sync_file) d = Ret tt d' ∧ settled d' (k :: ks).
Proof.
  intros [Hf Hh] Hk Hc. destruct (ml_insert (in_memory d) ks k 0 Hh Hk Hc) as (t' & E & Hh').
  exists (mkDriver t' t'). split; [|done]. unfold bind, on_map. by rewrite E.
Qed.

Ltac stays a d Hs := left; exists a, d; split; [reflexivity|split; [exact Hs|intros ? [=]]].

Lemma line_spec buf d ks :
  settled d ks → adds_only buf → (length (keys_of buf) + length ks ≤ cap)%nat →
  (∃ a d', run_line ops buf d = Ret a d' ∧ settled d' (keys_of buf ++ ks) ∧ answers ks buf a)
  ∨ run_line ops buf d = Trap d.
Proof.
  intros Hs [Hr Hk0] Hcap. destruct buf as [|c buf]; [stays Nothing d Hs|].
  unfold keys_of, answers, starts in *. unfold run_line.
  destruct (Ascii.eqb_spec c "010") as [->|_]; [stays Nothing d Hs|].
  destruct (Ascii.eqb_spec c "i") as [->|_].
  { destruct (strlen (String "i" buf) <? 3); cbn [Ascii.eqb Bool.eqb andb negb] in *; [stays Help d Hs|].
    destruct (number (String "i" buf)) as [k|]; [left|by right].
    destruct (insert_settles d ks k Hs) as (d' & E & Hs'); [apply Hk0; set_solver|simpl in *; lia|].
    exists Nothing, d'. rewrite <-bind_assoc, (bind_eq _ _ _ _ _ E). split; [reflexivity|]. split; [exact Hs'|intros ? [=]]. }
  destruct (Ascii.eqb_spec c "p") as [->|_].
  { left. destruct Hs as [Hf Hh]. destruct (ml_foreach (in_memory d) ks Hh) as (out & E & Hso & Hp).
    exists (Keys out), d. split; [|split; [by split|by exists out]]. unfold bind, on_map. rewrite E. by destruct d. }
  rewrite Hr. destruct (Ascii.eqb c "h"); [stays Help d Hs|stays Unknown d Hs].
Qed.

Lemma session_spec bufs : ∀ d ks,
  settled d ks → Forall adds_only bufs → (length (bufs ≫= keys_of) + length ks ≤ cap)%nat →
  match run_lines ops bufs d with
  | Ret l d' => session ks bufs l ∧ settled d' ((bufs ≫= keys_of) ++ ks)
  | Trap d' => ∃ n, settled d' ((take n bufs ≫= keys_of) ++ ks)
  | Exit _ _ => False
  end.
Proof.
  induction bufs as [|buf bufs IH]; intros d ks Hs Hok Hcap; [done|].
  apply Forall_cons in Hok as [Hb Hok]. cbn [mbind list_bind] in Hcap. rewrite length_app in Hcap.
  cbn [run_lines]. unfold bind at 1.
  destruct (line_spec buf d ks Hs Hb ltac:(lia)) as [(a & d1 & -> & Hs1 & Ha)|E]; [|rewrite E; by exists 0%nat].
  specialize (IH d1 (keys_of buf ++ ks) Hs1 Hok). unfold bind. rewrite length_app in IH.
  destruct (run_lines ops bufs d1) as [l d2|code d2|d2].
  - destruct IH as [Hl [Hf Hh]]; [lia|]. split; [done|]. split; [done|]. eapply ml_perm; [|exact Hh].
    cbn [mbind list_bind]. rewrite (assoc_L (++)). apply Permutation_app_tail, Permutation_app_comm.
  - destruct IH; lia.
  - destruct IH as (n & Hf & Hh); [lia|]. exists (S n). split; [done|]. eapply ml_perm; [|exact Hh].
    cbn [take mbind list_bind]. rewrite (assoc_L (++)). apply Permutation_app_tail, Permutation_app_comm.
Qed.
End Session.

Lemma empty_holds fuel (s : btree_t) : root s = 0 → (2 ≤ fuel)%nat → btree_holds fuel s [].
Proof. intros Hr Hf. exists 0%nat, []. split_and!; [by apply rep_empty|done|simpl; lia|simpl; lia]. Qed.


(** ** A session *)

Module DemoMapProg.
Import Demo.

Definition plain : args_t := mkArgs "/mnt/pmem0/map" BTREE false "" 0.
Definition line (str : string) : string := str +:+ String "010" "".
Definition bufs : list string := [line "i 7"; line "i 3"; line "p"; line "x"].

Lemma bufs_add_only : Forall adds_only bufs.
Proof. repeat constructor; try reflexivity; intros k Hk; set_solver. Qed.


Definition printed (o : outcome (driver btree_t) (list answer)) : option (list answer) :=
  match o with Ret l _ => Some l | _ => None end.

Example session_prints :
  printed (main_loop (map_btree fresh raw 20) plain (λ _, 0) bufs (mkDriver empty empty))
  = Some [Nothing; Nothing; Keys [3; 7; 18446744073709551615]; Unknown].
Proof. vm_compute. reflexivity. Qed.

(** The bulk lookup syncs after every insertion but each hundredth: with one
    insertion there is no msync at all. *)
Definition bulk_lookup : args_t := mkArgs "/mnt/pmem0/map" BTREE true "c" 1.
Definition keys_in (t : btree_t) : list Z :=
  match map_foreach (map_btree fresh raw 20) print_key [] t with Ret ks _ => ks | _ => [] end.

Theorem bulk_lookup_leaves_file_behind :
  let d := state_of (main_loop (map_btree fresh raw 20) bulk_lookup (λ _, 5) [] (mkDriver empty empty)) in
  keys_in (in_memory d) = [5; UINT64_MAX] ∧ keys_in (in_file d) = [UINT64_MAX].
Proof. vm_compute. split; reflexivity. Qed.
End DemoMapProg.
