(* ===== verification/KvDriver.v ===== *)
(** * The program around the key-value store
      (examples/simplekv_cxlbuf/simplekv_puddles.cc,
       allocate_root of include/container/reservoir.hh)

    main reads a command from its arguments: single gets and puts, bursts of
    numbered keys, or two trace files of a YCSB workload.  The store is the one of
    [SimpleKv]; the managed file it lies in is boost's, of which main sees whether
    it opens and whether the root object can be constructed.  The theorems say what
    a burst of puts and a workload leave and answer, and that the commands that
    only read never answer. *)

From stdpp Require Import base list gmap strings.
From Stdlib Require Import ZArith Lia Ascii String.
From S2P Require Import Prelude Memory Text Vector ObjString SimpleKv.

Abbreviation str := String.string.

(** ** Text *)

(** The characters of a [std::string], as the store compares them. *)
Definition chars (s : str) : list Z := (λ c, Z.of_N (N_of_ascii c)) <$> list_ascii_of_string s.

(** [sprintf(key, "key%d", i)]. *)
Definition burst_key (i : Z) : list Z := chars ("key" +:+ to_string i).

(** The characters before and behind the first space; [None] when there is none. *)
Fixpoint cut_space (cs : list ascii) : option (list ascii * list ascii) :=
  match cs with
  | [] => None
  | c :: cs =>
      if Ascii.eqb c " " then Some ([], cs)
      else '(a, b) ← cut_space cs; Some (c :: a, b)
  end.

(** [line.erase(0, line.find(" ") + 1)]: [npos + 1] is 0. *)
Definition line_key (line : str) : list Z :=
  match cut_space (list_ascii_of_string line) with
  | Some (_, b) => chars (string_of_list_ascii b)
  | None => chars line
  end.

(** [line.substr(0, line.find(" "))]. *)
Definition line_op (line : str) : str :=
  match cut_space (list_ascii_of_string line) with
  | Some (a, _) => string_of_list_ascii a
  | None => line
  end.

(** ** The program *)

(** The managed file, seen from main: whether it has an object with the name of the
    root, the store, and what main itself does beside it. *)
Record kv_file := mkFile {
  has_root : bool;
  the_kv : simple_kv;
  startTracking : bool;
  msyncs : list Z; (* lengths that main passes to msync *)
}.

(** How main ends: its status, the numbers it printed, and whether it caught an
    exception. *)
Record run := mkRun { status : Z; printed : list Z; caught : bool }.

Section Driver.
Context (cfresh : blocks Z → Z) (craw : blocks Z → nat → list Z).
Context (bfresh : blocks elem → Z) (braw : blocks elem → nat → list elem).
Context (vfresh : blocks Z → Z) (vraw : blocks Z → nat → list Z).
Context (hash : list Z → Z) (N : nat) (junk : elem) (cp : elem → cmd (blocks elem) elem).
(** Whether the constructor of the managed file returns, and whether [construct]
    does, given whether the name is taken. *)
Context (opens : str → bool) (constructs : bool → bool).
(** The lines of a file that can be opened. *)
Context (lines : str → option (list str)).

Definition on_kv {A} (c : cmd simple_kv A) : cmd kv_file A := λ f,
  let put s := mkFile (has_root f) s (startTracking f) (msyncs f) in
  match c (the_kv f) with Ret a s => Ret a (put s) | Exit e s => Exit e (put s) | Trap s => Trap (put s) end.

Definition dput (key : list Z) (val : Z) (persist : bool) : cmd kv_file unit :=
  on_kv (kv_put cfresh craw bfresh braw vfresh vraw hash N junk cp key val persist).
Definition dget (key : list Z) : cmd kv_file (option Z) := on_kv (kv_get hash N key).

(** The object that [construct] makes: [simple_kv() = default]. *)
Definition new_root (s : simple_kv) : simple_kv :=
  mkKv (chars_h s) (elems_h s) (values_h s) (replicate N vector_ctor) vector_ctor (syncs s).

(** [None] is an exception. *)
Definition allocate_root : cmd kv_file (option unit) := λ f,
  if constructs (has_root f)
  then Ret (Some tt) (mkFile true (new_root (the_kv f)) (startTracking f) (msyncs f))
  else Ret None f.

Definition ok (out : list Z) : run := mkRun 0 out false.
Definition exception (out : list Z) : run := mkRun 0 out true.
Definition usage : run := mkRun 1 [] false.

Definition do_get (key : list Z) : cmd kv_file run :=
  let! v := dget key in
  ret (match v with Some v => ok [v] | None => exception [] end).

Definition do_put (key : list Z) (value : str) : cmd kv_file run :=
  match stoi value with
  | None => ret (exception [])
  | Some v => do! dput key v true in ret (ok [])
  end.

(** The loop of [burst get], with what it printed so far. *)
Fixpoint get_loop (out : list Z) (ixs : list Z) : cmd kv_file run :=
  match ixs with
  | [] => ret (ok out)
  | i :: ixs =>
      let! v := dget (burst_key i) in
      match v with Some v => get_loop (out ++ [v]) ixs | None => ret (exception out) end
  end.

Definition burst_get (number : str) : cmd kv_file run :=
  match stoi number with None => ret (exception []) | Some m => get_loop [] (seqZ 0 m) end.

Definition burst_put (number : str) : cmd kv_file run :=
  match stoi number with
  | None => ret (exception [])
  | Some m => do! for_each (seqZ 0 m) (λ i, dput (burst_key i) i true) in ret (ok [])
  end.

Definition ycsb_value : Z := 4455.

(** The loop over the run trace: reads, writes and the sum of what was read. *)
Fixpoint run_trace (ops : list (str * list Z)) (reads writes result : Z) : cmd kv_file (Z * Z * Z) :=
  match ops with
  | [] => ret (reads, writes, result)
  | (op, key) :: ops =>
      if String.eqb op "Update" then
        do! dput key ycsb_value true in run_trace ops reads (wrap64 (writes + 1)) result
      else if String.eqb op "Read" then
        let! v := dget key in
        match v with
        | Some v => run_trace ops (wrap64 (reads + 1)) writes (wrap64 (result + v))
        | None => exit_with 1
        end
      else run_trace ops reads writes result
  end.

Definition ycsb (load run_ : str) : cmd kv_file run :=
  let load_keys := line_key <$> default [] (lines load) in
  let run_ops := (λ l, (line_op l, line_key l)) <$> default [] (lines run_) in
  do! for_each load_keys (λ key, dput key ycsb_value false) in
  do! dput (chars "a") 0 true in
  do! modify (λ f, mkFile (has_root f) (the_kv f) (startTracking f) (msyncs f ++ [1024])) in
  do! modify (λ f, mkFile (has_root f) (the_kv f) true (msyncs f)) in
  let! r := run_trace run_ops 0 0 0 in
  let '(reads, writes, _) := r in
  ret (ok [reads; writes]).

(** The tests of the arguments, in their order; [argv[3]] is read before argc is
    known to reach it. *)
Definition dispatch (argv : list str) : cmd kv_file run :=
  let argc := List.length argv in
  let arg_is i s := match argv !! i with Some a => String.eqb a s | None => false end in
  let arg i := default ""%string (argv !! i) in
  if arg_is 2%nat "get"%string && (argc =? 4)%nat then do_get (chars (arg 3%nat))
  else if arg_is 2%nat "put"%string && (argc =? 5)%nat then do_put (chars (arg 3%nat)) (arg 4%nat)
  else if arg_is 2%nat "burst"%string && (argc =? 3)%nat then trap
  else if arg_is 2%nat "burst"%string && arg_is 3%nat "get"%string && (argc =? 5)%nat then burst_get (arg 4%nat)
  else if arg_is 2%nat "burst"%string && arg_is 3%nat "put"%string && (argc =? 5)%nat then burst_put (arg 4%nat)
  else if arg_is 2%nat "ycsb"%string && (argc =? 5)%nat then ycsb (arg 3%nat) (arg 4%nat)
  else ret usage.

Definition main (argv : list str) : cmd kv_file run :=
  if (List.length argv <? 3)%nat then ret usage
  else if negb (opens (default ""%string (argv !! 1%nat))) then ret (exception [])
  else
    let! root := allocate_root in
    match root with
    | None => ret (exception [])
    | Some _ =>
        do! on_kv (kv_init bfresh braw vfresh vraw N) in
        dispatch argv
    end.
End Driver.

(** ** Keys *)

Lemma chars_inj a b : chars a = chars b → a = b.
Proof.
  unfold chars. intros E. rewrite <-(string_of_list_ascii_of_string a), <-(string_of_list_ascii_of_string b).
  f_equal. revert E. generalize (list_ascii_of_string b). induction (list_ascii_of_string a) as [|x l IH];
    intros [|y l'] E; try done. cbn in E. injection E as E1 E2. f_equal; [|by apply IH].
  rewrite <-(ascii_N_embedding x), <-(ascii_N_embedding y). f_equal. by apply N2Z.inj.
Qed.

Lemma length_chars s : List.length (chars s) = String.length s.
Proof. unfold chars. rewrite length_fmap. induction s; simpl; congruence. Qed.

Lemma dec_digits_length fuel z acc : (List.length (dec_digits fuel z acc) ≤ fuel + List.length acc)%nat.
Proof.
  revert z acc. induction fuel as [|fuel IH]; intros z acc; simpl; [lia|].
  destruct (z <? 10); simpl; [lia|]. specialize (IH (z / 10) (digit_char (z mod 10) :: acc)). simpl in IH. lia.
Qed.

(** A numbered key fits into the buffer of a short string. *)
Lemma burst_key_short i : 0 ≤ i → (List.length (burst_key i) ≤ 23)%nat.
Proof.
  intros Hi. unfold burst_key, chars. rewrite length_fmap, list_ascii_app, length_app. unfold to_string.
  rewrite list_ascii_of_string_of_list_ascii. unfold to_chars. destruct (i <? 0) eqn:E; [lia|].
  pose proof (dec_digits_length 20 i []) as H. cbn [List.length list_ascii_of_string] in *. lia.
Qed.

Lemma burst_key_inj i j : 0 ≤ i < 2 ^ 31 → 0 ≤ j < 2 ^ 31 → burst_key i = burst_key j → i = j.
Proof.
  intros Hi Hj E%chars_inj. cbn in E. injection E as E. change (to_string i = to_string j) in E.
  pose proof (stoi_to_string i Hi) as E1. rewrite E, stoi_to_string in E1 by done. by injection E1.
Qed.

(** The puts of [burst put m]. *)
Definition burst_kvs (m : Z) : list (list Z * Z) := (λ i, (burst_key i, i)) <$> seqZ 0 m.

Lemma burst_kvs_ok m :
  0 ≤ m < 2 ^ 31 → NoDup (burst_kvs m).*1 ∧ Forall (λ kv, List.length kv.1 ≤ 23)%nat (burst_kvs m)
    ∧ List.length (burst_kvs m) = Z.to_nat m.
Proof.
  intros Hm. unfold burst_kvs. split_and!.
  - rewrite <-list_fmap_compose. apply NoDup_fmap_2_strong; [|apply NoDup_seqZ].
    intros x y Hx%elem_of_seqZ Hy%elem_of_seqZ. apply burst_key_inj; lia.
  - apply Forall_fmap, Forall_forall. intros x Hx%elem_of_seqZ. apply burst_key_short. lia.
  - by rewrite length_fmap, length_seqZ.
Qed.

(** A line of a trace is an operation, a space and a key. *)
Lemma cut_space_app a b :
  " "%char ∉ a → cut_space (a ++ " "%char :: b) = Some (a, b).
Proof.
  induction a as [|c a IH]; intros Hn; [done|]. apply not_elem_of_cons in Hn as [Hc Hn]. simpl.
  destruct (Ascii.eqb_spec c " "); [by destruct Hc|]. by rewrite IH.
Qed.

Lemma trace_line op key :
  " "%char ∉ list_ascii_of_string op →
  line_op (op +:+ " " +:+ key) = op ∧ line_key (op +:+ " " +:+ key) = chars key.
Proof.
  intros Hop. unfold line_op, line_key. rewrite !list_ascii_app. simpl. rewrite cut_space_app by done.
  by rewrite !string_of_list_ascii_of_string.
Qed.

(** ** Runs *)

Section Runs.
Context (cfresh : blocks Z → Z) (craw : blocks Z → nat → list Z).
Context (bfresh : blocks elem → Z) (braw : blocks elem → nat → list elem).
Context (vfresh : blocks Z → Z) (vraw : blocks Z → nat → list Z).
Context (hash : list Z → Z) (N : nat) (junk : elem) (cp : elem → cmd (blocks elem) elem).
Context (opens : str → bool) (constructs : bool → bool) (lines : str → option (list str)).
Context (Hb : fresh_blocks bfresh braw) (Hv : fresh_blocks vfresh vraw).
Context (HN : (0 < N)%nat) (Hjunk : List.length (tail (first junk)) = 24%nat).

Local Notation main := (main cfresh craw bfresh braw vfresh vraw hash N junk cp opens constructs lines).
Local Notation dput := (dput cfresh craw bfresh braw vfresh vraw hash N junk cp).
Local Notation dget := (dget hash N).
Local Notation dispatch := (dispatch cfresh craw bfresh braw vfresh vraw hash N junk cp lines).
Local Notation run_trace := (run_trace cfresh craw bfresh braw vfresh vraw hash N junk cp).

(** The file has a root that holds the puts [kvs]. *)
Record filled (f : kv_file) (kvs : list (list Z * Z)) : Prop := {
  fi_root : has_root f = true;
  fi_ok : kv_ok hash N (the_kv f) kvs;
  fi_keys : NoDup kvs.*1;
}.

Lemma on_kv_Ret {A} (c : cmd simple_kv A) f a s :
  c (the_kv f) = Ret a s → on_kv c f = Ret a (mkFile (has_root f) s (startTracking f) (msyncs f)).
Proof. unfold on_kv. by intros ->. Qed.

Lemma for_each_on_kv {A} (c : A → cmd simple_kv unit) l f :
  for_each l (λ x, on_kv (c x)) f = on_kv (for_each l c) f.
Proof.
  revert f. induction l as [|x l IH]; intros f; simpl.
  - unfold on_kv, ret. by destruct f.
  - unfold bind. unfold on_kv at 1. destruct (c x (the_kv f)) eqn:E; [|unfold on_kv; by rewrite E..].
    rewrite IH. unfold on_kv. simpl. by rewrite E.
Qed.

Lemma dget_filled f kvs key : filled f kvs → dget key f = Ret (value_of key kvs) f.
Proof.
  intros [Hr Hok Hnd]. unfold KvDriver.dget. rewrite (on_kv_Ret _ f (value_of key kvs) (the_kv f)); [by destruct f|].
  by eapply get_ok.
Qed.

(** Puts of new keys. *)
Lemma dputs_filled persist rest f kvs :
  filled f kvs → NoDup (kvs ++ rest).*1 → Forall (λ kv, List.length kv.1 ≤ 23)%nat rest →
  Z.of_nat (List.length kvs + List.length rest) < 2 ^ 59 →
  ∃ s, for_each rest (λ kv, dput kv.1 kv.2 persist) f
       = Ret tt (mkFile true s (startTracking f) (msyncs f))
    ∧ kv_ok hash N s (kvs ++ rest)
    ∧ syncs s = (syncs (the_kv f) + if persist then List.length rest else 0)%nat.
Proof.
  intros [Hr Hok Hnd] Hnd' Hsh Hlen. unfold KvDriver.dput. rewrite for_each_on_kv.
  destruct (put_all_ok cfresh craw bfresh braw vfresh vraw hash N junk cp Hb Hv HN Hjunk persist rest
    (the_kv f) kvs Hok Hnd' Hsh Hlen) as (s & E & Hok' & Hy).
  exists s. rewrite <-Hr. split_and!; [|done..]. by apply on_kv_Ret.
Qed.

(** A run on a file without a root comes to its command with an empty store. *)
Lemma main_new_file argv f :
  (3 ≤ List.length argv)%nat → opens (default ""%string (argv !! 1%nat)) = true →
  has_root f = false → constructs false = true →
  ∃ s, main argv f = dispatch argv (mkFile true s (startTracking f) (msyncs f))
    ∧ filled (mkFile true s (startTracking f) (msyncs f)) [].
Proof.
  intros H3 Ho Hr Hc. unfold KvDriver.main. rewrite (proj2 (Nat.ltb_ge _ _)) by lia. rewrite Ho. cbn [negb].
  unfold bind at 1, allocate_root. rewrite Hr, Hc.
  assert (∃ s, kv_init bfresh braw vfresh vraw N (new_root N (the_kv f)) = Ret tt s ∧ kv_ok hash N s []) as (s & E & Hok).
  { eapply kv_init_ok; try done. simpl. apply length_replicate. }
  exists s. split; [|split; [done|done|constructor]]. unfold bind, on_kv. cbn [the_kv]. by rewrite E.
Qed.

(** A run on a file that has a root ends before its command. *)
Lemma main_old_file argv f :
  (3 ≤ List.length argv)%nat → has_root f = true → constructs true = false →
  main argv f = Ret (exception []) f.
Proof.
  intros H3 Hr Hc. unfold KvDriver.main. rewrite (proj2 (Nat.ltb_ge _ _)) by lia.
  destruct (opens _); [|done]. cbn [negb]. unfold bind, allocate_root. by rewrite Hr, Hc.
Qed.

(** The commands that only read. *)
Lemma get_runs_silent prog path key f :
  (∀ b, constructs b = negb b) → ∃ f', main [prog; path; "get"%string; key] f = Ret (exception []) f'.
Proof.
  intros Hc. destruct (opens path) eqn:Ho; [|exists f; unfold KvDriver.main; simpl; by rewrite Ho].
  destruct (has_root f) eqn:Hr; [exists f; apply main_old_file; simpl; [lia|done|apply Hc]|].
  destruct (main_new_file [prog; path; "get"%string; key] f) as (s & E & Hf); [simpl; lia|done|done|apply Hc|].
  rewrite E. unfold KvDriver.dispatch. simpl. unfold do_get. eexists.
  erewrite bind_eq; [|by apply dget_filled]. done.
Qed.

Lemma burst_get_runs_silent prog path m f :
  (∀ b, constructs b = negb b) → 0 < m < 2 ^ 31 →
  ∃ f', main [prog; path; "burst"%string; "get"%string; to_string m] f = Ret (exception []) f'.
Proof.
  intros Hc Hm. destruct (opens path) eqn:Ho; [|exists f; unfold KvDriver.main; simpl; by rewrite Ho].
  destruct (has_root f) eqn:Hr; [exists f; apply main_old_file; simpl; [lia|done|apply Hc]|].
  destruct (main_new_file [prog; path; "burst"%string; "get"%string; to_string m] f) as (s & E & Hf);
    [simpl; lia|done|done|apply Hc|].
  rewrite E. unfold KvDriver.dispatch. simpl. unfold burst_get. rewrite stoi_to_string by lia.
  rewrite seqZ_cons by lia. cbn [get_loop]. eexists. erewrite bind_eq; [|by apply dget_filled]. done.
Qed.

Lemma burst_put_run prog path m f :
  constructs false = true → opens path = true → has_root f = false → 0 ≤ m < 2 ^ 31 →
  ∃ f', main [prog; path; "burst"%string; "put"%string; to_string m] f = Ret (ok []) f'
    ∧ filled f' (burst_kvs m).
Proof.
  intros Hc Ho Hr Hm. destruct (burst_kvs_ok m Hm) as (Hnd & Hsh & Hlen).
  destruct (main_new_file [prog; path; "burst"%string; "put"%string; to_string m] f) as (s & E & Hf);
    [simpl; lia|done..|].
  destruct (dputs_filled true (burst_kvs m) _ [] Hf Hnd Hsh) as (s' & E' & Hok & _); [simpl; lia|].
  rewrite E. unfold KvDriver.dispatch. simpl. unfold burst_put. rewrite stoi_to_string by lia.
  unfold burst_kvs in E'. rewrite for_each_fmap in E'. eexists.
  split; [by erewrite bind_eq by exact E'|]. by split.
Qed.

(** *** Workloads *)

(** What a run trace answers on a store with the bindings [kvs]: the reads and the
    writes, or [None] for the exit at a read of an unknown key; and the bindings it
    leaves.  An update must be of a new key. *)
Fixpoint trace_answer (kvs : list (list Z * Z)) (ops : list (str * list Z)) (reads writes : Z)
    : option (Z * Z) * list (list Z * Z) :=
  match ops with
  | [] => (Some (reads, writes), kvs)
  | (op, key) :: ops =>
      if String.eqb op "Update" then trace_answer (kvs ++ [(key, ycsb_value)]) ops reads (writes + 1)
      else if String.eqb op "Read" then
        if decide (key ∈ kvs.*1) then trace_answer kvs ops (reads + 1) writes else (None, kvs)
      else trace_answer kvs ops reads writes
  end.

(** The keys of the updates. *)
Definition new_keys (ops : list (str * list Z)) : list (list Z) :=
  (filter (λ o, o.1 = "Update"%string) ops).*2.

Lemma value_of_known key kvs : key ∈ kvs.*1 → NoDup kvs.*1 → is_Some (value_of key kvs).
Proof.
  intros Hin Hnd. apply list_elem_of_fmap in Hin as ([k v] & -> & Hin). apply list_elem_of_lookup in Hin as [n Hn].
  exists v. by apply (value_of_lookup k kvs n).
Qed.

Lemma dput_new f kvs key val persist :
  filled f kvs → key ∉ kvs.*1 → (List.length key ≤ 23)%nat → Z.of_nat (List.length kvs + 1) < 2 ^ 59 →
  ∃ f', dput key val persist f = Ret tt f' ∧ filled f' (kvs ++ [(key, val)])
    ∧ startTracking f' = startTracking f ∧ msyncs f' = msyncs f.
Proof.
  intros Hf Hn Hk Hl. pose proof Hf as [Hr Hok Hnd].
  assert (NoDup (kvs ++ [(key, val)]).*1) as Hnd'.
  { rewrite fmap_app. apply NoDup_app. split_and!; [done| |apply NoDup_singleton]. intros x Hx. set_solver. }
  destruct (dputs_filled persist [(key, val)] f kvs Hf Hnd') as (s & E & Hok' & _); [constructor; [done|constructor]|simpl; lia|].
  cbn [for_each fst snd] in E. apply bind_Ret in E as ([] & f' & E & [= ->]). eexists. split; [exact E|]. by split.
Qed.

Lemma run_trace_spec ops : ∀ f kvs reads writes res,
  filled f kvs → NoDup (kvs.*1 ++ new_keys ops) → Forall (λ k, List.length k ≤ 23)%nat (new_keys ops) →
  Z.of_nat (List.length kvs + List.length ops) < 2 ^ 59 →
  0 ≤ reads → 0 ≤ writes → Z.max reads writes + Z.of_nat (List.length ops) < 2 ^ 64 →
  ∃ f' x, run_trace ops reads writes res f
          = match (trace_answer kvs ops reads writes).1 with
            | Some (r, w) => Ret (r, w, x) f'
            | None => Exit 1 f'
            end
    ∧ filled f' (trace_answer kvs ops reads writes).2
    ∧ startTracking f' = startTracking f ∧ msyncs f' = msyncs f.
Proof.
  induction ops as [|[op key] ops IH]; intros f kvs reads writes res Hf Hnd Hsh Hlen Hr Hw Hmax.
  { by exists f, res. }
  cbn [KvDriver.run_trace trace_answer]. cbn [List.length] in Hlen, Hmax. unfold new_keys in Hnd, Hsh.
  destruct (String.eqb_spec op "Update") as [->|Hnu].
  - rewrite filter_cons_True in Hnd, Hsh by done. cbn [fmap list_fmap snd] in Hnd, Hsh.
    apply Forall_cons in Hsh as [Hk Hsh].
    assert (key ∉ kvs.*1) as Hnew.
    { apply NoDup_app in Hnd as (_ & Hd & _). intros Hin. apply (Hd key Hin). set_solver. }
    destruct (dput_new f kvs key ycsb_value true Hf Hnew Hk ltac:(lia)) as (f1 & E & Hf1 & Ht & Hm).
    erewrite bind_eq; [|exact E]. rewrite wrap_small by lia.
    destruct (IH f1 (kvs ++ [(key, ycsb_value)]) reads (writes + 1) res Hf1) as (f' & x & E' & Hf' & Ht' & Hm');
      [|done|rewrite length_app; simpl; lia|lia|lia|lia|].
    { rewrite fmap_app, <-app_assoc. exact Hnd. }
    exists f', x. split_and!; try done; congruence.
  - rewrite filter_cons_False in Hnd, Hsh by done.
    destruct (String.eqb_spec op "Read") as [->|Hnr]; [|by apply IH; try lia].
    erewrite bind_eq; [|by apply dget_filled]. destruct (decide (key ∈ kvs.*1)) as [Hin|Hin].
    + destruct (value_of_known key kvs Hin (fi_keys _ _ Hf)) as [v ->]. rewrite wrap_small by lia. apply IH; try done; lia.
    + rewrite value_of_none by done. by exists f, 0.
Qed.

(** The bindings after the load trace. *)
Definition loaded (ls : list str) : list (list Z * Z) :=
  ((λ l, (line_key l, ycsb_value)) <$> ls) ++ [(chars "a", 0)].
Definition trace_ops (ls : list str) : list (str * list Z) := (λ l, (line_op l, line_key l)) <$> ls.

Lemma ycsb_run prog path load run_ ls rs f :
  constructs false = true → opens path = true → has_root f = false →
  lines load = Some ls → lines run_ = Some rs →
  NoDup ((loaded ls).*1 ++ new_keys (trace_ops rs)) →
  Forall (λ k, List.length k ≤ 23)%nat ((loaded ls).*1 ++ new_keys (trace_ops rs)) →
  Z.of_nat (List.length ls + List.length rs) < 2 ^ 58 →
  let answer := trace_answer (loaded ls) (trace_ops rs) 0 0 in
  ∃ f', main [prog; path; "ycsb"%string; load; run_] f
        = match answer.1 with Some (r, w) => Ret (ok [r; w]) f' | None => Exit 1 f' end
    ∧ filled f' answer.2 ∧ startTracking f' = true ∧ msyncs f' = msyncs f ++ [1024].
Proof.
  intros Hc Ho Hr El Er Hnd Hsh Hlen answer.
  destruct (main_new_file [prog; path; "ycsb"%string; load; run_] f) as (s & E & Hf); [simpl; lia|done..|].
  rewrite E. unfold KvDriver.dispatch. simpl. unfold ycsb. rewrite El, Er. cbn [default]. unfold id.
  pose proof Hnd as (HndL & _ & _)%NoDup_app. apply Forall_app in Hsh as [HshL HshN].
  unfold loaded in HndL, HshL. rewrite fmap_app in HndL, HshL.
  set (lk := (λ l, (line_key l, ycsb_value)) <$> ls) in *.
  apply Forall_app in HshL as [HshL Hsha]. apply Forall_cons in Hsha as [Hsha _].
  apply NoDup_app in HndL as (HndL & Hda & _).
  assert (List.length lk = List.length ls) as Ek by (unfold lk; apply length_fmap).
  destruct (dputs_filled false lk _ [] Hf HndL) as (s1 & E1 & Hok1 & _); [by apply Forall_fmap in HshL|simpl; lia|].
  unfold lk in E1. rewrite for_each_fmap in E1. erewrite bind_eq; [|rewrite for_each_fmap; exact E1].
  destruct (dput_new (mkFile true s1 (startTracking f) (msyncs f)) lk (chars "a") 0 true) as (f2 & E2 & Hf2 & Ht2 & Hm2);
    [by split|intros Hin; apply (Hda _ Hin); set_solver|done|lia|].
  erewrite bind_eq; [|exact E2]. unfold bind at 1 2, modify.
  destruct (run_trace_spec (trace_ops rs)
    (mkFile (has_root f2) (the_kv f2) true (msyncs f2 ++ [1024])) (loaded ls) 0 0 0) as (f' & x & E' & Hf' & Ht' & Hm').
  { destruct Hf2 as [A B C]. by split. }
  { done. }
  { done. }
  { unfold trace_ops, loaded. rewrite length_app, !length_fmap. simpl. lia. }
  { lia. }
  { lia. }
  { unfold trace_ops. rewrite length_fmap. lia. }
  exists f'. split_and!; [|done|done|by rewrite Hm'; simpl; rewrite Hm2].
  unfold bind. cbn [has_root the_kv startTracking msyncs]. fold (trace_ops rs). rewrite E'. fold answer.
  by destruct answer.1 as [[r w]|].
Qed.
End Runs.

(** ** Properties *)

(** C39: A YCSB workload on a new file: the load trace puts its keys with one value,
    the run trace reads keys and updates keys that are new; main prints the numbers
    of reads and writes, or leaves with status 1 at the first read of a key that is
    not there, and the store then returns for every key what was put.  Tracking is
    on from the end of the load trace. *)
Theorem workload_answers cfresh craw bfresh braw vfresh vraw hash N junk cp opens constructs lines
    prog path load run_ ls rs f :
  fresh_blocks bfresh braw → fresh_blocks vfresh vraw → (0 < N)%nat → List.length (tail (first junk)) = 24%nat →
  constructs false = true → opens path = true → has_root f = false →
  lines load = Some ls → lines run_ = Some rs →
  NoDup ((loaded ls).*1 ++ new_keys (trace_ops rs)) →
  Forall (λ k, List.length k ≤ 23)%nat ((loaded ls).*1 ++ new_keys (trace_ops rs)) →
  Z.of_nat (List.length ls + List.length rs) < 2 ^ 58 →
  let answer := trace_answer (loaded ls) (trace_ops rs) 0 0 in
  ∃ f', main cfresh craw bfresh braw vfresh vraw hash N junk cp opens constructs lines
          [prog; path; "ycsb"%string; load; run_] f
        = match answer.1 with Some (r, w) => Ret (ok [r; w]) f' | None => Exit 1 f' end
    ∧ (∀ key, kv_get hash N key (the_kv f') = Ret (value_of key answer.2) (the_kv f'))
    ∧ startTracking f' = true.
Proof.
  intros Hb Hv HN Hj Hc Ho Hr El Er Hnd Hsh Hlen answer.
  assert (∃ f', main cfresh craw bfresh braw vfresh vraw hash N junk cp opens constructs lines
        [prog; path; "ycsb"%string; load; run_] f
      = match answer.1 with Some (r, w) => Ret (ok [r; w]) f' | None => Exit 1 f' end
    ∧ filled hash N f' answer.2 ∧ startTracking f' = true ∧ msyncs f' = msyncs f ++ [1024])
    as (f' & E & [_ Hok Hk] & Ht & _) by by eapply ycsb_run.
  exists f'. split_and!; try done. intros key. by eapply get_ok.
Qed.

(** The commands that only read never print a value: on a file with a root the
    construction of the root throws, and on a new file the store is empty. *)
Theorem reading_commands_print_nothing cfresh craw bfresh braw vfresh vraw hash N junk cp opens constructs lines
    prog path key m f :
  fresh_blocks bfresh braw → fresh_blocks vfresh vraw → (0 < N)%nat → List.length (tail (first junk)) = 24%nat →
  (∀ b, constructs b = negb b) → 0 < m < 2 ^ 31 →
  let main := main cfresh craw bfresh braw vfresh vraw hash N junk cp opens constructs lines in
  (∃ f', main [prog; path; "get"%string; key] f = Ret (exception []) f')
  ∧ (∃ f', main [prog; path; "burst"%string; "get"%string; to_string m] f = Ret (exception []) f').
Proof. intros. split; [by eapply get_runs_silent|by eapply burst_get_runs_silent]. Qed.

(** A burst of puts on a new file leaves the numbered keys; the next run of the
    program on the file changes nothing, whatever its command. *)
Theorem burst_then_next_run cfresh craw bfresh braw vfresh vraw hash N junk cp opens constructs lines
    prog path m f argv :
  fresh_blocks bfresh braw → fresh_blocks vfresh vraw → (0 < N)%nat → List.length (tail (first junk)) = 24%nat →
  (∀ b, constructs b = negb b) → opens path = true → has_root f = false → 0 ≤ m < 2 ^ 31 →
  (3 ≤ List.length argv)%nat →
  let main := main cfresh craw bfresh braw vfresh vraw hash N junk cp opens constructs lines in
  ∃ f', main [prog; path; "burst"%string; "put"%string; to_string m] f = Ret (ok []) f'
    ∧ (∀ key, kv_get hash N key (the_kv f') = Ret (value_of key (burst_kvs m)) (the_kv f'))
    ∧ main argv f' = Ret (exception []) f'.
Proof.
  intros Hb Hv HN Hj Hc Ho Hr Hm Ha.
  assert (∃ f', main cfresh craw bfresh braw vfresh vraw hash N junk cp opens constructs lines
      [prog; path; "burst"%string; "put"%string; to_string m] f = Ret (ok []) f'
    ∧ filled hash N f' (burst_kvs m)) as (f' & E & [Hr' Hok Hk]) by (eapply burst_put_run; try done; apply Hc).
  exists f'. split_and!; [done|intros key; by eapply get_ok|]. by eapply main_old_file.
Qed.

(** ** A concrete program *)

Module DemoKvMain.
Import DemoVec DemoString DemoKv.

Definition constructs : bool → bool := negb.
Definition opens (path : str) : bool := true.
Definition lines (path : str) : option (list str) :=
  if String.eqb path "load" then Some ["Insert u1"; "Insert u2"]%string
  else if String.eqb path "run" then Some ["Read u1"; "Update u3"; "Scan u9"; "Read u3"; "Read a"]%string
  else if String.eqb path "again" then Some ["Update u1"]%string
  else None.
Definition kv_main (argv : list str) : cmd kv_file run :=
  main fresh raw efresh eraw fresh raw hash 2 junk no_copy opens constructs lines argv.
Definition new_file : kv_file := mkFile false start false [].

Lemma workload_answers_witness :
  ∃ f', kv_main ["simplekv"; "/mnt/pmem0/kv"; "ycsb"; "load"; "run"]%string new_file = Ret (ok [3; 1]) f'
    ∧ (∀ key, kv_get hash 2 key (the_kv f')
         = Ret (value_of key [(chars "u1", 4455); (chars "u2", 4455); (chars "a", 0); (chars "u3", 4455)]) (the_kv f'))
    ∧ startTracking f' = true.
Proof.
  apply (workload_answers fresh raw efresh eraw fresh raw hash 2 junk no_copy opens constructs lines
    "simplekv"%string "/mnt/pmem0/kv"%string "load"%string "run"%string
    ["Insert u1"; "Insert u2"]%string ["Read u1"; "Update u3"; "Scan u9"; "Read u3"; "Read a"]%string new_file
    elem_blocks demo_blocks); try reflexivity; [lia| |].
  - apply (bool_decide_unpack _). vm_compute. exact I.
  - repeat (constructor; [vm_compute; lia|]). constructor.
Defined.

(** An update of a key that was loaded stores its index at place 4455 of the values,
    which a small store does not have. *)
Theorem update_of_loaded_key :
  match kv_main ["simplekv"; "/mnt/pmem0/kv"; "ycsb"; "load"; "again"]%string new_file with
  | Trap _ => true | _ => false end = true.
Proof. vm_compute. reflexivity. Qed.

Lemma reading_commands_print_nothing_witness :
  (∃ f', kv_main ["simplekv"; "/mnt/pmem0/kv"; "get"; "u1"]%string new_file = Ret (exception []) f')
  ∧ (∃ f', kv_main ["simplekv"; "/mnt/pmem0/kv"; "burst"; "get"; to_string 5]%string new_file
           = Ret (exception []) f').
Proof.
  apply (reading_commands_print_nothing fresh raw efresh eraw fresh raw hash 2 junk no_copy opens constructs lines
    "simplekv"%string "/mnt/pmem0/kv"%string "u1"%string 5 new_file elem_blocks demo_blocks);
    [lia|reflexivity|reflexivity|lia].
Defined.

(** [burst] with no further argument reads [argv[3]], which is null. *)
Theorem burst_alone_traps :
  match kv_main ["simplekv"; "/mnt/pmem0/kv"; "burst"]%string new_file with
  | Trap _ => true | _ => false end = true.
Proof. vm_compute. reflexivity. Qed.
End DemoKvMain.
