(* ===== verification/Vram.v ===== *)
(** * Video memory (libvram/libvram.cc)

    libvram picks a Vulkan device, and gives out host-visible buffers of its
    memory.  Vulkan is a parameter (class [Vulkan]); what the code relies on are
    the laws [VulkanLaws], over an abstract view of the objects of the device: its
    buffers, its memory objects and their host mappings.  An exception is a value
    of the result.  The build flag [release] removes the assertions.

    The theorems: start-up picks the first suitable device or throws one of four
    messages, and never anything else; the buffers of malloc never overlap, so
    that malloc is an arena for libvramfs ([CxlFs]); cleanup releases what malloc
    has recorded, and a malloc that throws leaves objects nobody records. *)

From stdpp Require Import base list gmap strings.
From Stdlib Require Import ZArith Lia.
From S2P Require Import Prelude Text CxlFs.

(** ** Exceptions as values *)

Definition throw {S A} (what : string) : cmd S (string + A) := ret (inl what).
Definition try {S A B} (c : cmd S (string + A)) (k : A → cmd S (string + B)) : cmd S (string + B) :=
  bind c (λ r, match r with inl what => ret (inl what) | inr a => k a end).
Notation "'try!' x ':=' c 'in' k" := (try c (λ x, k))
  (at level 10, x pattern, c at level 200, k at level 200) : cmd_scope.

(** ** Vulkan *)

Definition VK_SUCCESS : Z := 0.
Definition VK_NULL_HANDLE : Z := 0.
Definition VK_QUEUE_GRAPHICS_BIT : Z := 1.
Definition VK_MEMORY_PROPERTY_DEVICE_LOCAL_BIT : Z := 1.
Definition VK_MEMORY_PROPERTY_HOST_VISIBLE_BIT : Z := 2.
Definition VK_MEMORY_PROPERTY_HOST_COHERENT_BIT : Z := 4.
Definition VK_BUFFER_USAGE_STORAGE_BUFFER_BIT : Z := 0x20.
Definition VK_KHR_SWAPCHAIN_EXTENSION_NAME : string := "VK_KHR_swapchain".

(** The fields of [VkMemoryRequirements] the code reads. *)
Record VkMemoryRequirements := mkReq { req_size : Z; memoryTypeBits : Z }.

(** The calls of the loader, on its state [V].  A call that creates an object
    returns a result code and what it has stored in the handle. *)
Class Vulkan (V : Type) := {
  vkCreateInstance : V → Z * Z * V;
  vkEnumeratePhysicalDevices : V → Z → list Z;
  vkGetPhysicalDeviceQueueFamilyProperties : V → Z → list Z;      (* queueFlags *)
  vkEnumerateDeviceExtensionProperties : V → Z → list string;     (* extensionName *)
  vkGetPhysicalDeviceMemoryProperties : V → Z → list Z;           (* propertyFlags *)
  vkCreateDevice : V → Z → list Z → list string → Z * Z * V;      (* queue families, extensions *)
  vkGetDeviceQueue : V → Z → Z → Z → Z;
  vkCreateBuffer : V → Z → Z → Z → Z * Z * V;                     (* size, usage *)
  vkGetBufferMemoryRequirements : V → Z → Z → VkMemoryRequirements;
  vkAllocateMemory : V → Z → Z → Z → Z * Z * V;                   (* size, type *)
  vkBindBufferMemory : V → Z → Z → Z → Z → V;
  vkMapMemory : V → Z → Z → Z → Z → Z * Z * V;                    (* memory, offset, size *)
  vkDestroyBuffer : V → Z → Z → V;
  vkFreeMemory : V → Z → Z → V;
  vkDestroyDevice : V → Z → V;
  vkDestroyInstance : V → Z → V;
}.

Definition getVulkanResultString (result : Z) : string :=
  match result with
  | 0 => "VK_SUCCESS"
  | 1 => "VK_NOT_READY"
  | 2 => "VK_TIMEOUT"
  | 3 => "VK_EVENT_SET"
  | 4 => "VK_EVENT_RESET"
  | 5 => "VK_INCOMPLETE"
  | -1 => "VK_ERROR_OUT_OF_HOST_MEMORY"
  | -2 => "VK_ERROR_OUT_OF_DEVICE_MEMORY"
  | -3 => "VK_ERROR_INITIALIZATION_FAILED"
  | -4 => "VK_ERROR_DEVICE_LOST"
  | -5 => "VK_ERROR_MEMORY_MAP_FAILED"
  | -6 => "VK_ERROR_LAYER_NOT_PRESENT"
  | -7 => "VK_ERROR_EXTENSION_NOT_PRESENT"
  | -8 => "VK_ERROR_FEATURE_NOT_PRESENT"
  | -9 => "VK_ERROR_INCOMPATIBLE_DRIVER"
  | -10 => "VK_ERROR_TOO_MANY_OBJECTS"
  | -11 => "VK_ERROR_FORMAT_NOT_SUPPORTED"
  | -12 => "VK_ERROR_FRAGMENTED_POOL"
  | -1000000000 => "VK_ERROR_SURFACE_LOST_KHR"
  | -1000000001 => "VK_ERROR_NATIVE_WINDOW_IN_USE_KHR"
  | 1000001003 => "VK_SUBOPTIMAL_KHR"
  | -1000001004 => "VK_ERROR_OUT_OF_DATE_KHR"
  | -1000003001 => "VK_ERROR_INCOMPATIBLE_DISPLAY_KHR"
  | -1000011001 => "VK_ERROR_VALIDATION_FAILED_EXT"
  | -1000069000 => "VK_ERROR_OUT_OF_POOL_MEMORY_KHR"
  | -1000012000 => "VK_ERROR_INVALID_SHADER_NV"
  | _ => if result <? 0 then "VK_ERROR_<Unknown>" else "VK_<Unknown>"
  end.

(** ** The wrapper *)

Definition deviceExtensions : list string := [VK_KHR_SWAPCHAIN_EXTENSION_NAME].

Definition QueueFamilyIndices : Type := option Z. (* graphicsFamily *)
Definition isComplete (i : QueueFamilyIndices) : bool := bool_decide (is_Some i).

Record VRamWrapper := mkVRam {
  instance : Z;
  physicalDevice : Z;
  device : Z;
  graphicsQueue : Z;
  buffers : list Z;
  bufferMemories : list Z;
}.
(** [new VRamWrapper()] *)
Definition new_VRamWrapper : VRamWrapper := mkVRam 0 VK_NULL_HANDLE 0 0 [] [].

(** The object and Vulkan. *)
Record vr (V : Type) := mkVr { wr : VRamWrapper; vk : V }.
Arguments mkVr {V}.
Arguments wr {V}.
Arguments vk {V}.

Section Wrapper.
Context {V : Type} `{!Vulkan V} (release : bool).

(** [assert] of <cassert> *)
Definition c_assert {S} (b : bool) : cmd S unit := if release then ret tt else nvsl_assert b.

Definition set_wr (f : VRamWrapper → VRamWrapper) : cmd (vr V) unit :=
  modify (λ s, mkVr (f (wr s)) (vk s)).
Definition on_vk {A} (f : VRamWrapper → V → A * V) : cmd (vr V) A := λ s,
  let '(a, v) := f (wr s) (vk s) in Ret a (mkVr (wr s) v).
Definition vk_do (f : VRamWrapper → V → V) : cmd (vr V) unit :=
  modify (λ s, mkVr (wr s) (f (wr s) (vk s))).
Definition query {A} (f : VRamWrapper → V → A) : cmd (vr V) A := λ s, Ret (f (wr s) (vk s)) s.

(** The loop stops at the first family with the bit. *)
Fixpoint first_graphics (i : Z) (families : list Z) : QueueFamilyIndices :=
  match families with
  | [] => None
  | queueFlags :: families =>
      let indices : QueueFamilyIndices :=
        if negb (Z.land queueFlags VK_QUEUE_GRAPHICS_BIT =? 0) then Some i else None in
      if isComplete indices then indices else first_graphics (i + 1) families
  end.

Definition findQueueFamilies (v : V) (dev : Z) : QueueFamilyIndices :=
  first_graphics 0 (vkGetPhysicalDeviceQueueFamilyProperties v dev).

Definition checkDeviceExtensionSupport (v : V) (dev : Z) : bool :=
  let availableExtensions := vkEnumerateDeviceExtensionProperties v dev in
  let requiredExtensions : gset string := list_to_set deviceExtensions in
  bool_decide (foldl (λ (req : gset string) extension, req ∖ {[ extension ]})
                 requiredExtensions availableExtensions = ∅).

Definition isDeviceSuitable (v : V) (dev : Z) : bool :=
  let indices := findQueueFamilies v dev in
  let extensionsSupported := checkDeviceExtensionSupport v dev in
  isComplete indices && extensionsSupported.

Definition createInstance : cmd (vr V) (string + unit) :=
  let! (res, inst) := on_vk (λ _ v, vkCreateInstance v) in
  do! set_wr (λ w, mkVRam inst (physicalDevice w) (device w) (graphicsQueue w) (buffers w) (bufferMemories w)) in
  if negb (res =? VK_SUCCESS) then throw "failed to create instance!" else ret (inr tt).

Definition set_physical (dev : Z) (w : VRamWrapper) : VRamWrapper :=
  mkVRam (instance w) dev (device w) (graphicsQueue w) (buffers w) (bufferMemories w).

Definition pickPhysicalDevice : cmd (vr V) (string + unit) :=
  let! devices := query (λ w v, vkEnumeratePhysicalDevices v (instance w)) in
  if Z.of_nat (length devices) =? 0 then throw "failed to find GPUs with Vulkan support!"
  else
    let! suitable := query (λ _ v, List.find (isDeviceSuitable v) devices) in
    do! match suitable with Some dev => set_wr (set_physical dev) | None => ret tt end in
    let! w := query (λ w _, w) in
    if physicalDevice w =? VK_NULL_HANDLE then throw "failed to find a suitable GPU!" else ret (inr tt).

(** [std::optional::value] *)
Definition value {S} (i : QueueFamilyIndices) : cmd S (string + Z) :=
  match i with Some x => ret (inr x) | None => throw "bad optional access" end.

Definition set_device (dev : Z) (w : VRamWrapper) : VRamWrapper :=
  mkVRam (instance w) (physicalDevice w) dev (graphicsQueue w) (buffers w) (bufferMemories w).
Definition set_queue (q : Z) (w : VRamWrapper) : VRamWrapper :=
  mkVRam (instance w) (physicalDevice w) (device w) q (buffers w) (bufferMemories w).

Definition createLogicalDevice : cmd (vr V) (string + unit) :=
  let! indices := query (λ w v, findQueueFamilies v (physicalDevice w)) in
  try! family := value indices in
  let uniqueQueueFamilies : gset Z := {[ family ]} in
  let queueCreateInfos := elements uniqueQueueFamilies in
  let! (res, dev) := on_vk (λ w v, vkCreateDevice v (physicalDevice w) queueCreateInfos deviceExtensions) in
  do! set_wr (set_device dev) in
  if negb (res =? VK_SUCCESS) then throw "failed to create logical device!"
  else
    try! family := value indices in
    let! q := query (λ w v, vkGetDeviceQueue v (device w) family 0) in
    do! set_wr (set_queue q) in
    ret (inr tt).

Definition initVulkan : cmd (vr V) (string + unit) :=
  try! _ := createInstance in
  try! _ := pickPhysicalDevice in
  createLogicalDevice.

(** [typeFilter & (1 << i)], and the wanted properties among the type's. *)
Definition type_matches (typeFilter properties i flags : Z) : bool :=
  negb (Z.land typeFilter (wrap 32 (Z.shiftl 1 i)) =? 0) && (Z.land flags properties =? properties).

Fixpoint find_type (typeFilter properties i : Z) (types : list Z) : option Z :=
  match types with
  | [] => None
  | flags :: types =>
      if type_matches typeFilter properties i flags then Some i
      else find_type typeFilter properties (i + 1) types
  end.

Definition findMemoryType (typeFilter properties : Z) : cmd (vr V) (string + Z) :=
  let! types := query (λ w v, vkGetPhysicalDeviceMemoryProperties v (physicalDevice w)) in
  match find_type typeFilter properties 0 types with
  | Some i => ret (inr i)
  | None => throw "failed to find suitable memory type!"
  end.

Definition wanted : Z :=
  Z.lor (Z.lor VK_MEMORY_PROPERTY_HOST_VISIBLE_BIT VK_MEMORY_PROPERTY_HOST_COHERENT_BIT)
    VK_MEMORY_PROPERTY_DEVICE_LOCAL_BIT.

Definition add_buffer (buffer bufferMemory : Z) (w : VRamWrapper) : VRamWrapper :=
  mkVRam (instance w) (physicalDevice w) (device w) (graphicsQueue w)
    (buffers w ++ [buffer]) (bufferMemories w ++ [bufferMemory]).

Definition createVertexBuffer (bytes : Z) : cmd (vr V) (string + Z) :=
  let! (res, buffer) := on_vk (λ w v, vkCreateBuffer v (device w) bytes VK_BUFFER_USAGE_STORAGE_BUFFER_BIT) in
  if negb (res =? VK_SUCCESS) then throw "failed to create vertex buffer!"
  else
    let! memRequirements := query (λ w v, vkGetBufferMemoryRequirements v (device w) buffer) in
    do! c_assert (req_size memRequirements =? bytes) in
    try! memoryTypeIndex := findMemoryType (memoryTypeBits memRequirements) wanted in
    let! (res, bufferMemory) :=
      on_vk (λ w v, vkAllocateMemory v (device w) (req_size memRequirements) memoryTypeIndex) in
    if negb (res =? VK_SUCCESS) then
      throw ("failed to allocate vertex buffer memory" +:+ " of size " +:+ to_string (bytes / (1024 * 1024))
             +:+ " MiB: " +:+ getVulkanResultString res)
    else
      do! vk_do (λ w v, vkBindBufferMemory v (device w) buffer bufferMemory 0) in
      let! (res, data) := on_vk (λ w v, vkMapMemory v (device w) bufferMemory 0 bytes) in
      if negb (res =? VK_SUCCESS) then throw "Map failed"
      else
        do! set_wr (add_buffer buffer bufferMemory) in
        ret (inr data).

Definition VRamWrapper_malloc (bytes : Z) : cmd (vr V) (string + Z) := createVertexBuffer bytes.
Definition VRamWrapper_free (buf : Z) : cmd (vr V) unit := c_assert false.
Definition init : cmd (vr V) (string + unit) := initVulkan.

Definition cleanup : cmd (vr V) unit :=
  let! w := query (λ w _, w) in
  do! for_each (buffers w) (λ buf, vk_do (λ w v, vkDestroyBuffer v (device w) buf)) in
  do! for_each (bufferMemories w) (λ mem, vk_do (λ w v, vkFreeMemory v (device w) mem)) in
  do! vk_do (λ w v, vkDestroyDevice v (device w)) in
  vk_do (λ w v, vkDestroyInstance v (instance w)).

(** ** The library: the global object, null before the constructor *)

Record lib := mkLib { vrw_obj : option VRamWrapper; lib_vk : V }.

(** A call through the pointer. *)
Definition on_obj {A} (c : cmd (vr V) A) : cmd lib A := λ s,
  match vrw_obj s with
  | None => Trap s
  | Some w =>
      let back (s' : vr V) := mkLib (Some (wr s')) (vk s') in
      match c (mkVr w (lib_vk s)) with
      | Ret a s' => Ret a (back s')
      | Exit code s' => Exit code (back s')
      | Trap s' => Trap (back s')
      end
  end.

Definition ctor_libvram : cmd lib (string + unit) :=
  do! modify (λ s, mkLib (Some new_VRamWrapper) (lib_vk s)) in
  on_obj init.
Definition libvram_malloc (bytes : Z) : cmd lib (string + Z) := on_obj (VRamWrapper_malloc bytes).
Definition libvram_free (ptr : Z) : cmd lib unit := on_obj (VRamWrapper_free ptr).

(** Inside libvramfs nobody catches the exception. *)
Definition malloc_or_terminate (bytes : Z) : cmd lib Z :=
  let! r := libvram_malloc bytes in
  match r with inr p => ret p | inl _ => trap end.
End Wrapper.

(** ** The objects of Vulkan *)

(** Buffers; memory objects with their size and the properties of their type; the
    host mapping of a memory object, address and size; the physical device of a
    logical one. *)
Record view := mkView {
  v_bufs : gset Z;
  v_mems : gmap Z (Z * Z);
  v_maps : gmap Z (Z * Z);
  v_phys : gmap Z Z;
}.

Definition with_bufs (bs : gset Z) (x : view) : view := mkView bs (v_mems x) (v_maps x) (v_phys x).
Definition with_mem (m : Z) (d : Z * Z) (x : view) : view :=
  mkView (v_bufs x) (<[m := d]> (v_mems x)) (v_maps x) (v_phys x).
Definition with_map (m : Z) (r : Z * Z) (x : view) : view :=
  mkView (v_bufs x) (v_mems x) (<[m := r]> (v_maps x)) (v_phys x).
Definition with_device (d p : Z) (x : view) : view :=
  mkView (v_bufs x) (v_mems x) (v_maps x) (<[d := p]> (v_phys x)).
Definition without_mem (m : Z) (x : view) : view :=
  mkView (v_bufs x) (delete m (v_mems x)) (delete m (v_maps x)) (v_phys x).
Definition no_objects (x : view) : Prop := v_bufs x = ∅ ∧ v_mems x = ∅.

(** What the documentation of Vulkan promises of each call, where its conditions
    of use hold.  Any call may fail. *)
Class VulkanLaws {V : Type} `{!Vulkan V} (look : V → view) : Prop := {
  law_instance v r h v' : vkCreateInstance v = (r, h, v') → look v' = look v;
  law_device v p qs es r d v' : vkCreateDevice v p qs es = (r, d, v') →
    look v' = if r =? 0 then with_device d p (look v) else look v;
  law_buffer v d n u r b v' : vkCreateBuffer v d n u = (r, b, v') →
    if r =? 0 then b ∉ v_bufs (look v) ∧ look v' = with_bufs ({[ b ]} ∪ v_bufs (look v)) (look v)
              ∧ n ≤ req_size (vkGetBufferMemoryRequirements v' d b)
    else look v' = look v;
  law_alloc v d p n ty fl r m v' :
    v_phys (look v) !! d = Some p → vkGetPhysicalDeviceMemoryProperties v p !! Z.to_nat ty = Some fl → 0 ≤ ty →
    vkAllocateMemory v d n ty = (r, m, v') →
    if r =? 0 then v_mems (look v) !! m = None ∧ v_maps (look v) !! m = None
              ∧ look v' = with_mem m (n, fl) (look v)
    else look v' = look v;
  law_bind v d b m off : look (vkBindBufferMemory v d b m off) = look v;
  (** a mapping lies in the object, which is host-visible and not mapped yet; it
      gets addresses that are not in use *)
  law_map v d m off n sz fl r p v' :
    v_mems (look v) !! m = Some (sz, fl) → v_maps (look v) !! m = None →
    0 ≤ off → 0 < n → off + n ≤ sz → Z.testbit fl 1 = true →
    vkMapMemory v d m off n = (r, p, v') →
    if r =? 0 then 0 ≤ p ∧ p + n < 2 ^ 64
              ∧ map_Forall (λ _ rng, apart (p, n) rng) (v_maps (look v))
              ∧ look v' = with_map m (p, n) (look v)
    else look v' = look v;
  law_destroy_buffer v d b :
    look (vkDestroyBuffer v d b) = with_bufs (v_bufs (look v) ∖ {[ b ]}) (look v);
  law_free_memory v d m : look (vkFreeMemory v d m) = without_mem m (look v);
  (** all objects of the device have been destroyed before *)
  law_destroy_device v d : no_objects (look v) → no_objects (look (vkDestroyDevice v d));
  law_destroy_instance v i : no_objects (look v) → no_objects (look (vkDestroyInstance v i));
}.

(** ** Start-up *)

#[local] Arguments isDeviceSuitable : simpl never.

Section Startup.
Context {V : Type} `{!Vulkan V} (release : bool).
Implicit Types (v : V) (s : lib (V := V)).

Definition startup_errors : list string :=
  ["failed to create instance!"; "failed to find GPUs with Vulkan support!";
   "failed to find a suitable GPU!"; "failed to create logical device!"].

(** The graphics family is the first one with the bit. *)
Lemma first_graphics_spec i fs j :
  first_graphics i fs = Some j ↔
  i ≤ j ∧ (∃ fl, fs !! Z.to_nat (j - i) = Some fl ∧ Z.land fl VK_QUEUE_GRAPHICS_BIT ≠ 0)
  ∧ ∀ k fl, i ≤ k < j → fs !! Z.to_nat (k - i) = Some fl → Z.land fl VK_QUEUE_GRAPHICS_BIT = 0.
Proof.
  revert i. induction fs as [|fl fs IH]; intros i; simpl.
  - split; [done|]. by intros (_ & (fl & E & _) & _).
  - destruct (Z.eqb_spec (Z.land fl VK_QUEUE_GRAPHICS_BIT) 0) as [E0|E0]; simpl.
    + rewrite IH. clear IH. split.
      * intros (H1 & (fl' & E & H2) & H3). split_and!; [lia|..].
        { exists fl'. replace (Z.to_nat (j - i)) with (S (Z.to_nat (j - (i + 1)))) by lia. done. }
        intros k fl'' Hk E'. destruct (decide (k = i)) as [->|].
        { rewrite Z.sub_diag in E'. by injection E' as <-. }
        replace (Z.to_nat (k - i)) with (S (Z.to_nat (k - (i + 1)))) in E' by lia.
        apply (H3 k); [lia|done].
      * intros (H1 & (fl' & E & H2) & H3). destruct (decide (j = i)) as [->|].
        { rewrite Z.sub_diag in E. by injection E as <-. }
        replace (Z.to_nat (j - i)) with (S (Z.to_nat (j - (i + 1)))) in E by lia.
        split_and!; [lia|by exists fl'|]. intros k fl'' Hk E'. apply (H3 k); [lia|].
        by replace (Z.to_nat (k - i)) with (S (Z.to_nat (k - (i + 1)))) by lia.
    + clear IH. split.
      * intros [= <-]. split_and!; [lia|exists fl; by rewrite Z.sub_diag|lia].
      * intros (H1 & _ & H3). f_equal. destruct (decide (i = j)) as [|]; [done|].
        exfalso. apply E0. apply (H3 i fl); [lia|by rewrite Z.sub_diag].
Qed.

Lemma foldl_difference (req : gset string) (exts : list string) :
  foldl (λ (req : gset string) e, req ∖ {[ e ]}) req exts = req ∖ list_to_set exts.
Proof.
  revert req. induction exts as [|e exts IH]; intros req; simpl; [set_solver|].
  rewrite IH. set_solver.
Qed.

(** A device is suitable when it has a graphics family and the one extension. *)
Lemma isDeviceSuitable_spec v dev :
  isDeviceSuitable v dev = true ↔
  Exists (λ fl, Z.land fl VK_QUEUE_GRAPHICS_BIT ≠ 0) (vkGetPhysicalDeviceQueueFamilyProperties v dev)
  ∧ VK_KHR_SWAPCHAIN_EXTENSION_NAME ∈ vkEnumerateDeviceExtensionProperties v dev.
Proof.
  unfold isDeviceSuitable, isComplete, checkDeviceExtensionSupport. rewrite foldl_difference.
  rewrite andb_true_iff, !bool_decide_eq_true. f_equiv.
  - unfold findQueueFamilies. rewrite Exists_exists. split.
    + intros [j (_ & (fl & E & Hfl) & _)%first_graphics_spec]. exists fl. split; [|done].
      by eapply list_elem_of_lookup_2.
    + intros (fl & Hin & Hfl). generalize 0. induction (vkGetPhysicalDeviceQueueFamilyProperties v dev)
        as [|x l IH]; intros i; [by apply not_elem_of_nil in Hin|]. simpl.
      destruct (Z.eqb_spec (Z.land x VK_QUEUE_GRAPHICS_BIT) 0); simpl; [|by eexists].
      apply IH. set_solver.
  - unfold deviceExtensions. rewrite <-(elem_of_list_to_set (C := gset string)). simpl.
    set (X := list_to_set _). split.
    + intros E. destruct (decide (VK_KHR_SWAPCHAIN_EXTENSION_NAME ∈ X)); [done|]. exfalso.
      apply (not_elem_of_empty (C := gset string) VK_KHR_SWAPCHAIN_EXTENSION_NAME). rewrite <-E. set_solver.
    + intros H. apply set_eq. set_solver.
Qed.

(** What the two last steps leave: the wrapper at the first suitable device, or an
    exception. *)
Lemma pick_then_create w v :
  physicalDevice w = VK_NULL_HANDLE →
  ∃ r (t : vr V), (try! _ := pickPhysicalDevice in createLogicalDevice) (mkVr w v) = Ret r t
    ∧ match r with
      | inl e => e ∈ startup_errors
      | inr _ =>
          (∃ before after, vkEnumeratePhysicalDevices v (instance w) = before ++ physicalDevice (wr t) :: after
             ∧ Forall (λ dev, isDeviceSuitable v dev = false) before)
          ∧ isDeviceSuitable v (physicalDevice (wr t)) = true
          ∧ (∃ fam, findQueueFamilies v (physicalDevice (wr t)) = Some fam
               ∧ vkCreateDevice v (physicalDevice (wr t)) [fam] deviceExtensions = (0, device (wr t), vk t))
          ∧ buffers (wr t) = buffers w ∧ bufferMemories (wr t) = bufferMemories w
      end.
Proof.
  intros Hw. unfold try, pickPhysicalDevice, bind, query. cbn [wr vk].
  destruct (Z.of_nat (length (vkEnumeratePhysicalDevices v (instance w))) =? 0).
  { eexists (inl _), _. split; [reflexivity|]. set_solver. }
  match goal with |- context [List.find ?f ?l] => destruct (List.find f l) as [dev|] eqn:Ef end; simpl;
    change (vk (mkVr w v)) with v in Ef.
  2:{ rewrite Hw. eexists (inl _), _. split; [reflexivity|]. set_solver. }
  pose proof (List.find_some _ _ Ef) as [_ Hs].
  destruct (Z.eqb_spec dev VK_NULL_HANDLE) as [E|E]; simpl.
  { eexists (inl _), _. split; [reflexivity|]. set_solver. }
  unfold createLogicalDevice, try, bind, query, value. simpl.
  pose proof Hs as [Hc _]%andb_prop. unfold isComplete in Hc. apply bool_decide_eq_true in Hc as [fam Hfam].
  rewrite Hfam. simpl. rewrite elements_singleton. unfold on_vk. simpl.
  destruct (vkCreateDevice v dev [fam] deviceExtensions) as [[res d] v1] eqn:Ed.
  destruct (Z.eqb_spec res VK_SUCCESS) as [->|]; simpl.
  2:{ eexists (inl _), _. split; [reflexivity|]. set_solver. }
  eexists (inr tt), _. split; [reflexivity|]. simpl. split_and!; try done.
  - apply find_split in Ef as (l1 & l2 & -> & Hl1). by exists l1, l2.
  - by exists fam.
Qed.

(** Start-up returns in every case: with one of four messages, or with the wrapper
    at the first suitable device the instance enumerates, a logical device on it
    with one queue of its graphics family, and no buffer. *)
Lemma ctor_spec s :
  let '(_, inst, v) := vkCreateInstance (lib_vk s) in
  ∃ r s', ctor_libvram s = Ret r s'
    ∧ match r with
      | inl e => e ∈ startup_errors
      | inr _ => ∃ w before after fam,
          vrw_obj s' = Some w
          ∧ vkEnumeratePhysicalDevices v inst = before ++ physicalDevice w :: after
          ∧ Forall (λ dev, isDeviceSuitable v dev = false) before
          ∧ isDeviceSuitable v (physicalDevice w) = true
          ∧ findQueueFamilies v (physicalDevice w) = Some fam
          ∧ vkCreateDevice v (physicalDevice w) [fam] deviceExtensions = (0, device w, lib_vk s')
          ∧ buffers w = [] ∧ bufferMemories w = []
      end.
Proof.
  destruct (vkCreateInstance (lib_vk s)) as [[res inst] v] eqn:Ei.
  unfold ctor_libvram, bind at 1, modify, on_obj, init, initVulkan. simpl.
  unfold try at 1, bind at 1, createInstance, bind at 1, on_vk. simpl. rewrite Ei. simpl.
  destruct (negb (res =? VK_SUCCESS)); simpl.
  { eexists (inl _), _. split; [reflexivity|]. set_solver. }
  destruct (pick_then_create (mkVRam inst VK_NULL_HANDLE 0 0 [] []) v eq_refl) as (r & t & -> & H).
  exists r, (mkLib (Some (wr t)) (vk t)). split; [done|]. destruct r as [e|u]; [done|].
  destruct H as ((before & after & H1 & H2) & H3 & (fam & H4 & H5) & H6 & H7).
  by exists (wr t), before, after, fam.
Qed.
End Startup.

(** ** Allocation *)

(** The type is the first one the filter allows that has all the properties. *)
Lemma find_type_spec tf props i types j :
  find_type tf props i types = Some j →
  i ≤ j ∧ (∃ fl, types !! Z.to_nat (j - i) = Some fl ∧ type_matches tf props j fl = true)
  ∧ ∀ k fl, i ≤ k < j → types !! Z.to_nat (k - i) = Some fl → type_matches tf props k fl = false.
Proof.
  revert i. induction types as [|fl types IH]; intros i; simpl; [done|].
  destruct (type_matches tf props i fl) eqn:E.
  - intros [= <-]. split_and!; [lia|exists fl; by rewrite Z.sub_diag|lia].
  - intros (H1 & (fl' & E' & Hm) & H3)%IH. split_and!; [lia|..].
    + exists fl'. replace (Z.to_nat (j - i)) with (S (Z.to_nat (j - (i + 1)))) by lia. done.
    + intros k fl'' Hk Ek. destruct (decide (k = i)) as [->|].
      { rewrite Z.sub_diag in Ek. by injection Ek as <-. }
      replace (Z.to_nat (k - i)) with (S (Z.to_nat (k - (i + 1)))) in Ek by lia.
      apply (H3 k); [lia|done].
Qed.

Lemma type_matches_visible tf i fl : type_matches tf wanted i fl = true → Z.testbit fl 1 = true.
Proof.
  intros [_ H%Z.eqb_eq]%andb_prop. assert (Z.testbit (Z.land fl wanted) 1 = true) as H1 by by rewrite H.
  rewrite Z.land_spec in H1. by apply andb_prop in H1 as [? _].
Qed.

Section Alloc.
Context {V : Type} `{!Vulkan V} {look : V → view} `{!VulkanLaws look} (release : bool).
Implicit Types (v : V) (w : VRamWrapper).

(** What one allocation does: a buffer and a memory object with a mapping that is
    apart from all others, both recorded; or an exception, and then nothing is
    recorded and no mapping is new. *)
Lemma createVertexBuffer_spec w v n r (t : vr V) :
  0 < n → v_phys (look v) !! device w = Some (physicalDevice w) →
  createVertexBuffer release n (mkVr w v) = Ret r t →
  match r with
  | inr p => ∃ b m d,
      wr t = add_buffer b m w
      ∧ look (vk t) = with_map m (p, n) (with_mem m d (with_bufs ({[ b ]} ∪ v_bufs (look v)) (look v)))
      ∧ v_maps (look v) !! m = None
      ∧ 0 ≤ p ∧ p + n < 2 ^ 64 ∧ map_Forall (λ _ rng, apart (p, n) rng) (v_maps (look v))
  | inl _ => wr t = w ∧ v_maps (look (vk t)) = v_maps (look v) ∧ v_phys (look (vk t)) = v_phys (look v)
  end.
Proof.
  intros Hn Hp. unfold createVertexBuffer, bind, on_vk, vk_do, query. cbn [wr vk].
  destruct (vkCreateBuffer _ _ _ _) as [[r1 b] v1] eqn:Eb. apply law_buffer in Eb.
  change (negb (r1 =? VK_SUCCESS)) with (negb (r1 =? 0)).
  destruct (r1 =? 0); cbn [negb].
  2:{ intros [= <- <-]. simpl. by rewrite Eb. }
  destruct Eb as (Hb & Hv1 & Hreq).
  set (req := vkGetBufferMemoryRequirements v1 (device w) b) in *.
  assert (v_maps (look v1) = v_maps (look v) ∧ v_phys (look v1) = v_phys (look v)) as [Hm1 Hp1] by by rewrite Hv1.
  destruct (c_assert release _ _) as [u s2| |] eqn:Ea; [|done..].
  assert (s2 = mkVr w v1) as ->.
  { cbn [wr vk] in Ea. fold req in Ea. unfold c_assert, nvsl_assert, ret, trap in Ea. destruct release; [congruence|].
    destruct (req_size req =? n); congruence. }
  unfold try, bind, findMemoryType, bind, query. cbn [wr vk].
  destruct (find_type _ _ _ _) as [ty|] eqn:Et; cbn.
  2:{ intros [= <- <-]. done. }
  apply find_type_spec in Et as (Hty & (fl & Efl & Hfl) & _). rewrite Z.sub_0_r in Efl.
  destruct (vkAllocateMemory _ _ _ _) as [[r2 m] v2] eqn:Em.
  eapply law_alloc in Em; [|by rewrite Hp1|done|done].
  change (negb (r2 =? VK_SUCCESS)) with (negb (r2 =? 0)). destruct (r2 =? 0); cbn [negb].
  2:{ intros [= <- <-]. simpl. by rewrite Em. }
  destruct Em as (Hmm & Hmp & Hv2). cbn.
  set (v3 := vkBindBufferMemory v2 (device w) b m 0).
  assert (look v3 = look v2) as Hv3 by apply law_bind.
  destruct (vkMapMemory v3 _ _ _ _) as [[r3 p] v4] eqn:Ep.
  eapply (law_map v3 (device w) m 0 n (req_size req) fl) in Ep; [..|by eapply type_matches_visible]; [|..|lia|done|lia].
  2:{ rewrite Hv3, Hv2. apply lookup_insert_eq. }
  2:{ rewrite Hv3, Hv2. done. }
  change (negb (r3 =? VK_SUCCESS)) with (negb (r3 =? 0)). destruct (r3 =? 0); cbn [negb].
  2:{ intros [= <- <-]. simpl. rewrite Ep, Hv3, Hv2. done. }
  destruct Ep as (Hp0 & Hpn & Hap & Hv4). intros [= <- <-]. exists b, m, (req_size req, fl). simpl.
  rewrite Hv3, Hv2 in Hap, Hv4. simpl in Hap. rewrite Hm1 in Hap, Hmp. rewrite Hv1 in Hv4.
  by split_and!.
Qed.

(** *** An arena for libvramfs *)

Record owns (s : lib (V := V)) (rs : list (Z * Z)) : Prop := {
  ow_obj : ∃ w, vrw_obj s = Some w ∧ v_phys (look (lib_vk s)) !! device w = Some (physicalDevice w);
  ow_maps : rs ≡ₚ (map_to_list (v_maps (look (lib_vk s)))).*2;
  ow_in : Forall (λ r, 0 ≤ r.1 ∧ r.1 + r.2 < 2 ^ 64) rs;
  ow_apart : List.ForallOrdPairs apart rs;
}.

Lemma libvram_malloc_owns s rs n p s' :
  owns s rs → 0 < n → libvram_malloc release n s = Ret (inr p) s' → owns s' ((p, n) :: rs).
Proof.
  intros [(w & Hw & Hp) Hm Hi Ha] Hn. unfold libvram_malloc, on_obj, VRamWrapper_malloc. rewrite Hw.
  destruct (createVertexBuffer release n _) as [r t| |] eqn:E; [|done..]. intros [= -> <-].
  apply createVertexBuffer_spec in E as (b & m & d & E1 & E2 & H1 & H2 & H3 & H4); [|done..].
  split; simpl.
  - exists (wr t). split; [done|]. by rewrite E2, E1.
  - rewrite E2. simpl. rewrite map_to_list_insert by done. simpl. by rewrite Hm.
  - by constructor.
  - constructor; [|done]. rewrite Hm. apply Forall_forall. intros x.
    intros ([k y] & -> & Hk%elem_of_map_to_list)%list_elem_of_fmap. by apply (H4 k).
Qed.

(** The allocation comes to its end: nothing throws, and the assertion holds. *)
Definition serves (s : lib (V := V)) (n : Z) : Prop :=
  ∃ p s', libvram_malloc release n s = Ret (inr p) s'.

#[export] Instance vram_arena : Arena (malloc_or_terminate release) owns serves.
Proof.
  split.
  - intros s rs rs' Hrs [H1 H2 H3 H4]. split; [done|by rewrite <-Hrs|by rewrite <-Hrs|].
    eapply CxlArena.pairs_perm; [exact CxlArena.apart_sym|exact Hrs|done].
  - intros s r1 r2 rs [_ _ _ H]. inversion H as [|? ? Hf]; subst. by inversion Hf.
  - intros s r rs [_ _ H _]. by inversion H.
  - intros s rs n Ho (p & s' & E) Hn. exists p, s'. split; [|by eapply libvram_malloc_owns].
    unfold malloc_or_terminate. by rewrite (bind_eq _ _ _ _ _ E).
Qed.
(** *** A session: start-up, allocations, cleanup *)

Fixpoint mallocs (ns : list Z) : cmd lib (string + list Z) :=
  match ns with
  | [] => ret (inr [])
  | n :: ns =>
      try! p := libvram_malloc release n in
      try! ps := mallocs ns in
      ret (inr (p :: ps))
  end.

(** The wrapper has recorded all objects of the device. *)
Definition recorded (s : lib (V := V)) : Prop :=
  ∃ w, vrw_obj s = Some w
    ∧ v_bufs (look (lib_vk s)) = list_to_set (buffers w)
    ∧ dom (v_mems (look (lib_vk s))) = list_to_set (C := gset Z) (bufferMemories w).

Lemma libvram_malloc_recorded s rs n p s' :
  owns s rs → recorded s → 0 < n → libvram_malloc release n s = Ret (inr p) s' → recorded s'.
Proof.
  intros Ho (w & Hw & Hb & Hm) Hn. destruct (ow_obj _ _ Ho) as (w' & Hw' & Hp).
  rewrite Hw in Hw'. injection Hw' as <-.
  unfold libvram_malloc, on_obj, VRamWrapper_malloc. rewrite Hw.
  destruct (createVertexBuffer release n _) as [r t| |] eqn:E; [|done..]. intros [= -> <-].
  apply createVertexBuffer_spec in E as (b & m & d & E1 & E2 & H1 & _); [|done..].
  exists (wr t). split; [done|]. simpl. rewrite E2, E1. simpl. rewrite dom_insert_L, Hb, Hm, !list_to_set_app_L.
  set_solver.
Qed.

Lemma mallocs_ok ns s rs ps s' :
  owns s rs → recorded s → Forall (λ n, 0 < n) ns → mallocs ns s = Ret (inr ps) s' →
  length ps = length ns ∧ owns s' (reverse (zip ps ns) ++ rs) ∧ recorded s'.
Proof.
  revert s rs ps. induction ns as [|n ns IH]; intros s rs ps Ho Hr Hns Hrun; simpl in Hrun.
  { injection Hrun as <- <-. by split_and!. }
  apply Forall_cons in Hns as [Hn Hns]. unfold try in Hrun.
  apply bind_Ret in Hrun as ([e|p] & s1 & E1 & Hrun); [done|].
  apply bind_Ret in Hrun as ([e|ps'] & s2 & E2 & Hrun); [done|]. injection Hrun as <- <-.
  destruct (IH s1 ((p, n) :: rs) ps') as (Hl & Ho' & Hr'); try done.
  - by eapply libvram_malloc_owns.
  - by eapply libvram_malloc_recorded.
  - split_and!; [simpl; lia| |done]. simpl. rewrite reverse_cons, <-app_assoc. done.
Qed.

Lemma destroy_buffers l w v :
  ∃ v', for_each l (λ buf, vk_do (λ w v, vkDestroyBuffer v (device w) buf)) (mkVr w v) = Ret tt (mkVr w v')
    ∧ look v' = with_bufs (v_bufs (look v) ∖ list_to_set l) (look v).
Proof.
  revert v. induction l as [|b l IH]; intros v; simpl.
  { exists v. split; [done|]. destruct (look v). unfold with_bufs. simpl. f_equal. set_solver. }
  destruct (IH (vkDestroyBuffer v (device w) b)) as (v' & E & H). exists v'. split; [done|].
  rewrite H, law_destroy_buffer. unfold with_bufs. simpl. f_equal. set_solver.
Qed.

Lemma free_memories l w v :
  ∃ v', for_each l (λ mem, vk_do (λ w v, vkFreeMemory v (device w) mem)) (mkVr w v) = Ret tt (mkVr w v')
    ∧ v_bufs (look v') = v_bufs (look v)
    ∧ dom (v_mems (look v')) = dom (v_mems (look v)) ∖ list_to_set (C := gset Z) l.
Proof.
  revert v. induction l as [|m l IH]; intros v; simpl.
  { exists v. split_and!; [done..|set_solver]. }
  destruct (IH (vkFreeMemory v (device w) m)) as (v' & E & H1 & H2). exists v'. split; [done|].
  rewrite H1, H2, law_free_memory. split; [done|]. simpl. rewrite dom_delete_L. set_solver.
Qed.

Lemma cleanup_releases s :
  recorded s → ∃ s', on_obj cleanup s = Ret tt s' ∧ no_objects (look (lib_vk s')).
Proof.
  intros (w & Hw & Hb & Hm). unfold on_obj. rewrite Hw. unfold cleanup.
  rewrite (bind_eq (query (λ w _, w)) _ (mkVr w (lib_vk s)) w _ eq_refl).
  destruct (destroy_buffers (buffers w) w (lib_vk s)) as (v1 & E1 & H1).
  rewrite (bind_eq _ _ _ _ _ E1).
  destruct (free_memories (bufferMemories w) w v1) as (v2 & E2 & H2 & H2').
  rewrite (bind_eq _ _ _ _ _ E2). eexists. split; [reflexivity|]. simpl.
  apply law_destroy_instance, law_destroy_device. split.
  - rewrite H2, H1. simpl. rewrite Hb. set_solver.
  - apply (dom_empty_inv_L (D := gset Z)). rewrite H2', H1. simpl. rewrite Hm. set_solver.
Qed.

(** Start-up on an instance without objects leaves the wrapper ready. *)
Lemma ctor_ready s s1 :
  v_bufs (look (lib_vk s)) = ∅ → v_mems (look (lib_vk s)) = ∅ → v_maps (look (lib_vk s)) = ∅ →
  ctor_libvram s = Ret (inr tt) s1 → owns s1 [] ∧ recorded s1.
Proof.
  intros Hb Hm Hp Hrun. pose proof (ctor_spec s) as H.
  destruct (vkCreateInstance (lib_vk s)) as [[res inst] v] eqn:Ei. apply law_instance in Ei.
  destruct H as (r & s' & E & H). rewrite E in Hrun. injection Hrun as -> ->.
  destruct H as (w & _ & _ & fam & Hw & _ & _ & _ & _ & Ed & H1 & H2).
  apply law_device in Ed. simpl in Ed. rewrite Ei in Ed. split.
  - split; [|by rewrite Ed; simpl; rewrite Hp, map_to_list_empty|done|constructor].
    exists w. split; [done|]. rewrite Ed. apply lookup_insert_eq.
  - exists w. rewrite Ed, H1, H2. simpl. rewrite Hb, Hm. split_and!; [done..|]. by rewrite dom_empty_L.
Qed.

(** After start-up, buffers that malloc has returned never overlap and lie in the
    address space; and if no malloc has thrown, cleanup leaves no buffer and no
    memory object behind. *)
Lemma vram_session_spec s s1 s2 ns ps :
  v_bufs (look (lib_vk s)) = ∅ → v_mems (look (lib_vk s)) = ∅ → v_maps (look (lib_vk s)) = ∅ →
  ctor_libvram s = Ret (inr tt) s1 → Forall (λ n, 0 < n) ns → mallocs ns s1 = Ret (inr ps) s2 →
  length ps = length ns
  ∧ List.ForallOrdPairs apart (zip ps ns)
  ∧ Forall (λ r, 0 ≤ r.1 ∧ r.1 + r.2 < 2 ^ 64) (zip ps ns)
  ∧ ∃ s3, on_obj cleanup s2 = Ret tt s3 ∧ no_objects (look (lib_vk s3)).
Proof.
  intros Hb Hm Hp Hc Hns Hrun. destruct (ctor_ready s s1 Hb Hm Hp Hc) as [Ho Hr].
  destruct (mallocs_ok ns s1 [] ps s2 Ho Hr Hns Hrun) as (Hl & [_ _ Hi Ha] & Hr2).
  rewrite app_nil_r in Hi, Ha. pose proof (reverse_Permutation (zip ps ns)) as Hperm. split_and!.
  - done.
  - eapply CxlArena.pairs_perm; [exact CxlArena.apart_sym|exact Hperm|done].
  - by rewrite <-Hperm.
  - by apply cleanup_releases.
Qed.
End Alloc.

(** ** Properties *)

(** C36: Start-up of libvram returns in every case, and never dereferences an empty
    optional: it throws one of four messages, or the wrapper stands at the first
    device of the enumeration that has a graphics family and the swap-chain
    extension, with a logical device on it that has one queue of the first graphics
    family, and no buffers. *)
Theorem ctor_outcome {V} `{!Vulkan V} (s : lib (V := V)) :
  let '(_, inst, v) := vkCreateInstance (lib_vk s) in
  ∃ r s', ctor_libvram s = Ret r s'
    ∧ match r with
      | inl e => e ∈ startup_errors
      | inr _ => ∃ w before after fam,
          vrw_obj s' = Some w
          ∧ vkEnumeratePhysicalDevices v inst = before ++ physicalDevice w :: after
          ∧ Forall (λ dev, isDeviceSuitable v dev = false) before
          ∧ isDeviceSuitable v (physicalDevice w) = true
          ∧ findQueueFamilies v (physicalDevice w) = Some fam
          ∧ vkCreateDevice v (physicalDevice w) [fam] deviceExtensions = (0, device w, lib_vk s')
          ∧ buffers w = [] ∧ bufferMemories w = []
      end.
Proof. apply ctor_spec. Qed.

(** C30: After start-up on an instance without objects, the buffers of any sequence
    of mallocs that return are pairwise disjoint and lie in the address space; and
    cleanup then leaves no buffer and no memory object of the device behind. *)
Theorem vram_session {V} `{!Vulkan V} {look : V → view} `{!VulkanLaws look} (release : bool)
    (s s1 s2 : lib (V := V)) ns ps :
  v_bufs (look (lib_vk s)) = ∅ → v_mems (look (lib_vk s)) = ∅ → v_maps (look (lib_vk s)) = ∅ →
  ctor_libvram s = Ret (inr tt) s1 → Forall (λ n, 0 < n) ns → mallocs release ns s1 = Ret (inr ps) s2 →
  length ps = length ns
  ∧ List.ForallOrdPairs apart (zip ps ns)
  ∧ Forall (λ r, 0 ≤ r.1 ∧ r.1 + r.2 < 2 ^ 64) (zip ps ns)
  ∧ ∃ s3, on_obj cleanup s2 = Ret tt s3 ∧ no_objects (look (lib_vk s3)).
Proof. apply vram_session_spec. Qed.

(** ** A device *)

Module DemoVram.

(** Two physical devices: 1 cannot present, 2 is suitable and has [d_left] bytes.
    Buffers are aligned to 256 bytes. *)
Record dev := mkDev { d_view : view; d_sizes : gmap Z Z; d_left : Z }.
Definition on_view (f : view → view) (v : dev) : dev := mkDev (f (d_view v)) (d_sizes v) (d_left v).
Definition unused (X : gset Z) : Z := foldr Z.max 0 (elements X) + 1.
Definition types (p : Z) : list Z := if p =? 2 then [1; 6; 7] else [].
Definition rng_end (m : Z) (r : Z * Z) (e : Z) : Z := Z.max e (r.1 + r.2).

#[export] Instance demo_vulkan : Vulkan dev := {
  vkCreateInstance v := (0, 1, v);
  vkEnumeratePhysicalDevices _ _ := [1; 2];
  vkGetPhysicalDeviceQueueFamilyProperties _ _ := [4; 1; 1];
  vkEnumerateDeviceExtensionProperties _ p :=
    if p =? 2 then ["VK_EXT_robustness2"; "VK_KHR_swapchain"] else ["VK_EXT_robustness2"];
  vkGetPhysicalDeviceMemoryProperties _ p := types p;
  vkCreateDevice v p _ _ := (0, 10, on_view (with_device 10 p) v);
  vkGetDeviceQueue _ _ _ _ := 20;
  vkCreateBuffer v _ n _ :=
    let b := unused (v_bufs (d_view v)) in
    (0, b, mkDev (with_bufs ({[ b ]} ∪ v_bufs (d_view v)) (d_view v)) (<[b := n]> (d_sizes v)) (d_left v));
  vkGetBufferMemoryRequirements v _ b := mkReq ((default 0 (d_sizes v !! b) + 255) / 256 * 256) 6;
  vkAllocateMemory v d n ty :=
    if n <=? d_left v then
      let m := unused (dom (v_mems (d_view v)) ∪ dom (v_maps (d_view v))) in
      let fl := default 0 (types (default 0 (v_phys (d_view v) !! d)) !! Z.to_nat ty) in
      (0, m, mkDev (with_mem m (n, fl) (d_view v)) (d_sizes v) (d_left v - n))
    else (-2, 0, v);
  vkBindBufferMemory v _ _ _ _ := v;
  vkMapMemory v _ m _ n :=
    let p := map_fold rng_end 0x7f0000000000 (v_maps (d_view v)) in
    if p + n <? 2 ^ 64 then (0, p, on_view (with_map m (p, n)) v) else (-5, 0, v);
  vkDestroyBuffer v _ b := on_view (λ x, with_bufs (v_bufs x ∖ {[ b ]}) x) v;
  vkFreeMemory v _ m := on_view (without_mem m) v;
  vkDestroyDevice v _ := v;
  vkDestroyInstance v _ := v;
}.

Lemma unused_fresh X : unused X ∉ X.
Proof. intros H%elem_of_elements%foldr_max_ge. unfold unused in H. lia. Qed.

Lemma rng_end_spec (ms : gmap Z (Z * Z)) :
  0 ≤ map_fold rng_end 0x7f0000000000 ms
  ∧ map_Forall (λ _ r, r.1 + r.2 ≤ map_fold rng_end 0x7f0000000000 ms) ms.
Proof.
  apply (map_fold_weak_ind (λ e ms, 0 ≤ e ∧ map_Forall (λ _ r, r.1 + r.2 ≤ e) ms)).
  - split; [lia|apply map_Forall_empty].
  - intros m r ms' e Hm [H1 H2]. unfold rng_end. split; [lia|]. apply map_Forall_insert; [done|].
    split; [lia|]. eapply map_Forall_impl; [exact H2|]. simpl. lia.
Qed.

#[export] Instance demo_vulkan_laws : VulkanLaws d_view.
Proof.
  split; simpl.
  - by intros v r h v' [= <- <- <-].
  - by intros v p qs es r d v' [= <- <- <-].
  - intros v d n u r b v' [= <- <- <-]. split_and!; [apply unused_fresh|done|]. simpl.
    rewrite lookup_insert_eq. simpl. pose proof (Z_div_mod_eq_full (n + 255) 256).
    pose proof (Z.mod_pos_bound (n + 255) 256). lia.
  - intros v d p n ty fl r m v' Hp Hfl Hty. destruct (n <=? d_left v); intros [= <- <- <-]; [|done]. simpl.
    pose proof (unused_fresh (dom (v_mems (d_view v)) ∪ dom (v_maps (d_view v)))) as Hu.
    split_and!; [apply not_elem_of_dom; set_solver..|]. rewrite Hp. simpl. by rewrite Hfl.
  - done.
  - intros v d m off n sz fl r p v' _ _ _ _ _ _.
    destruct (rng_end_spec (v_maps (d_view v))) as [H1 H2].
    destruct (Z.ltb_spec (map_fold rng_end 0x7f0000000000 (v_maps (d_view v)) + n) (2 ^ 64)) as [Hlt|];
      intros [= <- <- <-]; [|done].
    split_and!; [done|done| |done]. eapply map_Forall_impl; [exact H2|]. intros k r Hr. right. simpl in *. lia.
  - done.
  - done.
  - done.
  - done.
Qed.

Definition s0 : lib (V := dev) := mkLib None (mkDev (mkView ∅ ∅ ∅ ∅) ∅ 8192).
Definition s1 : lib (V := dev) := state_of (ctor_libvram s0).
Definition s2 : lib (V := dev) := state_of (mallocs false [4096; 1024] s1).

Fact ctor_runs : ctor_libvram s0 = Ret (inr tt) s1.
Proof. vm_compute. reflexivity. Qed.
Fact mallocs_run : mallocs false [4096; 1024] s1 = Ret (inr [0x7f0000000000; 0x7f0000001000]) s2.
Proof. vm_compute. reflexivity. Qed.

Lemma vram_session_witness :
  List.ForallOrdPairs apart [(0x7f0000000000, 4096); (0x7f0000001000, 1024)]
  ∧ ∃ s3, on_obj cleanup s2 = Ret tt s3 ∧ no_objects (d_view (lib_vk s3)).
Proof.
  destruct (vram_session (look := d_view) false s0 s1 s2 [4096; 1024] [0x7f0000000000; 0x7f0000001000]
    eq_refl eq_refl eq_refl ctor_runs ltac:(repeat constructor) mallocs_run) as (_ & Ha & _ & Hc).
  split; [exact Ha|exact Hc].
Defined.

(** The wrapper is where the file tables of libvramfs get their memory. *)
Lemma demo_owns : owns (look := d_view) s1 [].
Proof. by apply (ctor_ready s0 s1). Qed.

Definition f1 : fs (lib (V := dev)) := state_of (open "/a" (fs_init s1)).
Definition f2 : fs (lib (V := dev)) := state_of (vram_lseek (malloc_or_terminate false) 1 4096 0 f1).
Definition f3 : fs (lib (V := dev)) := state_of (open "/b" f2).
Definition f4 : fs (lib (V := dev)) := state_of (vram_lseek (malloc_or_terminate false) 2 1024 0 f3).

Lemma f4_reachable : reachable (malloc := malloc_or_terminate false) (room := serves false) s1 f4.
Proof.
  eapply rtc_l; [apply (step_open (fs_init s1) "/a" 1); vm_compute; reflexivity|].
  eapply rtc_l; [apply (step_lseek f1 1 4096 0 4096); [eexists _, _|]; vm_compute; reflexivity|].
  eapply rtc_l; [apply (step_open f2 "/b" 2); vm_compute; reflexivity|].
  eapply rtc_l; [apply (step_lseek f3 2 1024 0 1024); [eexists _, _|]; vm_compute; reflexivity|].
  apply rtc_refl.
Qed.

(** Two files of libvramfs on this device lie apart. *)
Fact vramfs_files_apart fd1 fd2 d1 d2 :
  fd1 ≠ fd2 → fd_desc f4 !! fd1 = Some d1 → fd_desc f4 !! fd2 = Some d2 → len d1 ≠ 0 → len d2 ≠ 0 →
  apart (region d1, len d1) (region d2, len d2).
Proof.
  apply (files_apart (malloc := malloc_or_terminate false) (owned := owns (look := d_view)) (room := serves false)).
  exact (reachable_fs_ok s1 f4 demo_owns f4_reachable).
Qed.

(** An allocation the device refuses leaves its buffer behind, and cleanup does not
    know of it. *)
Definition s_full : lib (V := dev) := state_of (libvram_malloc false 1048576 s1).
Fact refused_malloc_leaks_buffer :
  libvram_malloc false 1048576 s1
    = Ret (inl "failed to allocate vertex buffer memory of size 1 MiB: VK_ERROR_OUT_OF_DEVICE_MEMORY"%string) s_full
  ∧ v_bufs (d_view (lib_vk (state_of (on_obj cleanup s_full)))) ≠ ∅.
Proof. split; [vm_compute; reflexivity|vm_compute; discriminate]. Qed.

(** A size that is not aligned fails the assertion; without assertions the buffer
    is given. *)
Fact unaligned_malloc_asserts : ∃ s, libvram_malloc false 1000 s1 = Trap s.
Proof. eexists. vm_compute. reflexivity. Qed.
Fact unaligned_malloc_in_release : ∃ s, libvram_malloc true 1000 s1 = Ret (inr 0x7f0000000000) s.
Proof. eexists. vm_compute. reflexivity. Qed.

(** free never frees: it fails its assertion, or does nothing. *)
Fact free_does_nothing : libvram_free true 0x7f0000000000 s2 = Ret tt s2.
Proof. vm_compute. reflexivity. Qed.

(** Before the constructor, malloc reads through a null pointer. *)
Fact malloc_before_ctor : libvram_malloc false 4096 s0 = Trap s0.
Proof. vm_compute. reflexivity. Qed.
End DemoVram.
