(* ===== verification/Redirect.v ===== *)
(** * Redirected mappings (examples/redirect/redirect.cc)

    A preloaded library that serves mmap of files under /mnt/cxl0/ from libvram and of
    files under /mnt/mss0/ from libcxlfs, and passes other calls on.  It is written
    against the interface [Arena] of [CxlFs], once for each of the two allocators;
    [Vram] and [CxlFs] have the instances. *)

From stdpp Require Import base list gmap strings.
From Stdlib Require Import ZArith Lia.
From S2P Require Import Prelude Startup PmemFile Controller CxlFs Vram.

Open Scope string_scope.
Open Scope Z_scope.

Record redirect (V C : Type) := mkRedirect {
  mapped_files : gmap string Z;
  vram_arena_ : V;
  cxl_arena_ : C;
}.
Arguments mkRedirect {V C} _ _ _.
Arguments mapped_files {V C} _.
Arguments vram_arena_ {V C} _.
Arguments cxl_arena_ {V C} _.

Section Redirect.
Context `{Nvsl} {V C : Type}.
(** The two allocators, memset into memory of libcxlfs, and mmap of libc. *)
Context (vram_malloc : Z → cmd V Z) (cxl_malloc : Z → cmd C Z) (cxl_memset : Z → Z → Z → cmd C unit).
Context (real_mmap : Z → Z → Z → Z → Z → Z → Z).
Implicit Types s : redirect V C.

(** [init_dlsyms] of this library. *)
Definition redirect_init_dlsyms (dlsym : string → Z) : cmd dl unit :=
  for_each ["mmap"; "munmap"] (find_symbol dlsym).

Definition on_vram {A} (c : cmd V A) : cmd (redirect V C) A := λ s,
  let put v := mkRedirect (mapped_files s) v (cxl_arena_ s) in
  match c (vram_arena_ s) with Ret a v => Ret a (put v) | Exit e v => Exit e (put v) | Trap v => Trap (put v) end.
Definition on_cxl {A} (c : cmd C A) : cmd (redirect V C) A := λ s,
  let put v := mkRedirect (mapped_files s) (vram_arena_ s) v in
  match c (cxl_arena_ s) with Ret a v => Ret a (put v) | Exit e v => Exit e (put v) | Trap v => Trap (put v) end.

Definition tocxl (fname : string) : bool := is_prefix "/mnt/cxl0/" fname.
Definition tomss (fname : string) : bool := is_prefix "/mnt/mss0/" fname.

Definition new_mapping (fname : string) (len : Z) : cmd (redirect V C) Z :=
  let! result :=
    (if tocxl fname then on_vram (vram_malloc len)
     else
       let! p := on_cxl (cxl_malloc len) in
       do! on_cxl (cxl_memset p 0 len) in
       ret p) in
  do! modify (λ s, mkRedirect (<[fname := result]> (mapped_files s)) (vram_arena_ s) (cxl_arena_ s)) in
  ret result.

Definition redirect_mmap (addr len prot flags fd offset : Z) : cmd (redirect V C) Z :=
  let fname := fd_to_fname fd in
  if tocxl fname || tomss fname then
    let! s := get in
    match mapped_files s !! fname with
    | Some p => ret p
    | None => new_mapping fname len
    end
  else ret (real_mmap addr len prot flags fd offset).

Definition redirect_munmap (addr len : Z) : cmd (redirect V C) Z := ret 0.

(** ** Files do not overlap *)

Context {vowned : V → list (Z * Z) → Prop} {vroom : V → Z → Prop}.
Context {cowned : C → list (Z * Z) → Prop} {croom : C → Z → Prop}.
Context `{!Arena vram_malloc vowned vroom} `{!Arena cxl_malloc cowned croom}.

(** memset into a range that was given out returns and keeps the ranges. *)
Definition memset_keeps : Prop := ∀ c rs p n v,
  cowned c rs → (p, n) ∈ rs → ∃ c', cxl_memset p v n c = Ret tt c' ∧ cowned c' rs.

(** The ranges of the files of one kind, with the length each was first mapped
    with. *)
Definition file_ranges (kind : string → bool) (lens : gmap string Z) (m : gmap string Z) : list (Z * Z) :=
  (λ fa, (fa.2, default 0 (lens !! fa.1))) <$> filter (λ fa, kind fa.1 = true) (map_to_list m).

(** States after calls of mmap, with the lengths of the first mapping of each file;
    there is room for it. *)
Inductive reached (v0 : V) (c0 : C) : redirect V C → gmap string Z → Prop :=
| re_start : reached v0 c0 (mkRedirect ∅ v0 c0) ∅
| re_new s lens addr len prot flags fd offset p s' :
    reached v0 c0 s lens → tocxl (fd_to_fname fd) || tomss (fd_to_fname fd) = true →
    mapped_files s !! fd_to_fname fd = None → 0 < len →
    (if tocxl (fd_to_fname fd) then vroom (vram_arena_ s) len else croom (cxl_arena_ s) len) →
    redirect_mmap addr len prot flags fd offset s = Ret p s' →
    reached v0 c0 s' (<[fd_to_fname fd := len]> lens)
| re_other s lens addr len prot flags fd offset p s' :
    reached v0 c0 s lens →
    tocxl (fd_to_fname fd) || tomss (fd_to_fname fd) = false ∨ is_Some (mapped_files s !! fd_to_fname fd) →
    redirect_mmap addr len prot flags fd offset s = Ret p s' → reached v0 c0 s' lens.

Definition not_tocxl (f : string) : bool := negb (tocxl f).

Record redirect_ok s (lens : gmap string Z) : Prop := {
  rd_vram : vowned (vram_arena_ s) (file_ranges tocxl lens (mapped_files s));
  rd_cxl : cowned (cxl_arena_ s) (file_ranges not_tocxl lens (mapped_files s));
  rd_lens f : is_Some (mapped_files s !! f) → is_Some (lens !! f);
}.

Lemma file_ranges_insert kind lens m f p n :
  m !! f = None →
  file_ranges kind (<[f := n]> lens) (<[f := p]> m)
  ≡ₚ (if kind f then [(p, n)] else []) ++ file_ranges kind lens m.
Proof.
  intros Hf. unfold file_ranges. rewrite map_to_list_insert, filter_cons by done. cbn [fst].
  assert (∀ l, f ∉ l.*1 → (λ fa : string * Z, (fa.2, default 0 (<[f:=n]> lens !! fa.1))) <$> l
     = (λ fa, (fa.2, default 0 (lens !! fa.1))) <$> l) as Hext.
  { intros l Hl. apply list_fmap_ext. intros i [g q] Hi. simpl. rewrite lookup_insert_ne; [done|].
    intros ->. apply Hl. apply list_elem_of_fmap. exists (g, q). split; [done|]. by eapply list_elem_of_lookup_2. }
  assert (f ∉ (filter (λ fa, kind fa.1 = true) (map_to_list m)).*1) as Hnf.
  { intros ([g q] & -> & Hin)%list_elem_of_fmap. apply list_elem_of_filter in Hin as [_ Hin].
    apply elem_of_map_to_list in Hin. simpl in Hf. congruence. }
  destruct (kind f) eqn:E.
  - rewrite decide_True by done. cbn [fmap list_fmap fst snd]. rewrite lookup_insert_eq. cbn [default].
    unfold fmap in Hext. by rewrite Hext.
  - rewrite decide_False by done. by rewrite Hext.
Qed.

(** A new mapping takes a new range from the allocator of its kind. *)
Lemma new_mapping_ok s lens f n :
  memset_keeps → redirect_ok s lens → mapped_files s !! f = None → 0 < n →
  (if tocxl f then vroom (vram_arena_ s) n else croom (cxl_arena_ s) n) →
  ∃ p s', new_mapping f n s = Ret p s' ∧ redirect_ok s' (<[f := n]> lens) ∧ mapped_files s' = <[f := p]> (mapped_files s).
Proof.
  intros Hms [H1 H2 H3] Hf Hn Hroom.
  assert (∀ p m, is_Some ((<[f := p]> (mapped_files s)) !! m) → is_Some ((<[f := n]> lens) !! m)) as Hlens.
  { intros p m. rewrite !lookup_insert_is_Some'. intros [->|Hm]; [by left|right; by apply H3]. }
  unfold new_mapping. destruct (tocxl f) eqn:Ef.
  - destruct (arena_malloc _ _ n H1 Hroom Hn) as (p & v & E & Ho).
    exists p, (mkRedirect (<[f := p]> (mapped_files s)) v (cxl_arena_ s)).
    split_and!; [unfold bind, on_vram; by rewrite E| |done].
    split; simpl; [| |by apply Hlens]; (eapply arena_perm; [symmetry; by apply file_ranges_insert|]).
    + by rewrite Ef.
    + unfold not_tocxl. rewrite Ef. done.
  - destruct (arena_malloc _ _ n H2 Hroom Hn) as (p & c & E & Ho).
    destruct (Hms c _ p n 0 Ho) as (c' & E' & Ho'); [by left|].
    exists p, (mkRedirect (<[f := p]> (mapped_files s)) (vram_arena_ s) c').
    split_and!; [unfold bind, on_cxl; rewrite E; simpl; by rewrite E'| |done].
    split; simpl; [| |by apply Hlens]; (eapply arena_perm; [symmetry; by apply file_ranges_insert|]).
    + by rewrite Ef.
    + unfold not_tocxl. rewrite Ef. done.
Qed.

Lemma reached_ok v0 c0 s lens :
  memset_keeps → vowned v0 [] → cowned c0 [] → reached v0 c0 s lens → redirect_ok s lens.
Proof.
  intros Hms Hv Hc. induction 1 as [|s lens addr len prot flags fd offset p s' _ IH Hk Hf Hn Hroom Hrun
    |s lens addr len prot flags fd offset p s' _ IH Hk Hrun].
  - split; simpl; [done..|]. intros f. rewrite lookup_empty. by intros [].
  - destruct (new_mapping_ok s lens _ len Hms IH Hf Hn Hroom) as (q & t & E & Hok & _).
    unfold redirect_mmap in Hrun. rewrite Hk in Hrun. unfold bind, get in Hrun. rewrite Hf, E in Hrun.
    by injection Hrun as -> ->.
  - unfold redirect_mmap in Hrun. destruct Hk as [Hk|[q Hq]].
    + rewrite Hk in Hrun. by injection Hrun as _ <-.
    + destruct (_ || _); [|by injection Hrun as _ <-]. unfold bind, get in Hrun. rewrite Hq in Hrun.
      by injection Hrun as _ <-.
Qed.

Lemma two_in_ranges kind lens (m : gmap string Z) f g p q n k :
  m !! f = Some p → m !! g = Some q → f ≠ g → kind f = true → kind g = true →
  lens !! f = Some n → lens !! g = Some k →
  ∃ rs, file_ranges kind lens m ≡ₚ (p, n) :: (q, k) :: rs.
Proof.
  intros Hf Hg Hne Kf Kg Lf Lg.
  exists (file_ranges kind lens (delete g (delete f m))). unfold file_ranges.
  rewrite <-(insert_id m f p Hf) at 1. rewrite <-insert_delete_eq.
  rewrite (map_to_list_insert _ f) by apply lookup_delete_eq.
  rewrite <-(insert_id (delete f m) g q) at 1 by by rewrite lookup_delete_ne.
  rewrite <-(insert_delete_eq (delete f m)), (map_to_list_insert _ g) by apply lookup_delete_eq.
  rewrite !filter_cons_True by done. cbn [fmap list_fmap fst snd]. by rewrite Lf, Lg.
Qed.

(** Two files of the same kind that are mapped have ranges that do not overlap, with
    the lengths of their first mapping; and a file keeps its address. *)
Lemma files_apart_spec v0 c0 s lens f g p q n k :
  memset_keeps → vowned v0 [] → cowned c0 [] → reached v0 c0 s lens →
  mapped_files s !! f = Some p → mapped_files s !! g = Some q → f ≠ g → tocxl f = tocxl g →
  lens !! f = Some n → lens !! g = Some k → apart (p, n) (q, k).
Proof.
  intros Hms Hv Hc Hr Hf Hg Hne Hk Lf Lg. destruct (reached_ok v0 c0 s lens Hms Hv Hc Hr) as [H1 H2 _].
  destruct (tocxl f) eqn:Ef.
  - destruct (two_in_ranges tocxl lens _ f g p q n k Hf Hg Hne) as [rs Hp]; [done..|].
    apply (arena_perm _ _ _ Hp) in H1. by apply arena_apart in H1.
  - destruct (two_in_ranges not_tocxl lens _ f g p q n k Hf Hg Hne) as [rs Hp];
      [unfold not_tocxl; by rewrite ?Ef, <-?Hk..|done|done|].
    apply (arena_perm _ _ _ Hp) in H2. by apply arena_apart in H2.
Qed.
End Redirect.

(** [resize_cache] of this library: a call through the global controller. *)
Definition redirect_resize_cache (o : os) (env : BlkDev.spdk) (fuel : nat) (pages : Z) : cmd Cxl.cxl unit := λ s,
  match Cxl.the_ctrlr s with
  | None => Trap s
  | Some c =>
      match Controller.resize_cache o env fuel pages c with
      | Ret a c => Ret a (Cxl.mkCxl (Some c) (Cxl.bump_off s))
      | Exit e c => Exit e (Cxl.mkCxl (Some c) (Cxl.bump_off s))
      | Trap c => Trap (Cxl.mkCxl (Some c) (Cxl.bump_off s))
      end
  end.

(** Redirected files do not overlap: in every state that calls of mmap reach while
    there is room, two files of the same kind have disjoint ranges, of the lengths
    they were first mapped with; and mapping a file again returns its address and
    changes nothing. *)
Theorem redirected_files_apart `{Nvsl} {V C : Type} (vram_malloc : Z → cmd V Z) (cxl_malloc : Z → cmd C Z)
    cxl_memset real_mmap vowned vroom cowned croom
    `{!Arena vram_malloc vowned vroom} `{!Arena cxl_malloc cowned croom} v0 c0 s lens f g p q n k :
  memset_keeps cxl_memset (cowned := cowned) → vowned v0 [] → cowned c0 [] →
  reached vram_malloc cxl_malloc cxl_memset real_mmap (vroom := vroom) (croom := croom) v0 c0 s lens →
  mapped_files s !! f = Some p → mapped_files s !! g = Some q → f ≠ g → tocxl f = tocxl g →
  lens !! f = Some n → lens !! g = Some k →
  apart (p, n) (q, k)
  ∧ ∀ addr len prot flags fd offset, fd_to_fname fd = f → tocxl f || tomss f = true →
      redirect_mmap vram_malloc cxl_malloc cxl_memset real_mmap addr len prot flags fd offset s = Ret p s.
Proof.
  intros Hms Hv Hc Hr Hf Hg Hne Hk Lf Lg. split.
  - by eapply (files_apart_spec vram_malloc cxl_malloc cxl_memset real_mmap v0 c0 s lens f g).
  - intros addr len prot flags fd offset <- Hkind. unfold redirect_mmap, bind, get. by rewrite Hkind, Hf.
Qed.

(** ** On the demonstration devices of the two libraries *)

Module DemoRedirect.
#[local] Existing Instances DemoVram.demo_vulkan DemoVram.demo_vulkan_laws.

#[local] Instance nvsl : Nvsl := {|
  PmemFile.split s d := [];
  split_n s d n := [];
  is_prefix := String.prefix;
  fd_to_fname fd := if fd =? 3 then "/mnt/cxl0/a" else if fd =? 4 then "/mnt/cxl0/b"
                    else if fd =? 5 then "/mnt/mss0/c" else "/home/d";
  get_env_str n d := d;
  get_env_val n := false;
|}.
#[local] Instance cxl_instance : Arena (Cxl.malloc DemoFs.node0 DemoFs.ctrlr0) CxlArena.owned CxlArena.room.
Proof. apply CxlArena.cxl_arena; [reflexivity|vm_compute; split; [discriminate|reflexivity]]. Qed.

Abbreviation rstate := (redirect (lib (V := DemoVram.dev)) Cxl.cxl).
Definition no_memset (p v n : Z) : cmd Cxl.cxl unit := ret tt.
Definition libc_mmap (addr len prot flags fd offset : Z) : Z := 0x1000.
Definition call (fd len : Z) : cmd rstate Z :=
  redirect_mmap (malloc_or_terminate false) (Cxl.malloc DemoFs.node0 DemoFs.ctrlr0) no_memset libc_mmap 0 len 3 1 fd 0.

Definition r0 : rstate := mkRedirect ∅ DemoVram.s1 DemoFs.arena0.
Definition r1 : rstate := state_of (call 3 4096 r0).
Definition r2 : rstate := state_of (call 5 8192 r1).
Definition r3 : rstate := state_of (call 4 1024 r2).

Definition lens3 : gmap string Z :=
  <[fd_to_fname 4 := 1024]> (<[fd_to_fname 5 := 8192]> (<[fd_to_fname 3 := 4096]> ∅)).

Lemma r3_reached :
  reached (malloc_or_terminate false) (Cxl.malloc DemoFs.node0 DemoFs.ctrlr0) no_memset libc_mmap
    (vroom := serves false) (croom := CxlArena.room) DemoVram.s1 DemoFs.arena0 r3 lens3.
Proof.
  unfold lens3.
  eapply (re_new _ _ _ _ _ _ r2 _ 0 1024 3 1 4 0 0x7f0000001000); [|vm_compute; reflexivity|vm_compute; reflexivity|lia
    |eexists _, _; vm_compute; reflexivity|vm_compute; reflexivity].
  eapply (re_new _ _ _ _ _ _ r1 _ 0 8192 3 1 5 0 0x7f0000000000); [|vm_compute; reflexivity|vm_compute; reflexivity|lia
    |vm_compute; discriminate|vm_compute; reflexivity].
  eapply (re_new _ _ _ _ _ _ r0 _ 0 4096 3 1 3 0 0x7f0000000000); [apply re_start|vm_compute; reflexivity|vm_compute; reflexivity|lia
    |eexists _, _; vm_compute; reflexivity|vm_compute; reflexivity].
Qed.

Lemma redirected_files_apart_witness :
  apart (0x7f0000000000, 4096) (0x7f0000001000, 1024)
  ∧ ∀ addr len prot flags fd offset, fd_to_fname fd = "/mnt/cxl0/a" → tocxl "/mnt/cxl0/a" || tomss "/mnt/cxl0/a" = true →
      redirect_mmap (malloc_or_terminate false) (Cxl.malloc DemoFs.node0 DemoFs.ctrlr0) no_memset libc_mmap
        addr len prot flags fd offset r3 = Ret 0x7f0000000000 r3.
Proof.
  apply (redirected_files_apart (malloc_or_terminate false) (Cxl.malloc DemoFs.node0 DemoFs.ctrlr0) no_memset libc_mmap
    (owns (look := DemoVram.d_view)) (serves false) CxlArena.owned CxlArena.room DemoVram.s1 DemoFs.arena0 r3 lens3
    "/mnt/cxl0/a" "/mnt/cxl0/b" 0x7f0000000000 0x7f0000001000 4096 1024);
    [|exact DemoVram.demo_owns|exact DemoFs.arena0_owned|exact r3_reached|vm_compute; reflexivity
    |vm_compute; reflexivity|discriminate|reflexivity|vm_compute; reflexivity|vm_compute; reflexivity].
  intros c rs p n v Hc _. exists c. split; [reflexivity|exact Hc].
Defined.

(** A file that is mapped again with a greater length gets the old range: the
    program writes behind it, into the next file. *)
Theorem longer_mapping_overlaps :
  call 3 8192 r3 = Ret 0x7f0000000000 r3 ∧ call 4 1024 r3 = Ret 0x7f0000001000 r3.
Proof. vm_compute. split; reflexivity. Qed.

(** resize_cache before the first file of libcxlfs reads a null pointer. *)
Theorem resize_before_mmap env : redirect_resize_cache DemoFs.node0 env 1 64 DemoFs.arena0 = Trap DemoFs.arena0.
Proof. reflexivity. Qed.
End DemoRedirect.
