(* ===== verification/PmBuffer.v ===== *)
(** * The persistent buffer (libpmbuffer/libpmbuffer.cc)

    The library maps a file of 6 MiB at start-up, lets a child process reserve cache
    for it and clear it, and hands it out.  The kernel's answers and the environment
    are parameters.  Start-up up to fork is one command; parent and child after it
    are a step relation, in which the signal of the child can arrive before the
    parent waits for it.

    The theorems: the file gets the right size and keeps its bytes if it has it
    already; once the parent is past its wait, the buffer it serves is clear; a
    signal that is early leaves the parent waiting for ever; and a file that does
    not exist ends the program. *)

From stdpp Require Import base list gmap strings relations.
From Stdlib Require Import ZArith Lia.
From S2P Require Import Prelude Memory Text PmemFile.

Definition PERST_BUF_SZ : Z := 6 * 1024 * 1024.

(** ** Parameters *)

Record kern := mkKern {
  kn_env : string → string → string;   (* nvsl::get_env_str: name and default *)
  kn_env_val : string → bool;          (* nvsl::get_env_val *)
  kn_fatal : Z;                        (* the exit code of PERROR_FATAL *)
  kn_open : string → bool;             (* permission and descriptors *)
  kn_lseek : bool;
  kn_write : bool;
  kn_mmap : string → option Z;         (* None is MAP_FAILED *)
  kn_sigaction : Z → bool;             (* true is 0 *)
  kn_bind : Z → bool;                  (* the process runs on that core *)
}.

Definition SIGRTMIN : Z := 34.
Definition SIGRTMAX : Z := 64.
Definition SIGSEGV : Z := 11.
Definition SIGUSR1 : Z := 10.

Inductive handler := libpmbuf_tmp_signal_handler | libpmbuf_tmp_noaction_sighandler.

(** ** State *)

Record pmb := mkPmb {
  p_files : gmap string file;
  perst_buf : Z;
  p_mapped : option string;            (* the file mapped at [perst_buf] *)
  p_handlers : gmap Z handler;
  p_system : list string;              (* commands given to system(), latest first *)
}.

Definition put_pfiles (fs : gmap string file) (s : pmb) : pmb :=
  mkPmb fs (perst_buf s) (p_mapped s) (p_handlers s) (p_system s).
Definition put_buf (a : Z) (m : option string) (s : pmb) : pmb :=
  mkPmb (p_files s) a m (p_handlers s) (p_system s).
Definition put_handler (sig : Z) (h : handler) (s : pmb) : pmb :=
  mkPmb (p_files s) (perst_buf s) (p_mapped s) (<[sig := h]> (p_handlers s)) (p_system s).
Definition system (cmdline : string) : cmd pmb unit :=
  modify (λ s, mkPmb (p_files s) (perst_buf s) (p_mapped s) (p_handlers s) (cmdline :: p_system s)).

Section Ops.
Context (k : kern).

(** [fs::file_size] throws when there is no file, and nobody catches. *)
Definition file_size (path : string) : cmd pmb Z := λ s,
  match p_files s !! path with Some f => Ret (f_size f) s | None => Trap s end.

Definition is_regular_file (path : string) (s : pmb) : bool := bool_decide (is_Some (p_files s !! path)).

(** open with O_CREAT: an empty file where there was none. *)
Definition open_creat (path : string) : cmd pmb bool := λ s,
  if kn_open k path then
    Ret true (if is_regular_file path s then s else put_pfiles (<[path := mkFile 0 (λ _, 0)]> (p_files s)) s)
  else Ret false s.

(** One byte at [off]; the file grows to hold it. *)
Definition write_byte (path : string) (off b : Z) : cmd pmb bool := λ s,
  match p_files s !! path with
  | Some f =>
      if kn_write k then
        Ret true (put_pfiles (<[path := mkFile (Z.max (f_size f) (off + 1)) (write_bytes (f_bytes f) off [b])]>
                    (p_files s)) s)
      else Ret false s
  | None => Ret false s
  end.

Definition perst_buf_fallocate (path : string) (bytes : Z) : cmd pmb unit :=
  let! sz := file_size path in
  do! when (negb (sz =? bytes)) (modify (λ s, put_pfiles (delete path (p_files s)) s)) in
  let! s := get in
  when (negb (is_regular_file path s))
    (let! fd := open_creat path in
     if negb fd then exit_with (kn_fatal k)
     else if negb (kn_lseek k) then exit_with (kn_fatal k)
     else
       let! ok := write_byte path (bytes - 1) 0 in
       when (negb ok) (exit_with (kn_fatal k))).

Definition mount_perst_buf (perst_buf_fname : string) : cmd pmb unit :=
  if bool_decide (perst_buf_fname = "") then exit_with 1
  else
    let! s := get in
    if negb (kn_open k perst_buf_fname && is_regular_file perst_buf_fname s) then exit_with 1
    else
      match kn_mmap k perst_buf_fname with
      | Some a => modify (put_buf a (Some perst_buf_fname))
      | None => modify (put_buf (-1) None)   (* a message, and on it goes *)
      end.

Definition reset_cache_reservations : cmd pmb unit := system "pqos -R".

Definition dquote : string := String (Ascii.ascii_of_nat 34) "".
(** The arguments are not used. *)
Definition reserve_cache (cpuid ways : Z) : cmd pmb unit :=
  system ("pqos -e " +:+ dquote +:+ "llc@0:1=0xf;llc@0:0=0x7f0" +:+ dquote
          +:+ " -a " +:+ dquote +:+ "cos:1=0;cos:0=1-19;" +:+ dquote).

Record pmbuf_t := mkPmbuf { raw : Z; bytes : Z }.

Definition get_pmbuffer : cmd pmb pmbuf_t :=
  let! s := get in
  do! nvsl_assert (negb (perst_buf s =? 0)) in
  ret (mkPmbuf (perst_buf s) PERST_BUF_SZ).

(** The constructor up to fork. *)
Definition ctor_setup : cmd pmb unit :=
  let perst_buf_fname := kn_env k "PERST_BUF_LOC" "" in
  do! for_each (seqZ SIGRTMIN (SIGRTMAX - SIGRTMIN + 1)) (λ i,
        if kn_sigaction k i then modify (put_handler i libpmbuf_tmp_signal_handler) else exit_with 1) in
  do! when (kn_sigaction k SIGSEGV) (modify (put_handler SIGSEGV libpmbuf_tmp_signal_handler)) in
  do! when (kn_sigaction k SIGUSR1) (modify (put_handler SIGUSR1 libpmbuf_tmp_noaction_sighandler)) in
  do! perst_buf_fallocate perst_buf_fname PERST_BUF_SZ in
  mount_perst_buf perst_buf_fname.

(** memset of the whole buffer.  A store outside a mapping faults; the handler
    returns and it faults again. *)
Definition memset_buf : cmd pmb unit := λ s,
  match p_mapped s with
  | Some path =>
      match p_files s !! path with
      | Some f => Ret tt (put_pfiles (<[path := mkFile (f_size f) (fill_bytes (f_bytes f) 0 0 PERST_BUF_SZ)]>
                            (p_files s)) s)
      | None => Trap s
      end
  | None => Trap s
  end.

(** [std::stoul] to int *)
Definition to_int (z : Z) : Z := let w := wrap 32 z in if w <? 2 ^ 31 then w else w - 2 ^ 32.

(** common::bindcore *)
Definition bindcore (cpuid : Z) : cmd pmb unit := if kn_bind k cpuid then ret tt else exit_with 1.

(** The child up to its signal. *)
Definition child_setup : cmd pmb unit :=
  match stoull 10 (kn_env k "BIND_CORE" "0") with
  | None => trap
  | Some n =>
      let cpuid := to_int n in
      do! bindcore cpuid in
      do! reset_cache_reservations in
      do! when (kn_env_val k "RESERVE_CACHE") (reserve_cache cpuid 0xf) in
      memset_buf
  end.
End Ops.

(** ** Parent and child *)

Inductive parent := BeforePause | Paused | Completed.
Inductive child := Starting | Ready | Reading (i : Z) | Gone.

Record procs := mkProcs { pa : parent; ch : child; pm : pmb }.

(** The signal wakes a parent that waits; one that does not wait yet runs the
    handler, which does nothing. *)
Definition deliver (p : parent) : parent := match p with Paused => Completed | _ => p end.

Inductive step (k : kern) : procs → procs → Prop :=
| step_pause c s : step k (mkProcs BeforePause c s) (mkProcs Paused c s)
| step_setup p s s' : child_setup k s = Ret tt s' → step k (mkProcs p Starting s) (mkProcs p Ready s')
| step_setup_fails p s : (∀ s', child_setup k s ≠ Ret tt s') →
    step k (mkProcs p Starting s) (mkProcs p Gone (state_of (child_setup k s)))
| step_kill p s : step k (mkProcs p Ready s) (mkProcs (deliver p) (Reading 0) s)
| step_read p i s : step k (mkProcs p (Reading i) s) (mkProcs p (Reading (wrap64 (i + 1))) s).

(** ** Start-up *)

Section Thms.
Context (k : kern).
Implicit Types s : pmb.

Definition clear_file (f : file) : Prop :=
  f_size f = PERST_BUF_SZ ∧ ∀ x, 0 ≤ x < PERST_BUF_SZ → f_bytes f x = 0.

(** A file of the right size is kept; one of another size is replaced by a file of
    zeros of the right size; a missing one ends the program. *)
Lemma fallocate_spec path n s :
  kn_open k path = true → kn_lseek k = true → kn_write k = true → 0 < n →
  match p_files s !! path with
  | None => perst_buf_fallocate k path n s = Trap s
  | Some f =>
      ∃ f', perst_buf_fallocate k path n s = Ret tt (put_pfiles (<[path := f']> (p_files s)) s)
        ∧ f_size f' = n ∧ (f_size f = n → f' = f)
        ∧ (f_size f ≠ n → ∀ x, f_bytes f' x = 0)
  end.
Proof.
  intros Ho Hl Hw Hn. unfold perst_buf_fallocate, bind, file_size.
  destruct (p_files s !! path) as [f|] eqn:E; [|done].
  destruct (Z.eqb_spec (f_size f) n) as [Hs|Hs]; simpl; unfold get, ret, modify.
  - unfold is_regular_file. rewrite E, bool_decide_true by by eexists. exists f.
    split_and!; [|done..]. simpl. unfold ret. f_equal. destruct s. unfold put_pfiles. simpl in *. f_equal.
    symmetry. by apply insert_id.
  - unfold is_regular_file. simpl. rewrite lookup_delete_eq. simpl. unfold bind, open_creat. rewrite Ho.
    unfold is_regular_file. simpl. rewrite lookup_delete_eq. simpl. rewrite Hl. simpl.
    unfold bind, write_byte. simpl. rewrite lookup_insert_eq, Hw. simpl.
    eexists. split.
    { unfold ret, put_pfiles. simpl. by rewrite insert_insert_eq, insert_delete_eq. }
    split_and!; [simpl; lia|done|]. intros _ x. simpl. unfold write_bytes. simpl. destruct (in_rng _ _ _) eqn:Er; [|done].
    apply in_rng_spec in Er. change (blen [0]) with 1 in Er. by replace (Z.to_nat (x - (n - 1))) with O by lia.
Qed.

Lemma install_handlers (sigs : list Z) s :
  (∀ i, kn_sigaction k i = true) →
  ∃ s', for_each sigs (λ i,
          if kn_sigaction k i then modify (put_handler i libpmbuf_tmp_signal_handler) else exit_with 1) s
        = Ret tt s' ∧ p_files s' = p_files s.
Proof.
  intros Hk. apply (for_each_inv (λ s', p_files s' = p_files s)); [|done]. intros i s' _ H. rewrite Hk.
  by eexists.
Qed.

(** Everything the kernel is asked for works. *)
Record answers (loc : string) (a : Z) : Prop := {
  an_loc : kn_env k "PERST_BUF_LOC" "" = loc ∧ loc ≠ "";
  an_open : kn_open k loc = true;
  an_lseek : kn_lseek k = true;
  an_write : kn_write k = true;
  an_mmap : kn_mmap k loc = Some a;
  an_sig i : kn_sigaction k i = true;
}.

Lemma ctor_setup_spec loc a f s :
  answers loc a → p_files s !! loc = Some f →
  ∃ s', ctor_setup k s = Ret tt s' ∧ perst_buf s' = a ∧ p_mapped s' = Some loc
    ∧ ∃ f', p_files s' !! loc = Some f' ∧ f_size f' = PERST_BUF_SZ.
Proof.
  intros [[Hl Hne] Ho Hs Hw Hm Hk] Hf. unfold ctor_setup. rewrite Hl.
  destruct (install_handlers (seqZ SIGRTMIN (SIGRTMAX - SIGRTMIN + 1)) s Hk) as (s1 & E1 & F1).
  rewrite (bind_eq _ _ _ _ _ E1), !Hk. simpl.
  unfold bind at 1, modify. simpl. unfold bind at 1. simpl.
  set (s2 := put_handler _ _ _).
  pose proof (fallocate_spec loc PERST_BUF_SZ s2 Ho Hs Hw eq_refl) as H.
  assert (p_files s2 !! loc = Some f) as Hf2 by (simpl; by rewrite F1). rewrite Hf2 in H.
  destruct H as (f' & E & Hsz & _). rewrite (bind_eq _ _ _ _ _ E).
  unfold mount_perst_buf. rewrite bool_decide_false by done. unfold bind, get, is_regular_file.
  simpl. rewrite lookup_insert_eq, bool_decide_true by by eexists. rewrite Ho, Hm. simpl.
  eexists. split; [reflexivity|]. simpl. rewrite lookup_insert_eq. eauto.
Qed.

(** ** The two processes *)

(** The buffer is mapped; it is clear from the end of the child's set-up on, and
    the parent goes on after that only. *)
Record served (loc : string) (a : Z) (q : procs) : Prop := {
  sv_buf : perst_buf (pm q) = a;
  sv_map : p_mapped (pm q) = Some loc;
  sv_file : ∃ f, p_files (pm q) !! loc = Some f ∧ f_size f = PERST_BUF_SZ
              ∧ match ch q with Ready | Reading _ => clear_file f | _ => True end;
  sv_order : pa q = Completed → match ch q with Reading _ => True | _ => False end;
}.

(** What the child does to the library's state. *)
Lemma child_setup_spec loc s f :
  p_mapped s = Some loc → p_files s !! loc = Some f →
  let s' := state_of (child_setup k s) in
  perst_buf s' = perst_buf s ∧ p_mapped s' = Some loc
  ∧ ∃ f', p_files s' !! loc = Some f' ∧ f_size f' = f_size f
      ∧ (child_setup k s = Ret tt s' → ∀ x, 0 ≤ x < PERST_BUF_SZ → f_bytes f' x = 0).
Proof.
  intros Hm Hf. unfold child_setup. destruct (stoull 10 _) as [n|]; [|by simpl; split_and!; [..|exists f]].
  unfold bind, bindcore, reset_cache_reservations, system, modify.
  destruct (kn_bind k _); [|by simpl; split_and!; [..|exists f]].
  destruct (kn_env_val k _); simpl; unfold memset_buf; simpl; rewrite Hm, Hf; simpl.
  all: split_and!; try done; eexists; rewrite lookup_insert_eq; split_and!; [done..|].
  all: intros _ x Hx; simpl; unfold fill_bytes.
  all: by rewrite (proj2 (in_rng_spec _ _ _)) by lia.
Qed.

Lemma child_setup_returns loc s f n :
  p_mapped s = Some loc → p_files s !! loc = Some f →
  stoull 10 (kn_env k "BIND_CORE" "0") = Some n → kn_bind k (to_int n) = true →
  ∃ s', child_setup k s = Ret tt s'.
Proof.
  intros Hm Hf Hn Hb. unfold child_setup, bind, bindcore, reset_cache_reservations, system, modify.
  rewrite Hn, Hb. destruct (kn_env_val k _); simpl; unfold memset_buf; simpl; rewrite Hm, Hf; by eexists.
Qed.

Lemma step_served loc a q q' : served loc a q → step k q q' → served loc a q'.
Proof.
  intros [Hb Hm (f & Hf & Hs & Hc) Ho] Hstep. destruct Hstep; simpl in *.
  - split; simpl; eauto. done.
  - pose proof (child_setup_spec loc s f Hm Hf) as H1. rewrite H in H1. simpl in H1.
    destruct H1 as (H1 & H2 & f' & H3 & H4 & H5). split; simpl; try congruence.
    exists f'. split_and!; [done|congruence|]. split; [congruence|by apply H5].
  - destruct (child_setup_spec loc s f Hm Hf) as (H1 & H2 & f' & H3 & H4 & _).
    split; simpl; try congruence. exists f'. split_and!; [done|congruence|done].
  - split; simpl; eauto.
  - split; simpl; eauto.
Qed.

Lemma reachable_served loc a q q' : served loc a q → rtc (step k) q q' → served loc a q'.
Proof. intros Hq Hr. induction Hr as [|x y z Hxy _ IH]; [done|]. apply IH. by eapply step_served. Qed.

Lemma start_up_spec loc a f s :
  answers loc a → a ≠ 0 → p_files s !! loc = Some f →
  ∃ s1, ctor_setup k s = Ret tt s1 ∧
    ∀ q, rtc (step k) (mkProcs BeforePause Starting s1) q → pa q = Completed →
    get_pmbuffer (pm q) = Ret (mkPmbuf a PERST_BUF_SZ) (pm q)
    ∧ ∃ f', p_files (pm q) !! loc = Some f' ∧ clear_file f'.
Proof.
  intros Hk Ha Hf. destruct (ctor_setup_spec loc a f s Hk Hf) as (s1 & E & H1 & H2 & f1 & H3 & H4).
  exists s1. split; [done|]. intros q Hr Hq.
  assert (served loc a (mkProcs BeforePause Starting s1)) as H0.
  { split; simpl; [done..| |done]. by exists f1. }
  destruct (reachable_served loc a _ q H0 Hr) as [S1 S2 (f' & S3 & S4 & S5) S6].
  specialize (S6 Hq). split.
  - unfold get_pmbuffer, bind, get. rewrite S1, (proj2 (Z.eqb_neq _ _)) by done. done.
  - exists f'. split; [done|]. by destruct (ch q).
Qed.

(** When the child signals before the parent waits, the parent waits for ever. *)
Lemma early_signal_is_lost s s' :
  child_setup k s = Ret tt s' →
  ∃ q, rtc (step k) (mkProcs BeforePause Starting s) q ∧ pa q = Paused
    ∧ ∀ q', rtc (step k) q q' → pa q' = Paused.
Proof.
  intros Hc. exists (mkProcs Paused (Reading 0) s'). split_and!; [|done|].
  - eapply rtc_l; [by apply step_setup|]. eapply rtc_l; [apply step_kill|].
    eapply rtc_l; [apply step_pause|apply rtc_refl].
  - intros q' Hr. assert (∀ q, (∃ i, ch q = Reading i) ∧ pa q = Paused → ∀ q', rtc (step k) q q' → pa q' = Paused)
      as H; [|by eapply H; [|exact Hr]; split; [eexists|]].
    clear. intros q Hq q' Hr. induction Hr as [|x y z Hxy _ IH]; [by apply Hq|]. apply IH.
    destruct Hq as [[i Hi] Hp]. destruct Hxy; simpl in *; try done. split; [by eexists|done].
Qed.
End Thms.

(** ** Properties *)

(** C37: When the file exists and the kernel serves its calls, start-up returns, and
    in whatever order parent and child run afterwards: once the parent is past its
    wait, the buffer it serves is the mapping of a file of 6 MiB, and all its bytes
    are zero. *)
Theorem start_up_serves_clear_buffer k loc a f (s : pmb) :
  answers k loc a → a ≠ 0 → p_files s !! loc = Some f →
  ∃ s1, ctor_setup k s = Ret tt s1 ∧
    ∀ q, rtc (step k) (mkProcs BeforePause Starting s1) q → pa q = Completed →
    get_pmbuffer (pm q) = Ret (mkPmbuf a PERST_BUF_SZ) (pm q)
    ∧ ∃ f', p_files (pm q) !! loc = Some f' ∧ clear_file f'.
Proof. apply start_up_spec. Qed.

(** ** One machine *)

Module DemoPmb.
Definition loc : string := "/mnt/pmem0/buf".
Definition kern0 : kern :=
  mkKern (λ name dflt, if bool_decide (name = "PERST_BUF_LOC") then loc else dflt) (λ _, true) 1
    (λ _, true) true true (λ _, Some 0x7f0000000000) (λ _, true) (λ _, true).
Definition s0 : pmb := mkPmb {[ loc := mkFile 100 (λ x, x) ]} 0 None ∅ [].

Lemma kern0_answers : answers kern0 loc 0x7f0000000000.
Proof. by split. Qed.

Lemma start_up_serves_clear_buffer_witness :
  ∃ s1, ctor_setup kern0 s0 = Ret tt s1 ∧
    ∀ q, rtc (step kern0) (mkProcs BeforePause Starting s1) q → pa q = Completed →
    get_pmbuffer (pm q) = Ret (mkPmbuf 0x7f0000000000 PERST_BUF_SZ) (pm q)
    ∧ ∃ f', p_files (pm q) !! loc = Some f' ∧ clear_file f'.
Proof. apply (start_up_serves_clear_buffer kern0 loc _ (mkFile 100 (λ x, x)) s0 kern0_answers); done. Defined.

(** Without the file there is no start-up, although the file is to be allocated. *)
Fact missing_file_ends_program : ∃ s, ctor_setup kern0 (mkPmb ∅ 0 None ∅ []) = Trap s.
Proof. eexists. vm_compute. reflexivity. Qed.

(** Nor with an empty name: the message of the mount is never printed. *)
Fact empty_name_ends_program :
  ∃ s, ctor_setup (mkKern (λ _ dflt, dflt) (λ _, true) 1 (λ _, true) true true (λ _, Some 1) (λ _, true) (λ _, true))
         s0 = Trap s.
Proof. eexists. vm_compute. reflexivity. Qed.

(** A mapping that failed is handed out. *)
Fact failed_mapping_is_served :
  let k := mkKern (kn_env kern0) (λ _, true) 1 (λ _, true) true true (λ _, None) (λ _, true) (λ _, true) in
  let s := state_of (ctor_setup k s0) in get_pmbuffer s = Ret (mkPmbuf (-1) PERST_BUF_SZ) s.
Proof.
  intros k s. assert (perst_buf s = -1) as E by (vm_compute; reflexivity). clearbody s.
  unfold get_pmbuffer, bind, get. by rewrite E.
Qed.

(** One order of steps in which the parent goes on. *)
Fact parent_completes : ∃ q s1,
  ctor_setup kern0 s0 = Ret tt s1 ∧ rtc (step kern0) (mkProcs BeforePause Starting s1) q ∧ pa q = Completed.
Proof.
  destruct (ctor_setup_spec kern0 loc _ (mkFile 100 (λ x, x)) s0 kern0_answers eq_refl)
    as (s1 & E & _ & Hm & f & Hf & _).
  destruct (child_setup_returns kern0 loc s1 f 0 Hm Hf eq_refl eq_refl) as [s2 E2].
  exists (mkProcs Completed (Reading 0) s2), s1. split_and!; [done| |done].
  eapply rtc_l; [apply step_pause|]. eapply rtc_l; [by apply step_setup|].
  eapply rtc_l; [apply step_kill|apply rtc_refl].
Qed.
End DemoPmb.
