(* ===== verification/Famus.v ===== *)
(** * Snapshots by file cloning (examples/simplekv_famus/simplekv_famus.hh,
      examples/microbenchmarks_famus/famus.cc)

    The baseline the repository measures itself against: msync becomes a clone of
    the backing file into a snapshot file, whose permissions say whether it is
    complete.  simplekv_famus.hh has one snapshot file, famus.cc two that take
    turns.

    A file keeps what the medium holds and the versions written since the last
    fsync; after a crash every block is the durable one or one of those, and the
    permissions likewise.  The state records the files after every system call, so
    that a theorem can speak of a crash at any point; which calls fail is a
    parameter.

    The theorems: the first snapshot into a file is atomic; with two files, the last
    complete snapshot is on the medium at every point of the next one.  And: nothing
    makes a file writable again, so that a second snapshot into a file is torn while
    the permissions still say complete, and a second process cannot open it. *)

From stdpp Require Import base list gmap strings.
From Stdlib Require Import ZArith Lia.
From S2P Require Import Prelude Memory.

(** ** Files *)

Definition S_IRUSR : Z := 0x100.
Definition S_IWUSR : Z := 0x80.

(** The durable value and the versions since, latest first. *)
Record versions (A : Type) := mkV { durable : A; pending : list A }.
Arguments mkV {A}.
Arguments durable {A}.
Arguments pending {A}.

Definition current {A} (v : versions A) : A := match pending v with x :: _ => x | [] => durable v end.
Definition put_version {A} (x : A) (v : versions A) : versions A := mkV (durable v) (x :: pending v).
Definition sync_version {A} (v : versions A) : versions A := mkV (current v) [].
Definition possible {A} (v : versions A) : list A := durable v :: pending v.

Record inode := mkInode { i_data : versions mem; i_mode : versions Z }.

(** What a crash can leave of a file. *)
Definition crashed (f : inode) (data : mem) (mode : Z) : Prop :=
  (∀ x, ∃ d, d ∈ possible (i_data f) ∧ data x = d x) ∧ mode ∈ possible (i_mode f).

Abbreviation fsys := (gmap string inode).

Definition rwperm (m r w : Z) : bool :=
  ((if negb (Z.land m S_IRUSR =? 0) then 1 else 0) =? r)
  && ((if negb (Z.land m S_IWUSR =? 0) then 1 else 0) =? w).

(** The success indicator. *)
Definition marked (mode : Z) : bool := rwperm mode 1 0.

Definition new_file (mode : Z) : inode := mkInode (mkV (λ _, 0) []) (mkV mode []).
Definition clone (data : mem) (f : inode) : inode := mkInode (put_version data (i_data f)) (i_mode f).
Definition chmod (mode : Z) (f : inode) : inode := mkInode (i_data f) (put_version mode (i_mode f)).
Definition synced (f : inode) : inode := mkInode (sync_version (i_data f)) (sync_version (i_mode f)).

(** ** State *)

Record famus := mkFamus {
  bf : mem;                     (* the backing file, as mapped *)
  bfname : string;
  files : fsys;
  snap_fd0 : option string;     (* the file behind the descriptor *)
  snap_fd1 : option string;
  fd_switch : bool;
  calls : nat;
  seen : list fsys;             (* the files after each call, latest first *)
}.

Definition put_fsys (fs : fsys) (s : famus) : famus :=
  mkFamus (bf s) (bfname s) fs (snap_fd0 s) (snap_fd1 s) (fd_switch s) (S (calls s)) (fs :: seen s).
Definition put_fd0 (fd : option string) (s : famus) : famus :=
  mkFamus (bf s) (bfname s) (files s) fd (snap_fd1 s) (fd_switch s) (calls s) (seen s).
Definition put_fd1 (fd : option string) (s : famus) : famus :=
  mkFamus (bf s) (bfname s) (files s) (snap_fd0 s) fd (fd_switch s) (calls s) (seen s).
Definition put_switch (b : bool) (s : famus) : famus :=
  mkFamus (bf s) (bfname s) (files s) (snap_fd0 s) (snap_fd1 s) b (calls s) (seen s).

Section Calls.
(** Whether the n-th call succeeds; whether the process may open any file. *)
Context (k : nat → bool) (superuser : bool).

(** A call that changes the files, if it succeeds. *)
Definition syscall (f : fsys → fsys) : cmd famus bool := λ s,
  if k (calls s) then Ret true (put_fsys (f (files s)) s) else Ret false (put_fsys (files s) s).

Definition fatal_if (cond : bool) : cmd famus unit := if cond then exit_with 1 else ret tt.

(** open with O_CREAT | O_RDWR: an existing file must be readable and writable. *)
Definition open_rw (path : string) (mode : Z) : cmd famus (option string) := λ s,
  match files s !! path with
  | Some f =>
      let may := superuser || rwperm (current (i_mode f)) 1 1 in
      Ret (if k (calls s) && may then Some path else None) (put_fsys (files s) s)
  | None =>
      if k (calls s) then Ret (Some path) (put_fsys (<[path := new_file mode]> (files s)) s)
      else Ret None (put_fsys (files s) s)
  end.

Definition on_file (fd : string) (f : inode → inode) (fs : fsys) : fsys := alter f fd fs.

Definition ioctl_ficlone (fd : string) : cmd famus bool := λ s, syscall (on_file fd (clone (bf s))) s.
Definition fsync (fd : string) : cmd famus bool := syscall (on_file fd synced).
Definition fchmod (fd : string) (mode : Z) : cmd famus bool := syscall (on_file fd (chmod mode)).
Definition no_effect : cmd famus bool := syscall id.

(** fstat: the mode, if the call succeeds. *)
Definition fstat (fd : string) : cmd famus (bool * Z) :=
  let! ok := no_effect in
  let! s := get in
  ret (ok, match files s !! fd with Some f => current (i_mode f) | None => 0 end).

(** From FICLONE to the second fsync. *)
Definition seal (fd : string) : cmd famus unit :=
  let! ok := fsync fd in
  do! fatal_if (negb ok) in
  let! ok := fchmod fd S_IRUSR in
  do! fatal_if (negb ok) in
  let! st := fstat fd in
  do! fatal_if (negb (fst st)) in
  do! fatal_if (negb (rwperm (snd st) 1 0)) in
  let! ok := fsync fd in
  do! fatal_if (negb ok) in
  let! ok := no_effect in          (* lseek *)
  fatal_if (negb ok).

(** *** simplekv_famus.hh: one snapshot file *)

Definition famus_snap_sync : cmd famus Z :=
  let! s := get in
  do! match snap_fd0 s with
      | None =>
          let! fd := open_rw (bfname s +:+ ".snapshot") 0x1b6 in  (* 0666 *)
          do! modify (put_fd0 fd) in
          fatal_if (bool_decide (fd = None))
      | Some _ => ret tt
      end in
  let! s := get in
  match snap_fd0 s with
  | None => trap
  | Some snap_fd =>
      let! st := fstat snap_fd in
      do! fatal_if (negb (fst st)) in
      let! ok := ioctl_ficlone snap_fd in
      do! fatal_if (negb ok) in
      do! seal snap_fd in
      ret 0
  end.

(** *** famus.cc: two snapshot files that take turns *)

Definition famus_open : cmd famus unit :=
  let! s := get in
  let! fd := open_rw (bfname s +:+ ".snapshot0") S_IWUSR in
  do! modify (put_fd0 fd) in
  do! fatal_if (bool_decide (fd = None)) in
  let! fd := open_rw (bfname s +:+ ".snapshot1") S_IWUSR in
  do! modify (put_fd1 fd) in
  do! fatal_if (bool_decide (fd = None)) in
  let! ok := no_effect in          (* open of the directory *)
  do! fatal_if (negb ok) in
  let! ok := no_effect in          (* its fsync *)
  fatal_if (negb ok).

Definition famus_snap_sync2 : cmd famus Z :=
  let! s := get in
  do! when (bool_decide (snap_fd0 s = None)) famus_open in
  let! ok := no_effect in          (* msync of the mapping *)
  do! fatal_if (negb ok) in
  let! s := get in
  match (if fd_switch s then snap_fd0 s else snap_fd1 s) with
  | None => trap
  | Some snap_fd =>
      let! ok := fsync snap_fd in
      do! fatal_if (negb ok) in
      let! st := fstat snap_fd in
      do! fatal_if (negb (fst st)) in
      let! ok := ioctl_ficlone snap_fd in
      do! fatal_if (negb ok) in
      let! ok := no_effect in      (* system(cmd_snapshot) *)
      do! fatal_if (negb ok) in
      let! ok := no_effect in      (* system(cmd_backing) *)
      do! fatal_if (negb ok) in
      do! seal snap_fd in
      do! modify (λ s, put_switch (negb (fd_switch s)) s) in
      ret 0
  end.
End Calls.

(** ** Reasoning about all points of a run *)

#[local] Arguments fatal_if : simpl never.

(** [wp I c Q s]: run from [s], [c] does not trap; the files satisfy [I] after each
    of its calls; and [Q] holds if it returns. *)
Definition wp {A} (I : fsys → Prop) (c : cmd famus A) (Q : A → famus → Prop) (s : famus) : Prop :=
  (∃ new, seen (state_of (c s)) = new ++ seen s ∧ Forall I new)
  ∧ match c s with Ret a s' => Q a s' | Exit _ _ => True | Trap _ => False end.

(** All that a call on files leaves alone. *)
Definition same_fds (s s' : famus) : Prop :=
  bf s' = bf s ∧ bfname s' = bfname s ∧ snap_fd0 s' = snap_fd0 s ∧ snap_fd1 s' = snap_fd1 s
  ∧ fd_switch s' = fd_switch s.

#[export] Instance same_fds_refl : Reflexive same_fds.
Proof. done. Qed.
#[export] Instance same_fds_trans : Transitive same_fds.
Proof. intros s1 s2 s3 (?&?&?&?&?) (?&?&?&?&?). split_and!; congruence. Qed.

Section Rules.
Context (k : nat → bool) (I : fsys → Prop).

Lemma wp_ret {A} (a : A) Q s : Q a s → wp I (ret a) Q s.
Proof. intros H. split; [by exists []|done]. Qed.

Lemma wp_modify (f : famus → famus) Q s : seen (f s) = seen s → Q tt (f s) → wp I (modify f) Q s.
Proof. intros Hs H. split; [exists []; by rewrite <-Hs|done]. Qed.

Lemma wp_get Q s : Q s s → wp I get Q s.
Proof. intros H. split; [by exists []|done]. Qed.

Lemma wp_bind {A B} (c : cmd famus A) (kk : A → cmd famus B) Q s :
  wp I c (λ a s', wp I (kk a) Q s') s → wp I (bind c kk) Q s.
Proof.
  unfold wp, bind. destruct (c s) as [a s'|code s'|s']; simpl; [|by intros [? _]|by intros [_ []]].
  intros [(n1 & E1 & H1) [(n2 & E2 & H2) H]]. split; [|done]. exists (n2 ++ n1).
  rewrite E2, E1. split; [by rewrite app_assoc|by apply Forall_app].
Qed.

Lemma wp_mono {A} (c : cmd famus A) (Q Q' : A → famus → Prop) s :
  wp I c Q s → (∀ a s', Q a s' → Q' a s') → wp I c Q' s.
Proof. intros [H1 H2] HQ. split; [done|]. destruct (c s); eauto. Qed.

(** A call whose failure ends the process. *)
Lemma wp_syscall f Q s :
  I (files s) → I (f (files s)) →
  (∀ s', files s' = f (files s) → same_fds s s' → Q tt s') →
  wp I (let! ok := syscall k f in fatal_if (negb ok)) Q s.
Proof.
  intros H1 H2 HQ. unfold wp, bind, syscall. destruct (k (calls s)); simpl.
  - split; [by exists [f (files s)]; split; [|constructor]|by apply HQ].
  - split; [by exists [files s]; split; [|constructor]|done].
Qed.

Lemma wp_fstat fd f Q s :
  files s !! fd = Some f → I (files s) →
  (∀ ok s', files s' = files s → same_fds s s' → Q (ok, current (i_mode f)) s') →
  wp I (fstat k fd) Q s.
Proof.
  intros Hf HI HQ. unfold wp, fstat, no_effect, bind, syscall, get, ret.
  destruct (k (calls s)); simpl; rewrite Hf; (split; [by exists [files s]; split; [|constructor]|by apply HQ]).
Qed.

Lemma wp_fatal_if b Q s : (b = false → Q tt s) → wp I (fatal_if b) Q s.
Proof. intros HQ. split; [by exists []; destruct b|]. destruct b; simpl; auto. Qed.
End Rules.

(** The commands bind the result of a call and test it in one go. *)
Lemma bind_fatal {B} (c : cmd famus bool) (r : cmd famus B) s :
  bind c (λ ok, bind (fatal_if (negb ok)) (λ _, r)) s
  = bind (bind c (λ ok, fatal_if (negb ok))) (λ _, r) s.
Proof. symmetry. apply bind_assoc. Qed.

Lemma wp_bind_fatal {B} k I f (r : cmd famus B) Q s :
  I (files s) → I (f (files s)) →
  (∀ s', files s' = f (files s) → same_fds s s' → wp I r Q s') →
  wp I (let! ok := syscall k f in do! fatal_if (negb ok) in r) Q s.
Proof.
  intros H1 H2 H3. unfold wp. rewrite bind_fatal. apply wp_bind. by apply wp_syscall.
Qed.

Lemma wp_ficlone {B} k I fd (r : cmd famus B) Q s :
  I (files s) → I (on_file fd (clone (bf s)) (files s)) →
  (∀ s', files s' = on_file fd (clone (bf s)) (files s) → same_fds s s' → wp I r Q s') →
  wp I (let! ok := ioctl_ficlone k fd in do! fatal_if (negb ok) in r) Q s.
Proof. apply (wp_bind_fatal k I (on_file fd (clone (bf s)))). Qed.

Lemma wp_seal k I fd f Q s :
  files s !! fd = Some f → I (files s) →
  I (on_file fd synced (files s)) →
  I (on_file fd (chmod S_IRUSR ∘ synced) (files s)) →
  I (on_file fd (synced ∘ chmod S_IRUSR ∘ synced) (files s)) →
  (∀ s', files s' = on_file fd (synced ∘ chmod S_IRUSR ∘ synced) (files s) → same_fds s s' → Q tt s') →
  wp I (seal k fd) Q s.
Proof.
  intros Hf I0 I1 I2 I3 HQ. unfold seal, fsync, fchmod, no_effect.
  apply wp_bind_fatal; [done..|]. intros s1 E1 F1.
  assert (files s1 !! fd = Some (synced f)) as Hf1.
  { rewrite E1. unfold on_file. by rewrite lookup_alter_eq, Hf. }
  assert (on_file fd (chmod S_IRUSR) (files s1) = on_file fd (chmod S_IRUSR ∘ synced) (files s)) as G2.
  { rewrite E1. unfold on_file. by rewrite alter_alter_eq. }
  apply wp_bind_fatal; [by rewrite E1|by rewrite G2|]. intros s2 E2 F2. rewrite G2 in E2.
  assert (files s2 !! fd = Some (chmod S_IRUSR (synced f))) as Hf2.
  { rewrite E2. unfold on_file. by rewrite lookup_alter_eq, Hf. }
  apply wp_bind. eapply wp_fstat; [exact Hf2|by rewrite E2|]. intros ok s3 E3 F3. cbv beta.
  apply wp_bind, wp_fatal_if. intros _. apply wp_bind, wp_fatal_if. intros _.
  assert (on_file fd synced (files s3) = on_file fd (synced ∘ chmod S_IRUSR ∘ synced) (files s)) as G4.
  { rewrite E3, E2. unfold on_file. by rewrite alter_alter_eq. }
  apply wp_bind_fatal; [by rewrite E3, E2|by rewrite G4|]. intros s4 E4 F4. rewrite G4 in E4.
  apply wp_syscall; [by rewrite E4|by rewrite E4|]. intros s5 E5 F5. unfold id in E5.
  apply HQ; [congruence|]. by do 4 (etrans; [eassumption|]).
Qed.

(** ** What the snapshot file can look like after a crash *)

Definition unmarked (f : inode) : Prop := Forall (λ m, marked m = false) (possible (i_mode f)).

(** Marked after a crash, then it holds [D]. *)
Definition honest (D : mem) (f : inode) : Prop :=
  ∀ data mode, crashed f data mode → marked mode = true → ∀ x, data x = D x.

(** On the medium, whole and marked. *)
Definition complete (D : mem) (f : inode) : Prop :=
  i_data f = mkV D [] ∧ i_mode f = mkV S_IRUSR [].

Lemma honest_unmarked D f : unmarked f → honest D f.
Proof.
  intros Hu data mode [_ Hm] Hmark. unfold unmarked in Hu. rewrite Forall_forall in Hu.
  specialize (Hu _ Hm). congruence.
Qed.

Lemma honest_durable D f : i_data f = mkV D [] → honest D f.
Proof.
  intros E data mode [Hd _] _ x. destruct (Hd x) as (d & Hin & ->). rewrite E in Hin.
  unfold possible in Hin. simpl in Hin. set_solver.
Qed.

Lemma complete_crash D f data mode :
  complete D f → crashed f data mode → marked mode = true ∧ ∀ x, data x = D x.
Proof.
  intros [E1 E2] Hc. split; [|by eapply (honest_durable D f E1); [exact Hc|];
    destruct Hc as [_ Hm]; rewrite E2 in Hm; unfold possible in Hm; simpl in Hm; set_solver].
  destruct Hc as [_ Hm]. rewrite E2 in Hm. unfold possible in Hm. simpl in Hm. set_solver.
Qed.

Lemma new_unmarked m : marked m = false → unmarked (new_file m).
Proof. intros H. by apply Forall_singleton. Qed.

Lemma sealed_complete D f : complete D ((synced ∘ chmod S_IRUSR ∘ synced) (clone D f)).
Proof. done. Qed.

(** The states of a file on the way from the clone to the seal. *)
Lemma lookup_on_file fd g (fs : fsys) f : fs !! fd = Some f → on_file fd g fs !! fd = Some (g f).
Proof. intros E. unfold on_file. by rewrite lookup_alter_eq, E. Qed.

Lemma lookup_on_file_ne fd fd' g (fs : fsys) : fd ≠ fd' → on_file fd g fs !! fd' = fs !! fd'.
Proof. intros Hne. unfold on_file. by rewrite lookup_alter_ne. Qed.

(** *** One snapshot file *)

Section Single.
Context (k : nat → bool) (superuser : bool).

Definition snapshot_path (s : famus) : string := bfname s +:+ ".snapshot".

(** No snapshot has been sealed in the file before. *)
Definition first_time (s : famus) : Prop :=
  match snap_fd0 s with
  | None => files s !! snapshot_path s = None
  | Some fd => fd = snapshot_path s ∧ ∃ f, files s !! fd = Some f ∧ unmarked f
  end.

Lemma single_clone_spec s s0 fd f :
  snap_fd0 s = Some fd → files s !! fd = Some f → unmarked f → bf s0 = bf s →
  wp (λ fs, ∀ f, fs !! fd = Some f → honest (bf s0) f)
     (let! s := get in
      match snap_fd0 s with
      | None => trap
      | Some snap_fd =>
          let! st := fstat k snap_fd in
          do! fatal_if (negb (fst st)) in
          let! ok := ioctl_ficlone k snap_fd in
          do! fatal_if (negb ok) in
          do! seal k snap_fd in
          ret 0
      end)
     (λ r s', r = 0 ∧ ∃ f, files s' !! fd = Some f ∧ complete (bf s0) f) s.
Proof.
  intros Hfd Hf Hu Hbf. set (I := λ fs : fsys, ∀ f, fs !! fd = Some f → honest (bf s0) f).
  assert (∀ g (fs : fsys) f, fs !! fd = Some f → honest (bf s0) (g f) → I (on_file fd g fs)) as HI.
  { intros g fs f0 E H f1 E1. rewrite (lookup_on_file fd g fs f0 E) in E1. by injection E1 as <-. }
  assert (I (files s)) as I0. { intros f0 E. rewrite Hf in E. injection E as <-. by apply honest_unmarked. }
  apply wp_bind, wp_get. rewrite Hfd.
  apply wp_bind. eapply wp_fstat; [exact Hf|done|]. intros ok s1 E1 F1. apply wp_bind, wp_fatal_if. intros _.
  destruct F1 as (B1 & F1'). apply wp_ficlone.
  - by rewrite E1.
  - rewrite E1. eapply HI; [exact Hf|]. by apply honest_unmarked.
  - intros s2 E2 F2. rewrite E1 in E2. set (f2 := clone (bf s1) f).
    assert (files s2 !! fd = Some f2) as Hf2 by (rewrite E2; by apply lookup_on_file).
    assert (bf s1 = bf s0) as Hb by congruence.
    apply wp_bind. eapply wp_seal; [exact Hf2|..].
    + rewrite E2. eapply HI; [exact Hf|]. by apply honest_unmarked.
    + eapply HI; [exact Hf2|]. apply honest_durable. simpl. by rewrite Hb.
    + eapply HI; [exact Hf2|]. apply honest_durable. simpl. by rewrite Hb.
    + eapply HI; [exact Hf2|]. apply honest_durable. simpl. by rewrite Hb.
    + intros s3 E3 _. apply wp_ret. split; [done|]. rewrite E3. eexists.
      split; [by apply lookup_on_file|]. unfold f2. rewrite Hb. apply sealed_complete.
Qed.

Lemma single_spec s :
  first_time s →
  wp (λ fs, ∀ f, fs !! snapshot_path s = Some f → honest (bf s) f)
     (famus_snap_sync k superuser)
     (λ r s', r = 0 ∧ ∃ f, files s' !! snapshot_path s = Some f ∧ complete (bf s) f) s.
Proof.
  intros Hft. unfold famus_snap_sync. apply wp_bind, wp_get. unfold first_time in Hft.
  destruct (snap_fd0 s) as [fd|] eqn:Efd.
  - destruct Hft as (-> & f & Hf & Hu). apply wp_bind, wp_ret. by eapply single_clone_spec.
  - fold (snapshot_path s). apply wp_bind, wp_bind. unfold wp at 1, open_rw. rewrite Hft.
    assert (∀ f, <[snapshot_path s := new_file 0x1b6]> (files s) !! snapshot_path s = Some f → honest (bf s) f) as Hn.
    { intros f. rewrite lookup_insert_eq. intros [= <-]. by apply honest_unmarked, new_unmarked. }
    destruct (k (calls s)); simpl.
    + split; [by exists [<[snapshot_path s := new_file 0x1b6]> (files s)]; split; [|constructor]|].
      apply wp_bind, wp_modify; [done|]. apply wp_fatal_if. intros _.
      eapply single_clone_spec; [done|by apply lookup_insert_eq|by apply new_unmarked|done].
    + split; [exists [files s]; split; [done|constructor; [|done]]|].
      { intros f Hf. congruence. }
      apply wp_bind, wp_modify; [done|]. by apply wp_fatal_if.
Qed.
End Single.

(** *** Two snapshot files *)

Section Double.
Context (k : nat → bool) (superuser : bool).

Definition set_bf (D : mem) (s : famus) : famus :=
  mkFamus D (bfname s) (files s) (snap_fd0 s) (snap_fd1 s) (fd_switch s) (calls s) (seen s).

(** The file the next call writes, and the one it leaves alone. *)
Definition target (s : famus) : option string := if fd_switch s then snap_fd0 s else snap_fd1 s.
Definition other (s : famus) : option string := if fd_switch s then snap_fd1 s else snap_fd0 s.

Record rotating (s : famus) : Prop := {
  ro_open : is_Some (snap_fd0 s) ∧ is_Some (snap_fd1 s) ∧ snap_fd0 s ≠ snap_fd1 s;
  ro_files fd : snap_fd0 s = Some fd ∨ snap_fd1 s = Some fd → is_Some (files s !! fd);
}.

Definition has_complete (fd : string) (D : mem) (fs : fsys) : Prop :=
  ∃ f, fs !! fd = Some f ∧ complete D f.

Lemma rotating_fds s :
  rotating s → ∃ t o ft, target s = Some t ∧ other s = Some o ∧ t ≠ o ∧ files s !! t = Some ft.
Proof.
  intros [([a Ea] & [b Eb] & Hne) Hf]. unfold target, other. destruct (fd_switch s).
  - destruct (Hf a (or_introl Ea)) as [ft Hft]. exists a, b, ft. split_and!; try done. congruence.
  - destruct (Hf b (or_intror Eb)) as [ft Hft]. exists b, a, ft. split_and!; try done. congruence.
Qed.

(** The part of the call after the files are open: any property of files that does
    not look at the target holds throughout. *)
Lemma double_clone_spec (J : fsys → Prop) s t o ft :
  target s = Some t → other s = Some o → t ≠ o → files s !! t = Some ft →
  J (files s) → (∀ g fs, J fs → J (on_file t g fs)) →
  wp J
    (let! ok := no_effect k in
     do! fatal_if (negb ok) in
     let! s := get in
     match (if fd_switch s then snap_fd0 s else snap_fd1 s) with
     | None => trap
     | Some snap_fd =>
         let! ok := fsync k snap_fd in
         do! fatal_if (negb ok) in
         let! st := fstat k snap_fd in
         do! fatal_if (negb (fst st)) in
         let! ok := ioctl_ficlone k snap_fd in
         do! fatal_if (negb ok) in
         let! ok := no_effect k in
         do! fatal_if (negb ok) in
         let! ok := no_effect k in
         do! fatal_if (negb ok) in
         do! seal k snap_fd in
         do! modify (λ s, put_switch (negb (fd_switch s)) s) in
         ret 0
     end)
    (λ r s', r = 0 ∧ target s' = Some o ∧ other s' = Some t ∧ bfname s' = bfname s
       ∧ has_complete t (bf s) (files s') ∧ (∀ fd, fd ≠ t → files s' !! fd = files s !! fd)) s.
Proof.
  intros Ht Ho Hne Hft HJ0 HJ. unfold no_effect at 1.
  apply wp_bind_fatal; [done..|]. intros s1 E1 F1. unfold id in E1.
  apply wp_bind, wp_get. change (if fd_switch s1 then snap_fd0 s1 else snap_fd1 s1) with (target s1).
  assert (target s1 = Some t) as ->. { unfold target in *. by destruct F1 as (_ & _ & -> & -> & ->). }
  apply wp_bind_fatal; [by rewrite E1|apply HJ; by rewrite E1|]. intros s2 E2 F2. rewrite E1 in E2.
  assert (files s2 !! t = Some (synced ft)) as H2 by (rewrite E2; by apply lookup_on_file).
  assert (J (files s2)) as J2 by (rewrite E2; by apply HJ).
  apply wp_bind. eapply wp_fstat; [exact H2|done|]. intros ok s3 E3 F3. apply wp_bind, wp_fatal_if. intros _.
  apply wp_ficlone; [by rewrite E3|apply HJ; by rewrite E3|]. intros s4 E4 F4. rewrite E3 in E4.
  assert (same_fds s s3) as G3 by (do 2 (etrans; [eassumption|]); done).
  assert (files s4 !! t = Some (clone (bf s3) (synced ft))) as H4 by (rewrite E4; by apply lookup_on_file).
  assert (J (files s4)) as J4 by (rewrite E4; by apply HJ).
  apply wp_bind_fatal; [done..|]. intros s5 E5 F5. unfold id in E5.
  apply wp_bind_fatal; [by rewrite E5|by rewrite E5|]. intros s6 E6 F6. unfold id in E6.
  assert (files s6 = files s4) as E64 by congruence. clear E5 E6.
  apply wp_bind. eapply wp_seal; [by rewrite E64|rewrite E64; by auto..|].
  intros s7 E7 F7. rewrite E64 in E7.
  assert (same_fds s s7) as (B & N & F0 & F8 & Fs).
  { etrans; [exact G3|]. do 3 (etrans; [eassumption|]). done. }
  apply wp_bind, wp_modify; [done|]. apply wp_ret. unfold target, other in *. simpl.
  rewrite F0, F8, Fs. split_and!; [done|by destruct (fd_switch s)|by destruct (fd_switch s)|done|..].
  - exists ((synced ∘ chmod S_IRUSR ∘ synced) (clone (bf s3) (synced ft))).
    rewrite E7. split; [by apply lookup_on_file|]. destruct G3 as [-> _]. apply sealed_complete.
  - intros fd Hfd. rewrite E7, E4, E2, !lookup_on_file_ne by done. done.
Qed.

(** A call leaves the last complete snapshot alone, and makes the next one. *)
Lemma double_spec s o D :
  rotating s → other s = Some o → has_complete o D (files s) →
  wp (has_complete o D) (famus_snap_sync2 k superuser)
     (λ r s', r = 0 ∧ rotating s' ∧ ∃ o', other s' = Some o' ∧ has_complete o' (bf s) (files s')) s.
Proof.
  intros Hr Ho HD. destruct (rotating_fds s Hr) as (t & o' & ft & Ht & Ho' & Hne & Hft).
  rewrite Ho in Ho'. injection Ho' as <-. destruct Hr as [(Ha & Hb & Hab) Hf].
  unfold famus_snap_sync2. apply wp_bind, wp_get. apply wp_bind.
  rewrite bool_decide_false by (intros E; rewrite E in Ha; by destruct Ha). apply wp_ret.
  eapply wp_mono; [eapply (double_clone_spec (has_complete o D)); try done|].
  - intros g fs (f & Hof & Hc). exists f. by rewrite lookup_on_file_ne.
  - intros r s' (-> & Ht' & Ho' & Hn & Hc & Hrest). split; [done|]. split; [|by exists t].
    unfold target, other in *. destruct Hc as (f & Hf' & _). destruct HD as (fo & Hfo & _).
    split.
    + destruct (fd_switch s'); rewrite Ht', Ho'; split_and!; try done; congruence.
    + intros fd Hfd. assert (fd = o ∨ fd = t) as [->| ->].
      { destruct (fd_switch s'), Hfd; (left; congruence) || (right; congruence). }
      * rewrite Hrest by done. by eexists.
      * by eexists.
Qed.

(** A process that has not taken a snapshot, and no files yet. *)
Definition fresh_process (s : famus) : Prop :=
  snap_fd0 s = None ∧ snap_fd1 s = None
  ∧ files s !! (bfname s +:+ ".snapshot0") = None ∧ files s !! (bfname s +:+ ".snapshot1") = None.

Lemma string_app_inj_l a b c : a +:+ b = a +:+ c → b = c.
Proof. induction a as [|x a IH]; simpl; [done|]. intros [= E]. by apply IH. Qed.

Lemma open_new path mode Q s :
  files s !! path = None → (∀ s', files s' = <[path := new_file mode]> (files s) → same_fds s s' → Q (Some path) s') →
  (∀ s', same_fds s s' → Q None s') → wp (λ _, True) (open_rw k superuser path mode) Q s.
Proof.
  intros E H1 H2. unfold wp, open_rw. rewrite E. destruct (k (calls s)); simpl.
  - split; [eexists [_]; split; [done|by constructor]|]. by apply H1.
  - split; [eexists [_]; split; [done|by constructor]|]. by apply H2.
Qed.

Lemma famus_open_spec s :
  fresh_process s →
  wp (λ _, True) (famus_open k superuser)
     (λ _ s', bf s' = bf s ∧ fd_switch s' = fd_switch s ∧ rotating s') s.
Proof.
  intros (_ & _ & H0 & H1). set (p0 := bfname s +:+ ".snapshot0") in *. set (p1 := bfname s +:+ ".snapshot1") in *.
  assert (p0 ≠ p1) as Hne by (by intros E%string_app_inj_l).
  unfold famus_open. apply wp_bind, wp_get. fold p0 p1.
  apply wp_bind, open_new; [done| |intros s1 _; apply wp_bind, wp_modify; [done|]; by apply wp_bind, wp_fatal_if].
  intros s1 E1 F1. apply wp_bind, wp_modify; [done|]. apply wp_bind, wp_fatal_if. intros _.
  apply wp_bind, open_new; [simpl; rewrite E1; by rewrite lookup_insert_ne| |
    intros s2 _; apply wp_bind, wp_modify; [done|]; by apply wp_bind, wp_fatal_if].
  intros s2 E2 F2. apply wp_bind, wp_modify; [done|]. apply wp_bind, wp_fatal_if. intros _.
  unfold no_effect. apply wp_bind_fatal; [done..|]. intros s3 E3 F3.
  apply wp_syscall; [done..|]. intros s4 E4 F4.
  destruct F1 as (B1 & N1 & _ & _ & S1), F2 as (B2 & N2 & A2 & _ & S2),
    F3 as (B3 & N3 & A3 & C3 & S3), F4 as (B4 & N4 & A4 & C4 & S4). simpl in *. unfold id in *.
  split_and!; [congruence..|].
  assert (snap_fd0 s4 = Some p0) as Ea by congruence. assert (snap_fd1 s4 = Some p1) as Eb by congruence.
  split; [rewrite Ea, Eb; split_and!; [done..|congruence]|].
  intros fd Hfd. rewrite E4, E3, E2, E1, Ea, Eb in *.
  assert (fd = p0 ∨ fd = p1) as [->| ->]; [destruct Hfd; (left; congruence) || (right; congruence)|..].
  - rewrite lookup_insert_ne, lookup_insert_eq by done. done.
  - by rewrite lookup_insert_eq.
Qed.

Lemma double_first s :
  fresh_process s →
  wp (λ _, True) (famus_snap_sync2 k superuser)
     (λ r s', r = 0 ∧ rotating s' ∧ ∃ o', other s' = Some o' ∧ has_complete o' (bf s) (files s')) s.
Proof.
  intros Hfp. unfold famus_snap_sync2. apply wp_bind, wp_get. apply wp_bind.
  rewrite bool_decide_true by apply Hfp.
  eapply wp_mono; [by apply famus_open_spec|]. intros _ s1 (B1 & S1 & Hr).
  destruct (rotating_fds s1 Hr) as (t & o & ft & Ht & Ho & Hne & Hft).
  eapply wp_mono; [eapply (double_clone_spec (λ _, True)); done|].
  intros r s' (-> & Ht' & Ho' & Hn & Hc & Hrest). split; [done|]. rewrite B1 in Hc.
  split; [|by exists t]. destruct Hr as [_ Hf]. destruct Hc as (f & Hf' & _).
  unfold target, other in *. split.
  - destruct (fd_switch s'); rewrite Ht', Ho'; split_and!; try done; congruence.
  - intros fd Hfd. destruct (decide (fd = t)) as [->|Hd]; [by eexists|]. rewrite Hrest by done. apply Hf.
    destruct (fd_switch s'), (fd_switch s1), Hfd; (left; congruence) || (right; congruence) || (exfalso; congruence).
Qed.

(** A program that changes its memory and takes snapshots. *)
Fixpoint session (Ds : list mem) : cmd famus unit :=
  match Ds with
  | [] => ret tt
  | D :: Ds => do! modify (set_bf D) in do! famus_snap_sync2 k superuser in session Ds
  end.

Lemma wp_result {A} I (c : cmd famus A) Q s a s' : wp I c Q s → c s = Ret a s' → Q a s'.
Proof. intros [_ H] E. by rewrite E in H. Qed.

Lemma last_cons_default {A} (a d : A) l : List.last (a :: l) d = List.last l a.
Proof.
  revert a d. induction l as [|b l IH]; intros a d; [done|].
  change (List.last (b :: l) d = List.last (b :: l) a). by rewrite !IH.
Qed.

Lemma session_rotating Ds s s1 o D0 :
  rotating s → other s = Some o → has_complete o D0 (files s) → session Ds s = Ret tt s1 →
  rotating s1 ∧ ∃ o', other s1 = Some o' ∧ has_complete o' (List.last Ds D0) (files s1).
Proof.
  revert s o D0. induction Ds as [|D Ds IH]; intros s o D0 Hr Ho HD Hrun.
  { injection Hrun as <-. eauto. }
  cbn [session] in Hrun. unfold bind at 1, modify in Hrun.
  apply bind_Ret in Hrun as (r & s2 & E & Hrun).
  assert (rotating (set_bf D s)) as Hr' by (destruct Hr; by split).
  destruct (wp_result _ _ _ _ _ _ (double_spec (set_bf D s) o D0 Hr' Ho HD) E) as (_ & Hr2 & o2 & Ho2 & HD2).
  destruct (IH s2 o2 D Hr2 Ho2 HD2 Hrun) as (H1 & o' & H2 & H3). split; [done|]. exists o'. split; [done|].
  by rewrite last_cons_default.
Qed.

Lemma session_keeps_last D Ds s s1 :
  fresh_process s → session (D :: Ds) s = Ret tt s1 →
  rotating s1 ∧ ∃ o, other s1 = Some o ∧ has_complete o (List.last Ds D) (files s1).
Proof.
  intros Hf Hrun. cbn [session] in Hrun. unfold bind at 1, modify in Hrun.
  apply bind_Ret in Hrun as (r & s2 & E & Hrun).
  destruct (wp_result _ _ _ _ _ _ (double_first (set_bf D s) Hf) E) as (_ & Hr2 & o2 & Ho2 & HD2).
  by eapply session_rotating.
Qed.
End Double.

(** ** Properties *)

(** The first snapshot into a file is atomic.  Whichever system calls fail, and
    wherever in the call the machine crashes: if the permissions of the snapshot file
    say complete afterwards, it holds the backing file.  And when the call returns,
    every crash leaves the file complete. *)
Theorem first_snapshot_atomic k superuser s :
  first_time s →
  let o := famus_snap_sync k superuser s in
  (∃ new, seen (state_of o) = new ++ seen s ∧
     ∀ fs f data mode, fs ∈ new → fs !! snapshot_path s = Some f → crashed f data mode →
       marked mode = true → ∀ x, data x = bf s x)
  ∧ (∀ r s', o = Ret r s' → r = 0 ∧ ∃ f, files s' !! snapshot_path s = Some f ∧
       ∀ data mode, crashed f data mode → marked mode = true ∧ ∀ x, data x = bf s x)
  ∧ (∀ s', o ≠ Trap s').
Proof.
  intros Hft o. pose proof (single_spec k superuser s Hft) as H. unfold wp in H. fold o in H.
  destruct H as [(new & E & Hnew) HQ]. split_and!.
  - exists new. split; [done|]. intros fs f data mode Hin Hf Hc Hm. rewrite Forall_forall in Hnew.
    by eapply (Hnew fs Hin f Hf).
  - intros r s' Eo. rewrite Eo in HQ. destruct HQ as (-> & f & Hf & Hc). split; [done|]. exists f.
    split; [done|]. intros data mode. by apply complete_crash.
  - intros s' Eo. by rewrite Eo in HQ.
Qed.

(** C28: With two snapshot files, a program that has taken a series of snapshots
    never loses the last one: at every point of the next call, whichever system call
    fails, a crash leaves one of the files complete with the contents of the last
    snapshot; and when the call returns, another one is complete with the new
    contents. *)
Theorem double_snapshot_keeps_last k superuser s D Ds s1 E :
  fresh_process s → session k superuser (D :: Ds) s = Ret tt s1 →
  let o := famus_snap_sync2 k superuser (set_bf E s1) in
  ∃ fd, (∃ new, seen (state_of o) = new ++ seen s1 ∧
           ∀ fs, fs ∈ new → ∃ f, fs !! fd = Some f ∧
             ∀ data mode, crashed f data mode → marked mode = true ∧ ∀ x, data x = List.last Ds D x)
        ∧ (∀ r s2, o = Ret r s2 → ∃ fd' f, files s2 !! fd' = Some f ∧
             ∀ data mode, crashed f data mode → marked mode = true ∧ ∀ x, data x = E x)
        ∧ (∀ s2, o ≠ Trap s2).
Proof.
  intros Hf Hrun o. destruct (session_keeps_last k superuser D Ds s s1 Hf Hrun) as (Hr & fd & Ho & HD).
  exists fd. assert (rotating (set_bf E s1)) as Hr' by (destruct Hr; by split).
  pose proof (double_spec k superuser (set_bf E s1) fd _ Hr' Ho HD) as H. unfold wp in H. fold o in H.
  destruct H as [(new & En & Hnew) HQ]. split_and!.
  - exists new. split; [done|]. intros fs Hin. rewrite Forall_forall in Hnew.
    destruct (Hnew fs Hin) as (f & Hff & Hc). exists f. split; [done|]. intros data mode. by apply complete_crash.
  - intros r s2 Eo. rewrite Eo in HQ. destruct HQ as (_ & _ & fd' & _ & f & Hff & Hc). exists fd', f.
    split; [done|]. intros data mode. by apply complete_crash.
  - intros s2 Eo. by rewrite Eo in HQ.
Qed.

(** ** Runs *)

Module DemoFamus.
Definition all_ok : nat → bool := λ _, true.
Definition s0 : famus := mkFamus (λ _, 7) "/mnt/b" ∅ None None false 0 [].

Lemma s0_first : first_time s0.
Proof. reflexivity. Qed.

Lemma first_snapshot_atomic_witness :
  first_time s0 ∧ ∀ s', famus_snap_sync all_ok false s0 ≠ Trap s'.
Proof.
  split; [exact s0_first|]. exact (proj2 (proj2 (first_snapshot_atomic all_ok false s0 s0_first))).
Defined.

Lemma s0_fresh : fresh_process s0.
Proof. by split_and!. Qed.

Definition sess1 : famus := state_of (session all_ok false [λ _, 1; λ _, 2] s0).

Lemma sess1_runs : session all_ok false [λ _, 1; λ _, 2] s0 = Ret tt sess1.
Proof. vm_compute. reflexivity. Qed.

Lemma double_snapshot_keeps_last_witness :
  fresh_process s0 ∧ session all_ok false [λ _, 1; λ _, 2] s0 = Ret tt sess1
  ∧ ∃ fd, ∃ new, seen (state_of (famus_snap_sync2 all_ok false (set_bf (λ _, 3) sess1))) = new ++ seen sess1 ∧
      ∀ fs, fs ∈ new → ∃ f, fs !! fd = Some f ∧
        ∀ data mode, crashed f data mode → marked mode = true ∧ ∀ x, data x = 2.
Proof.
  split; [exact s0_fresh|]. split; [exact sess1_runs|].
  destruct (double_snapshot_keeps_last all_ok false s0 (λ _, 1) [λ _, 2] sess1 (λ _, 3) s0_fresh sess1_runs)
    as (fd & H & _). exists fd. exact H.
Defined.

(** The second snapshot into the one file: the permissions still say complete when
    the file is half old and half new. *)
Definition t1 : famus := state_of (famus_snap_sync all_ok false s0).
Definition t2 : famus := state_of (famus_snap_sync all_ok false (set_bf (λ _, 8) t1)).

Fact second_snapshot_torn : ∃ fs f data mode,
  fs ∈ seen t2 ∧ fs !! snapshot_path s0 = Some f ∧ crashed f data mode ∧ marked mode = true
  ∧ data 0 = 7 ∧ data 1 = 8.
Proof.
  exists {["/mnt/b.snapshot" := mkInode (mkV (λ _, 7) [λ _, 8]) (mkV S_IRUSR [])]},
    (mkInode (mkV (λ _, 7) [λ _, 8]) (mkV S_IRUSR [])), (λ x, if x =? 0 then 7 else 8), S_IRUSR.
  split; [|split; [vm_compute; reflexivity|split_and!; [|reflexivity..]]].
  - apply (list_elem_of_lookup_2 _ 5%nat). vm_compute. reflexivity.
  - split; [|apply list_elem_of_here]. intros x. simpl. destruct (x =? 0).
    + exists (λ _, 7). split; [apply list_elem_of_here|done].
    + exists (λ _, 8). split; [apply list_elem_of_further, list_elem_of_here|done].
Qed.

(** A process that starts again cannot open its snapshot file. *)
Fact second_process_cannot_open : ∃ s,
  famus_snap_sync all_ok false (put_fd0 None t1) = Exit 1 s.
Proof. eexists. vm_compute. reflexivity. Qed.
End DemoFamus.
