(* ===== verification/MemBw.v ===== *)
(** * The sampler of memory accesses (libcxlfs/membwdist.cc)

    The controller asks a hardware counter which pages of its region miss the
    cache.  The kernel writes records into a ring buffer that is mapped behind a
    control page; [get_samples] and [get_dist] consume it.

    The state is the control page and the bytes of the ring; a load outside the
    mapping traps.  The loops take fuel, and [None] is the result when it runs out.
    The theorems: with one unit of fuel more than there are records both loops end,
    get_samples returns the records in order, get_dist the pages of the first 513
    that lie in the range, and the ring is empty then.  A record of another kind is
    never consumed, so that the loops never end; and a record that wraps around is
    read past the mapping. *)

From stdpp Require Import base list gmap.
From Stdlib Require Import ZArith Lia.
From S2P Require Import Prelude Memory.

(** ** State *)

(** [perf_event_mmap_page] and the ring behind it, by offset from its start. *)
Record perf_page := mkPerf {
  data_head : Z;
  data_tail : Z;
  data_offset : Z;
  data_size : Z;
  ring : mem;
}.

Record MemBWDist := mkMbd {
  sample_buf : option perf_page;   (* None before it is mapped *)
  fds : list Z;                    (* open descriptors *)
}.

Definition BUF_SZ_PG_CNT : Z := 0x100.
Definition MAX_SAMPLES : Z := 0x200.
Definition PERF_RECORD_SAMPLE : Z := 9.

(** Layout of [perf_event_header] and [pebs_sample_t]. *)
Definition off_type : Z := 0.
Definition off_size : Z := 6.
Definition off_ip : Z := 8.
Definition off_addr : Z := 16.
Definition sizeof_sample : Z := 24.

(** [dist_t]: the pages that are hot. *)
Abbreviation dist_t := (gmap Z bool).

Section Ops.
(** The page size, and what the kernel answers to start_sampling. *)
Context (pagesize : Z) (perf_fd : Z) (map_ring : Z → option perf_page).

Definition start_sampling (sampling_freq : Z) : cmd MemBWDist Z :=
  let fd := perf_fd in
  if fd =? -1 then ret fd
  else
    do! modify (λ s, mkMbd (sample_buf s) (fd :: fds s)) in
    let mmap_size := wrap64 ((BUF_SZ_PG_CNT + 1) * pagesize) in
    match map_ring mmap_size with
    | None => ret (-1)
    | Some p =>
        do! modify (λ s, mkMbd (Some p) (fds s)) in
        do! modify (λ s, mkMbd (sample_buf s) (List.remove Z.eq_dec fd (fds s))) in
        ret 0
    end.

(** A load of [n] bytes at an offset of the ring; [None] outside the mapping. *)
Definition load_ring (p : perf_page) (n : nat) (off : Z) : option Z :=
  if (0 <=? off) && (off + Z.of_nat n <=? data_size p) then Some (loadN n (ring p) (data_offset p + off)) else None.

Definition set_tail (t : Z) (p : perf_page) : perf_page :=
  mkPerf (data_head p) t (data_offset p) (data_size p) (ring p).

(** The position of the record at [tail]. *)
Definition slot (p : perf_page) : Z := data_tail p mod data_size p.

(** What one turn of the loops reads. *)
Inductive turn :=
| AtHead
| Sample (ip addr size : Z)
| Unknown
| Fault.

Definition read_record (p : perf_page) : turn :=
  if data_tail p =? data_head p then AtHead
  else
    match load_ring p 4 (slot p + off_type) with
    | None => Fault
    | Some ty =>
        if ty =? PERF_RECORD_SAMPLE then
          match load_ring p 8 (slot p + off_ip), load_ring p 8 (slot p + off_addr),
                load_ring p 2 (slot p + off_size) with
          | Some ip, Some addr, Some size => Sample ip addr size
          | _, _, _ => Fault
          end
        else Unknown
    end.

(** The loop of get_samples.  An unknown record leaves the tail where it is. *)
Fixpoint samples_loop (fuel : nat) (result : list (Z * Z)) : cmd perf_page (option (list (Z * Z))) := λ p,
  match fuel with
  | O => Ret None p
  | S fuel =>
      match read_record p with
      | AtHead => Ret (Some result) p
      | Sample ip addr size => samples_loop fuel (result ++ [(ip, addr)]) (set_tail (wrap64 (data_tail p + size)) p)
      | Unknown => samples_loop fuel result p
      | Fault => Trap p
      end
  end.

(** On the mapped page; before there is one the pointer is not set. *)
Definition on_page {A} (c : cmd perf_page A) : cmd MemBWDist A := λ s,
  match sample_buf s with
  | None => Trap s
  | Some p =>
      match c p with
      | Ret a p => Ret a (mkMbd (Some p) (fds s))
      | Exit code p => Exit code (mkMbd (Some p) (fds s))
      | Trap p => Trap (mkMbd (Some p) (fds s))
      end
  end.

Definition get_samples (fuel : nat) : cmd MemBWDist (option (list (Z * Z))) := on_page (samples_loop fuel []).

Fixpoint dist_loop (fuel : nat) (bits start_pg end_pg sample_cnt : Z) (result : dist_t)
    : cmd perf_page (option dist_t) := λ p,
  match fuel with
  | O => Ret None p
  | S fuel =>
      match read_record p with
      | AtHead => Ret (Some result) p
      | Sample ip addr size =>
          let addr_pg := Z.shiftr addr bits in
          let result := if (start_pg <=? addr_pg) && (addr_pg <? end_pg)
                        then <[addr_pg - start_pg := true]> result else result in
          let sample_cnt := sample_cnt + 1 in
          if MAX_SAMPLES <? sample_cnt then Ret (Some result) (set_tail (data_head p) p)
          else dist_loop fuel bits start_pg end_pg sample_cnt result (set_tail (wrap64 (data_tail p + size)) p)
      | Unknown => dist_loop fuel bits start_pg end_pg sample_cnt result p
      | Fault => Trap p
      end
  end.

Definition get_dist (fuel : nat) (start end_ : Z) : cmd MemBWDist (option dist_t) :=
  let pg_sz_bits := Z.log2 pagesize in
  on_page (dist_loop fuel pg_sz_bits (Z.shiftr start pg_sz_bits) (Z.shiftr end_ pg_sz_bits) 0 ∅).
End Ops.

(** ** What the ring holds *)

Record sample := mkSample { s_ip : Z; s_addr : Z; s_size : Z }.

(** A sample record at position [pos] of the ring, which does not wrap around. *)
Record sample_at (p : perf_page) (pos : Z) (r : sample) : Prop := {
  sa_fits : pos mod data_size p + sizeof_sample ≤ data_size p;
  sa_size : 0 < s_size r;
  sa_type : loadN 4 (ring p) (data_offset p + pos mod data_size p + off_type) = PERF_RECORD_SAMPLE;
  sa_len : loadN 2 (ring p) (data_offset p + pos mod data_size p + off_size) = s_size r;
  sa_ip : loadN 8 (ring p) (data_offset p + pos mod data_size p + off_ip) = s_ip r;
  sa_addr : loadN 8 (ring p) (data_offset p + pos mod data_size p + off_addr) = s_addr r;
}.

(** The records from [pos] on, up to the head. *)
Fixpoint ring_holds (p : perf_page) (pos : Z) (rs : list sample) : Prop :=
  match rs with
  | [] => pos = data_head p
  | r :: rs => sample_at p pos r ∧ ring_holds p (pos + s_size r) rs
  end.

Record ring_ok (p : perf_page) (rs : list sample) : Prop := {
  ri_tail : 0 ≤ data_tail p;
  ri_head : data_head p < 2 ^ 64;
  ri_size : 0 < data_size p;
  ri_holds : ring_holds p (data_tail p) rs;
}.

Lemma ring_holds_le p pos rs : ring_holds p pos rs → pos ≤ data_head p.
Proof.
  revert pos. induction rs as [|r rs IH]; intros pos; simpl; [lia|].
  intros [[_ Hs _ _ _ _] H]. specialize (IH _ H). lia.
Qed.

Lemma load_ring_in p n off :
  0 ≤ off → off + Z.of_nat n ≤ data_size p → load_ring p n off = Some (loadN n (ring p) (data_offset p + off)).
Proof. intros H1 H2. unfold load_ring. by rewrite (proj2 (Z.leb_le _ _) H1), (proj2 (Z.leb_le _ _) H2). Qed.

Lemma read_record_sample p r :
  0 < data_size p → data_tail p ≠ data_head p → sample_at p (data_tail p) r →
  read_record p = Sample (s_ip r) (s_addr r) (s_size r).
Proof.
  intros Hsz Hne [H1 H2 H3 H4 H5 H6]. unfold read_record, slot. rewrite (proj2 (Z.eqb_neq _ _) Hne).
  pose proof (Z.mod_pos_bound (data_tail p) (data_size p) Hsz) as [Hm _].
  unfold sizeof_sample, off_type, off_size, off_ip, off_addr in *.
  rewrite !load_ring_in by lia. rewrite !Z.add_assoc, H3, H4, H5, H6. done.
Qed.

Lemma read_record_head p : data_tail p = data_head p → read_record p = AtHead.
Proof. intros E. unfold read_record. by rewrite E, Z.eqb_refl. Qed.

Lemma ring_holds_set_tail p t pos rs : ring_holds p pos rs → ring_holds (set_tail t p) pos rs.
Proof.
  revert pos. induction rs as [|r rs IH]; intros pos; simpl; [done|].
  intros [[] H]. split; [by split|by apply IH].
Qed.

(** Consuming the first record leaves a ring with the rest. *)
Lemma ring_ok_next p r rs :
  ring_ok p (r :: rs) →
  read_record p = Sample (s_ip r) (s_addr r) (s_size r)
  ∧ ring_ok (set_tail (wrap64 (data_tail p + s_size r)) p) rs.
Proof.
  intros [H1 H2 H3 [H4 H5]]. pose proof (sa_size _ _ _ H4). pose proof (ring_holds_le _ _ _ H5).
  split; [apply read_record_sample; [done|lia|done]|].
  rewrite wrap_small by lia. split; simpl; [lia|done|done|]. by apply ring_holds_set_tail.
Qed.

Lemma ring_ok_empty p : ring_ok p [] → read_record p = AtHead.
Proof. intros [_ _ _ H]. by apply read_record_head. Qed.

Definition consumed (p : perf_page) : perf_page := set_tail (data_head p) p.

Lemma consumed_empty p : ring_ok p [] → p = consumed p.
Proof. intros [_ _ _ H]. destruct p. simpl in *. by subst. Qed.

Lemma samples_loop_spec p rs fuel acc :
  ring_ok p rs → (length rs < fuel)%nat →
  samples_loop fuel acc p = Ret (Some (acc ++ ((λ r, (s_ip r, s_addr r)) <$> rs))) (consumed p).
Proof.
  revert p fuel acc. induction rs as [|r rs IH]; intros p fuel acc Hok Hf;
    (destruct fuel as [|fuel]; [simpl in Hf; lia|]); simpl.
  - rewrite (ring_ok_empty p Hok). rewrite app_nil_r. f_equal. by apply consumed_empty.
  - destruct (ring_ok_next p r rs Hok) as [-> Hok']. simpl in Hf. rewrite IH; [|done|lia].
    rewrite <-app_assoc. done.
Qed.

(** The pages of a list of samples that lie between two pages. *)
Definition hot_pages (bits start_pg end_pg : Z) (rs : list sample) : list Z :=
  (λ r, Z.shiftr (s_addr r) bits - start_pg) <$>
    filter (λ r, start_pg ≤ Z.shiftr (s_addr r) bits < end_pg) rs.

Definition mark (result : dist_t) (pgs : list Z) : dist_t := foldl (λ m pg, <[pg := true]> m) result pgs.

Lemma dist_loop_spec p rs fuel bits a b n acc :
  ring_ok p rs → (length rs < fuel)%nat → 0 ≤ n ≤ MAX_SAMPLES →
  dist_loop fuel bits a b n acc p
  = Ret (Some (mark acc (hot_pages bits a b (take (Z.to_nat (MAX_SAMPLES + 1 - n)) rs)))) (consumed p).
Proof.
  revert p fuel n acc. induction rs as [|r rs IH]; intros p fuel n acc Hok Hf Hn;
    (destruct fuel as [|fuel]; [simpl in Hf; lia|]); simpl.
  - rewrite (ring_ok_empty p Hok). rewrite take_nil. f_equal. by apply consumed_empty.
  - destruct (ring_ok_next p r rs Hok) as [-> Hok']. simpl in Hf.
    replace (Z.to_nat (MAX_SAMPLES + 1 - n)) with (S (Z.to_nat (MAX_SAMPLES - n))) by lia. simpl.
    set (acc' := if _ && _ then _ else _).
    assert (∀ rest, mark acc' (hot_pages bits a b rest) = mark acc (hot_pages bits a b (r :: rest))) as Hacc.
    { intros rest. unfold acc', hot_pages. rewrite filter_cons.
      destruct (decide (a ≤ Z.shiftr (s_addr r) bits < b)) as [H|H].
      - by rewrite (proj2 (Z.leb_le _ _)), (proj2 (Z.ltb_lt _ _)) by lia.
      - destruct (Z.leb_spec a (Z.shiftr (s_addr r) bits)), (Z.ltb_spec (Z.shiftr (s_addr r) bits) b); simpl; done || lia. }
    destruct (Z.ltb_spec MAX_SAMPLES (n + 1)) as [Hlt|Hge].
    + replace (Z.to_nat (MAX_SAMPLES - n)) with O by lia. simpl. rewrite <-Hacc. done.
    + rewrite IH; [|done|lia|lia].
      replace (MAX_SAMPLES + 1 - (n + 1)) with (MAX_SAMPLES - n) by lia. rewrite Hacc. done.
Qed.

(** A record of another kind: neither loop ever ends. *)
Lemma unknown_record_never_ends p fuel acc bits a b n m :
  read_record p = Unknown →
  samples_loop fuel acc p = Ret None p ∧ dist_loop fuel bits a b n m p = Ret None p.
Proof. intros H. induction fuel as [|fuel [IH1 IH2]]; simpl; [done|]. by rewrite H. Qed.

(** The hot pages, as a set. *)
Lemma mark_spec acc pgs i : mark acc pgs !! i = (if decide (i ∈ pgs) then Some true else acc !! i).
Proof.
  revert acc. induction pgs as [|pg pgs IH]; intros acc; simpl; [done|]. rewrite IH.
  destruct (decide (i = pg)) as [->|Hne].
  - rewrite lookup_insert_eq. rewrite (decide_True (P := pg ∈ pg :: pgs)) by set_solver. by destruct (decide _).
  - rewrite lookup_insert_ne by done. destruct (decide (i ∈ pgs)) as [H|H].
    + rewrite decide_True by set_solver. done.
    + rewrite decide_False by set_solver. done.
Qed.

(** ** Properties *)

(** C38: The sampler drains its ring.  When the ring holds sample records that do
    not wrap around, one unit of fuel more than there are records is enough for both
    loops to end, with the tail at the head: get_samples returns the instruction and
    data address of every record in order; get_dist marks exactly the pages of the
    first 513 records that lie in the range, relative to its start. *)
Theorem sampler_drains_ring pagesize fuel start end_ s p rs :
  sample_buf s = Some p → ring_ok p rs → (length rs < fuel)%nat →
  get_samples fuel s
    = Ret (Some ((λ r, (s_ip r, s_addr r)) <$> rs)) (mkMbd (Some (consumed p)) (fds s))
  ∧ ∃ dist, get_dist pagesize fuel start end_ s = Ret (Some dist) (mkMbd (Some (consumed p)) (fds s))
      ∧ ∀ pg, dist !! pg = Some true ↔
          ∃ r, r ∈ take 513 rs
            ∧ Z.shiftr start (Z.log2 pagesize) ≤ Z.shiftr (s_addr r) (Z.log2 pagesize)
              < Z.shiftr end_ (Z.log2 pagesize)
            ∧ pg = Z.shiftr (s_addr r) (Z.log2 pagesize) - Z.shiftr start (Z.log2 pagesize).
Proof.
  intros Hs Hok Hf. split.
  - unfold get_samples, on_page. by rewrite Hs, (samples_loop_spec p rs fuel [] Hok Hf).
  - eexists. split.
    + unfold get_dist, on_page. rewrite Hs, (dist_loop_spec p rs) by done. reflexivity.
    + intros pg. rewrite mark_spec, lookup_empty. unfold hot_pages.
      change (Z.to_nat (MAX_SAMPLES + 1 - 0)) with 513%nat.
      destruct (decide _) as [Hin|Hin].
      * split; [intros _|done]. apply list_elem_of_fmap in Hin as (r & -> & Hr).
        apply list_elem_of_filter in Hr as [Hr1 Hr2]. by exists r.
      * split; [done|]. intros (r & Hr1 & Hr2 & ->). exfalso. apply Hin. apply list_elem_of_fmap.
        exists r. split; [done|]. by apply list_elem_of_filter.
Qed.

(** A record that is not a sample stops the sampler for good: with any fuel,
    neither loop has an answer, and the ring is as before. *)
Theorem unknown_record_stops_sampler pagesize fuel start end_ s p ty :
  sample_buf s = Some p → data_tail p ≠ data_head p →
  load_ring p 4 (slot p + off_type) = Some ty → ty ≠ PERF_RECORD_SAMPLE →
  get_samples fuel s = Ret None s ∧ get_dist pagesize fuel start end_ s = Ret None s.
Proof.
  intros Hs Hne Hty Hn. assert (read_record p = Unknown) as Hu.
  { unfold read_record. by rewrite (proj2 (Z.eqb_neq _ _) Hne), Hty, (proj2 (Z.eqb_neq _ _) Hn). }
  unfold get_samples, get_dist, on_page. rewrite Hs.
  destruct (unknown_record_never_ends p fuel [] (Z.log2 pagesize) (Z.shiftr start (Z.log2 pagesize))
    (Z.shiftr end_ (Z.log2 pagesize)) 0 ∅ Hu) as [-> ->].
  destruct s. simpl in *. by rewrite Hs.
Qed.

(** ** A ring *)

Module DemoRing.

(** The bytes of a sample record. *)
Definition encode (r : sample) : list Z :=
  le_split 4 PERF_RECORD_SAMPLE ++ le_split 2 0 ++ le_split 2 (s_size r)
  ++ le_split 8 (s_ip r) ++ le_split 8 (s_addr r).

Definition r1 : sample := mkSample 0x400000 0x7f0000001008 24.
Definition r2 : sample := mkSample 0x400010 0x7f0000003000 24.
Definition size : Z := 2 ^ 20.
(** Two records at the start, the ring one page behind the control page. *)
Definition bytes : mem := write_bytes (λ _, 0) 4096 (encode r1 ++ encode r2).
Definition p0 : perf_page := mkPerf 48 0 4096 size bytes.
Definition s0 : MemBWDist := mkMbd (Some p0) [].

Lemma ring0_ok : ring_ok p0 [r1; r2].
Proof. split; [done..|]. simpl. split; [|split; [|done]]; split; vm_compute; done. Qed.

Lemma sampler_drains_ring_witness :
  get_samples 3 s0 = Ret (Some [(0x400000, 0x7f0000001008); (0x400010, 0x7f0000003000)])
    (mkMbd (Some (consumed p0)) []).
Proof.
  exact (proj1 (sampler_drains_ring 4096 3 0x7f0000000000 0x7f0000002000 s0 p0 [r1; r2] eq_refl ring0_ok
    ltac:(simpl; lia))).
Defined.

(** A lost-records record, type 2, at the tail. *)
Definition p_lost : perf_page := mkPerf 24 0 4096 size (write_bytes (λ _, 0) 4096 (le_split 4 2)).

Lemma unknown_record_stops_sampler_witness :
  get_samples 1000 (mkMbd (Some p_lost) []) = Ret None (mkMbd (Some p_lost) []).
Proof.
  refine (proj1 (unknown_record_stops_sampler 4096 1000 0 0 (mkMbd (Some p_lost) []) p_lost 2 eq_refl _ _ _)).
  - discriminate.
  - vm_compute. reflexivity.
  - discriminate.
Defined.

(** The ring is 2^20 bytes and a record has 24, which does not divide it: the
    43691st record starts 16 bytes before the end, and its address is read past the
    mapping. *)
Definition last_slot : Z := 43690 * 24.
Definition p_wrap : perf_page :=
  mkPerf (last_slot + 24) last_slot 4096 size (write_bytes (λ _, 0) (4096 + last_slot) (encode r1)).
Fact wrapped_record_faults : get_samples 2 (mkMbd (Some p_wrap) []) = Trap (mkMbd (Some p_wrap) []).
Proof. 
  unfold get_samples, on_page. cbn [sample_buf samples_loop].
  replace (read_record p_wrap) with Fault by (vm_compute; reflexivity). done.
Qed.

(** Sampling that could not start leaves the pointer unset. *)
Fact failed_start_then_get_dist :
  let s := state_of (start_sampling 4096 (-1) (λ _, None) 250 (mkMbd None [])) in
  get_dist 4096 10 0 4096 s = Trap s.
Proof. reflexivity. Qed.
End DemoRing.
