(* ===== verification/Numa.v ===== *)
(** * Placement of threads and pages (libcxlfs/numabinder.cc)

    The controller puts itself on a core of the far node: it looks through /proc for
    cores that a process is bound to, takes a free one and binds to it.

    What the kernel answers is the record [machine]: the cores, the node of each, and
    the status files under /proc as the lines fgets returns.  The theorems: the scan
    finds exactly the cores that some process with memory is bound to alone; without
    a wish the lowest free core is taken, and -1 means there is none; bind_to_node
    ends on the lowest free core of the node or leaves the affinity as it was.  And:
    a negative wish indexes before the table; move_range passes arrays of one element
    for any number of pages; mmap_from_node places the hint, not the mapping. *)

From stdpp Require Import base list gmap strings sorting.
From Stdlib Require Import ZArith Lia Ascii String.
From S2P Require Import Prelude Text.

(** ** The machine *)

Record machine := mkMachine {
  nproc_conf : Z;
  nproc_onln : Z;
  node_of_cpu : Z → Z;
  (** directory entries with the lines of their status file; None: opendir fails,
      and for an entry: fopen fails *)
  proc : option (list (string * option (list string)));
  getcpu : Z;
  setaffinity_ok : gset Z → bool;
  mmap_answer : Z → Z → Z;           (* hint and length; -1 is MAP_FAILED *)
  move_status : Z → Z → Z;           (* page and node *)
}.

Definition CPU_SETSIZE : Z := 1024.
Definition cpu_used_len : Z := 4096.

Record NumaBinder := mkBinder {
  cpu_aff : Z;
  affinity : gset Z;                 (* of the calling thread *)
  tonode : list (Z * Z * Z);         (* ranges given to numa_tonode_memory *)
}.

Section Ops.
Context (m : machine).

(** [std::map] iterates in the order of the keys. *)
Definition get_numa_map : list (Z * Z) :=
  (λ cpuid, (cpuid, node_of_cpu m cpuid)) <$> seqZ 0 (nproc_conf m).

Definition mmap_from_node (addr length node : Z) : cmd NumaBinder Z := λ s,
  Ret (mmap_answer m addr length) (mkBinder (cpu_aff s) (affinity s) ((addr, length, node) :: tonode s)).

(** *** Status files *)

Definition starts_digit (name : string) : bool :=
  match name with String c _ => bool_decide (is_Some (digit_val 10 c)) | EmptyString => false end.

Definition has_char (c : ascii) (line : string) : bool := bool_decide (c ∈ list_ascii_of_string line).

Definition tab : string := String "009" EmptyString.
Definition vmsize : string := "VmSize:" +:+ tab.
Definition cpus_list : string := "Cpus_allowed_list:" +:+ tab.

(** sscanf with %u: a number that does not fit is the largest, then cut to 32 bits. *)
Definition sscanf_u (cs : list ascii) : option Z :=
  match scan_number 10 cs with
  | Some (neg, v) => Some (wrap 32 (if v <? 2 ^ 64 then if neg then - v else v else 2 ^ 64 - 1))
  | None => None
  end.

(** The core a line binds its process to. *)
Definition bound_core (line : string) : option Z :=
  if String.prefix cpus_list line && negb (has_char "-" line) && negb (has_char "," line) then
    match sscanf_u (drop 19 (list_ascii_of_string line)) with
    | Some hval => if hval <? cpu_used_len then Some hval else None
    | None => None
    end
  else None.

(** The loop over the lines of one file. *)
Fixpoint scan_status (has_vmsize : bool) (lines : list string) : option Z :=
  match lines with
  | [] => None
  | line :: lines =>
      let has_vmsize := if String.prefix vmsize line then true else has_vmsize in
      match bound_core line with
      | Some hval => if has_vmsize then Some hval else scan_status has_vmsize lines
      | None => scan_status has_vmsize lines
      end
  end.

(** The loop over the directory. *)
Definition note_entry (used : gset Z) (de : string * option (list string)) : gset Z :=
  if starts_digit (fst de) then
    match snd de with
    | Some lines => match scan_status false lines with Some hval => {[ hval ]} ∪ used | None => used end
    | None => used
    end
  else used.

Definition cpu_used (entries : list (string * option (list string))) : gset Z := foldl note_entry ∅ entries.

(** An access to the table of 4096 bytes. *)
Definition table_at (used : gset Z) (i : Z) : option bool :=
  if (0 <=? i) && (i <? cpu_used_len) then Some (bool_decide (i ∈ used)) else None.

(** The first index whose entry is zero, or the end. *)
Fixpoint first_free (used : gset Z) (ixs : list Z) (stop : Z) : option Z :=
  match ixs with
  | [] => Some stop
  | i :: ixs =>
      match table_at used i with
      | Some true => first_free used ixs stop
      | Some false => Some i
      | None => None
      end
  end.

(** [CPU_SET] ignores a core the set has no bit for. *)
Definition CPU_SET (i : Z) : gset Z := if (0 <=? i) && (i <? CPU_SETSIZE) then {[ i ]} else ∅.

(** From the choice of the core on. *)
Definition bind_cpu (i cpu_core_count : Z) : cmd NumaBinder Z :=
  if i =? cpu_core_count then ret (-1)
  else
    do! modify (λ s, mkBinder i (affinity s) (tonode s)) in
    if setaffinity_ok m (CPU_SET i) then
      do! modify (λ s, mkBinder (cpu_aff s) (CPU_SET i) (tonode s)) in ret i
    else ret (-1).

Definition bind_to_free_cpu (cpu_to_bind : Z) : cmd NumaBinder Z :=
  let cpu_core_count := nproc_onln m in
  if cpu_core_count <? 2 then ret (-1)
  else
    match proc m with
    | None => ret (-1)
    | Some entries =>
        let used := cpu_used entries in
        if negb (cpu_to_bind =? -1) then
          if cpu_core_count <=? cpu_to_bind then ret (-1)
          else
            match table_at used cpu_to_bind with
            | None => trap
            | Some true => ret (-1)
            | Some false => bind_cpu cpu_to_bind cpu_core_count
            end
        else
          match first_free used (seqZ 0 cpu_core_count) cpu_core_count with
          | None => trap
          | Some i => bind_cpu i cpu_core_count
          end
    end.

(** The loop of bind_to_node. *)
Fixpoint bind_loop (tgt_node : Z) (numa_map : list (Z * Z)) : cmd NumaBinder bool :=
  match numa_map with
  | [] => ret false
  | (cpuid, nodeid) :: numa_map =>
      if nodeid =? tgt_node then
        let! r := bind_to_free_cpu cpuid in
        if r =? cpuid then ret true else bind_loop tgt_node numa_map
      else bind_loop tgt_node numa_map
  end.

Definition bind_to_node (tgt_node : Z) : cmd NumaBinder Z :=
  let! bind_successful := bind_loop tgt_node get_numa_map in
  ret (if (bind_successful : bool) then tgt_node else -1).

Definition get_cur_numa_node : Z := node_of_cpu m (getcpu m).

(** numa_move_pages reads one page and one node for each of [len >> 12] pages; the
    arrays have one element. *)
Definition move_range (addr len dest_node : Z) : cmd NumaBinder Z :=
  let count := Z.shiftr len 12 in
  if 1 <? count then trap else ret (move_status m addr dest_node).
End Ops.

(** ** The scan *)

(** The process is bound to one core, and has memory. *)
Definition binds (lines : list string) (cpu : Z) : Prop :=
  ∃ before line after, lines = before ++ line :: after
    ∧ bound_core line = Some cpu
    ∧ Exists (λ l, String.prefix vmsize l = true) (before ++ [line])
    ∧ ∀ b0 l0 a0, before = b0 ++ l0 :: a0 → is_Some (bound_core l0) →
        ¬ Exists (λ l, String.prefix vmsize l = true) (b0 ++ [l0]).

Lemma Exists_snoc {A} (P : A → Prop) l x : Exists P (l ++ [x]) ↔ Exists P l ∨ P x.
Proof. rewrite Exists_app, Exists_cons, Exists_nil. naive_solver. Qed.

Lemma scan_status_spec vm lines cpu :
  scan_status vm lines = Some cpu ↔
  ∃ before line after, lines = before ++ line :: after
    ∧ bound_core line = Some cpu
    ∧ (vm = true ∨ Exists (λ l, String.prefix vmsize l = true) (before ++ [line]))
    ∧ ∀ b0 l0 a0, before = b0 ++ l0 :: a0 → is_Some (bound_core l0) →
        ¬ (vm = true ∨ Exists (λ l, String.prefix vmsize l = true) (b0 ++ [l0])).
Proof.
  revert vm. induction lines as [|l lines IH]; intros vm; cbn [scan_status].
  - split; [done|]. intros (before & line & after & E & _). by destruct before.
  - set (vm' := if String.prefix vmsize l then true else vm).
    assert (vm' = true ↔ vm = true ∨ String.prefix vmsize l = true) as Hvm.
    { unfold vm'. destruct (String.prefix vmsize l), vm; naive_solver. }
    assert (∀ b x, vm' = true ∨ Exists (λ l, String.prefix vmsize l = true) (b ++ [x]) ↔
              vm = true ∨ Exists (λ l, String.prefix vmsize l = true) ((l :: b) ++ [x])) as Hcons.
    { intros b x. rewrite Hvm. simpl. rewrite Exists_cons. naive_solver. }
    destruct (bound_core l) as [h|] eqn:Eb; [destruct vm' eqn:Ev|].
    + split.
      * intros [= <-]. exists [], l, lines. split_and!; [done..| |by intros []].
        simpl. rewrite Exists_cons. naive_solver.
      * intros ([|l0 before] & line & after & E & Hb & _ & Hfirst).
        { injection E as <- <-. congruence. }
        injection E as <- ->. exfalso. apply (Hfirst [] l before); [done|by rewrite Eb|].
        simpl. rewrite Exists_cons. naive_solver.
    + rewrite IH. split.
      * intros (before & line & after & -> & Hb & Hx & Hfirst). exists (l :: before), line, after.
        split_and!; [done..|by apply Hcons|]. intros [|b b0] l0 a0 E Hs.
        { injection E as <- <-. simpl. rewrite Exists_cons, Exists_nil. naive_solver. }
        injection E as <- ->. rewrite <-Hcons. by eapply Hfirst.
      * intros ([|l0 before] & line & after & E & Hb & Hx & Hfirst).
        { injection E as <- <-. simpl in Hx. rewrite Exists_cons, Exists_nil in Hx. naive_solver. }
        injection E as <- ->. exists before, line, after. split_and!; [done..|by apply Hcons|].
        intros b0 l0 a0 -> Hs. rewrite Hcons. by eapply (Hfirst (l :: b0)).
    + rewrite IH. split.
      * intros (before & line & after & -> & Hb & Hx & Hfirst). exists (l :: before), line, after.
        split_and!; [done..|by apply Hcons|]. intros [|b b0] l0 a0 E Hs.
        { injection E as <- <-. rewrite Eb in Hs. by destruct Hs. }
        injection E as <- ->. rewrite <-Hcons. by eapply Hfirst.
      * intros ([|l0 before] & line & after & E & Hb & Hx & Hfirst).
        { injection E as <- <-. congruence. }
        injection E as <- ->. exists before, line, after. split_and!; [done..|by apply Hcons|].
        intros b0 l0 a0 -> Hs. rewrite Hcons. by eapply (Hfirst (l :: b0)).
Qed.

Lemma scan_status_binds lines cpu : scan_status false lines = Some cpu ↔ binds lines cpu.
Proof. rewrite scan_status_spec. unfold binds. naive_solver. Qed.

Lemma bound_core_range line cpu : bound_core line = Some cpu → 0 ≤ cpu < cpu_used_len.
Proof.
  unfold bound_core. destruct (_ && _); [|done]. unfold sscanf_u.
  destruct (scan_number _ _) as [[neg v]|]; [|done].
  set (h := wrap 32 _). destruct (Z.ltb_spec h cpu_used_len); [|done]. intros [= <-].
  split; [|done]. apply wrap_range. lia.
Qed.

(** The table has a core exactly when a process is bound to it. *)
Lemma cpu_used_spec entries i :
  i ∈ cpu_used entries ↔
  ∃ name lines, (name, Some lines) ∈ entries ∧ starts_digit name = true ∧ binds lines i.
Proof.
  unfold cpu_used. assert (∀ used, i ∈ foldl note_entry used entries ↔
    i ∈ used ∨ ∃ name lines, (name, Some lines) ∈ entries ∧ starts_digit name = true ∧ binds lines i) as H.
  { induction entries as [|[name ol] entries IH]; intros used; simpl.
    { split; [by left|]. by intros [Hu|(n & l & []%elem_of_nil & _)]. }
    rewrite IH. unfold note_entry. simpl. destruct (starts_digit name) eqn:Ed.
    - destruct ol as [lines|].
      + destruct (scan_status false lines) as [h|] eqn:Es.
        * apply scan_status_binds in Es as Hb. setoid_rewrite elem_of_cons.
          split.
          { intros [[->%elem_of_singleton|Hu]%elem_of_union|(n & l & Hin & H)]; [right|by left|right].
            - exists name, lines. auto.
            - exists n, l. auto. }
          intros [Hu|(n & l & [[= -> ->]|Hin] & Hn & Hbi)]; [set_solver| |right; by exists n, l].
          left. apply scan_status_binds in Hbi. rewrite Es in Hbi. injection Hbi as ->. set_solver.
        * setoid_rewrite elem_of_cons. split; [intros [Hu|(n & l & H)]; [by left|right; exists n, l; tauto]|].
          intros [Hu|(n & l & [[= -> ->]|Hin] & Hn & Hbi)]; [by left| |right; by exists n, l].
          apply scan_status_binds in Hbi. congruence.
      + setoid_rewrite elem_of_cons. split; [intros [Hu|(n & l & H)]; [by left|right; exists n, l; tauto]|].
        intros [Hu|(n & l & [[=]|Hin] & H)]; [by left|right; by exists n, l].
    - setoid_rewrite elem_of_cons. split; [intros [Hu|(n & l & H)]; [by left|right; exists n, l; tauto]|].
      intros [Hu|(n & l & [E|Hin] & Hnb)]; [by left|injection E as E _; destruct Hnb; congruence|right; by exists n, l]. }
  rewrite H. split; [|by right]. by intros [[]%elem_of_empty|].
Qed.

(** ** Binding *)

Section Bind.
Context (m : machine) (entries : list (string * option (list string))).
Context (Hproc : proc m = Some entries) (Hn : 2 ≤ nproc_onln m ≤ CPU_SETSIZE).
Context (Haff : ∀ i, 0 ≤ i < nproc_onln m → setaffinity_ok m {[ i ]} = true).
Implicit Types s : NumaBinder.

Definition bound_to (i : Z) (s : NumaBinder) : NumaBinder := mkBinder i {[ i ]} (tonode s).
Definition is_free (i : Z) : bool := (i <? nproc_onln m) && bool_decide (i ∉ cpu_used entries).

Lemma bind_cpu_spec i s : 0 ≤ i < nproc_onln m → bind_cpu m i (nproc_onln m) s = Ret i (bound_to i s).
Proof using Hn Haff.
  intros Hi. unfold bind_cpu. rewrite (proj2 (Z.eqb_neq i _)) by lia.
  assert (CPU_SET i = {[ i ]}) as ->.
  { unfold CPU_SET. by rewrite (proj2 (Z.leb_le 0 i)), (proj2 (Z.ltb_lt i CPU_SETSIZE)) by (unfold CPU_SETSIZE in *; lia). }
  unfold bind, modify. by rewrite Haff.
Qed.

Lemma table_at_in i : 0 ≤ i < nproc_onln m → table_at (cpu_used entries) i = Some (bool_decide (i ∈ cpu_used entries)).
Proof using Hn.
  intros Hi. unfold table_at. rewrite (proj2 (Z.leb_le _ _)), (proj2 (Z.ltb_lt _ _)); [done|..].
  all: unfold cpu_used_len, CPU_SETSIZE in *; lia.
Qed.

(** A core that is asked for. *)
Lemma bind_wish i s :
  0 ≤ i → bind_to_free_cpu m i s = if is_free i then Ret i (bound_to i s) else Ret (-1) s.
Proof using Hproc Hn Haff.
  intros Hi. unfold bind_to_free_cpu, is_free. rewrite (proj2 (Z.ltb_ge _ _)) by lia. rewrite Hproc.
  rewrite (proj2 (Z.eqb_neq i (-1))) by lia. simpl.
  destruct (Z.leb_spec (nproc_onln m) i); destruct (Z.ltb_spec i (nproc_onln m)); try lia; [done|].
  rewrite table_at_in by lia. simpl.
  destruct (decide (i ∈ cpu_used entries)) as [H'|H'].
  - rewrite bool_decide_true, bool_decide_false by naive_solver. done.
  - rewrite bool_decide_false, bool_decide_true by naive_solver. by apply bind_cpu_spec.
Qed.

Lemma first_free_spec ixs stop :
  Forall (λ i, 0 ≤ i < nproc_onln m) ixs →
  first_free (cpu_used entries) ixs stop = Some (default stop (List.find is_free ixs)).
Proof using Hn.
  induction 1 as [|i ixs Hi _ IH]; simpl; [done|]. rewrite table_at_in by done. unfold is_free at 1.
  rewrite (proj2 (Z.ltb_lt _ _)) by lia. simpl.
  destruct (decide (i ∈ cpu_used entries)) as [H'|H'].
  - rewrite bool_decide_true, bool_decide_false by naive_solver. done.
  - rewrite bool_decide_false, bool_decide_true by naive_solver. done.
Qed.

(** Any core. *)
Lemma bind_any s :
  bind_to_free_cpu m (-1) s =
  match List.find is_free (seqZ 0 (nproc_onln m)) with
  | Some i => Ret i (bound_to i s)
  | None => Ret (-1) s
  end.
Proof using Hproc Hn Haff.
  unfold bind_to_free_cpu. rewrite (proj2 (Z.ltb_ge _ _)) by lia. rewrite Hproc. simpl.
  rewrite first_free_spec by (apply Forall_forall; intros i; rewrite elem_of_seqZ; lia).
  destruct (List.find is_free _) as [i|] eqn:E; simpl.
  - apply List.find_some in E as [Hin _]. apply list_elem_of_In, elem_of_seqZ in Hin.
    apply bind_cpu_spec. lia.
  - unfold bind_cpu. by rewrite Z.eqb_refl.
Qed.

(** The core bind_to_node looks for. *)
Definition node_core (tgt_node : Z) (i : Z) : bool := (node_of_cpu m i =? tgt_node) && is_free i.

Lemma bind_loop_spec tgt cpus s :
  Forall (λ i, 0 ≤ i) cpus →
  bind_loop m tgt ((λ cpuid, (cpuid, node_of_cpu m cpuid)) <$> cpus) s =
  match List.find (node_core tgt) cpus with
  | Some i => Ret true (bound_to i s)
  | None => Ret false s
  end.
Proof using Hproc Hn Haff.
  induction 1 as [|i cpus Hi _ IH]; simpl; [done|]. unfold node_core at 1.
  destruct (node_of_cpu m i =? tgt); simpl; [|done]. unfold bind. rewrite bind_wish by done.
  destruct (is_free i); [by rewrite Z.eqb_refl|]. rewrite (proj2 (Z.eqb_neq _ _)) by lia. done.
Qed.

Lemma bind_to_node_find tgt s :
  bind_to_node m tgt s =
  match List.find (node_core tgt) (seqZ 0 (nproc_conf m)) with
  | Some i => Ret tgt (bound_to i s)
  | None => Ret (-1) s
  end.
Proof using Hproc Hn Haff.
  unfold bind_to_node, get_numa_map, bind. rewrite bind_loop_spec.
  - by destruct (List.find _ _).
  - apply Forall_forall. intros i. rewrite elem_of_seqZ. lia.
Qed.
End Bind.

(** The first index of a range that satisfies a test. *)
Lemma find_seqZ (f : Z → bool) n :
  match List.find f (seqZ 0 n) with
  | Some i => 0 ≤ i < n ∧ f i = true ∧ ∀ j, 0 ≤ j < i → f j = false
  | None => ∀ j, 0 ≤ j < n → f j = false
  end.
Proof.
  destruct (List.find f (seqZ 0 n)) as [i|] eqn:E.
  - pose proof (List.find_some _ _ E) as [Hin Hf]. apply list_elem_of_In, elem_of_seqZ in Hin.
    split_and!; [lia..|done|]. intros j Hj.
    destruct (find_split _ _ _ E) as (l1 & l2 & El & Hl1).
    assert (l1 !! Z.to_nat j = Some j) as Hj1.
    { assert (List.length l1 = Z.to_nat i) as Hlen.
      { assert (seqZ 0 n !! List.length l1 = Some i) as Hi by (rewrite El; by apply list_lookup_middle).
        apply lookup_seqZ in Hi. lia. }
      rewrite <-(lookup_app_l l1 (i :: l2)) by lia. rewrite <-El. apply lookup_seqZ. lia. }
    rewrite Forall_lookup in Hl1. by eapply Hl1.
  - intros j Hj. eapply List.find_none; [exact E|]. apply list_elem_of_In, elem_of_seqZ. lia.
Qed.

(** ** Properties *)

(** bind_to_node ends on the lowest core of the node that is online and that no
    process with memory is bound to alone, and returns the node; if there is no such
    core it returns -1 and leaves the affinity as it was. *)
Theorem bind_to_node_takes_lowest_free m entries tgt s :
  proc m = Some entries → 2 ≤ nproc_onln m ≤ CPU_SETSIZE →
  (∀ i, 0 ≤ i < nproc_onln m → setaffinity_ok m {[ i ]} = true) →
  let free i := 0 ≤ i < nproc_conf m ∧ node_of_cpu m i = tgt ∧ i < nproc_onln m
    ∧ ¬ ∃ name lines, (name, Some lines) ∈ entries ∧ starts_digit name = true ∧ binds lines i in
  (∃ i, free i ∧ (∀ j, j < i → ¬ free j)
     ∧ bind_to_node m tgt s = Ret tgt (mkBinder i {[ i ]} (tonode s)))
  ∨ ((∀ i, ¬ free i) ∧ bind_to_node m tgt s = Ret (-1) s).
Proof.
  intros Hp Hn Ha free. rewrite (bind_to_node_find m entries Hp Hn Ha).
  assert (∀ i, 0 ≤ i < nproc_conf m → node_core m entries tgt i = true ↔ free i) as Hfree.
  { intros i Hi. unfold node_core, is_free, free. rewrite !andb_true_iff, Z.eqb_eq, Z.ltb_lt, bool_decide_eq_true.
    rewrite cpu_used_spec. tauto. }
  pose proof (find_seqZ (node_core m entries tgt) (nproc_conf m)) as H.
  destruct (List.find _ _) as [i|].
  - left. destruct H as (Hi & Hc & Hlow). exists i. split; [by apply Hfree|]. split; [|done].
    intros j Hj Hfj. assert (0 ≤ j < i) as Hji by (destruct Hfj as [? _]; lia).
    specialize (Hlow j Hji). apply Hfree in Hfj; [congruence|lia].
  - right. split; [|done]. intros i Hfi. pose proof Hfi as [Hi _]. apply Hfree in Hfi; [|done].
    rewrite H in Hfi; done.
Qed.

(** ** A machine with four cores on two nodes *)

Module DemoNuma.
Definition line_vm : string := vmsize +:+ " 1024 kB".
Definition line_cpu (n : string) : string := cpus_list +:+ n.
Definition m0 : machine :=
  mkMachine 4 4 (λ c, c / 2)
    (Some [("self", None); ("1", Some ["Name: init"; line_vm; line_cpu "0-3"]);
           ("77", Some ["Name: spdk"; line_vm; line_cpu "2"]);
           ("9", Some ["Name: kthread"; line_cpu "0"])])
    0 (λ _, true) (λ _ _, 0x7f0000000000) (λ _ _, 0).
Definition b0 : NumaBinder := mkBinder (-1) {[ 0; 1; 2; 3 ]} [].

Definition entries0 : list (string * option (list string)) := default [] (proc m0).

Lemma bind_to_node_takes_lowest_free_witness :
  ∃ i, 0 ≤ i < 4 ∧ node_of_cpu m0 i = 1 ∧ bind_to_node m0 1 b0 = Ret 1 (mkBinder i {[ i ]} []).
Proof.
  destruct (bind_to_node_takes_lowest_free m0 entries0 1 b0 eq_refl ltac:(vm_compute; split; discriminate)
    (λ _ _, eq_refl)) as [(i & (H1 & H2 & _) & _ & E)|[_ E]].
  - exists i. split; [exact H1|]. split; [exact H2|exact E].
  - exfalso. vm_compute in E. discriminate E.
Defined.

Fact far_node : bind_to_node m0 1 b0 = Ret 1 (mkBinder 3 {[ 3 ]} []).
Proof. vm_compute. reflexivity. Qed.

(** Core 2 is taken; a kernel thread does not count. *)
Fact lowest_free : bind_to_free_cpu m0 (-1) b0 = Ret 0 (mkBinder 0 {[ 0 ]} []).
Proof. vm_compute. reflexivity. Qed.

(** A negative wish other than -1 indexes before the table. *)
Fact negative_wish_traps : bind_to_free_cpu m0 (-2) b0 = Trap b0.
Proof. vm_compute. reflexivity. Qed.

(** After a failed call the object holds a core the thread is not bound to. *)
Fact failed_bind_keeps_core :
  let m := mkMachine 4 4 (node_of_cpu m0) (proc m0) 0 (λ _, false) (mmap_answer m0) (move_status m0) in
  bind_to_free_cpu m 3 b0 = Ret (-1) (mkBinder 3 (affinity b0) []).
Proof. vm_compute. reflexivity. Qed.

(** The mapping lies elsewhere than the range that is placed on the node. *)
Fact placement_of_the_hint :
  mmap_from_node m0 0 4096 1 b0 = Ret 0x7f0000000000 (mkBinder (-1) (affinity b0) [(0, 4096, 1)]).
Proof. reflexivity. Qed.
End DemoNuma.

(** Any range of two pages or more is moved with arrays that are too short; the
    region of the controller is one. *)
Lemma move_range_overruns m addr len node s : 8192 ≤ len → move_range m addr len node s = Trap s.
Proof.
  intros H. unfold move_range. rewrite Z.shiftr_div_pow2 by lia.
  assert (1 < len / 2 ^ 12) as H' by (apply Z.lt_le_trans with (8192 / 2 ^ 12); [done|by apply Z.div_le_mono]).
  by rewrite (proj2 (Z.ltb_lt _ _) H').
Qed.
