(* ===== verification/PfMonitor.v ===== *)
(** * Starting the page fault monitor
      (libcxlfs/pfmonitor.cc, include/libcxlfs/pfmonitor.hh, the end of
       Controller::init and Controller::monitor_thread of libcxlfs/controller.cc)

    Controller::init registers the region with the monitor, starts a thread that
    installs the handler, sleeps for a second and returns.  Nothing else orders the
    thread and the program, so both are processes of a step relation here, and a
    fault is a function of the state it finds.  [Controller] has the handler from
    the point on at which it is served. *)

From stdpp Require Import base list relations.
From Stdlib Require Import ZArith Lia.
From S2P Require Import Prelude.

(** ** The monitor *)

Definition UFFD_API : Z := 0xAA.

(** Answers of the kernel. *)
Record pf_kernel := mkPfKernel {
  userfaultfd : Z;
  ioctl_api : Z;       (* result of the ioctl *)
  api_version : Z;     (* what it leaves in the struct *)
  sigaction_rc : Z;
}.

Record PFMonitor := mkPfm {
  pf_fd : Z;
  tgt_node : Z;
  has_cb : bool; (* the callback is not empty *)
  pf_start : Z;
  pf_len : Z;
}.
Definition new_PFMonitor (start len : Z) : PFMonitor := mkPfm (-1) 0 false start len.

Section Monitor.
Context (k : pf_kernel).

Definition get_pf_fd : Z :=
  if userfaultfd k =? -1 then -1
  else if negb (ioctl_api k =? 0) then -1
  else if negb (api_version k =? UFFD_API) then -1
  else userfaultfd k.

Definition pfm_init (node : Z) : cmd PFMonitor Z := λ m,
  Ret get_pf_fd (mkPfm get_pf_fd node (has_cb m) (pf_start m) (pf_len m)).

Definition register_range (start len : Z) : cmd PFMonitor Z := λ m,
  Ret 0 (mkPfm (pf_fd m) (tgt_node m) (has_cb m) start len).

(** ** The process *)

(** Where the thread of the monitor is: before it runs, at its call of monitor,
    behind [pfm_static = this], behind [sigaction], behind [this->cb = cb]. *)
Inductive thread_pc := NoThread | Starting | Published | Installed | Armed | Gone.
(** Where the program is: in init before the region is registered, before the
    thread is created, in its sleep, behind init. *)
Inductive main_pc := Registering | Creating | Sleeping | Running.

#[export] Instance thread_pc_dec : EqDecision thread_pc.
Proof. solve_decision. Defined.

Record proc := mkProc {
  pfm : PFMonitor;
  pfm_static : bool;      (* not null *)
  handler_set : bool;     (* the action of SIGSEGV *)
  thr_at : thread_pc;
  main_at : main_pc;
  exited : option Z;
}.

(** [monitor] and [monitor_fd_blocking], store by store; the thread ends the process
    when [sigaction] fails. *)
Definition thread_step (s : proc) : proc :=
  match thr_at s with
  | Starting => mkProc (pfm s) true (handler_set s) Published (main_at s) (exited s)
  | Published =>
      if sigaction_rc k =? -1 then mkProc (pfm s) (pfm_static s) false Installed (main_at s) (exited s)
      else mkProc (pfm s) (pfm_static s) true Installed (main_at s) (exited s)
  | Installed =>
      let m := mkPfm (pf_fd (pfm s)) (tgt_node (pfm s)) true (pf_start (pfm s)) (pf_len (pfm s)) in
      if sigaction_rc k =? -1 then mkProc m (pfm_static s) (handler_set s) Gone (main_at s) (Some 1)
      else mkProc m (pfm_static s) (handler_set s) Armed (main_at s) (exited s)
  | _ => s
  end.

(** The steps of init that the thread depends on. *)
Definition main_step (start len : Z) (s : proc) : proc :=
  match main_at s with
  | Registering =>
      mkProc (state_of (register_range start len (pfm s))) (pfm_static s) (handler_set s) (thr_at s) Creating (exited s)
  | Creating => mkProc (pfm s) (pfm_static s) (handler_set s) Starting Sleeping (exited s)
  | Sleeping => mkProc (pfm s) (pfm_static s) (handler_set s) (thr_at s) Running (exited s)
  | Running => s
  end.

Inductive pstep (start len : Z) : proc → proc → Prop :=
| ps_main s : exited s = None → pstep start len s (main_step start len s)
| ps_thread s : exited s = None → pstep start len s (thread_step s).

(** What becomes of a SIGSEGV at [place]. *)
Inductive fault := Killed | NullMonitor | EmptyCallback | ExitOne | Served (page : Z).

Definition sigsegv (s : proc) (place : Z) : fault :=
  if negb (handler_set s) then Killed
  else if negb (pfm_static s) then NullMonitor
  else if (pf_start (pfm s) <=? place) && (place <? pf_start (pfm s) + pf_len (pfm s)) then
    if has_cb (pfm s) then Served (place / 4096 * 4096) else EmptyCallback
  else ExitOne.

Definition proc_init (m : PFMonitor) : proc := mkProc m false false NoThread Registering None.
End Monitor.

(** ** Reachable states *)

Section Reach.
Context (k : pf_kernel) (start len : Z).

Definition before_publish (t : thread_pc) : bool := bool_decide (t = NoThread ∨ t = Starting).
Definition registered (p : main_pc) : bool := match p with Registering => false | _ => true end.
Definition created (p : main_pc) : bool := match p with Registering | Creating => false | _ => true end.

Record proc_ok (s : proc) : Prop := {
  po_static : pfm_static s = negb (before_publish (thr_at s));
  po_handler : handler_set s = bool_decide (thr_at s = Installed ∨ thr_at s = Armed) && negb (sigaction_rc k =? -1);
  po_cb : has_cb (pfm s) = bool_decide (thr_at s = Armed ∨ thr_at s = Gone);
  po_range : registered (main_at s) = true → pf_start (pfm s) = start ∧ pf_len (pfm s) = len;
  po_thread : created (main_at s) = bool_decide (thr_at s ≠ NoThread);
  po_exit : exited s = None → thr_at s ≠ Gone;
  po_armed : thr_at s = Armed → sigaction_rc k ≠ -1;
}.

Lemma proc_init_ok m : has_cb m = false → proc_ok (proc_init m).
Proof. intros Hm. by split. Qed.

Lemma thread_step_ok s : proc_ok s → exited s = None → proc_ok (thread_step k s).
Proof.
  intros [H1 H2 H3 H4 H5 H6 H7] He. destruct s as [m st hs t mp ex]. unfold thread_step. simpl in *.
  destruct t; try (by split); destruct (sigaction_rc k =? -1) eqn:E; split; simpl in *; rewrite ?E; try done; lia.
Qed.

Lemma main_step_ok s : proc_ok s → proc_ok (main_step start len s).
Proof.
  intros [H1 H2 H3 H4 H5 H6 H7]. destruct s as [m st hs t mp ex]. unfold main_step. simpl in *.
  destruct mp; simpl in *.
  - split; simpl; try done.
  - symmetry in H5. apply bool_decide_eq_false, dec_stable in H5. subst t. by split.
  - by split.
  - by split.
Qed.

Lemma pstep_ok s s' : pstep k start len s s' → proc_ok s → proc_ok s'.
Proof. destruct 1; intros; [by apply main_step_ok|by apply thread_step_ok]. Qed.

Lemma startup_reachable_ok m s :
  has_cb m = false → rtc (pstep k start len) (proc_init m) s → proc_ok s.
Proof.
  intros Hm Hr. pattern s. eapply rtc_ind_r; [by apply proc_init_ok| |exact Hr].
  intros x y _ Hxy Hx. by eapply pstep_ok.
Qed.

(** The thread arms the monitor. *)
Lemma thread_arms s :
  proc_ok s → exited s = None → created (main_at s) = true → sigaction_rc k ≠ -1 →
  let s3 := Nat.iter 3 (thread_step k) s in
  proc_ok s3 ∧ thr_at s3 = Armed ∧ main_at s3 = main_at s.
Proof.
  intros Hok He Hc Hk. pose proof Hok as [_ _ _ _ H5 H6 _]. rewrite Hc in H5. symmetry in H5.
  apply bool_decide_eq_true in H5. specialize (H6 He).
  assert ((sigaction_rc k =? -1) = false) as Ek by lia.
  assert (∀ x, exited x = None → exited (thread_step k x) = None) as Hex.
  { intros x Hx. unfold thread_step. rewrite Ek. by destruct (thr_at x). }
  cbn [Nat.iter]. split_and!.
  - do 3 (apply thread_step_ok; [|by auto]). done.
  - unfold thread_step. rewrite Ek. destruct s as [m st hs t mp ex]. simpl in *. by destruct t.
  - unfold thread_step. rewrite Ek. destruct s as [m st hs t mp ex]. simpl in *. by destruct t.
Qed.

(** The outcome of a fault in the region. *)
Lemma sigsegv_ok s place :
  proc_ok s → registered (main_at s) = true → sigaction_rc k ≠ -1 →
  start ≤ place < start + len →
  sigsegv s place = match thr_at s with
                    | Armed => Served (place / 4096 * 4096)
                    | Installed => EmptyCallback
                    | _ => Killed
                    end.
Proof.
  intros [H1 H2 H3 H4 H5 H6 H7] Hr Hk Hp. destruct (H4 Hr) as [E1 E2]. unfold sigsegv.
  rewrite H2, H1, H3, E1, E2. rewrite (proj2 (Z.leb_le _ _)), (proj2 (Z.ltb_lt _ _)), (proj2 (Z.eqb_neq _ _)) by lia.
  by destruct (thr_at s).
Qed.

(** Nothing disarms the monitor. *)
Lemma armed_stays s s' :
  rtc (pstep k start len) s s' → proc_ok s → thr_at s = Armed → thr_at s' = Armed.
Proof.
  induction 1 as [|x y z Hxy Hyz IH]; intros Hok Ht; [done|]. apply IH; [by eapply pstep_ok|].
  destruct Hxy as [x Hx|x Hx].
  - pose proof (po_thread _ Hok) as Hc. rewrite Ht in Hc. unfold main_step. by destruct (main_at x).
  - unfold thread_step. by rewrite Ht.
Qed.
End Reach.

(** C40: Faults while the monitor starts, in every interleaving of the program and
    the thread.  Once init has returned, a fault in the region is served exactly when
    the thread is behind its last store; before, the process is killed, or the
    handler calls an empty callback.  The null monitor is never met.  Three steps of
    the thread are enough, and what follows keeps the monitor armed. *)
Theorem faults_during_startup k start len m s place :
  has_cb m = false → rtc (pstep k start len) (proc_init m) s → main_at s = Running → exited s = None →
  sigaction_rc k ≠ -1 → start ≤ place < start + len →
  sigsegv s place = match thr_at s with
                    | Armed => Served (place / 4096 * 4096)
                    | Installed => EmptyCallback
                    | _ => Killed
                    end
  ∧ sigsegv (Nat.iter 3 (thread_step k) s) place = Served (place / 4096 * 4096)
  ∧ (thr_at s = Armed → ∀ s', rtc (pstep k start len) s s' → thr_at s' = Armed).
Proof.
  intros Hm Hr Hma He Hk Hp. pose proof (startup_reachable_ok k start len m s Hm Hr) as Hok. split_and!.
  - apply (sigsegv_ok k start len); try done. by rewrite Hma.
  - destruct (thread_arms k start len s Hok He) as (Hok3 & Ht3 & Hm3); [by rewrite Hma|done|].
    rewrite (sigsegv_ok k start len), Ht3; try done. by rewrite Hm3, Hma.
  - intros Ht s' Hr'. by eapply armed_stays.
Qed.

(** ** Two interleavings *)

Module DemoPfm.

Definition kern : pf_kernel := mkPfKernel 5 0 UFFD_API 0.
Definition pf : PFMonitor := state_of (pfm_init kern 0 (new_PFMonitor 0 0)).
Definition region : Z := 0x100000.
Definition step_main : proc → proc := main_step region 8192.
Definition step_thread : proc → proc := thread_step kern.

(** The program is back from init, and the thread has published the monitor. *)
Definition early : proc := step_main (step_thread (step_main (step_main (proc_init pf)))).

Lemma early_reachable : rtc (pstep kern region 8192) (proc_init pf) early.
Proof.
  eapply rtc_l; [by apply ps_main|]. eapply rtc_l; [by apply ps_main|]. eapply rtc_l; [by apply ps_thread|].
  eapply rtc_l; [by apply ps_main|]. apply rtc_refl.
Qed.

Lemma faults_during_startup_witness :
  sigsegv early (region + 4100) = Killed
  ∧ sigsegv (Nat.iter 3 step_thread early) (region + 4100) = Served (region + 4096)
  ∧ (thr_at early = Armed → ∀ s', rtc (pstep kern region 8192) early s' → thr_at s' = Armed).
Proof.
  apply (faults_during_startup kern region 8192 pf early (region + 4100));
    [reflexivity|exact early_reachable|reflexivity|reflexivity|discriminate|unfold region; lia].
Defined.

(** Between [sigaction] and the store of the callback, the handler runs without
    one. *)
Theorem handler_without_callback :
  sigsegv (Nat.iter 1 step_thread early) (region + 4100) = EmptyCallback.
Proof. vm_compute. reflexivity. Qed.

(** A descriptor that speaks another version of the protocol is not closed, and the
    controller does not look at the result. *)
Theorem wrong_version_is_minus_one :
  pfm_init (mkPfKernel 5 0 0 0) 1 (new_PFMonitor 0 0) = Ret (-1) (mkPfm (-1) 1 false 0 0).
Proof. reflexivity. Qed.
End DemoPfm.
